(** * NBodySim: the point-vortex simulation core of [NBodySim/main.c]

    A shallow embedding of the distance cache, the periodic-image force
    evaluator, the RK4 integrator and the vortex population manager, with the
    properties their specification states; then the tracer initialisers, the
    diagnostics [minRad] and [maxVelocity] and the steps of the main loop
    that use them, with properties read off the code: invariants of the
    population, conservation laws of the force evaluator and of the
    integrator, and the behaviour at the edges.

    Conventions of the embedding.
    - C [int] and [long] values are mathematical integers ([Z]); integer
      division is C's truncating division ([Z.quot], written [÷]).
      [calculateVortexRadiiIndex_no_overflow] shows that the index arithmetic
      stays inside a 64-bit [long] for every [int] vortex index.
    - C [double] is an abstract type with the operations of [<math.h>] that
      the program uses (class [DoubleOps]).  Structural properties are proved
      for every interpretation; two interpretations are given: IEEE-754
      binary64 ([float], used to run the program on concrete inputs) and the
      real numbers ([R], used where a property is an identity of real
      arithmetic).  Where rounding decides a property (the range of
      [wrapPositions]), it is proved from what it needs of the arithmetic,
      and binary64 is shown to provide it, from the specification of the
      primitive floats.
    - A C array is a list standing for the whole allocated buffer; [rd] and
      [wr] are indexed load and store.  An access outside the buffer is
      undefined behaviour in C: the embedding reads the zero element and drops
      the store, and every theorem states the buffer sizes it needs.
    - Tasks handed to the worker pool run to completion one after the other,
      in submission order; [thpool_wait] is then a no-op. *)

From Stdlib Require Import ZArith Lia Floats Reals Lra.
From stdpp Require Import base tactics list.

Open Scope Z_scope.

(** ** Index calculators *)

Definition calculateVortexRadiiIndex (vortIndex1 vortIndex2 : Z) : Z :=
  if vortIndex1 <? vortIndex2
  then ((vortIndex2 - 1) * vortIndex2 ÷ 2 + vortIndex1) * 3
  else ((vortIndex1 - 1) * vortIndex1 ÷ 2 + vortIndex2) * 3.

(** [numDriverVorts] is a global of the program; it is an explicit argument
    here. *)
Definition calculateTracerRadiiIndex (numDriverVorts : Z)
    (tracerIndex vortIndex : Z) : Z :=
  (tracerIndex * numDriverVorts + vortIndex) * 3.

Definition INT_MAX : Z := 2 ^ 31 - 1.
Definition LONG_MAX : Z := 2 ^ 63 - 1.

(** ** Control flow *)

Section Loops.
Context {S : Type}.

Fixpoint iter_from (n : nat) (i : Z) (body : Z -> S -> S) (s : S) : S :=
  match n with
  | O => s
  | Datatypes.S n' => iter_from n' (i + 1) body (body i s)
  end.

(** [for (i = lo; i < hi; i++) body], for a bound [hi] that the body does
    not change. *)
Definition for_loop (lo hi : Z) (body : Z -> S -> S) (s : S) : S :=
  iter_from (Z.to_nat (hi - lo)) lo body s.
End Loops.

(** ** Arrays *)

(** Indexed load and store on a buffer. *)
Definition rd {A} `{Inhabited A} (a : list A) (i : Z) : A :=
  if i <? 0 then inhabitant else a !!! Z.to_nat i.

Definition wr {A} (a : list A) (i : Z) (v : A) : list A :=
  if i <? 0 then a else <[Z.to_nat i := v]> a.

(** [memmove(&buf[dst], &buf[src], n)] in units of array elements: the [n]
    elements are read before any is written. *)
Definition memmove {A} (buf : list A) (dst src n : Z) : list A :=
  let chunk := take (Z.to_nat n) (drop (Z.to_nat src) buf) in
  take (Z.to_nat dst) buf ++ chunk ++ drop (Z.to_nat dst + length chunk) buf.

(** [memcpy(dst, src, n)] between two distinct buffers, from their starts. *)
Definition memcpy {A} (dst src : list A) (n : Z) : list A :=
  let chunk := take (Z.to_nat n) src in
  chunk ++ drop (length chunk) dst.

(** [malloc] of [n] elements; the contents are indeterminate in C and are
    the default element here. *)
Definition malloc {A} `{Inhabited A} (n : Z) : list A :=
  replicate (Z.to_nat n) inhabitant.

(** [realloc(buf, n)]: the common prefix is kept. *)
Definition realloc {A} `{Inhabited A} (buf : list A) (n : Z) : list A :=
  take (Z.to_nat n) buf ++ replicate (Z.to_nat n - length buf) inhabitant.

(** ** Doubles *)

Class DoubleOps (D : Type) := {
  dadd : D -> D -> D;
  dsub : D -> D -> D;
  dmul : D -> D -> D;
  ddiv : D -> D -> D;
  dneg : D -> D;
  dsqrt : D -> D;                (* sqrt *)
  dfabs : D -> D;                (* fabs *)
  dfmod : D -> D -> D;           (* fmod *)
  dltb : D -> D -> bool;         (* x < y *)
  dZ : Z -> D;                   (* conversion of an integer to double *)
  dtrunc : D -> Z;               (* conversion of a double to an integer type:
                                    truncation toward zero *)
  M_PI : D
}.

Declare Scope dbl_scope.
Delimit Scope dbl_scope with D.
Notation "x + y" := (dadd x y) : dbl_scope.
Notation "x - y" := (dsub x y) : dbl_scope.
Notation "x * y" := (dmul x y) : dbl_scope.
Notation "x / y" := (ddiv x y) : dbl_scope.
Notation "- x" := (dneg x) : dbl_scope.
Notation "x <? y" := (dltb x y) : dbl_scope.
Notation "x >? y" := (dltb y x) : dbl_scope.

Section Doubles.
Context {D : Type} `{DoubleOps D}.

Definition d0 : D := dZ 0.

#[export] Instance double_inhabited : Inhabited D := populate d0.

(** [pow(x, 2)] *)
Definition dsqr (x : D) : D := (x * x)%D.

(** [sqrt(pow(x, 2) + pow(y, 2))] *)
Definition hypotenuse (x y : D) : D := dsqrt (dsqr x + dsqr y)%D.

(** The decimal literals [.1], [.001] and [1.5]: each is the double nearest
    to the quotient. *)
Definition lit_0_1 : D := (dZ 1 / dZ 10)%D.
Definition lit_0_001 : D := (dZ 1 / dZ 1000)%D.
Definition lit_1_5 : D := (dZ 3 / dZ 2)%D.

(** The three stores that write one distance entry: the two components at
    [index + 1] and [index + 2], then at [index] the magnitude of the
    stored components. *)
Definition wr_entry (a : list D) (index : Z) (x y : D) : list D :=
  let a := wr a (index + 1) x in
  let a := wr a (index + 2) y in
  wr a index (hypotenuse (rd a (index + 1)) (rd a (index + 2))).

(** The entry stored at [index] has components [x], [y] and the magnitude
    computed from them. *)
Definition entry_is (a : list D) (index : Z) (x y : D) : Prop :=
  rd a (index + 1) = x /\ rd a (index + 2) = y
  /\ rd a index = dsqrt (dsqr x + dsqr y)%D.
End Doubles.

(** ** Data model *)

(** [struct Vortex] and [struct Tracer] ([main.h]) as [main.c] uses them.
    The two-element buffers [position] and [velocity] are inline fields. *)
Record Vortex (D : Type) := mkVortex {
  position_0 : D;
  position_1 : D;
  velocity_0 : D;
  velocity_1 : D;
  intensity : D;
  vIndex : Z;
  vID : Z;
  initStep : Z
}.
Arguments mkVortex {D}.
Arguments position_0 {D}.
Arguments position_1 {D}.
Arguments velocity_0 {D}.
Arguments velocity_1 {D}.
Arguments intensity {D}.
Arguments vIndex {D}.
Arguments vID {D}.
Arguments initStep {D}.

Record Tracer (D : Type) := mkTracer {
  t_position_0 : D;
  t_position_1 : D;
  t_velocity_0 : D;
  t_velocity_1 : D;
  tIndex : Z
}.
Arguments mkTracer {D}.
Arguments t_position_0 {D}.
Arguments t_position_1 {D}.
Arguments t_velocity_0 {D}.
Arguments t_velocity_1 {D}.
Arguments tIndex {D}.

(** The configuration constants of [constants.h] that the core reads. *)
Record Constants (D : Type) := mkConstants {
  DOMAIN_SIZE_X : D;
  DOMAIN_SIZE_Y : D;
  NUM_TRACERS : Z;
  THREADCOUNT : Z;
  TEST_CASE : Z;
  VORTEX_MERGE_RADIUS : D;
  VORTEX_INTENSITY_SIGMA : D
}.
Arguments mkConstants {D}.
Arguments DOMAIN_SIZE_X {D}.
Arguments DOMAIN_SIZE_Y {D}.
Arguments NUM_TRACERS {D}.
Arguments THREADCOUNT {D}.
Arguments TEST_CASE {D}.
Arguments VORTEX_MERGE_RADIUS {D}.
Arguments VORTEX_INTENSITY_SIGMA {D}.

Section Bodies.
Context {D : Type} `{DoubleOps D}.

#[export] Instance vortex_inhabited : Inhabited (Vortex D) :=
  populate (mkVortex d0 d0 d0 d0 d0 0 0 0).
#[export] Instance tracer_inhabited : Inhabited (Tracer D) :=
  populate (mkTracer d0 d0 d0 d0 0).

Definition set_position (v : Vortex D) (x y : D) : Vortex D :=
  mkVortex x y (velocity_0 v) (velocity_1 v) (intensity v)
           (vIndex v) (vID v) (initStep v).
Definition set_velocity (v : Vortex D) (x y : D) : Vortex D :=
  mkVortex (position_0 v) (position_1 v) x y (intensity v)
           (vIndex v) (vID v) (initStep v).
Definition set_intensity (v : Vortex D) (g : D) : Vortex D :=
  mkVortex (position_0 v) (position_1 v) (velocity_0 v) (velocity_1 v) g
           (vIndex v) (vID v) (initStep v).
Definition set_vIndex (v : Vortex D) (i : Z) : Vortex D :=
  mkVortex (position_0 v) (position_1 v) (velocity_0 v) (velocity_1 v)
           (intensity v) i (vID v) (initStep v).
Definition set_vID (v : Vortex D) (i : Z) : Vortex D :=
  mkVortex (position_0 v) (position_1 v) (velocity_0 v) (velocity_1 v)
           (intensity v) (vIndex v) i (initStep v).
Definition set_initStep (v : Vortex D) (i : Z) : Vortex D :=
  mkVortex (position_0 v) (position_1 v) (velocity_0 v) (velocity_1 v)
           (intensity v) (vIndex v) (vID v) i.

Definition set_t_position (t : Tracer D) (x y : D) : Tracer D :=
  mkTracer x y (t_velocity_0 t) (t_velocity_1 t) (tIndex t).
Definition set_t_velocity (t : Tracer D) (x y : D) : Tracer D :=
  mkTracer (t_position_0 t) (t_position_1 t) x y (tIndex t).
End Bodies.

(** ** Distance cache *)

Section DistanceCache.
Context {D : Type} `{DoubleOps D}.

(** One entry of a radii array: magnitude at [index], components at
    [index + 1] and [index + 2]. *)
Definition updateRadii_pythagorean (numDriverVorts : Z)
    (vortexRadii : list D) (vortices : list (Vortex D))
    (tracerRadii : list D) (tracers : list (Tracer D)) (numTracers : Z)
    : list D * list D :=
  let vortexRadii :=
    for_loop 0 numDriverVorts (fun i vortexRadii =>
      for_loop 0 i (fun j vortexRadii =>
        let index := calculateVortexRadiiIndex (vIndex (rd vortices i))
                                               (vIndex (rd vortices j)) in
        let vortexRadii :=
          wr vortexRadii (index + 1)
             (position_0 (rd vortices i) - position_0 (rd vortices j))%D in
        let vortexRadii :=
          wr vortexRadii (index + 2)
             (position_1 (rd vortices i) - position_1 (rd vortices j))%D in
        wr vortexRadii index
           (hypotenuse (rd vortexRadii (index + 1))
                       (rd vortexRadii (index + 2))))
        vortexRadii)
      vortexRadii in
  let tracerRadii :=
    for_loop 0 numTracers (fun tracerIndex tracerRadii =>
      let tracer := rd tracers tracerIndex in
      for_loop 0 numDriverVorts (fun vortIndex tracerRadii =>
        let vort := rd vortices vortIndex in
        let index :=
          calculateTracerRadiiIndex numDriverVorts tracerIndex vortIndex in
        let tracerRadii :=
          wr tracerRadii (index + 1)
             (position_0 vort - t_position_0 tracer)%D in
        let tracerRadii :=
          wr tracerRadii (index + 2)
             (position_1 vort - t_position_1 tracer)%D in
        wr tracerRadii index
           (hypotenuse (rd tracerRadii (index + 1))
                       (rd tracerRadii (index + 2))))
        tracerRadii)
      tracerRadii in
  (vortexRadii, tracerRadii).
End DistanceCache.

(** ** Force evaluator *)

Definition domains : Z := 8.

Section ForceEvaluator.
Context {D : Type} `{DoubleOps D}.
Variable K : Constants D.

Definition velocityFunc (vortex2Intensity radius : D) : D :=
  (vortex2Intensity / (dZ 2 * M_PI * radius))%D.

(** The [switch (domain)] of both evaluators: the separation vector to the
    periodic image in neighbouring domain [domain].
<<
    1 2 3
    4 0 5
    6 7 8
>> *)
Definition domainOffset (domain : Z) (xRad yRad : D) : D * D :=
  match domain with
  | 1 => (xRad - DOMAIN_SIZE_X K, yRad + DOMAIN_SIZE_Y K)
  | 2 => (xRad, yRad + DOMAIN_SIZE_Y K)
  | 3 => (xRad + DOMAIN_SIZE_X K, yRad + DOMAIN_SIZE_Y K)
  | 4 => (xRad - DOMAIN_SIZE_X K, yRad)
  | 5 => (xRad + DOMAIN_SIZE_X K, yRad)
  | 6 => (xRad - DOMAIN_SIZE_X K, yRad - DOMAIN_SIZE_Y K)
  | 7 => (xRad, yRad - DOMAIN_SIZE_Y K)
  | 8 => (xRad + DOMAIN_SIZE_X K, yRad - DOMAIN_SIZE_Y K)
  | _ => (xRad, yRad)
  end%D.

(** [vel] is the pair [( *xVel, *yVel )] that the caller passes by
    reference. *)
Definition calculateVel_vortex (numDriverVorts : Z) (vel : D * D)
    (vort : Vortex D) (vortices : list (Vortex D)) (rads : list D)
    : D * D :=
  for_loop 0 numDriverVorts (fun j vel =>
    if vIndex vort =? j then vel else
    let radiiIndex :=
      calculateVortexRadiiIndex (vIndex vort) (vIndex (rd vortices j)) in
    for_loop 0 (domains + 1) (fun domain vel =>
      let xRad := if vIndex vort <? vIndex (rd vortices j)
                  then rd rads (radiiIndex + 1)
                  else (- rd rads (radiiIndex + 1))%D in
      let yRad := if vIndex vort <? vIndex (rd vortices j)
                  then rd rads (radiiIndex + 2)
                  else (- rd rads (radiiIndex + 2))%D in
      let '(xRad, yRad, rad) :=
        if negb (domain =? 0)
        then let '(xRad, yRad) := domainOffset domain xRad yRad in
             (xRad, yRad, hypotenuse xRad yRad)
        else (xRad, yRad, rd rads radiiIndex) in
      if (rad >? DOMAIN_SIZE_X K)%D then vel else
      let vmag := velocityFunc (intensity (rd vortices j)) rad in
      (fst vel + (yRad / rad) * vmag, snd vel + (- xRad / rad) * vmag)%D)
      vel)
    vel.

Definition calculateVel_tracer (numDriverVorts : Z) (vel : D * D)
    (tracerIndex : Z) (rads : list D) (vortices : list (Vortex D))
    : D * D :=
  for_loop 0 numDriverVorts (fun vortIndex vel =>
    let intRadIndex :=
      calculateTracerRadiiIndex numDriverVorts tracerIndex vortIndex in
    for_loop 0 (domains + 1) (fun domain vel =>
      let xRad := rd rads (intRadIndex + 1) in
      let yRad := rd rads (intRadIndex + 2) in
      let '(xRad, yRad, rad) :=
        if negb (domain =? 0)
        then let '(xRad, yRad) := domainOffset domain xRad yRad in
             (xRad, yRad, hypotenuse xRad yRad)
        else (xRad, yRad, rd rads intRadIndex) in
      if (rad >? DOMAIN_SIZE_X K)%D
         || ((TEST_CASE K =? 6) && (rad <? lit_0_1)%D)
      then vel else
      let vmag := velocityFunc (intensity (rd vortices vortIndex)) rad in
      (fst vel + (yRad / rad) * vmag, snd vel + (- xRad / rad) * vmag)%D)
      vel)
    vel.
End ForceEvaluator.

(** ** The force evaluator, as its specification words it *)

Section ForceSpec.
Context {D : Type} `{DoubleOps D}.
Variable K : Constants D.

(** The separation vector and distance to the periodic image [domain] of a
    source whose stored separation is [(dx, dy)] with cached magnitude [r]:
    the primary image uses the cached magnitude, the eight others the
    magnitude of the adjusted vector. *)
Definition imageSeparation (domain : Z) (dx dy r : D) : D * D * D :=
  if domain =? 0 then (dx, dy, r)
  else let '(x, y) := domainOffset K domain dx dy in (x, y, hypotenuse x y).

(** [vmag = intensity / (2 pi r)] along the tangential direction
    [(dy / r, - dx / r)]. *)
Definition imageContribution (strength : D) (sep : D * D * D) : D * D :=
  let '(dx, dy, r) := sep in
  let vmag := (strength / (dZ 2 * M_PI * r))%D in
  ((dy / r) * vmag, (- dx / r) * vmag)%D.

(** Domain truncation alone. *)
Definition truncated_far (r : D) : bool := (r >? DOMAIN_SIZE_X K)%D.

(** Domain truncation, and the small-radius truncation of the degenerate
    test configuration. *)
Definition truncated_far_or_near (r : D) : bool :=
  (r >? DOMAIN_SIZE_X K)%D || ((TEST_CASE K =? 6) && (r <? lit_0_1)%D).

Definition addImage (truncated : D -> bool) (strength dx dy r : D)
    (vel : D * D) (domain : Z) : D * D :=
  let sep := imageSeparation domain dx dy r in
  if truncated (snd sep) then vel
  else let c := imageContribution strength sep in
       (fst vel + fst c, snd vel + snd c)%D.

(** The velocity induced on vortex [vort]: over every source vortex other
    than itself and each of the nine images, the contributions that the rule
    [truncated] retains.  The stored vector points from the lower to the
    higher index and is negated when [vort] has the higher one. *)
Definition inducedVelocity_vortex (truncated : D -> bool)
    (numDriverVorts : Z) (vel : D * D) (vort : Vortex D)
    (vortices : list (Vortex D)) (rads : list D) : D * D :=
  foldl (fun vel j =>
           let source := rd vortices j in
           let index := calculateVortexRadiiIndex (vIndex vort)
                                                  (vIndex source) in
           let lower := vIndex vort <? vIndex source in
           let dx := if lower then rd rads (index + 1)
                     else (- rd rads (index + 1))%D in
           let dy := if lower then rd rads (index + 2)
                     else (- rd rads (index + 2))%D in
           foldl (addImage truncated (intensity source) dx dy (rd rads index))
                 vel (seqZ 0 9))
        vel
        (filter (fun j => j <> vIndex vort) (seqZ 0 numDriverVorts)).

(** The velocity induced on tracer [tracerIndex]: over every vortex and
    each of the nine images. *)
Definition inducedVelocity_tracer (truncated : D -> bool)
    (numDriverVorts : Z) (vel : D * D) (tracerIndex : Z) (rads : list D)
    (vortices : list (Vortex D)) : D * D :=
  foldl (fun vel j =>
           let index :=
             calculateTracerRadiiIndex numDriverVorts tracerIndex j in
           foldl (addImage truncated (intensity (rd vortices j))
                           (rd rads (index + 1)) (rd rads (index + 2))
                           (rd rads index))
                 vel (seqZ 0 9))
        vel (seqZ 0 numDriverVorts).
End ForceSpec.

(** ** RK4 integrator *)

(** The arrays [stepForward_RK4] works on: the four it is passed and the three
    scratch tables it allocates. *)
Record RKMem (D : Type) := mkRKMem {
  rk_vortices : list (Vortex D);
  rk_vortRadii : list D;
  rk_tracerRadii : list D;
  rk_tracers : list (Tracer D);
  rk_workingRadii : list D;
  rk_intermediateRadii : list D;
  rk_intermediateTracerRads : list D
}.
Arguments mkRKMem {D}.
Arguments rk_vortices {D}.
Arguments rk_vortRadii {D}.
Arguments rk_tracerRadii {D}.
Arguments rk_tracers {D}.
Arguments rk_workingRadii {D}.
Arguments rk_intermediateRadii {D}.
Arguments rk_intermediateTracerRads {D}.

(** [struct TracerArgs]: the three pointers into the middle of an array are
    the offset of the first element of the piece. [vortices] points to the
    whole vortex array. *)
Record TracerArgs := mkTracerArgs {
  ta_RKStep : Z;
  ta_tracers : Z;
  ta_numTracers : Z;
  ta_tracerRadii : Z;
  ta_intermediateTracerRads : Z
}.

(** [struct VortexArgs]: its pointers are all to whole arrays of [RKMem]. *)
Record VortexArgs := mkVortexArgs {
  va_RKStep : Z;
  va_originVortIndex : Z;
  va_vortRadLen : Z;
  va_numTracers : Z
}.

Section RK4.
Context {D : Type} `{DoubleOps D}.
Variable K : Constants D.
Variable numDriverVorts : Z.
Variable timestep : D.

Definition set_rk_vortices (m : RKMem D) (v : list (Vortex D)) : RKMem D :=
  mkRKMem v (rk_vortRadii m) (rk_tracerRadii m) (rk_tracers m)
          (rk_workingRadii m) (rk_intermediateRadii m)
          (rk_intermediateTracerRads m).
Definition set_rk_tracerRadii (m : RKMem D) (a : list D) : RKMem D :=
  mkRKMem (rk_vortices m) (rk_vortRadii m) a (rk_tracers m)
          (rk_workingRadii m) (rk_intermediateRadii m)
          (rk_intermediateTracerRads m).
Definition set_rk_tracers (m : RKMem D) (t : list (Tracer D)) : RKMem D :=
  mkRKMem (rk_vortices m) (rk_vortRadii m) (rk_tracerRadii m) t
          (rk_workingRadii m) (rk_intermediateRadii m)
          (rk_intermediateTracerRads m).
Definition set_rk_workingRadii (m : RKMem D) (a : list D) : RKMem D :=
  mkRKMem (rk_vortices m) (rk_vortRadii m) (rk_tracerRadii m) (rk_tracers m)
          a (rk_intermediateRadii m) (rk_intermediateTracerRads m).
Definition set_rk_intermediateRadii (m : RKMem D) (a : list D) : RKMem D :=
  mkRKMem (rk_vortices m) (rk_vortRadii m) (rk_tracerRadii m) (rk_tracers m)
          (rk_workingRadii m) a (rk_intermediateTracerRads m).
Definition set_rk_intermediateTracerRads (m : RKMem D) (a : list D)
    : RKMem D :=
  mkRKMem (rk_vortices m) (rk_vortRadii m) (rk_tracerRadii m) (rk_tracers m)
          (rk_workingRadii m) (rk_intermediateRadii m) a.

(** The [switch (RKStep)] of [stepForwardTracerRK4], for one component:
    the samples [(k1, k2, k3, k4)], all initialised to 0, and the velocity
    used to displace the distances. *)
Definition tracerStageSwitch (RKStep : Z) (vel : D) : (D * D * D * D) * D :=
  match RKStep with
  | 1 => ((d0 + vel, d0, d0, d0), vel / dZ 2)
  | 2 => ((d0, d0 + vel, d0, d0), vel / dZ 2)
  | 3 => ((d0, d0, d0 + vel, d0), vel)
  | 4 => ((d0, d0, d0, d0 + vel), vel)
  | _ => ((d0, d0, d0, d0), vel)
  end%D.

(** The [switch (RKStep)] of [stepForwardVortexRK4], for one component. *)
Definition vortexStageSwitch (RKStep : Z) (vel : D) : (D * D * D * D) * D :=
  match RKStep with
  | 1 => ((vel, d0, d0, d0), vel / dZ 2)
  | 2 => ((d0, vel, d0, d0), vel / dZ 2)
  | 3 => ((d0, d0, vel, d0), vel)
  | 4 => ((d0, d0, d0, vel), vel)
  | _ => ((d0, d0, d0, d0), vel)
  end%D.

(** [(k1 + k2 * 2 + k3 * 2 + k4)/6] *)
Definition rkWeightedSum (k : D * D * D * D) : D :=
  let '(k1, k2, k3, k4) := k in
  ((k1 + k2 * dZ 2 + k3 * dZ 2 + k4) / dZ 6)%D.

Definition stepForwardTracerRK4 (args : TracerArgs) (m : RKMem D)
    : RKMem D :=
  for_loop 0 (ta_numTracers args) (fun tracerIndex m =>
    let tracer := rd (rk_tracers m) (ta_tracers args + tracerIndex) in
    let offsetTracerIndex :=
      tIndex tracer - tIndex (rd (rk_tracers m) (ta_tracers args)) in
    let '(xVel, yVel) :=
      calculateVel_tracer K numDriverVorts (d0, d0) offsetTracerIndex
        (drop (Z.to_nat (ta_intermediateTracerRads args))
              (rk_intermediateTracerRads m))
        (rk_vortices m) in
    let '(kx, xVel) := tracerStageSwitch (ta_RKStep args) xVel in
    let '(ky, yVel) := tracerStageSwitch (ta_RKStep args) yVel in
    let src := ta_tracerRadii args in
    let dst := ta_intermediateTracerRads args in
    let intermediateTracerRads :=
      for_loop 0 numDriverVorts (fun vortexIndex intermediateTracerRads =>
        let radIndex :=
          calculateTracerRadiiIndex numDriverVorts offsetTracerIndex
                                    vortexIndex in
        let intermediateTracerRads :=
          wr intermediateTracerRads (dst + (radIndex + 1))
             (rd (rk_tracerRadii m) (src + (radIndex + 1))
              - xVel * timestep)%D in
        let intermediateTracerRads :=
          wr intermediateTracerRads (dst + (radIndex + 2))
             (rd (rk_tracerRadii m) (src + (radIndex + 2))
              - yVel * timestep)%D in
        wr intermediateTracerRads (dst + radIndex)
           (hypotenuse (rd intermediateTracerRads (dst + (radIndex + 1)))
                       (rd intermediateTracerRads (dst + (radIndex + 2)))))
        (rk_intermediateTracerRads m) in
    let tracer :=
      set_t_velocity tracer
        (t_velocity_0 tracer + rkWeightedSum kx)%D
        (t_velocity_1 tracer + rkWeightedSum ky)%D in
    set_rk_tracers
      (set_rk_intermediateTracerRads m intermediateTracerRads)
      (wr (rk_tracers m) (ta_tracers args + tracerIndex) tracer))
    m.

(** Each compare-and-swap loop, run to completion on its own, is one
    read-modify-write.  The [SAVE_RK_STEPS] block only fills the scratch
    [intPositionCache] for the persistence collaborator and is left out. *)
Definition stepForwardVortexRK4 (args : VortexArgs) (m : RKMem D)
    : RKMem D :=
  let vortices := rk_vortices m in
  let originVortIndex := va_originVortIndex args in
  let vort := rd vortices originVortIndex in
  let vortIndex := vIndex vort in
  let '(xVel, yVel) :=
    calculateVel_vortex K numDriverVorts (d0, d0) vort vortices
                        (rk_intermediateRadii m) in
  let '(kx, xVel) := vortexStageSwitch (va_RKStep args) xVel in
  let '(ky, yVel) := vortexStageSwitch (va_RKStep args) yVel in
  let workingRadii :=
    for_loop 0 numDriverVorts (fun j workingRadii =>
      if originVortIndex =? j then workingRadii else
      let radiiIndex :=
        calculateVortexRadiiIndex vortIndex (vIndex (rd vortices j)) in
      let addVals := vIndex vort >? vIndex (rd vortices j) in
      let oldXRad := rd workingRadii (radiiIndex + 1) in
      let newXRad := if addVals then (oldXRad + xVel * timestep)%D
                     else (oldXRad - xVel * timestep)%D in
      let workingRadii := wr workingRadii (radiiIndex + 1) newXRad in
      let oldYRad := rd workingRadii (radiiIndex + 2) in
      let newYRad := if addVals then (oldYRad + xVel * timestep)%D
                     else (oldYRad - xVel * timestep)%D in
      let workingRadii := wr workingRadii (radiiIndex + 2) newYRad in
      let newXRad := rd workingRadii (radiiIndex + 1) in
      let newYRad := rd workingRadii (radiiIndex + 2) in
      let newRadMag := hypotenuse newXRad newYRad in
      wr workingRadii radiiIndex newRadMag)
      (rk_workingRadii m) in
  let intermediateTracerRads :=
    for_loop 0 (va_numTracers args) (fun tracerI intermediateTracerRads =>
      let index :=
        calculateTracerRadiiIndex numDriverVorts tracerI originVortIndex in
      let intermediateTracerRads :=
        wr intermediateTracerRads (index + 1)
           (rd intermediateTracerRads (index + 1) + xVel * timestep)%D in
      let intermediateTracerRads :=
        wr intermediateTracerRads (index + 2)
           (rd intermediateTracerRads (index + 2) + yVel * timestep)%D in
      wr intermediateTracerRads index
         (hypotenuse (rd intermediateTracerRads (index + 1))
                     (rd intermediateTracerRads (index + 2))))
      (rk_intermediateTracerRads m) in
  let vort :=
    set_velocity vort
      (velocity_0 vort + rkWeightedSum kx)%D
      (velocity_1 vort + rkWeightedSum ky)%D in
  set_rk_vortices
    (set_rk_intermediateTracerRads
       (set_rk_workingRadii m workingRadii) intermediateTracerRads)
    (wr vortices originVortIndex vort).

(** The tracer half of one stage: the tracers are split in [THREADCOUNT]
    contiguous pieces, the last one taking the remainder, or are processed
    as one piece when there is a single thread. *)
Definition tracerPhase (RKStep : Z) (m : RKMem D) : RKMem D :=
  let tracersPerThread := NUM_TRACERS K ÷ THREADCOUNT K in
  if 1 <? THREADCOUNT K then
    for_loop 0 (THREADCOUNT K) (fun thread m =>
      let tracerArrayPiece := thread * tracersPerThread in
      let radPieceStartIndex :=
        calculateTracerRadiiIndex numDriverVorts
          (tIndex (rd (rk_tracers m) tracerArrayPiece)) 0 in
      let tracersPerThread :=
        if thread =? THREADCOUNT K - 1
        then tracersPerThread + Z.rem (NUM_TRACERS K) (THREADCOUNT K)
        else tracersPerThread in
      stepForwardTracerRK4
        (mkTracerArgs RKStep tracerArrayPiece tracersPerThread
                      radPieceStartIndex radPieceStartIndex) m)
      m
  else
    stepForwardTracerRK4 (mkTracerArgs RKStep 0 tracersPerThread 0 0) m.

Definition vortexPhase (RKStep vortRadLen : Z) (m : RKMem D) : RKMem D :=
  for_loop 0 numDriverVorts (fun originVortIndex m =>
    stepForwardVortexRK4
      (mkVortexArgs RKStep originVortIndex vortRadLen (NUM_TRACERS K)) m)
    m.

(** One iteration of the [RKStep] loop. *)
Definition rkStage (vortRadLen : Z) (RKStep : Z) (m : RKMem D) : RKMem D :=
  let vortRadSize := vortRadLen * 3 in
  let m := tracerPhase RKStep m in
  let m := vortexPhase RKStep vortRadLen m in
  let m := set_rk_intermediateRadii m
             (memcpy (rk_intermediateRadii m) (rk_workingRadii m)
                     vortRadSize) in
  set_rk_workingRadii m
    (memcpy (rk_workingRadii m) (rk_vortRadii m) vortRadSize).

(** The allocation of the scratch tables and the zeroing of the
    velocities. *)
Definition rkInit (vortRadLen : Z) (vortices : list (Vortex D))
    (vortRadii tracerRadii : list D) (tracers : list (Tracer D))
    (numTracers : Z) : RKMem D :=
  let vortRadSize := vortRadLen * 3 in
  let workingRadii := memcpy (malloc vortRadSize) vortRadii vortRadSize in
  let intermediateRadii :=
    memcpy (malloc vortRadSize) vortRadii vortRadSize in
  let tracerRadLen := numDriverVorts * numTracers in
  let tracerRadSize := tracerRadLen * 3 in
  let intermediateTracerRads :=
    memcpy (malloc tracerRadSize) tracerRadii tracerRadSize in
  let m := mkRKMem vortices vortRadii tracerRadii tracers
                   workingRadii intermediateRadii intermediateTracerRads in
  let m :=
    for_loop 0 numDriverVorts (fun i m =>
      set_rk_vortices m
        (wr (rk_vortices m) i (set_velocity (rd (rk_vortices m) i) d0 d0)))
      m in
  for_loop 0 numTracers (fun i m =>
    set_rk_tracers m
      (wr (rk_tracers m) i (set_t_velocity (rd (rk_tracers m) i) d0 d0)))
    m.

(** The position update and the copy-back of the tracer table that end
    [stepForward_RK4]. *)
Definition rkCommit (numTracers : Z) (m : RKMem D) : RKMem D :=
  let tracerRadSize := numDriverVorts * numTracers * 3 in
  let m :=
    for_loop 0 numDriverVorts (fun i m =>
      let vort := rd (rk_vortices m) i in
      set_rk_vortices m
        (wr (rk_vortices m) i
            (set_position vort
               (position_0 vort + velocity_0 vort * timestep)%D
               (position_1 vort + velocity_1 vort * timestep)%D)))
      m in
  let m :=
    for_loop 0 numTracers (fun i m =>
      let tracer := rd (rk_tracers m) i in
      set_rk_tracers m
        (wr (rk_tracers m) i
            (set_t_position tracer
               (t_position_0 tracer + t_velocity_0 tracer * timestep)%D
               (t_position_1 tracer + t_velocity_1 tracer * timestep)%D)))
      m in
  set_rk_tracerRadii m
    (memcpy (rk_tracerRadii m) (rk_intermediateTracerRads m) tracerRadSize).

(** [(pow(numDriverVorts, 2) - numDriverVorts)/2], computed in double and
    converted to [long]. *)
Definition vortRadLen_of : Z :=
  dtrunc ((dsqr (dZ numDriverVorts) - dZ numDriverVorts) / dZ 2)%D.

(** The memory after the four stages, before the commit. *)
Definition rkStages (vortices : list (Vortex D))
    (vortRadii tracerRadii : list D) (tracers : list (Tracer D))
    (numTracers : Z) : RKMem D :=
  let vortRadLen := vortRadLen_of in
  for_loop 1 5 (rkStage vortRadLen)
    (rkInit vortRadLen vortices vortRadii tracerRadii tracers numTracers).

(** The result is the memory when the scratch tables are about to be
    freed. *)
Definition stepForward_RK4 (vortices : list (Vortex D))
    (vortRadii tracerRadii : list D) (tracers : list (Tracer D))
    (numTracers : Z) : RKMem D :=
  rkCommit numTracers
    (rkStages vortices vortRadii tracerRadii tracers numTracers).
End RK4.

(** ** What the integrator leaves alone *)

Section RKViews.
Context {D : Type} `{DoubleOps D}.
Variable K : Constants D.
Variable numDriverVorts : Z.
Variable timestep : D.

(** Every field of a vortex but its velocity, and every field but its
    velocity and position. *)
Definition vortex_fixed (v : Vortex D) : D * D * D * Z * Z * Z :=
  (position_0 v, position_1 v, intensity v, vIndex v, vID v, initStep v).

Definition vortex_static (v : Vortex D) : D * Z * Z * Z :=
  (intensity v, vIndex v, vID v, initStep v).

Definition tracer_fixed (t : Tracer D) : D * D * Z :=
  (t_position_0 t, t_position_1 t, tIndex t).

(** [m'] differs from [m] at most in the velocities and in the three scratch
    tables. *)
Definition rk_frame (m m' : RKMem D) : Prop :=
  rk_vortRadii m' = rk_vortRadii m
  /\ rk_tracerRadii m' = rk_tracerRadii m
  /\ vortex_fixed <$> rk_vortices m' = vortex_fixed <$> rk_vortices m
  /\ tracer_fixed <$> rk_tracers m' = tracer_fixed <$> rk_tracers m.

(** The velocity sample of vortex [i] and of tracer [t] in memory [m]: what
    the force evaluator returns from the intermediate tables. *)
Definition vortexSample (m : RKMem D) (i : Z) : D * D :=
  calculateVel_vortex K numDriverVorts (d0, d0) (rd (rk_vortices m) i)
                      (rk_vortices m) (rk_intermediateRadii m).

Definition tracerSample (m : RKMem D) (t : Z) : D * D :=
  calculateVel_tracer K numDriverVorts (d0, d0) t
                      (rk_intermediateTracerRads m) (rk_vortices m).

(** One iteration of the loop of [stepForwardTracerRK4], for the tracer at
    position [t] of the whole tracer array, with the rows of the whole
    tables. *)
Definition tracerStep (RKStep : Z) (t : Z) (m : RKMem D) : RKMem D :=
  let tracer := rd (rk_tracers m) t in
  let '(xVel, yVel) := tracerSample m t in
  let '(kx, xVel) := tracerStageSwitch RKStep xVel in
  let '(ky, yVel) := tracerStageSwitch RKStep yVel in
  let intermediateTracerRads :=
    for_loop 0 numDriverVorts (fun vortexIndex intermediateTracerRads =>
      let radIndex :=
        calculateTracerRadiiIndex numDriverVorts t vortexIndex in
      wr_entry intermediateTracerRads radIndex
        (rd (rk_tracerRadii m) (radIndex + 1) - xVel * timestep)%D
        (rd (rk_tracerRadii m) (radIndex + 2) - yVel * timestep)%D)
      (rk_intermediateTracerRads m) in
  let tracer :=
    set_t_velocity tracer
      (t_velocity_0 tracer + rkWeightedSum kx)%D
      (t_velocity_1 tracer + rkWeightedSum ky)%D in
  set_rk_tracers
    (set_rk_intermediateTracerRads m intermediateTracerRads)
    (wr (rk_tracers m) t tracer).
End RKViews.

(** ** Population manager *)

(** The state the vortex life-cycle functions change: the globals
    [numDriverVorts] and [nextVortID], the hidden state of the random-number
    collaborator, and the buffers behind [vorts], [vortexRadii] and
    [tracerRads]. *)
Record Pop (D G : Type) := mkPop {
  numDriverVorts : Z;
  nextVortID : Z;
  rngState : G;
  vorts : list (Vortex D);
  vortsAllocated : Z;
  vortexRadii : list D;
  tracerRads : list D
}.
Arguments mkPop {D G}.
Arguments numDriverVorts {D G}.
Arguments nextVortID {D G}.
Arguments rngState {D G}.
Arguments vorts {D G}.
Arguments vortsAllocated {D G}.
Arguments vortexRadii {D G}.
Arguments tracerRads {D G}.

(** The random-number collaborator ([RNG.h]): each draw returns the number
    and the generator's next state. *)
Class RNGOps (D G : Type) := {
  generateUniformRandInRange : D -> D -> G -> D * G;
  generateNormalRand : D -> G -> D * G
}.

(** The loop state of [mergeVorts]; [ms_totalMerges] is [None] for a null
    [totalMerges] pointer. *)
Record MergeState (D G : Type) := mkMergeState {
  ms_pop : Pop D G;
  ms_spawnsLeft : Z;
  ms_merges : Z;
  ms_totalMerges : option Z
}.
Arguments mkMergeState {D G}.
Arguments ms_pop {D G}.
Arguments ms_spawnsLeft {D G}.
Arguments ms_merges {D G}.
Arguments ms_totalMerges {D G}.

Section PopulationManager.
Context {D : Type} `{DoubleOps D}.
Context {G : Type} `{RNGOps D G}.
Variable K : Constants D.
Variable currentTimestep : Z.

Definition set_numDriverVorts (p : Pop D G) (n : Z) : Pop D G :=
  mkPop n (nextVortID p) (rngState p) (vorts p) (vortsAllocated p)
        (vortexRadii p) (tracerRads p).
Definition set_vorts (p : Pop D G) (v : list (Vortex D)) : Pop D G :=
  mkPop (numDriverVorts p) (nextVortID p) (rngState p) v (vortsAllocated p)
        (vortexRadii p) (tracerRads p).
Definition set_radii (p : Pop D G) (vr tr : list D) : Pop D G :=
  mkPop (numDriverVorts p) (nextVortID p) (rngState p) (vorts p)
        (vortsAllocated p) vr tr.

(** [vort] is the position in [vorts] of the vortex that the C pointer
    designates. *)
Definition deleteVortex (vort : Z) (p : Pop D G) : Pop D G :=
  let deletionIndex := vIndex (rd (vorts p) vort) in
  let numDriverVorts0 := numDriverVorts p in
  let vortexRads :=
    for_loop deletionIndex (numDriverVorts0 - 1) (fun rowIndex vortexRads =>
      let destPtr := calculateVortexRadiiIndex 0 rowIndex in
      let sourcePtr := calculateVortexRadiiIndex 0 (rowIndex + 1) in
      let vortexRads :=
        memmove vortexRads destPtr sourcePtr (deletionIndex * 3) in
      let destPtr :=
        if rowIndex =? numDriverVorts0 - 2
        then calculateVortexRadiiIndex deletionIndex rowIndex
        else destPtr in
      let sourcePtr :=
        calculateVortexRadiiIndex (deletionIndex + 1) (rowIndex + 1) in
      memmove vortexRads destPtr sourcePtr
              ((rowIndex - deletionIndex) * 3))
      (vortexRadii p) in
  let tracerRads :=
    for_loop 0 (NUM_TRACERS K) (fun tracerI tracerRads =>
      let tRadDelIndex :=
        calculateTracerRadiiIndex numDriverVorts0 tracerI deletionIndex in
      memmove tracerRads tRadDelIndex (tRadDelIndex + 1)
              ((numDriverVorts0 - deletionIndex) * 3))
      (tracerRads p) in
  let vorts :=
    memmove (vorts p) deletionIndex (deletionIndex + 1)
            (numDriverVorts0 - deletionIndex - 1) in
  let numDriverVorts := numDriverVorts0 - 1 in
  let vorts :=
    for_loop deletionIndex numDriverVorts (fun i vorts =>
      wr vorts i (set_vIndex (rd vorts i) (vIndex (rd vorts i) - 1)))
      vorts in
  mkPop numDriverVorts (nextVortID p) (rngState p) vorts (vortsAllocated p)
        vortexRads tracerRads.

(** The [do ... while (fabs(vort->intensity) < minIntensity)] loop of
    [randomizeVortex]; [None] when [fuel] draws did not produce an accepted
    one. *)
Fixpoint randomizeVortex_resample (fuel : nat) (g : G) : option (D * G) :=
  match fuel with
  | O => None
  | S fuel' =>
      let '(intensity, g) :=
        generateNormalRand (VORTEX_INTENSITY_SIGMA K) g in
      if (dfabs intensity <? lit_0_001)%D
      then randomizeVortex_resample fuel' g
      else Some (intensity, g)
  end.

Definition randomizeVortex (fuel : nat) (vort : Z) (p : Pop D G)
    : option (Pop D G) :=
  let v := set_vID (rd (vorts p) vort) (nextVortID p) in
  let nextVortID := nextVortID p + 1 in
  let '(x, g) :=
    generateUniformRandInRange (dZ 0) (DOMAIN_SIZE_X K) (rngState p) in
  let '(y, g) := generateUniformRandInRange (dZ 0) (DOMAIN_SIZE_Y K) g in
  let v := set_position v x y in
  let '(intensity, g) := generateNormalRand (VORTEX_INTENSITY_SIGMA K) g in
  let v := set_intensity v intensity in
  '(intensity, g) ← randomizeVortex_resample fuel g;
  let v := set_intensity v intensity in
  let v := set_velocity v d0 d0 in
  let v := set_initStep v currentTimestep in
  Some (mkPop (numDriverVorts p) nextVortID g (wr (vorts p) vort v)
              (vortsAllocated p) (vortexRadii p) (tracerRads p)).

Definition mergeIntensities (int1 int2 : D) : D :=
  let sign1 := dtrunc (int1 / dfabs int1)%D in
  let sign2 := dtrunc (int2 / dfabs int2)%D in
  let newInt :=
    dsqrt (dfabs (dZ sign1 * dsqr int1 + dZ sign2 * dsqr int2))%D in
  if (int1 + int2 >? dZ 0)%D then newInt else (- newInt)%D.

Definition spawnVortex (fuel : nat) (p : Pop D G) : option (Pop D G) :=
  let spawnIndex := numDriverVorts p in
  let p := set_numDriverVorts p (numDriverVorts p + 1) in
  let vort := set_vIndex (rd (vorts p) spawnIndex) spawnIndex in
  let vort := set_velocity vort d0 d0 in
  randomizeVortex fuel spawnIndex
    (set_vorts p (wr (vorts p) spawnIndex vort)).

(** [while (spawnsLeft--) spawnVortex( *vorts )], for [spawnsLeft >= 0]. *)
Fixpoint spawnVorts_loop (fuel : nat) (spawnsLeft : nat) (p : Pop D G)
    : option (Pop D G) :=
  match spawnsLeft with
  | O => Some p
  | S spawnsLeft' =>
      p ← spawnVortex fuel p; spawnVorts_loop fuel spawnsLeft' p
  end.

Definition spawnVorts (fuel : nat) (numVortsToSpawn : Z) (p : Pop D G)
    : option (Pop D G) :=
  let spawnsLeft := numVortsToSpawn in
  let p :=
    if numDriverVorts p + spawnsLeft >=? vortsAllocated p then
      let vortsAllocated :=
        dtrunc (dZ (numDriverVorts p + spawnsLeft) * lit_1_5)%D in
      let vorts := realloc (vorts p) vortsAllocated in
      let newVortRadiiLen := (vortsAllocated * (vortsAllocated - 1)) ÷ 2 in
      let vortexRadii := realloc (vortexRadii p) (newVortRadiiLen * 3) in
      let newTracerRadiiLen := vortsAllocated * NUM_TRACERS K in
      let tracerRads := realloc (tracerRads p) (newTracerRadiiLen * 3) in
      mkPop (numDriverVorts p) (nextVortID p) (rngState p) vorts
            vortsAllocated vortexRadii tracerRads
    else p in
  spawnVorts_loop fuel (Z.to_nat spawnsLeft) p.

(** The block of [mergeVorts] that runs when the cached distance of the
    pair is below the merge radius, up to the [break]. *)
Definition mergeVorts_merge (fuel : nat) (tracers : list (Tracer D))
    (vortIndex1 vortIndex2 : Z) (s : MergeState D G)
    : option (MergeState D G) :=
  let p := ms_pop s in
  let merges := ms_merges s + 1 in
  let vort1 := rd (vorts p) vortIndex1 in
  let vort2 := rd (vorts p) vortIndex2 in
  let totalMerges := (fun n => n + 1) <$> ms_totalMerges s in
  let absInt1 := dfabs (intensity vort1) in
  let absInt2 := dfabs (intensity vort2) in
  let newXPos :=
    ((position_0 vort1 * absInt1 + position_0 vort2 * absInt2)
     / (absInt1 + absInt2))%D in
  let newYPos :=
    ((position_1 vort1 * absInt1 + position_1 vort2 * absInt2)
     / (absInt1 + absInt2))%D in
  let newIntensity := mergeIntensities (intensity vort1) (intensity vort2) in
  let vort1 := set_intensity (set_position vort1 newXPos newYPos)
                             newIntensity in
  let p := set_vorts p (wr (vorts p) vortIndex1 vort1) in
  '(p, spawnsLeft) ←
    (if negb (ms_spawnsLeft s =? 0)
     then p ← randomizeVortex fuel vortIndex2 p;
          Some (p, ms_spawnsLeft s - 1)
     else Some (deleteVortex vortIndex2 p, ms_spawnsLeft s));
  let '(vortexRadii, tracerRads) :=
    updateRadii_pythagorean (numDriverVorts p) (vortexRadii p) (vorts p)
                            (tracerRads p) tracers (NUM_TRACERS K) in
  Some (mkMergeState (set_radii p vortexRadii tracerRads)
                     spawnsLeft merges totalMerges).

(** The inner [for] of [mergeVorts], with [n] iterations left. *)
Fixpoint mergeVorts_row (fuel : nat) (tracers : list (Tracer D)) (n : nat)
    (vortIndex1 vortIndex2 : Z) (s : MergeState D G)
    : option (MergeState D G) :=
  match n with
  | O => Some s
  | S n' =>
      let radIndex := calculateVortexRadiiIndex vortIndex1 vortIndex2 in
      if (rd (vortexRadii (ms_pop s)) radIndex <? VORTEX_MERGE_RADIUS K)%D
      then mergeVorts_merge fuel tracers vortIndex1 vortIndex2 s
      else mergeVorts_row fuel tracers n' (vortIndex1 + 1) vortIndex2 s
  end.

(** The outer [for] of [mergeVorts]; its bound [numDriverVorts] is read
    again at every iteration.  [None] when [steps] iterations were not
    enough. *)
Fixpoint mergeVorts_sweep (fuel : nat) (tracers : list (Tracer D))
    (steps : nat) (vortIndex2 : Z) (s : MergeState D G)
    : option (MergeState D G) :=
  match steps with
  | O => None
  | S steps' =>
      if vortIndex2 <? numDriverVorts (ms_pop s) then
        s ← mergeVorts_row fuel tracers (Z.to_nat vortIndex2) 0 vortIndex2 s;
        mergeVorts_sweep fuel tracers steps' (vortIndex2 + 1) s
      else Some s
  end.

(** The [do ... while (merges > 0)] loop. *)
Fixpoint mergeVorts_passes (fuel : nat) (tracers : list (Tracer D))
    (passes : nat) (s : MergeState D G) : option (MergeState D G) :=
  match passes with
  | O => None
  | S passes' =>
      let s := mkMergeState (ms_pop s) (ms_spawnsLeft s) 0
                            (ms_totalMerges s) in
      s ← mergeVorts_sweep fuel tracers fuel 1 s;
      if 0 <? ms_merges s
      then mergeVorts_passes fuel tracers passes' s
      else Some s
  end.

(** The result is the population, the returned [spawnsLeft] and the new
    value of [*totalMerges]. *)
Definition mergeVorts (fuel : nat) (tracers : list (Tracer D))
    (spawnsLeft : Z) (totalMerges : option Z) (p : Pop D G)
    : option (Pop D G * Z * option Z) :=
  s ← mergeVorts_passes fuel tracers fuel
        (mkMergeState p spawnsLeft 0 totalMerges);
  Some (ms_pop s, ms_spawnsLeft s, ms_totalMerges s).
End PopulationManager.

(** A generator on a counter: a uniform draw is the middle of the range, and
    the normal draws are alternately 0 and [sigma]. *)
#[export] Instance alternating_RNG {D : Type} `{DoubleOps D} : RNGOps D nat := {|
  generateUniformRandInRange lo hi n := (((lo + hi) / dZ 2)%D, S n);
  generateNormalRand sigma n := (if Nat.even n then dZ 0 else sigma, S n)
|}.

(** ** Domain wrap *)

Section Wrap.
Context {D : Type} `{DoubleOps D}.
Variable K : Constants D.

(** The [if ... else if ...] that [wrapPositions] applies to each
    coordinate. *)
Definition wrapCoordinate (size p : D) : D :=
  if (p <? dZ 0)%D then (size + dfmod p size)%D
  else if (p >? size)%D then dfmod p size
  else p.

Definition wrapPositions (numDriverVorts : Z) (vorts : list (Vortex D))
    (tracers : list (Tracer D)) (numTracers : Z)
    : list (Vortex D) * list (Tracer D) :=
  let vorts :=
    for_loop 0 numDriverVorts (fun i vorts =>
      let v := rd vorts i in
      wr vorts i
         (set_position v
            (wrapCoordinate (DOMAIN_SIZE_X K) (position_0 v))
            (wrapCoordinate (DOMAIN_SIZE_Y K) (position_1 v))))
      vorts in
  let tracers :=
    for_loop 0 numTracers (fun i tracers =>
      let t := rd tracers i in
      wr tracers i
         (set_t_position t
            (wrapCoordinate (DOMAIN_SIZE_X K) (t_position_0 t))
            (wrapCoordinate (DOMAIN_SIZE_Y K) (t_position_1 t))))
      tracers in
  (vorts, tracers).
End Wrap.

(** ** The two interpretations of [double] *)

(** *** Real numbers *)

Definition Rltb (x y : R) : bool := if Rlt_dec x y then true else false.

(** Truncation toward zero. *)
Definition Rtrunc (x : R) : Z :=
  if Rle_dec 0 x then Int_part x else - Int_part (- x).

(** [fmod(x, y)]: [x - n * y] for [n] the quotient [x / y] truncated toward
    zero. *)
Definition Rfmod (x y : R) : R := (x - IZR (Rtrunc (x / y)) * y)%R.

#[export] Instance R_DoubleOps : DoubleOps R := {|
  dadd := Rplus;
  dsub := Rminus;
  dmul := Rmult;
  ddiv := Rdiv;
  dneg := Ropp;
  dsqrt := R_sqrt.sqrt;
  dfabs := Rabs;
  dfmod := Rfmod;
  dltb := Rltb;
  dZ := IZR;
  dtrunc := Rtrunc;
  M_PI := PI
|}.

(** The sign of a real number. *)
Definition Rsign (x : R) : R :=
  if Rlt_dec 0 x then 1%R else if Rlt_dec x 0 then (-1)%R else 0%R.

(** *** IEEE-754 binary64 *)

Definition float_of_Z (z : Z) : float :=
  match z with
  | Z0 => 0%float
  | Zpos _ => PrimFloat.of_uint63 (Uint63.of_Z z)
  | Zneg p => PrimFloat.opp (PrimFloat.of_uint63 (Uint63.of_Z (Zpos p)))
  end.

Definition float_trunc (x : float) : Z :=
  match Prim2SF x with
  | S754_finite s m e =>
      let a := if 0 <=? e then Zpos m * 2 ^ e else Zpos m / 2 ^ (- e) in
      if s then - a else a
  | _ => 0
  end.

(** [fmod] is exact: the remainder of the two mantissas at their common
    exponent, with the sign of [x]. *)
Definition float_fmod (x y : float) : float :=
  match Prim2SF x, Prim2SF y with
  | S754_finite sx mx ex, S754_finite _ my ey =>
      let e := Z.min ex ey in
      match (Zpos mx * 2 ^ (ex - e)) mod (Zpos my * 2 ^ (ey - e)) with
      | Zpos r => SF2Prim (S754_finite sx r e)
      | _ => SF2Prim (S754_zero sx)
      end
  | S754_zero _, S754_finite _ _ _ => x
  | S754_zero _, S754_infinity _ => x
  | S754_finite _ _ _, S754_infinity _ => x
  | _, _ => PrimFloat.nan
  end.

(** The exact value of a finite double, in units of [2^-1074] (the least
    positive double): an integer. *)
Definition spec_units (x : spec_float) : option Z :=
  match x with
  | S754_zero _ => Some 0
  | S754_finite s m e =>
      Some ((if s then Zneg m else Zpos m) * 2 ^ (e + 1074))
  | _ => None
  end.

Definition float_units (x : float) : option Z := spec_units (Prim2SF x).

(** The same value as a real number. *)
Definition float_val (x : float) : option R := IZR <$> float_units x.

(** The lost bits of a right shift: a record is inexact when one of its two
    flags is set; [k] right shifts divide the mantissa by [2^k] and make the
    record inexact when a non-zero bit was shifted out. *)
Definition inexact (mrs : shr_record) : bool := shr_r mrs || shr_s mrs.

Definition shifted (k : Z) (mrs mrs' : shr_record) : Prop :=
  shr_m mrs' = shr_m mrs / 2 ^ k
  /\ inexact mrs' = inexact mrs || negb (shr_m mrs mod 2 ^ k =? 0).

(** The outcome of a rounding to binary64, from the rounded mantissa [m2]
    at the canonical exponent [c]. *)
Definition rounded (s : bool) (m2 c : Z) : spec_float :=
  if m2 =? 0 then S754_zero s
  else if m2 <? 2 ^ 53
       then if c <=? 971 then S754_finite s (Z.to_pos m2) c
            else S754_infinity s
       else if c + 1 <=? 971
            then S754_finite s (Z.to_pos (2 ^ 52)) (c + 1)
            else S754_infinity s.

#[export] Instance float_DoubleOps : DoubleOps float := {|
  dadd := PrimFloat.add;
  dsub := PrimFloat.sub;
  dmul := PrimFloat.mul;
  ddiv := PrimFloat.div;
  dneg := PrimFloat.opp;
  dsqrt := PrimFloat.sqrt;
  dfabs := PrimFloat.abs;
  dfmod := float_fmod;
  dltb := PrimFloat.ltb;
  dZ := float_of_Z;
  dtrunc := float_trunc;
  M_PI := 0x1.921fb54442d18p+1%float
|}.

(** ** Concrete inputs *)

(** A 10 x 10 domain with two tracers, one thread and no test case. *)
Definition K0 : Constants float :=
  mkConstants 10%float 10%float 2 1 0 0.5%float 1%float.

Definition vortex_at (x y strength : float) (i : Z) : Vortex float :=
  mkVortex x y 0%float 0%float strength i i 0.

Definition tracer_at (x y : float) (i : Z) : Tracer float :=
  mkTracer x y 0%float 0%float i.

(** Five vortices in a buffer allocated for six. *)
Definition five_vortices : list (Vortex float) :=
  [vortex_at 1 1 1 0; vortex_at 3 1 1 1; vortex_at 5 2 (-1) 2;
   vortex_at 7 4 1 3; vortex_at 9 9 2 4; vortex_at 0 0 0 0]%float.

(** A distance entry that names its pair: [(1ab, 2ab, 3ab)] for the vortex
    pair [(a, b)], and [(1tv, 2tv, 3tv)] + 1000 for tracer [t] and vortex
    [v]. *)
Definition pair_entry (a b : Z) : list float :=
  [float_of_Z (100 + 10 * a + b); float_of_Z (200 + 10 * a + b);
   float_of_Z (300 + 10 * a + b)].

Definition tracer_entry (t v : Z) : list float :=
  [float_of_Z (1100 + 10 * t + v); float_of_Z (1200 + 10 * t + v);
   float_of_Z (1300 + 10 * t + v)].

(** The triangular table of [n] vortices, row by row. *)
Definition labelled_vortex_table (n : Z) : list float :=
  flat_map (fun b => flat_map (fun a => pair_entry a b) (seqZ 0 b))
           (seqZ 1 (n - 1)).

(** The rectangular table of [m] tracers and [n] vortices. *)
Definition labelled_tracer_table (m n : Z) : list float :=
  flat_map (fun t => flat_map (fun v => tracer_entry t v) (seqZ 0 n))
           (seqZ 0 m).

Definition two_tracers : list (Tracer float) :=
  [tracer_at 2 2 0; tracer_at 6 6 1]%float.

(** Two vortices of strength 1 at (2,5) and (3,7), no tracers, with their
    distance table, in the memory of an RK4 step of size 0.5. *)
Definition K1 : Constants float :=
  mkConstants 10%float 10%float 0 1 0 0.5%float 1%float.

Definition vortex_pair : list (Vortex float) :=
  [vortex_at 2 5 1 0; vortex_at 3 7 1 1]%float.

Definition vortex_pair_radii : list float :=
  [PrimFloat.sqrt 5; 1; 2]%float.

Definition vortex_pair_mem : RKMem float :=
  mkRKMem vortex_pair vortex_pair_radii [] []
          vortex_pair_radii vortex_pair_radii [].

(** The degenerate test configuration ([TEST_CASE] 6, one tracer), with two
    vortices of strength 1 whose cached separation is (0.0625, 0), closer
    than 0.1. *)
Definition K6 : Constants float :=
  mkConstants 10%float 10%float 1 1 6 0.03125%float 1%float.

Definition close_pair : list (Vortex float) :=
  [vortex_at 5 5 1 0; vortex_at 5.0625 5 1 1]%float.

Definition close_pair_radii : list float := [0.0625; 0.0625; 0]%float.

(** A 10 x 10 domain over the reals, and a vortex on its right edge. *)
Definition KR : Constants R :=
  mkConstants 10%R 10%R 0 1 0 (1 / 2)%R 1%R.

Definition edge_vortex : list (Vortex R) :=
  [mkVortex 10%R 5%R 0%R 0%R 1%R 0 0 0].

(** In doubles: vortices and a tracer outside the domain of [K0], on its
    upper edge, and so little below 0 that the wrap rounds. *)
Definition stray_vortices : list (Vortex float) :=
  [vortex_at 23 (-4) 1 0; vortex_at (-0x1p-60) 10 1 1;
   vortex_at 3.5 (-20) 1 2]%float.

Definition stray_tracers : list (Tracer float) :=
  [tracer_at (-17) 31 0; tracer_at 0x1.4000000000001p+3 0x1p-1074 1]%float.

(** The same population with the distances of its positions in the
    tables. *)
Definition five_vortex_distances : Pop float unit :=
  let radii :=
    updateRadii_pythagorean 5 (replicate 45 0%float) five_vortices
                            (replicate 36 0%float) two_tracers 2 in
  mkPop 5 5 tt five_vortices 6 (fst radii) (snd radii).

(** Three vortices in buffers allocated for six, with the alternating
    generator. *)
Definition three_vortex_population : Pop float nat :=
  mkPop 3 3 0%nat five_vortices 6
        (labelled_vortex_table 6) (labelled_tracer_table 2 6).

(** Over the reals: a 10 x 10 domain with one tracer and one thread, two
    vortices and the tracer, with tables of zeros. *)
Definition KR1 : Constants R :=
  mkConstants 10%R 10%R 1 1 0 (1 / 2)%R 1%R.

Definition real_pair : list (Vortex R) :=
  [mkVortex 2%R 5%R 0%R 0%R 1%R 0 0 0; mkVortex 3%R 7%R 0%R 0%R 1%R 1 1 0].

Definition real_tracer : list (Tracer R) := [mkTracer 4%R 4%R 0%R 0%R 0].

(** Two vortices of strengths 1 and -3 at distance 1/4, below the merge
    radius 1/2 of [KR], with their cached distance entry and no spawn left. *)
Definition merging_pair : MergeState R nat :=
  mkMergeState
    (mkPop 2 2 0%nat
           [mkVortex 1%R 1%R 0%R 0%R 1%R 0 0 0;
            mkVortex (5 / 4)%R 1%R 0%R 0%R (-3)%R 1 1 0]
           2 [(1 / 4)%R; (1 / 4)%R; 0%R] [])
    0 0 (Some 0).

(** The index before a deletion at [d] of the vortex that has index [i]
    after it. *)
Definition survivor (d i : Z) : Z := if i <? d then i else i + 1.

(** The tables that the labelled tables of [n] vortices and [m] tracers
    become when every surviving pair keeps its entry. *)
Definition surviving_vortex_table (n d : Z) : list float :=
  flat_map (fun b =>
              flat_map (fun a => pair_entry (survivor d a) (survivor d b))
                       (seqZ 0 b))
           (seqZ 1 (n - 2)).

Definition surviving_tracer_table (m n d : Z) : list float :=
  flat_map (fun t =>
              flat_map (fun v => tracer_entry t (survivor d v))
                       (seqZ 0 (n - 1)))
           (seqZ 0 m).

(** Five vortices and two tracers, with tables allocated for six vortices. *)
Definition five_vortex_population : Pop float unit :=
  mkPop 5 5 tt five_vortices 6
        (labelled_vortex_table 5 ++ replicate 15 0%float)
        (labelled_tracer_table 2 5 ++ replicate 6 0%float).

(** A vortex and a tracer that have left the 10 x 10 domain of [KR]. *)
Definition far_vortex : list (Vortex R) :=
  [mkVortex 23%R (-4)%R 1%R 2%R 1%R 0 7 3].

Definition far_tracer : list (Tracer R) :=
  [mkTracer (-17)%R 31%R 1%R 0%R 0].

(** One vortex in buffers allocated for one, over the reals, with the
    alternating generator. *)
Definition lone_vortex_population : Pop R nat :=
  mkPop 1 1 0%nat [mkVortex 2%R 5%R 0%R 0%R 1%R 0 0 0] 1 [] [].

(** Three vortices, the first two closer than the merge radius 0.5 of
    [K0], in buffers allocated for four, with the distances of their
    positions in the tables and the alternating generator. *)
Definition merging_vortices : list (Vortex float) :=
  [vortex_at 1 1 1 0; vortex_at 1.25 1 (-3) 1; vortex_at 8 8 1 2;
   vortex_at 0 0 0 0]%float.

Definition merging_population : Pop float nat :=
  let radii :=
    updateRadii_pythagorean 3 (replicate 18 0%float) merging_vortices
                            (replicate 24 0%float) two_tracers 2 in
  mkPop 3 3 0%nat merging_vortices 4 (fst radii) (snd radii).

(** The two vortices of [real_pair] in buffers allocated for three, with
    tables of zeros. *)
Definition real_pair_population : Pop R unit :=
  mkPop 2 2 tt (real_pair ++ [mkVortex 0%R 0%R 0%R 0%R 0%R 0 0 0]) 3
        (replicate 9 0%R) (replicate 9 0%R).

(** ** Initialisers and diagnostics *)

(** The comparisons [==] and [<=] of doubles, which only the initialisers
    use. *)
Class DoubleCmp (D : Type) := {
  deqb : D -> D -> bool;
  dleb : D -> D -> bool
}.

#[export] Instance R_DoubleCmp : DoubleCmp R := {|
  deqb x y := if Req_dec_T x y then true else false;
  dleb x y := if Rle_dec x y then true else false
|}.

#[export] Instance float_DoubleCmp : DoubleCmp float := {|
  deqb := PrimFloat.eqb;
  dleb := PrimFloat.leb
|}.

(** [for (i = lo; i < hi; i += step) body], for a positive [step]. *)
Definition for_loop_by {S : Type} (step lo hi : Z) (body : Z -> S -> S)
    (s : S) : S :=
  for_loop 0 ((hi - lo + step - 1) / step) (fun k => body (lo + step * k)) s.

Section Diagnostics.
Context {D : Type} `{DoubleOps D}.

Definition minRad (radArr : list D) (numVorts : Z) : D :=
  if numVorts =? 0 then dZ 0 else
  let radLen :=
    dtrunc ((dsqr (dZ numVorts) - dZ numVorts) / dZ 2 * dZ 3)%D in
  for_loop_by 3 0 radLen (fun i min =>
    if (rd radArr i <? min)%D then rd radArr i else min)
    (rd radArr 0).

Definition maxVelocity (numDriverVorts : Z) (vorts : list (Vortex D)) : D :=
  for_loop 0 numDriverVorts (fun i maxV =>
    let vort := rd vorts i in
    let totalV := hypotenuse (velocity_0 vort) (velocity_1 vort) in
    if (totalV >? maxV)%D then totalV else maxV)
    (dZ 0).
End Diagnostics.

Section Initializers.
Context {D : Type} `{DoubleOps D} `{DoubleCmp D}.
Variable K : Constants D.

(** The inner [for (col = 1; col <= sqrt(n); col++)] of
    [initialize_tracers], with the array and the running index [i]; [None]
    when [fuel] iterations were not enough. *)
Fixpoint initialize_tracers_cols (fuel : nat) (n : Z)
    (seperationX seperationY : D) (row col : Z)
    (st : list (Tracer D) * Z) : option (list (Tracer D) * Z) :=
  match fuel with
  | O => None
  | S fuel' =>
      if dleb (dZ col) (dsqrt (dZ n)) then
        let '(tracers, i) := st in
        let tracer :=
          mkTracer (dZ col * seperationX)%D (dZ row * seperationY)%D
                   d0 d0 i in
        initialize_tracers_cols fuel' n seperationX seperationY row (col + 1)
                                (wr tracers i tracer, i + 1)
      else Some st
  end.

(** The outer [for (row = 1; row <= sqrt(n); row++)]. *)
Fixpoint initialize_tracers_rows (fuel steps : nat) (n : Z)
    (seperationX seperationY : D) (row : Z)
    (st : list (Tracer D) * Z) : option (list (Tracer D) * Z) :=
  match steps with
  | O => None
  | S steps' =>
      if dleb (dZ row) (dsqrt (dZ n)) then
        st ← initialize_tracers_cols fuel n seperationX seperationY row 1 st;
        initialize_tracers_rows fuel steps' n seperationX seperationY
                                (row + 1) st
      else Some st
  end.

(** [None] is the failed [assert], or a loop that [fuel] iterations did not
    finish. *)
Definition initialize_tracers (fuel : nat) (tracers : list (Tracer D))
    (n : Z) : option (list (Tracer D)) :=
  let seperationX := (DOMAIN_SIZE_X K / (dsqrt (dZ n) + dZ 1))%D in
  let seperationY := (DOMAIN_SIZE_Y K / (dsqrt (dZ n) + dZ 1))%D in
  if negb (deqb (dsqrt (dZ n)) (dZ (dtrunc (dsqrt (dZ n))))) then None else
  st ← initialize_tracers_rows fuel fuel n seperationX seperationY 1
         (tracers, 0);
  Some (fst st).

(** The decimal literal [.5]. *)
Definition lit_0_5 : D := (dZ 1 / dZ 2)%D.

(** The time step that the main loop computes under [TEST_CASE == 4], from
    the least distance and the greatest speed. *)
Definition main_test4_timestep (TIMESTEP_CONST : D) (numDriverVorts : Z)
    (vortexRadii : list D) (vortices : list (Vortex D)) : D :=
  let minR := minRad vortexRadii numDriverVorts in
  let maxV := maxVelocity numDriverVorts vortices in
  let timestep := (minR / maxV * lit_0_5)%D in
  if (timestep >? TIMESTEP_CONST)%D || deqb maxV (dZ 0)
  then TIMESTEP_CONST else timestep.

Definition initialize_single_test_tracer (fuel : nat)
    (tracers : list (Tracer D)) (numTracers : Z) (vorts : list (Vortex D))
    : option (list (Tracer D)) :=
  if negb (numTracers =? 1) then None else
  tracers ← initialize_tracers fuel tracers numTracers;
  Some (wr tracers 0
           (set_t_position (rd tracers 0) (position_0 (rd vorts 0))
                           (position_1 (rd vorts 0)))).
End Initializers.

(** ** One iteration of the main loop *)

Section MainLoop.
Context {D : Type} `{DoubleOps D}.
Context {G : Type} `{RNGOps D G}.
Variable K : Constants D.
Variable currentTimestep : Z.

(** The block under [if (VORTEX_LIFECYCLE)], for the number of spawns that
    [calcSpawnCount] returned: merge, spawn what the merges have not used,
    recompute the tables, merge again.  The result is the population and
    [totalMergeCount]; the two [printf] are left out. *)
Definition main_lifecycle (fuel : nat) (tracers : list (Tracer D))
    (numSpawns : Z) (p : Pop D G) : option (Pop D G * option Z) :=
  let totalMergeCount := Some 0 in
  '(p, spawnsLeft, totalMergeCount) ←
    mergeVorts K currentTimestep fuel tracers numSpawns totalMergeCount p;
  p ← spawnVorts K currentTimestep fuel spawnsLeft p;
  let '(vortexRadii, tracerRads) :=
    updateRadii_pythagorean (numDriverVorts p) (vortexRadii p) (vorts p)
                            (tracerRads p) tracers (NUM_TRACERS K) in
  let p := set_radii p vortexRadii tracerRads in
  '(p, _, totalMergeCount) ←
    mergeVorts K currentTimestep fuel tracers 0 totalMergeCount p;
  Some (p, totalMergeCount).

(** The three calls that advance the simulation: the RK4 step, the wrap of
    the positions and the recomputation of the tables.  The result is the
    population and the tracers. *)
Definition main_advance (timestep : D) (tracers : list (Tracer D))
    (p : Pop D G) : Pop D G * list (Tracer D) :=
  let m :=
    stepForward_RK4 K (numDriverVorts p) timestep (vorts p) (vortexRadii p)
                    (tracerRads p) tracers (NUM_TRACERS K) in
  let '(vortices, tracers) :=
    wrapPositions K (numDriverVorts p) (rk_vortices m) (rk_tracers m)
                  (NUM_TRACERS K) in
  let '(vortexRadii, tracerRadii) :=
    updateRadii_pythagorean (numDriverVorts p) (rk_vortRadii m) vortices
                            (rk_tracerRadii m) tracers (NUM_TRACERS K) in
  (mkPop (numDriverVorts p) (nextVortID p) (rngState p) vortices
         (vortsAllocated p) vortexRadii tracerRadii,
   tracers).
End MainLoop.

(** ** Sums over the vortices *)

(** The velocity that one source induces through its nine images, under
    the rule [truncated_far]. *)
Definition pairVelocity {D : Type} `{DoubleOps D} (K : Constants D)
    (strength dx dy r : D) : D * D :=
  foldl (addImage K (truncated_far K) strength dx dy r) (d0, d0) (seqZ 0 9).

(** What the vortex at index [j] induces on the one at index [i], with the
    separation read from [rads] the way [calculateVel_vortex] reads it. *)
Definition induced {D : Type} `{DoubleOps D} (K : Constants D)
    (vortices : list (Vortex D)) (rads : list D) (i j : Z) : D * D :=
  let radiiIndex := calculateVortexRadiiIndex i j in
  let xRad := if i <? j then rd rads (radiiIndex + 1)
              else (- rd rads (radiiIndex + 1))%D in
  let yRad := if i <? j then rd rads (radiiIndex + 2)
              else (- rd rads (radiiIndex + 2))%D in
  pairVelocity K (intensity (rd vortices j)) xRad yRad (rd rads radiiIndex).

(** [f 0 + ... + f (n - 1)] *)
Fixpoint Rsum (f : Z -> R) (n : nat) : R :=
  match n with
  | O => 0%R
  | S n' => (Rsum f n' + f (Z.of_nat n'))%R
  end.

(** ** Views of the integrator's memory *)

(** What the vortex tasks read and write, the tracer table apart. *)
Definition vortex_side {D : Type} (m : RKMem D)
    : list (Vortex D) * list D * list D * list D :=
  (rk_vortices m, rk_vortRadii m, rk_workingRadii m, rk_intermediateRadii m).

(** The configuration [K] with another number of threads. *)
Definition set_THREADCOUNT {D : Type} (K : Constants D) (n : Z)
    : Constants D :=
  mkConstants (DOMAIN_SIZE_X K) (DOMAIN_SIZE_Y K) (NUM_TRACERS K) n
              (TEST_CASE K) (VORTEX_MERGE_RADIUS K)
              (VORTEX_INTENSITY_SIGMA K).

(** ** Views of the merge loop *)

Section MergeViews.
Context {D : Type} `{DoubleOps D}.
Context {G : Type}.
Variable K : Constants D.

(** No cached distance of a pair [a < b] of active vortices with [lo <= b]
    is below the merge radius. *)
Definition settled_from (lo : Z) (p : Pop D G) : Prop :=
  forall a b, 0 <= a < b -> lo <= b < numDriverVorts p ->
    (rd (vortexRadii p) (calculateVortexRadiiIndex a b)
     <? VORTEX_MERGE_RADIUS K)%D = false.

(** The bookkeeping of [k] merges between two states of the loop: each
    merge is counted, and each consumes either one spawn (and one fresh
    identifier) or one vortex. *)
Definition merged_by (k : Z) (s s' : MergeState D G) : Prop :=
  ms_totalMerges s' = (fun n => n + k) <$> ms_totalMerges s
  /\ ms_spawnsLeft s' <= ms_spawnsLeft s
  /\ (0 <= ms_spawnsLeft s -> 0 <= ms_spawnsLeft s')
  /\ numDriverVorts (ms_pop s') <= numDriverVorts (ms_pop s)
  /\ numDriverVorts (ms_pop s') + ms_spawnsLeft s' + k
     = numDriverVorts (ms_pop s) + ms_spawnsLeft s
  /\ nextVortID (ms_pop s')
     = nextVortID (ms_pop s) + (ms_spawnsLeft s - ms_spawnsLeft s').
End MergeViews.

(** ** Views of the population *)

Section PopulationViews.
Context {D : Type} `{DoubleOps D}.
Context {G : Type}.
Variable K : Constants D.

(** Every active vortex carries its array position as [vIndex]. *)
Definition indexed (p : Pop D G) : Prop :=
  forall i, 0 <= i < numDriverVorts p -> vIndex (rd (vorts p) i) = i.

(** The three buffers have room for [vortsAllocated] vortices, and the
    active vortices leave a slot free as soon as there are two of them. *)
Definition roomy (p : Pop D G) : Prop :=
  0 <= numDriverVorts p <= vortsAllocated p
  /\ (numDriverVorts p < vortsAllocated p \/ numDriverVorts p <= 1)
  /\ vortsAllocated p <= Z.of_nat (length (vorts p))
  /\ 3 * (vortsAllocated p * (vortsAllocated p - 1) / 2)
     <= Z.of_nat (length (vortexRadii p))
  /\ 3 * (NUM_TRACERS K * vortsAllocated p)
     <= Z.of_nat (length (tracerRads p)).

(** Both tables hold the distances of the positions. *)
Definition current (tracers : list (Tracer D)) (p : Pop D G) : Prop :=
  (forall a b, 0 <= a < b -> b < numDriverVorts p ->
     entry_is (vortexRadii p) (calculateVortexRadiiIndex a b)
       (position_0 (rd (vorts p) b) - position_0 (rd (vorts p) a))%D
       (position_1 (rd (vorts p) b) - position_1 (rd (vorts p) a))%D)
  /\ (forall t v, 0 <= t < NUM_TRACERS K -> 0 <= v < numDriverVorts p ->
     entry_is (tracerRads p)
       (calculateTracerRadiiIndex (numDriverVorts p) t v)
       (position_0 (rd (vorts p) v) - t_position_0 (rd tracers t))%D
       (position_1 (rd (vorts p) v) - t_position_1 (rd tracers t))%D).
End PopulationViews.

(** * Properties *)

(** ** Loops and arrays *)

Section LoopLemmas.
Context {S : Type}.
Implicit Types (body : Z -> S -> S) (s : S).

Lemma iter_from_inv (P : Z -> S -> Prop) body n i s :
  P i s ->
  (forall k s, i <= k < i + Z.of_nat n -> P k s -> P (k + 1) (body k s)) ->
  P (i + Z.of_nat n) (iter_from n i body s).
Proof.
  revert i s. induction n as [|n IH]; intros i s Hi Hstep.
  - simpl. rewrite Z.add_0_r. exact Hi.
  - simpl iter_from.
    replace (i + Z.of_nat (Datatypes.S n)) with (i + 1 + Z.of_nat n) by lia.
    apply IH.
    + apply Hstep; [lia | exact Hi].
    + intros k s' Hk. apply Hstep. lia.
Qed.

Lemma for_loop_inv (P : Z -> S -> Prop) lo hi body s :
  lo <= hi ->
  P lo s ->
  (forall k s, lo <= k < hi -> P k s -> P (k + 1) (body k s)) ->
  P hi (for_loop lo hi body s).
Proof.
  intros Hle Hlo Hstep. unfold for_loop.
  replace hi with (lo + Z.of_nat (Z.to_nat (hi - lo))) at 1 by lia.
  apply iter_from_inv; [exact Hlo|].
  intros k s' Hk. apply Hstep. lia.
Qed.

Lemma for_loop_nop lo hi body s : hi <= lo -> for_loop lo hi body s = s.
Proof.
  intros Hle. unfold for_loop.
  replace (Z.to_nat (hi - lo)) with O by lia. reflexivity.
Qed.

(** A property that every iteration keeps holds after the loop. *)
Lemma for_loop_frame (P : S -> Prop) lo hi body s :
  P s ->
  (forall k s, lo <= k < hi -> P s -> P (body k s)) ->
  P (for_loop lo hi body s).
Proof.
  intros Hs Hstep. destruct (Z.le_gt_cases lo hi) as [Hle | Hgt].
  - apply (for_loop_inv (fun _ => P)); assumption.
  - rewrite for_loop_nop by lia. exact Hs.
Qed.

Lemma for_loop_ext lo hi body body' s :
  (forall k s, lo <= k < hi -> body k s = body' k s) ->
  for_loop lo hi body s = for_loop lo hi body' s.
Proof.
  intros Hext. unfold for_loop.
  assert (Hgen : forall n i s,
             lo <= i -> i + Z.of_nat n <= hi ->
             iter_from n i body s = iter_from n i body' s).
  { induction n as [|n IH]; intros i s' Hi Hn; [reflexivity|].
    simpl. rewrite Hext by lia. apply IH; lia. }
  destruct (Z.le_gt_cases lo hi).
  - apply Hgen; lia.
  - replace (Z.to_nat (hi - lo)) with O by lia. reflexivity.
Qed.
End LoopLemmas.

Section ArrayLemmas.
Context {A : Type} `{Inhabited A}.
Implicit Types (a : list A) (i j : Z) (v : A).

Lemma length_wr a i v : length (wr a i v) = length a.
Proof. unfold wr. destruct (i <? 0); [reflexivity | apply length_insert]. Qed.

Lemma rd_wr_eq a i v :
  0 <= i < Z.of_nat (length a) -> rd (wr a i v) i = v.
Proof.
  intros Hi. unfold rd, wr. destruct (Z.ltb_spec i 0); [lia|].
  apply list_lookup_total_insert_eq. lia.
Qed.

Lemma rd_wr_ne a i j v : i <> j -> rd (wr a i v) j = rd a j.
Proof.
  intros Hne. unfold rd, wr.
  destruct (Z.ltb_spec j 0); [reflexivity|].
  destruct (Z.ltb_spec i 0); [reflexivity|].
  apply list_lookup_total_insert_ne. lia.
Qed.
End ArrayLemmas.

Section EntryLemmas.
Context {D : Type} `{DoubleOps D}.
Implicit Types (a : list D).

Lemma length_wr_entry a index x y :
  length (wr_entry a index x y) = length a.
Proof. unfold wr_entry. rewrite !length_wr. reflexivity. Qed.

Lemma rd_wr_entry a index x y :
  0 <= index -> index + 2 < Z.of_nat (length a) ->
  rd (wr_entry a index x y) (index + 1) = x
  /\ rd (wr_entry a index x y) (index + 2) = y
  /\ rd (wr_entry a index x y) index = hypotenuse x y.
Proof.
  intros H0 Hlen. unfold wr_entry.
  assert (Hx : rd (wr (wr a (index + 1) x) (index + 2) y) (index + 1) = x).
  { rewrite rd_wr_ne by lia. apply rd_wr_eq. lia. }
  assert (Hy : rd (wr (wr a (index + 1) x) (index + 2) y) (index + 2) = y).
  { apply rd_wr_eq. rewrite length_wr. lia. }
  rewrite Hx, Hy. split; [|split].
  - rewrite rd_wr_ne by lia. exact Hx.
  - rewrite rd_wr_ne by lia. exact Hy.
  - apply rd_wr_eq. rewrite !length_wr. lia.
Qed.

Lemma rd_wr_entry_other a index x y k :
  k <> index -> k <> index + 1 -> k <> index + 2 ->
  rd (wr_entry a index x y) k = rd a k.
Proof.
  intros H1 H2 H3. unfold wr_entry. rewrite !rd_wr_ne by lia. reflexivity.
Qed.
End EntryLemmas.

(** ** Index calculators *)

Lemma tri_double (m : Z) : 2 * (m * (m - 1) / 2) = m * (m - 1).
Proof.
  assert (Hm : (m * (m - 1)) mod 2 = 0).
  { rewrite Z.mul_mod by lia.
    destruct (Z.mod_pos_bound m 2) as [? ?]; [lia|].
    assert (Hc : m mod 2 = 0 \/ m mod 2 = 1) by lia.
    destruct Hc as [Hc | Hc].
    - rewrite Hc. reflexivity.
    - replace ((m - 1) mod 2) with 0; [rewrite Hc; reflexivity|].
      rewrite Zminus_mod, Hc. reflexivity. }
  pose proof (Z.div_mod (m * (m - 1)) 2). lia.
Qed.

Lemma tri_quot (m : Z) : 0 <= m -> (m - 1) * m ÷ 2 = m * (m - 1) / 2.
Proof.
  intros Hm. replace ((m - 1) * m) with (m * (m - 1)) by ring.
  destruct (Z.eq_dec m 0) as [-> | Hne]; [reflexivity|].
  apply Z.quot_div_nonneg; nia.
Qed.

Lemma calculateVortexRadiiIndex_lt (a b : Z) :
  0 <= a -> a < b ->
  calculateVortexRadiiIndex a b = 3 * (b * (b - 1) / 2 + a).
Proof.
  intros Ha Hab. unfold calculateVortexRadiiIndex.
  destruct (Z.ltb_spec a b); [|lia].
  rewrite tri_quot by lia. ring.
Qed.

Lemma calculateVortexRadiiIndex_sym (a b : Z) :
  calculateVortexRadiiIndex a b = calculateVortexRadiiIndex b a.
Proof.
  unfold calculateVortexRadiiIndex.
  destruct (Z.ltb_spec a b), (Z.ltb_spec b a); try reflexivity; try lia.
  replace b with a by lia. reflexivity.
Qed.

Lemma calculateVortexRadiiIndex_lt_inj (a b c d : Z) :
  0 <= a < b -> 0 <= c < d ->
  calculateVortexRadiiIndex a b = calculateVortexRadiiIndex c d ->
  a = c /\ b = d.
Proof.
  intros Hab Hcd. rewrite !calculateVortexRadiiIndex_lt by lia.
  pose proof (tri_double b). pose proof (tri_double d).
  intros Heq.
  assert (b = d) by nia. subst d. lia.
Qed.

Lemma calculateVortexRadiiIndex_lt_range (N a b : Z) :
  0 <= a < b -> b < N ->
  0 <= calculateVortexRadiiIndex a b
  /\ calculateVortexRadiiIndex a b + 3 <= 3 * (N * (N - 1) / 2).
Proof.
  intros Hab HN. rewrite calculateVortexRadiiIndex_lt by lia.
  pose proof (tri_double b). pose proof (tri_double N). nia.
Qed.

(** X1.  For vortex indices that fit a C [int], every intermediate value of
    the index computation (the product, the quotient plus the smaller index,
    the result) fits a 64-bit [long]. *)
Lemma calculateVortexRadiiIndex_no_overflow (a b : Z) :
  0 <= a <= INT_MAX -> 0 <= b <= INT_MAX ->
  let m := Z.max a b in
  0 <= (m - 1) * m <= LONG_MAX
  /\ 0 <= (m - 1) * m ÷ 2 + Z.min a b <= LONG_MAX
  /\ 0 <= calculateVortexRadiiIndex a b <= LONG_MAX.
Proof.
  intros Ha Hb m. unfold INT_MAX, LONG_MAX in *.
  assert (Hm : 0 <= m <= 2 ^ 31 - 1) by (unfold m; lia).
  assert (Hq : (m - 1) * m ÷ 2 = m * (m - 1) / 2) by (apply tri_quot; lia).
  pose proof (tri_double m) as Ht.
  assert (Hidx : calculateVortexRadiiIndex a b
                 = ((m - 1) * m ÷ 2 + Z.min a b) * 3).
  { unfold calculateVortexRadiiIndex, m.
    destruct (Z.ltb_spec a b).
    - rewrite Z.max_r, Z.min_l by lia. reflexivity.
    - rewrite Z.max_l, Z.min_r by lia. reflexivity. }
  rewrite Hidx, Hq.
  assert (0 <= Z.min a b <= m) by (unfold m; lia).
  change (2 ^ 31) with 2147483648 in *.
  change (2 ^ 63) with 9223372036854775808 in *.
  nia.
Qed.

(** C1. For vortex indices [a], [b] below [N] with [a <> b], the index is
    [3 * (max * (max - 1) / 2 + min)]; it is symmetric, it lies in
    [[0, 3 * N * (N - 1) / 2)], and it is injective over unordered pairs. *)
Theorem calculateVortexRadiiIndex_bijection (N a b : Z) :
  0 <= a < N -> 0 <= b < N -> a <> b ->
  calculateVortexRadiiIndex a b
    = 3 * (Z.max a b * (Z.max a b - 1) / 2 + Z.min a b)
  /\ calculateVortexRadiiIndex a b = calculateVortexRadiiIndex b a
  /\ 0 <= calculateVortexRadiiIndex a b < 3 * N * (N - 1) / 2
  /\ (forall c d, 0 <= c < N -> 0 <= d < N -> c <> d ->
        calculateVortexRadiiIndex a b = calculateVortexRadiiIndex c d ->
        Z.min a b = Z.min c d /\ Z.max a b = Z.max c d).
Proof.
  intros Ha Hb Hab.
  assert (Hnorm : forall x y, 0 <= x -> 0 <= y -> x <> y ->
            calculateVortexRadiiIndex x y
            = calculateVortexRadiiIndex (Z.min x y) (Z.max x y)).
  { intros x y Hx Hy Hxy. destruct (Z.lt_ge_cases x y).
    - rewrite Z.min_l, Z.max_r by lia. reflexivity.
    - rewrite Z.min_r, Z.max_l by lia. apply calculateVortexRadiiIndex_sym. }
  assert (Hbound : 3 * N * (N - 1) / 2 = 3 * (N * (N - 1) / 2)).
  { pose proof (tri_double N) as Ht.
    replace (3 * N * (N - 1)) with ((3 * (N * (N - 1) / 2)) * 2) by lia.
    apply Z.div_mul. lia. }
  split; [|split; [|split]].
  - rewrite Hnorm by lia. apply calculateVortexRadiiIndex_lt; lia.
  - apply calculateVortexRadiiIndex_sym.
  - rewrite Hbound, Hnorm by lia.
    pose proof (calculateVortexRadiiIndex_lt_range N (Z.min a b) (Z.max a b)).
    lia.
  - intros c d Hc Hd Hcd Heq.
    rewrite (Hnorm a b), (Hnorm c d) in Heq by lia.
    apply calculateVortexRadiiIndex_lt_inj in Heq; lia.
Qed.

Lemma calculateVortexRadiiIndex_bijection_witness :
  calculateVortexRadiiIndex 3 1 = 3 * (Z.max 3 1 * (Z.max 3 1 - 1) / 2 + Z.min 3 1)
  /\ calculateVortexRadiiIndex 3 1 = calculateVortexRadiiIndex 1 3
  /\ 0 <= calculateVortexRadiiIndex 3 1 < 3 * 5 * (5 - 1) / 2
  /\ (forall c d, 0 <= c < 5 -> 0 <= d < 5 -> c <> d ->
        calculateVortexRadiiIndex 3 1 = calculateVortexRadiiIndex c d ->
        Z.min 3 1 = Z.min c d /\ Z.max 3 1 = Z.max c d).
Proof. apply (calculateVortexRadiiIndex_bijection 5 3 1); lia. Defined.


(** ** Distance cache *)

Ltac fold_wr_entry :=
  match goal with
  | |- context [wr (wr (wr ?a (?i + 1) ?x) (?i + 2) ?y) ?i ?m] =>
      change (wr (wr (wr a (i + 1) x) (i + 2) y) i m) with (wr_entry a i x y)
  end.

Section DistanceCacheProps.
Context {D : Type} `{DoubleOps D}.
Implicit Types (a : list D).

Lemma entry_is_wr_entry a index x y :
  0 <= index -> index + 2 < Z.of_nat (length a) ->
  entry_is (wr_entry a index x y) index x y.
Proof. intros H0 Hlen. apply rd_wr_entry; assumption. Qed.

Lemma entry_is_wr_entry_other a index index' x y x' y' :
  index + 2 < index' \/ index' + 2 < index ->
  entry_is a index x y ->
  entry_is (wr_entry a index' x' y') index x y.
Proof.
  intros Hapart (Hx & Hy & Hm). unfold entry_is.
  rewrite !rd_wr_entry_other by lia. auto.
Qed.

Lemma calculateVortexRadiiIndex_lt_apart (a b c d : Z) :
  0 <= a < b -> 0 <= c < d -> (a, b) <> (c, d) ->
  calculateVortexRadiiIndex a b + 2 < calculateVortexRadiiIndex c d
  \/ calculateVortexRadiiIndex c d + 2 < calculateVortexRadiiIndex a b.
Proof.
  intros Hab Hcd Hne.
  assert (Hidx : calculateVortexRadiiIndex a b
                 <> calculateVortexRadiiIndex c d).
  { intros Heq. apply calculateVortexRadiiIndex_lt_inj in Heq; [|lia..].
    destruct Heq; congruence. }
  rewrite !calculateVortexRadiiIndex_lt in * by lia. lia.
Qed.

Lemma calculateTracerRadiiIndex_apart (N t v t' v' : Z) :
  0 <= v < N -> 0 <= v' < N -> (t, v) <> (t', v') ->
  calculateTracerRadiiIndex N t v + 2 < calculateTracerRadiiIndex N t' v'
  \/ calculateTracerRadiiIndex N t' v' + 2 < calculateTracerRadiiIndex N t v.
Proof.
  intros Hv Hv' Hne. unfold calculateTracerRadiiIndex.
  assert (t * N + v <> t' * N + v').
  { intros Heq. apply Hne.
    assert (t = t') by nia. subst t'. f_equal. lia. }
  lia.
Qed.

Lemma calculateTracerRadiiIndex_range (N M t v : Z) :
  0 <= t < M -> 0 <= v < N ->
  0 <= calculateTracerRadiiIndex N t v
  /\ calculateTracerRadiiIndex N t v + 3 <= 3 * (M * N).
Proof. intros Ht Hv. unfold calculateTracerRadiiIndex. nia. Qed.

(** The first loop nest of [updateRadii_pythagorean]. *)
Lemma updateRadii_vortex_table (N : Z) (vortices : list (Vortex D)) a
    (tracerRadii : list D) (tracers : list (Tracer D)) (numTracers : Z) :
  (forall i, 0 <= i < N -> vIndex (rd vortices i) = i) ->
  3 * (N * (N - 1) / 2) <= Z.of_nat (length a) ->
  forall p q, 0 <= p < q -> q < N ->
    entry_is
      (fst (updateRadii_pythagorean N a vortices tracerRadii tracers
                                    numTracers))
      (calculateVortexRadiiIndex p q)
      (position_0 (rd vortices q) - position_0 (rd vortices p))%D
      (position_1 (rd vortices q) - position_1 (rd vortices p))%D.
Proof.
  intros Hvi Hlen. unfold updateRadii_pythagorean. cbn [fst].
  set (good := fun (a' : list D) (p q : Z) =>
    entry_is a' (calculateVortexRadiiIndex p q)
      (position_0 (rd vortices q) - position_0 (rd vortices p))%D
      (position_1 (rd vortices q) - position_1 (rd vortices p))%D).
  enough (Hinv : N <= 0 \/
            (fun i a' => length a' = length a
               /\ forall p q, 0 <= p < q -> q < i -> good a' p q) N
            (for_loop 0 N (fun i vortexRadii =>
               for_loop 0 i (fun j vortexRadii =>
                 let index :=
                   calculateVortexRadiiIndex (vIndex (rd vortices i))
                                             (vIndex (rd vortices j)) in
                 let vortexRadii :=
                   wr vortexRadii (index + 1)
                      (position_0 (rd vortices i)
                       - position_0 (rd vortices j))%D in
                 let vortexRadii :=
                   wr vortexRadii (index + 2)
                      (position_1 (rd vortices i)
                       - position_1 (rd vortices j))%D in
                 wr vortexRadii index
                    (hypotenuse (rd vortexRadii (index + 1))
                                (rd vortexRadii (index + 2))))
                 vortexRadii) a)).
  { intros p q Hpq HqN. destruct Hinv as [? | [_ Hinv]]; [lia|].
    apply Hinv; assumption. }
  destruct (Z.le_gt_cases N 0) as [? | HN]; [left; assumption | right].
  apply for_loop_inv; [lia | split; [reflexivity | intros; lia] |].
  intros i ai Hi [Hleni Hold].
  set (Q := fun j a' => length a' = length a
              /\ (forall p q, 0 <= p < q -> q < i -> good a' p q)
              /\ (forall p, 0 <= p < j -> good a' p i)).
  match goal with |- context [for_loop 0 i ?body ai] =>
    assert (Hin : Q i (for_loop 0 i body ai))
  end.
  2: { destruct Hin as (Hl & Hrows & Hrow). split; [assumption|].
       intros p q Hpq Hq.
       destruct (Z.eq_dec q i) as [-> | ?]; [apply Hrow | apply Hrows]; lia. }
  apply (for_loop_inv Q);
    [lia | split; [assumption | split; [assumption | intros; lia]] |].
  intros j aj Hj (Hlenj & Hrows & Hrow). cbv zeta.
  rewrite (Hvi i), (Hvi j) by lia. fold_wr_entry.
  rewrite (calculateVortexRadiiIndex_sym i j).
  pose proof (calculateVortexRadiiIndex_lt_range N j i) as Hrange.
  split; [rewrite length_wr_entry; assumption|]. split.
  - intros p q Hpq Hq. apply entry_is_wr_entry_other; [|apply Hrows; lia].
    apply calculateVortexRadiiIndex_lt_apart;
      [lia | lia | intros Heq; inversion Heq; lia].
  - intros p Hp. destruct (Z.eq_dec p j) as [-> | Hne].
    + apply entry_is_wr_entry; lia.
    + apply entry_is_wr_entry_other; [|apply Hrow; lia].
      apply calculateVortexRadiiIndex_lt_apart;
      [lia | lia | intros Heq; inversion Heq; lia].
Qed.

(** The second loop nest of [updateRadii_pythagorean]. *)
Lemma updateRadii_tracer_table (N : Z) (vortices : list (Vortex D))
    (vortexRadii : list D) a (tracers : list (Tracer D)) (M : Z) :
  3 * (M * N) <= Z.of_nat (length a) ->
  forall t v, 0 <= t < M -> 0 <= v < N ->
    entry_is
      (snd (updateRadii_pythagorean N vortexRadii vortices a tracers M))
      (calculateTracerRadiiIndex N t v)
      (position_0 (rd vortices v) - t_position_0 (rd tracers t))%D
      (position_1 (rd vortices v) - t_position_1 (rd tracers t))%D.
Proof.
  intros Hlen. unfold updateRadii_pythagorean. cbn [snd].
  set (good := fun (a' : list D) (t v : Z) =>
    entry_is a' (calculateTracerRadiiIndex N t v)
      (position_0 (rd vortices v) - t_position_0 (rd tracers t))%D
      (position_1 (rd vortices v) - t_position_1 (rd tracers t))%D).
  set (P := fun (t : Z) (a' : list D) => length a' = length a
             /\ forall t' v, 0 <= t' < t -> 0 <= v < N -> good a' t' v).
  match goal with |- context [for_loop 0 M ?body a] =>
    enough (Hinv : M <= 0 \/ P M (for_loop 0 M body a))
  end.
  { intros t v Ht Hv. destruct Hinv as [? | [_ Hinv]]; [lia|].
    apply Hinv; assumption. }
  destruct (Z.le_gt_cases M 0) as [? | HM]; [left; assumption | right].
  apply (for_loop_inv P); [lia | split; [reflexivity | intros; lia] |].
  intros t at_ Ht [Hlent Hold].
  set (Q := fun v a' => length a' = length a
              /\ (forall t' v', 0 <= t' < t -> 0 <= v' < N -> good a' t' v')
              /\ (forall v', 0 <= v' < v -> v' < N -> good a' t v')).
  match goal with |- context [for_loop 0 N ?body at_] =>
    assert (Hin : N <= 0 \/ Q N (for_loop 0 N body at_))
  end.
  2: { split.
       - destruct Hin as [? | (Hl & _)]; [|assumption].
         rewrite for_loop_nop by lia. assumption.
       - intros t' v Ht' Hv. destruct Hin as [? | (Hl & Hrows & Hrow)]; [lia|].
         destruct (Z.eq_dec t' t) as [-> | ?];
           [apply Hrow | apply Hrows]; lia. }
  destruct (Z.le_gt_cases N 0) as [? | HN]; [left; assumption | right].
  apply (for_loop_inv Q);
    [lia | split; [assumption | split; [assumption | intros; lia]] |].
  intros v av Hv (Hlenv & Hrows & Hrow). cbv zeta. fold_wr_entry.
  pose proof (calculateTracerRadiiIndex_range N M t v) as Hrange.
  split; [rewrite length_wr_entry; assumption|]. split.
  - intros t' v' Ht' Hv'. apply entry_is_wr_entry_other; [|apply Hrows; lia].
    apply calculateTracerRadiiIndex_apart;
      [lia | lia | intros Heq; inversion Heq; lia].
  - intros v' Hv' Hv'N. destruct (Z.eq_dec v' v) as [-> | Hne].
    + apply entry_is_wr_entry; lia.
    + apply entry_is_wr_entry_other; [|apply Hrow; lia].
      apply calculateTracerRadiiIndex_apart;
        [lia | lia | intros Heq; inversion Heq; lia].
Qed.

(** C4. After [updateRadii_pythagorean], the entry of every vortex pair
    [a < b] holds the components [position(b) - position(a)] and the
    magnitude [sqrt(dx^2 + dy^2)], and the entry of every (tracer, vortex)
    pair holds [vortexPosition - tracerPosition] and its magnitude. *)
Theorem updateRadii_pythagorean_entries (N : Z)
    (vortexRadii : list D) (vortices : list (Vortex D))
    (tracerRadii : list D) (tracers : list (Tracer D)) (numTracers : Z) :
  (forall i, 0 <= i < N -> vIndex (rd vortices i) = i) ->
  3 * (N * (N - 1) / 2) <= Z.of_nat (length vortexRadii) ->
  3 * (numTracers * N) <= Z.of_nat (length tracerRadii) ->
  let radii := updateRadii_pythagorean N vortexRadii vortices
                                       tracerRadii tracers numTracers in
  (forall a b : Z, 0 <= a < b -> b < N ->
     let index := calculateVortexRadiiIndex a b in
     let dx := (position_0 (rd vortices b) - position_0 (rd vortices a))%D in
     let dy := (position_1 (rd vortices b) - position_1 (rd vortices a))%D in
     rd (fst radii) (index + 1) = dx
     /\ rd (fst radii) (index + 2) = dy
     /\ rd (fst radii) index = dsqrt (dsqr dx + dsqr dy)%D)
  /\ (forall t v, 0 <= t < numTracers -> 0 <= v < N ->
     let index := calculateTracerRadiiIndex N t v in
     let dx := (position_0 (rd vortices v) - t_position_0 (rd tracers t))%D in
     let dy := (position_1 (rd vortices v) - t_position_1 (rd tracers t))%D in
     rd (snd radii) (index + 1) = dx
     /\ rd (snd radii) (index + 2) = dy
     /\ rd (snd radii) index = dsqrt (dsqr dx + dsqr dy)%D).
Proof.
  intros Hvi Hlenv Hlent radii. split.
  - intros a b Hab Hb. apply updateRadii_vortex_table; assumption.
  - intros t v Ht Hv. apply updateRadii_tracer_table; assumption.
Qed.
End DistanceCacheProps.


Lemma updateRadii_pythagorean_entries_witness :
  let vortices := five_vortices in
  let tracers := two_tracers in
  let radii :=
    updateRadii_pythagorean 5 (vortexRadii five_vortex_population) vortices
      (tracerRads five_vortex_population) tracers 2 in
  (forall a b : Z, 0 <= a < b -> b < 5 ->
     let index := calculateVortexRadiiIndex a b in
     let dx := (position_0 (rd vortices b) - position_0 (rd vortices a))%D in
     let dy := (position_1 (rd vortices b) - position_1 (rd vortices a))%D in
     rd (fst radii) (index + 1) = dx
     /\ rd (fst radii) (index + 2) = dy
     /\ rd (fst radii) index = dsqrt (dsqr dx + dsqr dy)%D)
  /\ (forall t v, 0 <= t < 2 -> 0 <= v < 5 ->
     let index := calculateTracerRadiiIndex 5 t v in
     let dx := (position_0 (rd vortices v) - t_position_0 (rd tracers t))%D in
     let dy := (position_1 (rd vortices v) - t_position_1 (rd tracers t))%D in
     rd (snd radii) (index + 1) = dx
     /\ rd (snd radii) (index + 2) = dy
     /\ rd (snd radii) index = dsqrt (dsqr dx + dsqr dy)%D).
Proof.
  apply (updateRadii_pythagorean_entries 5
           (vortexRadii five_vortex_population) five_vortices
           (tracerRads five_vortex_population) two_tracers 2).
  - intros i Hi.
    assert (Hc : i = 0 \/ i = 1 \/ i = 2 \/ i = 3 \/ i = 4) by lia.
    destruct Hc as [-> | [-> | [-> | [-> | ->]]]]; reflexivity.
  - vm_compute. discriminate.
  - vm_compute. discriminate.
Defined.

(** ** Deleting a vortex *)

(** C3, on five vortices and two tracers.  Deleting the vortex of index 1
    must leave the entries of the pairs (0,2) (0,3) (2,3) (0,4) (2,4) (3,4),
    in this order, and for each tracer the entries of vortices 0, 2, 3, 4.
    The triangular table instead holds the entry of (2,3) in the place of
    (0,3) and then the stale entry of (1,2); the tracer rows are moved by one
    double, not by one entry, and keep their old stride.  The vortex array,
    the indices and the count are as stated. *)
Theorem deleteVortex_table_shift_defect :
  let p := deleteVortex K0 1 five_vortex_population in
  numDriverVorts p = 4
  /\ map vIndex (take 4 (vorts p)) = [0; 1; 2; 3]
  /\ map position_0 (take 4 (vorts p)) = [1; 5; 7; 9]%float
  /\ take 18 (vortexRadii p)
     = [102; 202; 302; 123; 223; 323; 112; 212; 312;
        104; 204; 304; 124; 224; 324; 134; 234; 334]%float
  /\ surviving_vortex_table 5 1
     = [102; 202; 302; 103; 203; 303; 123; 223; 323;
        104; 204; 304; 124; 224; 324; 134; 234; 334]%float
  /\ take 24 (tracerRads p)
     = [1100; 1200; 1300; 1201; 1301; 1102; 1202; 1302; 1103; 1203; 1303; 1104;
        1204; 1304; 1110; 1110; 1210; 1310; 1211; 1311; 1112; 1212; 1312;
        1113]%float
  /\ surviving_tracer_table 2 5 1
     = [1100; 1200; 1300; 1102; 1202; 1302; 1103; 1203; 1303; 1104; 1204; 1304;
        1110; 1210; 1310; 1112; 1212; 1312; 1113; 1213; 1313; 1114; 1214;
        1314]%float.
Proof. vm_compute. repeat split; reflexivity. Qed.


(** The same deletion on tables that hold the distances of the positions:
    the entries that [deleteVortex] leaves for the new pair (0,2) and for
    tracer 0 and the new vortex 1 are not the distances of their positions,
    which a fresh [updateRadii_pythagorean] stores. *)
Lemma deleteVortex_tables_stale :
  let p := deleteVortex K0 1 five_vortex_distances in
  let fresh :=
    updateRadii_pythagorean 4 (vortexRadii p) (vorts p) (tracerRads p)
                            two_tracers 2 in
  PrimFloat.eqb (rd (vortexRadii p) (calculateVortexRadiiIndex 0 2))
                (rd (fst fresh) (calculateVortexRadiiIndex 0 2)) = false
  /\ PrimFloat.eqb (rd (tracerRads p) (calculateTracerRadiiIndex 4 0 1))
                   (rd (snd fresh) (calculateTracerRadiiIndex 4 0 1)) = false.
Proof. vm_compute. split; reflexivity. Qed.

(** ** Displacement of the working table *)

Section WorkingTable.
Context {D : Type} `{DoubleOps D}.
Variable K : Constants D.
Variable N : Z.
Variable dt : D.

(** What the task of vortex [o] does to the working entry of the pair
    [(o, j)]: both components move by the x-velocity of the stage times the
    timestep; the y-velocity is not used. *)
Lemma stepForwardVortexRK4_working_entry (args : VortexArgs) (m : RKMem D)
    (j : Z) :
  let o := va_originVortIndex args in
  let vel := calculateVel_vortex K N (d0, d0) (rd (rk_vortices m) o)
                                 (rk_vortices m) (rk_intermediateRadii m) in
  let xVel := snd (vortexStageSwitch (va_RKStep args) (fst vel)) in
  let index := calculateVortexRadiiIndex o j in
  let old := rk_workingRadii m in
  let new := rk_workingRadii (stepForwardVortexRK4 K N dt args m) in
  (forall i, 0 <= i < N -> vIndex (rd (rk_vortices m) i) = i) ->
  3 * (N * (N - 1) / 2) <= Z.of_nat (length old) ->
  0 <= o < N -> 0 <= j < N -> j <> o ->
  entry_is new index
    (if j <? o then (rd old (index + 1) + xVel * dt)%D
     else (rd old (index + 1) - xVel * dt)%D)
    (if j <? o then (rd old (index + 2) + xVel * dt)%D
     else (rd old (index + 2) - xVel * dt)%D).
Proof.
  intros o vel xVel index old new Hvi Hlen Ho Hj Hjo.
  subst new. unfold stepForwardVortexRK4. fold o. fold vel.
  destruct vel as [xv yv] eqn:Hvel. cbn [fst snd] in xVel.
  destruct (vortexStageSwitch (va_RKStep args) xv) as [kx xVel'] eqn:Hsx.
  destruct (vortexStageSwitch (va_RKStep args) yv) as [ky yVel'] eqn:Hsy.
  cbn [snd] in xVel. subst xVel. cbn [rk_workingRadii set_rk_vortices
    set_rk_intermediateTracerRads set_rk_workingRadii].
  rewrite (Hvi o) by lia.
  set (upd := fun (a : list D) (k : Z) =>
    entry_is a (calculateVortexRadiiIndex o k)
      (if k <? o
       then (rd old (calculateVortexRadiiIndex o k + 1) + xVel' * dt)%D
       else (rd old (calculateVortexRadiiIndex o k + 1) - xVel' * dt)%D)
      (if k <? o
       then (rd old (calculateVortexRadiiIndex o k + 2) + xVel' * dt)%D
       else (rd old (calculateVortexRadiiIndex o k + 2) - xVel' * dt)%D)).
  set (P := fun (k : Z) (a : list D) =>
    length a = length old
    /\ (forall k', 0 <= k' < k -> k' <> o -> upd a k')
    /\ (forall k' i, k <= k' < N -> k' <> o -> 0 <= i <= 2 ->
          rd a (calculateVortexRadiiIndex o k' + i)
          = rd old (calculateVortexRadiiIndex o k' + i))).
  match goal with |- context [for_loop 0 N ?body ?a] =>
    assert (Hinv : P N (for_loop 0 N body a))
  end.
  2: { destruct Hinv as (_ & Hupd & _). apply (Hupd j); lia. }
  assert (Hnorm : forall k, 0 <= k < N -> k <> o ->
            calculateVortexRadiiIndex o k
            = calculateVortexRadiiIndex (Z.min o k) (Z.max o k)).
  { intros k Hk Hko. destruct (Z.lt_ge_cases o k).
    - rewrite Z.min_l, Z.max_r by lia. reflexivity.
    - rewrite Z.min_r, Z.max_l by lia. apply calculateVortexRadiiIndex_sym. }
  assert (Hapart : forall k k', 0 <= k < N -> 0 <= k' < N ->
            k <> o -> k' <> o -> k <> k' ->
            calculateVortexRadiiIndex o k + 2 < calculateVortexRadiiIndex o k'
            \/ calculateVortexRadiiIndex o k' + 2
               < calculateVortexRadiiIndex o k).
  { intros k k' Hk Hk' Hko Hk'o Hkk'. rewrite (Hnorm k), (Hnorm k') by lia.
    apply calculateVortexRadiiIndex_lt_apart; [lia | lia |].
    intros Heq. inversion Heq. lia. }
  assert (Hrange : forall k, 0 <= k < N -> k <> o ->
            0 <= calculateVortexRadiiIndex o k
            /\ calculateVortexRadiiIndex o k + 3 <= Z.of_nat (length old)).
  { intros k Hk Hko. rewrite (Hnorm k) by lia.
    pose proof (calculateVortexRadiiIndex_lt_range N (Z.min o k) (Z.max o k)).
    lia. }
  apply (for_loop_inv P); [lia | |].
  { split; [reflexivity|]. split; [intros; lia | reflexivity]. }
  intros k a Hk (Hlena & Hdone & Htodo).
  destruct (Z.eqb_spec o k) as [<- | Hok].
  { split; [assumption|]. split.
    - intros k' Hk' Hk'o. apply Hdone; lia.
    - intros k' i Hk' Hk'o Hi. apply Htodo; lia. }
  rewrite (Hvi k) by lia. cbv zeta.
  pose proof (Hrange k ltac:(lia) ltac:(congruence)) as Hrk.
  set (index_k := calculateVortexRadiiIndex o k) in *.
  rewrite !(rd_wr_ne _ (index_k + 1) (index_k + 2)) by lia.
  fold_wr_entry.
  pose proof (Htodo k 1 ltac:(lia) ltac:(congruence) ltac:(lia)) as Ht1.
  pose proof (Htodo k 2 ltac:(lia) ltac:(congruence) ltac:(lia)) as Ht2.
  fold index_k in Ht1, Ht2. rewrite Ht1, Ht2.
  replace (o >? k) with (k <? o) by (rewrite Z.gtb_ltb; reflexivity).
  split; [rewrite length_wr_entry; assumption|]. split.
  - intros k' Hk' Hk'o. destruct (Z.eq_dec k' k) as [-> | Hne].
    + unfold upd. fold index_k.
      destruct (k <? o); apply entry_is_wr_entry; lia.
    + pose proof (Hapart k' k ltac:(lia) ltac:(lia) ltac:(lia)
                    ltac:(congruence) ltac:(lia)) as Hap.
      fold index_k in Hap.
      apply entry_is_wr_entry_other; [exact Hap | apply Hdone; lia].
  - intros k' i Hk' Hk'o Hi.
    pose proof (Hapart k' k ltac:(lia) ltac:(lia) ltac:(lia)
                  ltac:(congruence) ltac:(lia)) as Hap.
    fold index_k in Hap.
    rewrite rd_wr_entry_other by lia. apply Htodo; lia.
Qed.
End WorkingTable.

(** C2, on two vortices of strength 1 at (2,5) and (3,7) in the first stage
    with timestep 0.5.  The task of vortex 0 has a positive x-velocity and a
    negative y-velocity; the y-component of the pair's working entry must
    become [2 - yVel * timestep], above 2, and the code stores
    [2 - xVel * timestep], below 2. *)
Theorem stepForwardVortexRK4_dy_defect :
  let vel := calculateVel_vortex K1 2 (0, 0)%float (rd vortex_pair 0)
                                 vortex_pair vortex_pair_radii in
  let xVel := snd (vortexStageSwitch 1 (fst vel)) in
  let yVel := snd (vortexStageSwitch 1 (snd vel)) in
  let m := stepForwardVortexRK4 K1 2 0.5%float (mkVortexArgs 1 0 1 0)
                                vortex_pair_mem in
  PrimFloat.ltb 0 xVel = true
  /\ PrimFloat.ltb yVel 0 = true
  /\ rd (rk_workingRadii m) 1 = (1 - xVel * 0.5)%float
  /\ rd (rk_workingRadii m) 2 = (2 - xVel * 0.5)%float
  /\ PrimFloat.ltb (rd (rk_workingRadii m) 2) 2 = true
  /\ PrimFloat.ltb 2 (2 - yVel * 0.5) = true.
Proof. vm_compute. repeat split; reflexivity. Qed.

(** ** Force evaluator *)

Section LoopsAsFolds.
Context {S : Type}.

Lemma iter_from_foldl (body : Z -> S -> S) n i s :
  iter_from n i body s = foldl (fun s k => body k s) s (seqZ i (Z.of_nat n)).
Proof.
  revert i s. induction n as [|n IH]; intros i s; [reflexivity|].
  rewrite seqZ_cons by lia. cbn [foldl iter_from].
  rewrite IH. do 2 f_equal; lia.
Qed.

Lemma for_loop_foldl (body : Z -> S -> S) lo hi s :
  for_loop lo hi body s = foldl (fun s k => body k s) s (seqZ lo (hi - lo)).
Proof.
  unfold for_loop. rewrite iter_from_foldl.
  destruct (Z.le_gt_cases lo hi).
  - do 2 f_equal. lia.
  - replace (Z.to_nat (hi - lo)) with O by lia.
    unfold seqZ. replace (Z.to_nat (hi - lo)) with O by lia. reflexivity.
Qed.

Lemma foldl_filter {B} (P : B -> Prop) `{forall x, Decision (P x)}
    (f : S -> B -> S) (l : list B) s :
  foldl f s (filter P l) = foldl (fun s x => if decide (P x) then f s x else s) s l.
Proof.
  revert s. induction l as [|x l IH]; intros s; [reflexivity|].
  rewrite filter_cons. cbn [foldl]. destruct (decide (P x)); cbn [foldl]; apply IH.
Qed.

Lemma foldl_ext_in {B} (f g : S -> B -> S) (l : list B) s :
  (forall s x, x ∈ l -> f s x = g s x) -> foldl f s l = foldl g s l.
Proof.
  revert s. induction l as [|x l IH]; intros s Hext; [reflexivity|].
  cbn [foldl]. rewrite Hext by (left; reflexivity).
  apply IH. intros s' y Hy. apply Hext. right. exact Hy.
Qed.
End LoopsAsFolds.

Section ForceEvaluatorProps.
Context {D : Type} `{DoubleOps D}.
Variable K : Constants D.

Lemma image_step_vortex (strength dx dy r : D) (vel : D * D) (domain : Z) :
  (let '(xRad, yRad, rad) :=
     if negb (domain =? 0)
     then let '(xRad, yRad) := domainOffset K domain dx dy in
          (xRad, yRad, hypotenuse xRad yRad)
     else (dx, dy, r) in
   if (rad >? DOMAIN_SIZE_X K)%D then vel else
   let vmag := velocityFunc strength rad in
   (fst vel + (yRad / rad) * vmag, snd vel + (- xRad / rad) * vmag)%D)
  = addImage K (truncated_far K) strength dx dy r vel domain.
Proof.
  unfold addImage, imageSeparation, truncated_far, imageContribution,
    velocityFunc.
  destruct (domain =? 0); cbn [negb].
  - reflexivity.
  - destruct (domainOffset K domain dx dy) as [x y]. reflexivity.
Qed.

Lemma image_step_tracer (strength dx dy r : D) (vel : D * D) (domain : Z) :
  (let '(xRad, yRad, rad) :=
     if negb (domain =? 0)
     then let '(xRad, yRad) := domainOffset K domain dx dy in
          (xRad, yRad, hypotenuse xRad yRad)
     else (dx, dy, r) in
   if (rad >? DOMAIN_SIZE_X K)%D
      || ((TEST_CASE K =? 6) && (rad <? lit_0_1)%D)
   then vel else
   let vmag := velocityFunc strength rad in
   (fst vel + (yRad / rad) * vmag, snd vel + (- xRad / rad) * vmag)%D)
  = addImage K (truncated_far_or_near K) strength dx dy r vel domain.
Proof.
  unfold addImage, imageSeparation, truncated_far_or_near, imageContribution,
    velocityFunc.
  destruct (domain =? 0); cbn [negb].
  - reflexivity.
  - destruct (domainOffset K domain dx dy) as [x y]. reflexivity.
Qed.

(** C5, as amended.  The vortex evaluator sums, over every source vortex
    other than the body and each of the nine images, the contributions
    [(dy / r * vmag, - dx / r * vmag)] with [vmag = intensity / (2 pi r)] of
    the images that domain truncation ([r > DOMAIN_SIZE_X]) retains; the
    tracer evaluator sums them over every vortex and also drops, when
    [TEST_CASE] is 6, the images with [r < 0.1]. *)
Theorem calculateVel_truncation (N : Z) (vel : D * D) (vort : Vortex D)
    (vortices : list (Vortex D)) (rads : list D)
    (tracerIndex : Z) (tracerRads : list D) :
  calculateVel_vortex K N vel vort vortices rads
  = inducedVelocity_vortex K (truncated_far K) N vel vort vortices rads
  /\ calculateVel_tracer K N vel tracerIndex tracerRads vortices
     = inducedVelocity_tracer K (truncated_far_or_near K) N vel tracerIndex
                              tracerRads vortices.
Proof.
  split.
  - unfold calculateVel_vortex, inducedVelocity_vortex.
    rewrite for_loop_foldl, foldl_filter, Z.sub_0_r.
    apply foldl_ext_in. intros v j _.
    destruct (Z.eqb_spec (vIndex vort) j) as [Heq | Hne].
    + destruct (decide (j <> vIndex vort)) as [Hd | Hd];
        [exfalso; apply Hd; symmetry; exact Heq | reflexivity].
    + destruct (decide (j <> vIndex vort)) as [Hd | Hd];
        [|exfalso; apply Hd; intros Hj; apply Hne; symmetry; exact Hj].
      rewrite for_loop_foldl. apply foldl_ext_in. intros v' domain _.
      apply image_step_vortex.
  - unfold calculateVel_tracer, inducedVelocity_tracer.
    rewrite for_loop_foldl, Z.sub_0_r.
    apply foldl_ext_in. intros v j _.
    rewrite for_loop_foldl. apply foldl_ext_in. intros v' domain _.
    apply image_step_tracer.
Qed.
End ForceEvaluatorProps.

(** C5 as stated fails for a vortex body: in the degenerate test
    configuration the primary image of a source at distance 0.0625 is below
    0.1, yet [calculateVel_vortex] adds its contribution (a y-velocity of
    about -2.5), where the stated rule leaves only the far image (about
    +0.016). *)
Lemma calculateVel_vortex_keeps_near_image :
  calculateVel_vortex K6 2 (0, 0)%float (rd close_pair 0) close_pair
                      close_pair_radii
  <> inducedVelocity_vortex K6 (truncated_far_or_near K6) 2 (0, 0)%float
                            (rd close_pair 0) close_pair close_pair_radii.
Proof.
  intros Heq.
  apply (f_equal (fun v => PrimFloat.ltb (snd v) 0%float)) in Heq.
  vm_compute in Heq. discriminate.
Qed.


(** ** Domain wrap *)

Section MapLoops.
Context {A : Type} `{Inhabited A}.

(** A loop that rewrites each element of [[lo, hi)] in place. *)
Lemma for_loop_wr_map (f : A -> A) (lo hi : Z) (a : list A) :
  0 <= lo -> hi <= Z.of_nat (length a) ->
  let a' := for_loop lo hi (fun i a => wr a i (f (rd a i))) a in
  length a' = length a
  /\ forall k, rd a' k = if (lo <=? k) && (k <? hi) then f (rd a k)
                         else rd a k.
Proof.
  intros Hlo Hhi a'. subst a'.
  destruct (Z.le_gt_cases lo hi) as [Hle | Hgt].
  2: { rewrite for_loop_nop by lia. split; [reflexivity|]. intros k.
       destruct (Z.leb_spec lo k), (Z.ltb_spec k hi); try reflexivity. lia. }
  set (P := fun (i : Z) (a' : list A) =>
    length a' = length a
    /\ forall k, rd a' k = if (lo <=? k) && (k <? i) then f (rd a k)
                           else rd a k).
  apply (for_loop_inv P); [lia | |].
  - split; [reflexivity|]. intros k.
    destruct (Z.leb_spec lo k), (Z.ltb_spec k lo); try reflexivity. lia.
  - intros i ai Hi [Hlen Hrd]. split; [rewrite length_wr; assumption|].
    intros k. destruct (Z.eq_dec k i) as [-> | Hne].
    + rewrite rd_wr_eq by lia. rewrite Hrd.
      destruct (Z.leb_spec lo i), (Z.ltb_spec i i), (Z.ltb_spec i (i + 1));
        try lia; reflexivity.
    + rewrite rd_wr_ne by lia. rewrite Hrd.
      destruct (Z.leb_spec lo k), (Z.ltb_spec k i), (Z.ltb_spec k (i + 1));
        try lia; reflexivity.
Qed.
End MapLoops.

Section RealArithmetic.
Open Scope R_scope.

Lemma Rltb_true (x y : R) : x < y -> Rltb x y = true.
Proof. intros Hlt. unfold Rltb. destruct (Rlt_dec x y); [reflexivity | lra]. Qed.

Lemma Rltb_false (x y : R) : y <= x -> Rltb x y = false.
Proof. intros Hle. unfold Rltb. destruct (Rlt_dec x y); [lra | reflexivity]. Qed.

Lemma Rtrunc_nonneg (x : R) :
  0 <= x -> IZR (Rtrunc x) <= x < IZR (Rtrunc x) + 1.
Proof.
  intros Hx. unfold Rtrunc. destruct (Rle_dec 0 x); [|lra].
  pose proof (base_Int_part x). lra.
Qed.

Lemma Rtrunc_neg (x : R) :
  x < 0 -> x <= IZR (Rtrunc x) < x + 1.
Proof.
  intros Hx. unfold Rtrunc. destruct (Rle_dec 0 x); [lra|].
  pose proof (base_Int_part (- x)). rewrite opp_IZR. lra.
Qed.

Lemma Rfmod_nonneg (x y : R) : 0 < y -> 0 <= x -> 0 <= Rfmod x y < y.
Proof.
  intros Hy Hx. unfold Rfmod.
  assert (Hq : 0 <= x / y).
  { unfold Rdiv. apply Rmult_le_pos; [lra|].
    left. apply Rinv_0_lt_compat. lra. }
  pose proof (Rtrunc_nonneg (x / y) Hq) as [Hlo Hhi].
  assert (Hxy : x = x / y * y) by (field; lra).
  split.
  - apply (Rmult_le_compat_r y) in Hlo; lra.
  - apply (Rmult_lt_compat_r y) in Hhi; lra.
Qed.

Lemma Rfmod_neg (x y : R) : 0 < y -> x < 0 -> - y < Rfmod x y <= 0.
Proof.
  intros Hy Hx. unfold Rfmod.
  assert (Hq : x / y < 0).
  { assert (Hpos : 0 < - x * / y)
      by (apply Rmult_lt_0_compat; [lra | apply Rinv_0_lt_compat; lra]).
    unfold Rdiv. replace (x * / y) with (- (- x * / y)) by ring. lra. }
  pose proof (Rtrunc_neg (x / y) Hq) as [Hlo Hhi].
  assert (Hxy : x = x / y * y) by (field; lra).
  split.
  - apply (Rmult_lt_compat_r y) in Hhi; lra.
  - apply (Rmult_le_compat_r y) in Hlo; lra.
Qed.

(** The wrap of one coordinate lands in the closed interval, reaches its
    upper end only from the upper end or from a negative whole multiple of
    the size, and leaves a coordinate of the closed interval alone. *)
Lemma wrapCoordinate_range (size p : R) :
  0 < size ->
  let p' := wrapCoordinate size p in
  0 <= p' <= size
  /\ (p' < size \/ p = size \/ (p < 0 /\ Rfmod p size = 0))
  /\ (0 <= p <= size -> p' = p).
Proof.
  intros Hsize p'. subst p'. unfold wrapCoordinate. cbn [dltb dfmod dadd dZ R_DoubleOps].
  destruct (Rlt_dec p 0) as [Hneg | Hnn].
  - rewrite Rltb_true by assumption.
    pose proof (Rfmod_neg p size Hsize Hneg) as [Hlo Hhi].
    split; [lra|]. split; [|lra].
    destruct (Req_dec (Rfmod p size) 0) as [Hz | Hnz]; [right; right; auto|].
    left. lra.
  - rewrite Rltb_false by lra.
    destruct (Rlt_dec size p) as [Hbig | Hsmall].
    + rewrite Rltb_true by assumption.
      pose proof (Rfmod_nonneg p size Hsize ltac:(lra)) as [Hlo Hhi].
      split; [lra|]. split; [left; lra | lra].
    + rewrite Rltb_false by lra.
      split; [lra|]. split; [|reflexivity].
      destruct (Req_dec p size); [right; left; assumption | left; lra].
Qed.
End RealArithmetic.

Section WrapProps.
Variable K : Constants R.

(** [wrapPositions] rewrites the position of each body with
    [wrapCoordinate] and nothing else. *)
Lemma wrapPositions_bodies (N : Z) (vorts : list (Vortex R))
    (tracers : list (Tracer R)) (numTracers : Z) :
  N <= Z.of_nat (length vorts) ->
  numTracers <= Z.of_nat (length tracers) ->
  let r := wrapPositions K N vorts tracers numTracers in
  (forall i, 0 <= i < N ->
     rd (fst r) i
     = set_position (rd vorts i)
         (wrapCoordinate (DOMAIN_SIZE_X K) (position_0 (rd vorts i)))
         (wrapCoordinate (DOMAIN_SIZE_Y K) (position_1 (rd vorts i))))
  /\ (forall i, 0 <= i < numTracers ->
     rd (snd r) i
     = set_t_position (rd tracers i)
         (wrapCoordinate (DOMAIN_SIZE_X K) (t_position_0 (rd tracers i)))
         (wrapCoordinate (DOMAIN_SIZE_Y K) (t_position_1 (rd tracers i)))).
Proof.
  intros HN HM r. subst r. unfold wrapPositions. cbn [fst snd]. split.
  - intros i Hi.
    pose proof (for_loop_wr_map
      (fun v => set_position v
         (wrapCoordinate (DOMAIN_SIZE_X K) (position_0 v))
         (wrapCoordinate (DOMAIN_SIZE_Y K) (position_1 v)))
      0 N vorts ltac:(lia) HN) as [_ Hrd].
    cbv zeta in Hrd. rewrite Hrd.
    destruct (Z.leb_spec 0 i), (Z.ltb_spec i N); try lia. reflexivity.
  - intros i Hi.
    pose proof (for_loop_wr_map
      (fun t => set_t_position t
         (wrapCoordinate (DOMAIN_SIZE_X K) (t_position_0 t))
         (wrapCoordinate (DOMAIN_SIZE_Y K) (t_position_1 t)))
      0 numTracers tracers ltac:(lia) HM) as [_ Hrd].
    cbv zeta in Hrd. rewrite Hrd.
    destruct (Z.leb_spec 0 i), (Z.ltb_spec i numTracers); try lia. reflexivity.
Qed.

(** Where nothing is rounded (real arithmetic), one application of
    [wrapPositions] puts every vortex and tracer coordinate in the closed
    interval [[0, DOMAIN_SIZE]]; the upper end is then reached only from a
    coordinate equal to the size or a negative whole multiple of it; a
    coordinate already in the closed interval is unchanged. *)
Theorem wrapPositions_range (N : Z) (vorts : list (Vortex R))
    (tracers : list (Tracer R)) (numTracers : Z) :
  (0 < DOMAIN_SIZE_X K)%R -> (0 < DOMAIN_SIZE_Y K)%R ->
  N <= Z.of_nat (length vorts) ->
  numTracers <= Z.of_nat (length tracers) ->
  let r := wrapPositions K N vorts tracers numTracers in
  let ok := fun (size p p' : R) =>
    (0 <= p' <= size)%R
    /\ ((p' < size)%R \/ p = size \/ ((p < 0)%R /\ Rfmod p size = 0%R))
    /\ ((0 <= p <= size)%R -> p' = p) in
  (forall i, 0 <= i < N ->
     ok (DOMAIN_SIZE_X K) (position_0 (rd vorts i)) (position_0 (rd (fst r) i))
     /\ ok (DOMAIN_SIZE_Y K) (position_1 (rd vorts i))
           (position_1 (rd (fst r) i)))
  /\ (forall i, 0 <= i < numTracers ->
     ok (DOMAIN_SIZE_X K) (t_position_0 (rd tracers i))
        (t_position_0 (rd (snd r) i))
     /\ ok (DOMAIN_SIZE_Y K) (t_position_1 (rd tracers i))
           (t_position_1 (rd (snd r) i))).
Proof.
  intros HX HY HN HM r ok.
  destruct (wrapPositions_bodies N vorts tracers numTracers HN HM)
    as [Hv Ht].
  fold r in Hv, Ht. split.
  - intros i Hi. rewrite (Hv i Hi). cbn [position_0 position_1 set_position].
    split; apply wrapCoordinate_range; assumption.
  - intros i Hi. rewrite (Ht i Hi).
    cbn [t_position_0 t_position_1 set_t_position].
    split; apply wrapCoordinate_range; assumption.
Qed.
End WrapProps.

Lemma wrapPositions_range_witness :
  let r := wrapPositions KR 1 edge_vortex [] 0 in
  let ok := fun (size p p' : R) =>
    (0 <= p' <= size)%R
    /\ ((p' < size)%R \/ p = size \/ ((p < 0)%R /\ Rfmod p size = 0%R))
    /\ ((0 <= p <= size)%R -> p' = p) in
  (forall i, 0 <= i < 1 ->
     ok (DOMAIN_SIZE_X KR) (position_0 (rd edge_vortex i))
        (position_0 (rd (fst r) i))
     /\ ok (DOMAIN_SIZE_Y KR) (position_1 (rd edge_vortex i))
           (position_1 (rd (fst r) i)))
  /\ (forall i, 0 <= i < 0 ->
     ok (DOMAIN_SIZE_X KR) (t_position_0 (rd (@nil (Tracer R)) i))
        (t_position_0 (rd (snd r) i))
     /\ ok (DOMAIN_SIZE_Y KR) (t_position_1 (rd (@nil (Tracer R)) i))
           (t_position_1 (rd (snd r) i))).
Proof.
  apply (wrapPositions_range KR 1 edge_vortex [] 0).
  - simpl. lra.
  - simpl. lra.
  - simpl. lia.
  - simpl. lia.
Defined.

(** C9 as stated fails on the upper edge: a vortex whose x-coordinate is
    exactly [DOMAIN_SIZE_X] stays there, outside [[0, DOMAIN_SIZE_X)]. *)
Lemma wrapPositions_keeps_upper_edge :
  ~ (0 <= position_0 (rd (fst (wrapPositions KR 1 edge_vortex [] 0)) 0)
     < DOMAIN_SIZE_X KR)%R.
Proof.
  destruct (wrapPositions_bodies KR 1 edge_vortex [] 0) as [Hv _];
    [simpl; lia | simpl; lia |].
  rewrite (Hv 0) by lia.
  cbn [position_0 set_position].
  destruct (wrapCoordinate_range (DOMAIN_SIZE_X KR)
              (position_0 (rd edge_vortex 0))) as (_ & _ & Hsame);
    [simpl; lra|].
  rewrite Hsame by (simpl; lra).
  simpl. lra.
Qed.

(** ** Wrapping in rounded arithmetic *)

Section RoundedArithmetic.
Context {D : Type} `{DoubleOps D}.

(** What the wrap needs of an arithmetic.  The finite doubles are real
    numbers ([val] is undefined on infinities and NaN); comparison is that
    of the values; [fmod] by a positive double is exact; and adding a
    double that is not positive to a double, with an exact sum that is not
    negative, gives a double between 0 and the first one, however the sum
    is rounded. *)
Variable val : D -> option R.
Hypothesis val_zero : val (dZ 0) = Some 0%R.
Hypothesis val_ltb : forall a b x y,
  val a = Some x -> val b = Some y -> ((a <? b)%D = true <-> (x < y)%R).
Hypothesis val_add : forall a b x y,
  val a = Some x -> val b = Some y -> (y <= 0)%R -> (0 <= x + y)%R ->
  exists z, val (a + b)%D = Some z /\ (0 <= z <= x)%R.
Hypothesis val_fmod : forall a b x y,
  val a = Some x -> val b = Some y -> (0 < y)%R ->
  val (dfmod a b) = Some (Rfmod x y).

Lemma val_ltb_false (a b : D) (x y : R) :
  val a = Some x -> val b = Some y -> (y <= x)%R -> (a <? b)%D = false.
Proof.
  intros Ha Hb Hle. destruct (a <? b)%D eqn:E; [|reflexivity].
  apply (val_ltb a b x y Ha Hb) in E. lra.
Qed.

Lemma val_ltb_true (a b : D) (x y : R) :
  val a = Some x -> val b = Some y -> (x < y)%R -> (a <? b)%D = true.
Proof. intros Ha Hb Hlt. apply (val_ltb a b x y Ha Hb). exact Hlt. Qed.

(** The wrap of one finite coordinate is finite, lies in the closed
    interval and fires neither test again; a coordinate of the closed
    interval is returned as it is. *)
Lemma wrapCoordinate_closed (size p : D) (s x : R) :
  val size = Some s -> val p = Some x -> (0 < s)%R ->
  let p' := wrapCoordinate size p in
  (exists x', val p' = Some x' /\ (0 <= x' <= s)%R)
  /\ (p' <? dZ 0)%D = false
  /\ (p' >? size)%D = false
  /\ ((0 <= x <= s)%R -> p' = p).
Proof.
  intros Hs Hp Hpos p'.
  assert (Hrange : (exists x', val p' = Some x' /\ (0 <= x' <= s)%R)
                   /\ ((0 <= x <= s)%R -> p' = p)).
  { subst p'. unfold wrapCoordinate.
    destruct (p <? dZ 0)%D eqn:Eneg.
    - apply (val_ltb p (dZ 0) x 0%R Hp val_zero) in Eneg.
      pose proof (Rfmod_neg x s Hpos Eneg) as [Hlo Hhi].
      pose proof (val_fmod p size x s Hp Hs Hpos) as Hf.
      split; [|intros; lra].
      apply (val_add size (dfmod p size) s (Rfmod x s) Hs Hf); lra.
    - assert (Hnn : (0 <= x)%R).
      { destruct (Rlt_dec x 0) as [Hlt | Hge]; [|lra].
        rewrite (val_ltb_true p (dZ 0) x 0%R Hp val_zero Hlt) in Eneg.
        discriminate. }
      destruct (p >? size)%D eqn:Ebig.
      + apply (val_ltb size p s x Hs Hp) in Ebig.
        pose proof (Rfmod_nonneg x s Hpos Hnn) as [Hlo Hhi].
        split; [|intros; lra].
        exists (Rfmod x s). split; [|lra].
        apply val_fmod; assumption.
      + assert (Hle : (x <= s)%R).
        { destruct (Rlt_dec s x) as [Hlt | Hge]; [|lra].
          rewrite (val_ltb_true size p s x Hs Hp Hlt) in Ebig.
          discriminate. }
        split; [|reflexivity]. exists x. split; [assumption | lra]. }
  destruct Hrange as [(x' & Hx' & Hin) Hsame].
  split; [exists x'; split; assumption|].
  split; [apply (val_ltb_false p' (dZ 0) x' 0%R Hx' val_zero); lra|].
  split; [apply (val_ltb_false size p' s x' Hs Hx'); lra | exact Hsame].
Qed.

Variable K : Constants D.

(** [wrapPositions] rewrites the position of each body with
    [wrapCoordinate] and nothing else, in every arithmetic. *)
Lemma wrapPositions_each (N : Z) (vorts : list (Vortex D))
    (tracers : list (Tracer D)) (numTracers : Z) :
  N <= Z.of_nat (length vorts) ->
  numTracers <= Z.of_nat (length tracers) ->
  let r := wrapPositions K N vorts tracers numTracers in
  (forall i, 0 <= i < N ->
     rd (fst r) i
     = set_position (rd vorts i)
         (wrapCoordinate (DOMAIN_SIZE_X K) (position_0 (rd vorts i)))
         (wrapCoordinate (DOMAIN_SIZE_Y K) (position_1 (rd vorts i))))
  /\ (forall i, 0 <= i < numTracers ->
     rd (snd r) i
     = set_t_position (rd tracers i)
         (wrapCoordinate (DOMAIN_SIZE_X K) (t_position_0 (rd tracers i)))
         (wrapCoordinate (DOMAIN_SIZE_Y K) (t_position_1 (rd tracers i)))).
Proof.
  intros HN HM r. subst r. unfold wrapPositions. cbn [fst snd]. split.
  - intros i Hi.
    pose proof (for_loop_wr_map
      (fun v => set_position v
         (wrapCoordinate (DOMAIN_SIZE_X K) (position_0 v))
         (wrapCoordinate (DOMAIN_SIZE_Y K) (position_1 v)))
      0 N vorts ltac:(lia) HN) as [_ Hrd].
    cbv zeta in Hrd. rewrite Hrd.
    destruct (Z.leb_spec 0 i), (Z.ltb_spec i N); try lia. reflexivity.
  - intros i Hi.
    pose proof (for_loop_wr_map
      (fun t => set_t_position t
         (wrapCoordinate (DOMAIN_SIZE_X K) (t_position_0 t))
         (wrapCoordinate (DOMAIN_SIZE_Y K) (t_position_1 t)))
      0 numTracers tracers ltac:(lia) HM) as [_ Hrd].
    cbv zeta in Hrd. rewrite Hrd.
    destruct (Z.leb_spec 0 i), (Z.ltb_spec i numTracers); try lia. reflexivity.
Qed.

(** C9, as amended.  In every arithmetic with the four properties above,
    which binary64 has ([float_val_ltb], [float_val_add], [float_val_fmod])
    and the reals have: one application of [wrapPositions] puts every
    finite vortex and tracer coordinate in the closed interval
    [[0, DOMAIN_SIZE]], where neither test of the function fires again, and
    a coordinate already in the closed interval is returned unchanged. *)
Theorem wrapPositions_closed_range (sx sy : R) (N : Z)
    (vorts : list (Vortex D)) (tracers : list (Tracer D))
    (numTracers : Z) :
  val (DOMAIN_SIZE_X K) = Some sx -> val (DOMAIN_SIZE_Y K) = Some sy ->
  (0 < sx)%R -> (0 < sy)%R ->
  N <= Z.of_nat (length vorts) ->
  numTracers <= Z.of_nat (length tracers) ->
  let r := wrapPositions K N vorts tracers numTracers in
  let ok := fun (size : D) (s : R) (p p' : D) =>
    forall x, val p = Some x ->
      (exists x', val p' = Some x' /\ (0 <= x' <= s)%R)
      /\ (p' <? dZ 0)%D = false
      /\ (p' >? size)%D = false
      /\ ((0 <= x <= s)%R -> p' = p) in
  (forall i, 0 <= i < N ->
     ok (DOMAIN_SIZE_X K) sx (position_0 (rd vorts i))
        (position_0 (rd (fst r) i))
     /\ ok (DOMAIN_SIZE_Y K) sy (position_1 (rd vorts i))
           (position_1 (rd (fst r) i)))
  /\ (forall i, 0 <= i < numTracers ->
     ok (DOMAIN_SIZE_X K) sx (t_position_0 (rd tracers i))
        (t_position_0 (rd (snd r) i))
     /\ ok (DOMAIN_SIZE_Y K) sy (t_position_1 (rd tracers i))
           (t_position_1 (rd (snd r) i))).
Proof.
  intros HX HY Hsx Hsy HN HM r ok.
  destruct (wrapPositions_each N vorts tracers numTracers HN HM) as [Hv Ht].
  fold r in Hv, Ht. split.
  - intros i Hi. rewrite (Hv i Hi). cbn [position_0 position_1 set_position].
    split; intros x Hx.
    + exact (wrapCoordinate_closed _ _ sx x HX Hx Hsx).
    + exact (wrapCoordinate_closed _ _ sy x HY Hx Hsy).
  - intros i Hi. rewrite (Ht i Hi).
    cbn [t_position_0 t_position_1 set_t_position].
    split; intros x Hx.
    + exact (wrapCoordinate_closed _ _ sx x HX Hx Hsx).
    + exact (wrapCoordinate_closed _ _ sy x HY Hx Hsy).
Qed.
End RoundedArithmetic.

(** ** Binary64

    The four properties for the doubles of the machine, from the
    specification of the primitive floats: the value of a finite double is a
    whole number of units of [2^-1074]. *)

Lemma pow2_pos (k : Z) : 0 <= k -> 0 < 2 ^ k.
Proof. intros Hk. apply Z.pow_pos_nonneg; lia. Qed.

Lemma pow2_succ (k : Z) : 0 <= k -> 2 ^ (k + 1) = 2 * 2 ^ k.
Proof. intros Hk. rewrite Z.pow_add_r by lia. rewrite Z.pow_1_r. lia. Qed.

Lemma digits2_pos_bounds (m : positive) :
  2 ^ (Zpos (digits2_pos m) - 1) <= Zpos m < 2 ^ Zpos (digits2_pos m).
Proof.
  induction m as [m IH | m IH |]; cbn [digits2_pos].
  - rewrite Pos2Z.inj_succ.
    replace (Z.succ (Zpos (digits2_pos m)) - 1)
      with (Zpos (digits2_pos m) - 1 + 1) by lia.
    unfold Z.succ. rewrite !pow2_succ by lia. lia.
  - rewrite Pos2Z.inj_succ.
    replace (Z.succ (Zpos (digits2_pos m)) - 1)
      with (Zpos (digits2_pos m) - 1 + 1) by lia.
    unfold Z.succ. rewrite !pow2_succ by lia. lia.
  - cbn. lia.
Qed.

Lemma pos_iter_xO (m d : positive) :
  Zpos (Pos.iter xO m d) = Zpos m * 2 ^ Zpos d.
Proof.
  induction d as [|d IH] using Pos.peano_ind.
  - cbn. lia.
  - rewrite Pos.iter_succ, Pos2Z.inj_xO, IH, Pos2Z.inj_succ.
    unfold Z.succ. rewrite pow2_succ by lia. lia.
Qed.

(** [shl_align] keeps the value and lowers the exponent to the target. *)
Lemma shl_align_value (m : positive) (e e' : Z) :
  e' <= e ->
  exists p, shl_align m e e' = (p, e') /\ Zpos p = Zpos m * 2 ^ (e - e').
Proof.
  intros Hle. unfold shl_align.
  destruct (e' - e) as [|d|d] eqn:E.
  - exists m. assert (e' = e) as -> by lia. split; [reflexivity|].
    rewrite Z.sub_diag. cbn. lia.
  - lia.
  - exists (Pos.iter xO m d). split; [reflexivity|].
    rewrite pos_iter_xO. f_equal. f_equal. lia.
Qed.

Lemma shl_align_same (m : positive) (e e' : Z) :
  e <= e' -> shl_align m e e' = (m, e).
Proof.
  intros Hle. unfold shl_align.
  destruct (e' - e) as [|d|d] eqn:E; try reflexivity. lia.
Qed.

Lemma shr_1_spec (mrs : shr_record) :
  0 <= shr_m mrs ->
  shr_m (shr_1 mrs) = shr_m mrs / 2
  /\ inexact (shr_1 mrs) = inexact mrs || negb (shr_m mrs mod 2 =? 0).
Proof.
  destruct mrs as [m r s]. cbn [shr_m]. intros Hm. unfold inexact.
  destruct m as [|[p|p|]|p]; cbn -[Z.div Z.modulo]; try lia.
  - split; [reflexivity|]. destruct r, s; reflexivity.
  - split.
    + rewrite Pos2Z.inj_xI. apply (Z.div_unique _ _ _ 1); lia.
    + rewrite Pos2Z.inj_xI.
      replace ((2 * Zpos p + 1) mod 2) with 1
        by (apply (Z.mod_unique _ _ (Zpos p)); lia).
      destruct r, s; reflexivity.
  - split.
    + rewrite Pos2Z.inj_xO. apply (Z.div_unique _ _ _ 0); lia.
    + rewrite Pos2Z.inj_xO.
      replace ((2 * Zpos p) mod 2) with 0
        by (apply (Z.mod_unique _ _ (Zpos p)); lia).
      destruct r, s; reflexivity.
  - split; [reflexivity|]. destruct r, s; reflexivity.
Qed.

Lemma shifted_1 (mrs : shr_record) :
  0 <= shr_m mrs -> shifted 1 mrs (shr_1 mrs).
Proof. intros Hm. apply shr_1_spec. exact Hm. Qed.

Lemma shifted_trans (j k : Z) (a b c : shr_record) :
  0 < j -> 0 < k -> 0 <= shr_m a ->
  shifted j a b -> shifted k b c -> shifted (j + k) a c.
Proof.
  intros Hj Hk Ha [Hb1 Hb2] [Hc1 Hc2]. unfold shifted.
  pose proof (pow2_pos j ltac:(lia)) as Pj.
  pose proof (pow2_pos k ltac:(lia)) as Pk.
  rewrite Z.pow_add_r by lia. split.
  - rewrite Hc1, Hb1. apply Z.div_div; lia.
  - rewrite Hc2, Hb2, Hb1, <- orb_assoc. f_equal.
    rewrite (Z.rem_mul_r (shr_m a) (2 ^ j) (2 ^ k)) by lia.
    pose proof (Z.mod_pos_bound (shr_m a) (2 ^ j) Pj) as B1.
    pose proof (Z.mod_pos_bound (shr_m a / 2 ^ j) (2 ^ k) Pk) as B2.
    set (x := shr_m a mod 2 ^ j) in *.
    set (y := (shr_m a / 2 ^ j) mod 2 ^ k) in *.
    destruct (Z.eqb_spec x 0) as [Hx | Hx];
      destruct (Z.eqb_spec y 0) as [Hy | Hy]; cbn [negb orb];
      destruct (Z.eqb_spec (x + 2 ^ j * y) 0) as [Hxy | Hxy];
      try reflexivity; exfalso; nia.
Qed.

Lemma shifted_nonneg (k : Z) (a b : shr_record) :
  0 < k -> 0 <= shr_m a -> shifted k a b -> 0 <= shr_m b.
Proof.
  intros Hk Ha [Hb _]. rewrite Hb. apply Z.div_pos; [exact Ha|].
  apply pow2_pos. lia.
Qed.

Lemma iter_pos_shr_1 (p : positive) (mrs : shr_record) :
  0 <= shr_m mrs -> shifted (Zpos p) mrs (SpecFloat.iter_pos shr_1 p mrs).
Proof.
  revert mrs. induction p as [p IH | p IH |]; intros mrs Hm; cbn [SpecFloat.iter_pos].
  - pose proof (shifted_1 mrs Hm) as H1.
    pose proof (shifted_nonneg 1 _ _ ltac:(lia) Hm H1) as N1.
    pose proof (IH _ N1) as H2.
    pose proof (shifted_nonneg (Zpos p) _ _ ltac:(lia) N1 H2) as N2.
    pose proof (IH _ N2) as H3.
    rewrite Pos2Z.inj_xI.
    replace (2 * Zpos p + 1) with (1 + (Zpos p + Zpos p)) by lia.
    apply (shifted_trans 1 (Zpos p + Zpos p) mrs (shr_1 mrs)); try lia;
      [exact H1|].
    apply (shifted_trans (Zpos p) (Zpos p) _ (SpecFloat.iter_pos shr_1 p (shr_1 mrs)));
      try lia; assumption.
  - pose proof (IH _ Hm) as H2.
    pose proof (shifted_nonneg (Zpos p) _ _ ltac:(lia) Hm H2) as N2.
    pose proof (IH _ N2) as H3.
    rewrite Pos2Z.inj_xO.
    replace (2 * Zpos p) with (Zpos p + Zpos p) by lia.
    apply (shifted_trans (Zpos p) (Zpos p) _ (SpecFloat.iter_pos shr_1 p mrs));
      try lia; assumption.
  - apply shifted_1. exact Hm.
Qed.

Lemma fexp64 (z : Z) : fexp prec emax z = Z.max (z - 53) (-1074).
Proof. reflexivity. Qed.

Lemma digits2_pos_le (q : positive) (k : Z) :
  0 <= k -> Zpos q < 2 ^ k -> Zpos (digits2_pos q) <= k.
Proof.
  intros Hk Hq. pose proof (digits2_pos_bounds q) as [Hlo _].
  destruct (Z.le_gt_cases (Zpos (digits2_pos q)) k) as [Hle | Hgt];
    [exact Hle|].
  assert (2 ^ k <= 2 ^ (Zpos (digits2_pos q) - 1))
    by (apply Z.pow_le_mono_r; lia).
  lia.
Qed.

(** The second normalisation of [binary_round_aux]: a rounded mantissa of
    at most 53 bits stays, and [2^53] becomes [2^52] one exponent up. *)
Lemma renormalise (s : bool) (m2 c : Z) :
  -1074 <= c -> 0 <= m2 <= 2 ^ 53 ->
  (let '(mrs, e) := shr_fexp prec emax m2 c loc_Exact in
   match shr_m mrs with
   | Z0 => S754_zero s
   | Zpos m => if e <=? emax - prec then S754_finite s m e
               else S754_infinity s
   | Zneg _ => S754_nan
   end)
  = if m2 =? 0 then S754_zero s
    else if m2 <? 2 ^ 53
         then if c <=? 971 then S754_finite s (Z.to_pos m2) c
              else S754_infinity s
         else if c + 1 <=? 971
              then S754_finite s (Z.to_pos (2 ^ 52)) (c + 1)
              else S754_infinity s.
Proof.
  intros Hc Hm. unfold shr_fexp. rewrite fexp64.
  destruct m2 as [|q|q]; [| |lia].
  - cbn [Zdigits2 shr_record_of_loc]. unfold shr.
    destruct (Z.max (0 + c - 53) (-1074) - c) eqn:E; try reflexivity. lia.
  - cbn [Zdigits2 shr_record_of_loc].
    change (Zpos q =? 0) with false. cbv iota.
    destruct (Z.ltb_spec (Zpos q) (2 ^ 53)) as [Hlt | Hge].
    + pose proof (digits2_pos_le q 53 ltac:(lia) Hlt) as Hd.
      unfold shr.
      destruct (Z.max (Zpos (digits2_pos q) + c - 53) (-1074) - c) eqn:E;
        try lia; reflexivity.
    + assert (Hq : q = 9007199254740992%positive).
      { change (2 ^ 53) with 9007199254740992 in Hm, Hge. lia. }
      clear Hm Hge. subst q.
      change (Zpos (digits2_pos 9007199254740992)) with 54.
      replace (Z.max (54 + c - 53) (-1074) - c) with 1 by lia.
      reflexivity.
Qed.

Lemma round_nearest_even_cases (mrs : shr_record) :
  let m := round_nearest_even (shr_m mrs) (loc_of_shr_record mrs) in
  m = shr_m mrs \/ (m = shr_m mrs + 1 /\ inexact mrs = true).
Proof.
  destruct mrs as [m r s]. unfold inexact. cbn [shr_m shr_r shr_s].
  destruct r, s; cbn [loc_of_shr_record round_nearest_even orb];
    try destruct (Z.even m); auto.
Qed.

(** The rounding of a positive mantissa whose exponent is not above the
    canonical one: the mantissa loses [n] bits and is kept or, when a
    non-zero bit was lost, possibly incremented. *)
Lemma binary_round_aux_cases (s : bool) (mz : positive) (e1 : Z) :
  let c := fexp prec emax (Zpos (digits2_pos mz) + e1) in
  let n := c - e1 in
  0 <= n ->
  exists m2,
    (m2 = Zpos mz / 2 ^ n
     \/ (m2 = Zpos mz / 2 ^ n + 1 /\ Zpos mz mod 2 ^ n <> 0))
    /\ 0 <= m2 <= 2 ^ 53
    /\ binary_round_aux prec emax s (Zpos mz) e1 loc_Exact
       = if m2 =? 0 then S754_zero s
         else if m2 <? 2 ^ 53
              then if c <=? 971 then S754_finite s (Z.to_pos m2) c
                   else S754_infinity s
              else if c + 1 <=? 971
                   then S754_finite s (Z.to_pos (2 ^ 52)) (c + 1)
                   else S754_infinity s.
Proof.
  intros c n Hn.
  pose proof (digits2_pos_bounds mz) as [Hdlo Hdhi].
  set (d := Zpos (digits2_pos mz)) in *.
  assert (Hc : -1074 <= c) by (unfold c; rewrite fexp64; lia).
  assert (Hcd : d + e1 - 53 <= c) by (unfold c; rewrite fexp64; lia).
  pose proof (pow2_pos n Hn) as Pn.
  assert (Hm1 : 0 <= Zpos mz / 2 ^ n < 2 ^ 53).
  { split; [apply Z.div_pos; lia|].
    apply Z.div_lt_upper_bound; [lia|].
    rewrite <- Z.pow_add_r by lia.
    assert (2 ^ d <= 2 ^ (n + 53)) by (apply Z.pow_le_mono_r; lia).
    lia. }
  unfold binary_round_aux.
  unfold shr_fexp at 1. cbn [Zdigits2 shr_record_of_loc]. fold d. fold c.
  fold n. unfold shr at 1.
  destruct n as [|p|p] eqn:En; [| |lia].
  - exists (Zpos mz). cbn [shr_m loc_of_shr_record round_nearest_even].
    change (2 ^ 0) with 1 in *. rewrite Z.div_1_r in *.
    split; [left; reflexivity|]. split; [lia|].
    replace (e1) with c by lia.
    apply (renormalise s (Zpos mz) c Hc). lia.
  - pose proof (iter_pos_shr_1 p (Build_shr_record (Zpos mz) false false)
                  ltac:(cbn; lia)) as [Hs1 Hs2].
    cbn [shr_m] in Hs1, Hs2. unfold inexact at 2 in Hs2.
    cbn [shr_r shr_s orb] in Hs2.
    set (mrs := SpecFloat.iter_pos shr_1 p
                  (Build_shr_record (Zpos mz) false false)) in *.
    pose proof (round_nearest_even_cases mrs) as Hr. cbv zeta in Hr.
    set (m2 := round_nearest_even (shr_m mrs) (loc_of_shr_record mrs)) in *.
    exists m2.
    assert (Hm2 : m2 = Zpos mz / 2 ^ Zpos p
                  \/ (m2 = Zpos mz / 2 ^ Zpos p + 1
                      /\ Zpos mz mod 2 ^ Zpos p <> 0)).
    { destruct Hr as [Hr | [Hr Hi]]; [left; congruence|].
      right. split; [congruence|].
      rewrite Hs2 in Hi. intros Hz. rewrite Hz in Hi. discriminate. }
    split; [exact Hm2|].
    assert (Hb : 0 <= m2 <= 2 ^ 53) by (destruct Hm2 as [-> | [-> _]]; lia).
    split; [exact Hb|].
    replace (e1 + Zpos p) with c by lia.
    apply (renormalise s m2 c Hc Hb).
Qed.

(** [binary_round]: above the canonical exponent the mantissa is shifted
    left and nothing is lost; below it the mantissa loses the low bits. *)
Lemma binary_round_cases (s : bool) (m : positive) (e : Z) :
  let c := fexp prec emax (Zpos (digits2_pos m) + e) in
  exists m2,
    ((c <= e /\ m2 = Zpos m * 2 ^ (e - c))
     \/ (e < c
         /\ (m2 = Zpos m / 2 ^ (c - e)
             \/ (m2 = Zpos m / 2 ^ (c - e) + 1
                 /\ Zpos m mod 2 ^ (c - e) <> 0))))
    /\ 0 <= m2 <= 2 ^ 53
    /\ binary_round prec emax s m e = rounded s m2 c.
Proof.
  intros c. unfold binary_round. fold c.
  destruct (Z.le_gt_cases c e) as [Hle | Hgt].
  - destruct (shl_align_value m e c Hle) as (p & Hal & Hp).
    rewrite Hal.
    assert (Hd : Zpos (digits2_pos p) = Zpos (digits2_pos m) + (e - c)).
    { pose proof (digits2_pos_bounds p) as [Plo Phi].
      pose proof (digits2_pos_bounds m) as [Mlo Mhi].
      rewrite Hp in Plo, Phi.
      pose proof (pow2_pos (e - c) ltac:(lia)) as Pk.
      set (dp := Zpos (digits2_pos p)) in *.
      set (dm := Zpos (digits2_pos m)) in *.
      assert (Hlt1 : 2 ^ (dp - 1) < 2 ^ (dm + (e - c))).
      { rewrite Z.pow_add_r by lia. nia. }
      assert (Hlt2 : 2 ^ (dm - 1 + (e - c)) < 2 ^ dp).
      { rewrite Z.pow_add_r by lia. nia. }
      apply Z.pow_lt_mono_r_iff in Hlt1; [|lia|lia].
      apply Z.pow_lt_mono_r_iff in Hlt2; [|lia|lia].
      lia. }
    destruct (binary_round_aux_cases s p c) as (m2 & Hm2 & Hb & Hr).
    { cbv zeta. rewrite Hd.
      replace (Zpos (digits2_pos m) + (e - c) + c)
        with (Zpos (digits2_pos m) + e) by lia.
      fold c. lia. }
    cbv zeta in Hm2, Hr. rewrite Hd in Hm2, Hr.
    replace (Zpos (digits2_pos m) + (e - c) + c)
      with (Zpos (digits2_pos m) + e) in Hm2, Hr by lia.
    fold c in Hm2, Hr. rewrite Z.sub_diag in Hm2.
    change (2 ^ 0) with 1 in Hm2. rewrite Z.div_1_r, Z.mod_1_r in Hm2.
    exists m2. split; [|split; [exact Hb | exact Hr]].
    left. split; [exact Hle|]. destruct Hm2 as [-> | [_ Hne]]; [exact Hp|].
    contradiction.
  - rewrite shl_align_same by lia.
    destruct (binary_round_aux_cases s m e) as (m2 & Hm2 & Hb & Hr).
    { cbv zeta. fold c. lia. }
    cbv zeta in Hm2, Hr. fold c in Hm2, Hr.
    exists m2. split; [|split; [exact Hb | exact Hr]].
    right. split; [lia | exact Hm2].
Qed.

(** A valid finite double: the exponent range, the 53 bits of the mantissa
    and the leading bit of a normal number. *)
Lemma bounded_facts (m : positive) (e : Z) :
  SpecFloat.bounded prec emax m e = true ->
  -1074 <= e <= 971
  /\ Zpos m < 2 ^ 53
  /\ (-1074 < e -> 2 ^ 52 <= Zpos m).
Proof.
  unfold SpecFloat.bounded, canonical_mantissa. rewrite fexp64.
  intros Hb. apply andb_prop in Hb as [Hc He].
  apply Z.eqb_eq in Hc. apply Z.leb_le in He.
  change (emax - prec) with 971 in He.
  pose proof (digits2_pos_bounds m) as [Hlo Hhi].
  set (d := Zpos (digits2_pos m)) in *.
  split; [lia|]. split.
  - assert (2 ^ d <= 2 ^ 53) by (apply Z.pow_le_mono_r; lia). lia.
  - intros Hn. assert (d = 53) as Hd by lia. rewrite Hd in Hlo. exact Hlo.
Qed.

Lemma spec_units_rounded (s : bool) (m2 c : Z) :
  -1074 <= c -> 0 <= m2 <= 2 ^ 53 ->
  (m2 < 2 ^ 53 -> c <= 971) -> (m2 = 2 ^ 53 -> c + 1 <= 971) ->
  spec_units (rounded s m2 c)
  = Some ((if s then - m2 else m2) * 2 ^ (c + 1074)).
Proof.
  intros Hc Hm Hlt Heq. unfold rounded.
  destruct (Z.eqb_spec m2 0) as [-> | Hnz]; [destruct s; reflexivity|].
  destruct (Z.ltb_spec m2 (2 ^ 53)) as [Hs | Hb].
  - destruct (Z.leb_spec c 971) as [_ | Hbad]; [|lia].
    cbn [spec_units]. f_equal. f_equal.
    destruct m2 as [|q|q]; try lia. destruct s; reflexivity.
  - assert (m2 = 2 ^ 53) as -> by lia.
    destruct (Z.leb_spec (c + 1) 971) as [_ | Hbad]; [|lia].
    cbn [spec_units].
    replace (c + 1 + 1074) with (c + 1074 + 1) by lia.
    rewrite pow2_succ by lia. f_equal.
    change (2 ^ 53) with (2 * 2 ^ 52).
    change (Z.to_pos (2 ^ 52)) with 4503599627370496%positive.
    change (2 ^ 52) with 4503599627370496.
    destruct s; lia.
Qed.

(** Rounding does not pass a double: a positive value that is not above a
    valid double rounds to a finite double that is not above it either. *)
Lemma binary_round_upper (m mS : positive) (e eS : Z) :
  -1074 <= e ->
  SpecFloat.bounded prec emax mS eS = true ->
  Zpos m * 2 ^ (e + 1074) <= Zpos mS * 2 ^ (eS + 1074) ->
  exists z, spec_units (binary_round prec emax false m e) = Some z
            /\ 0 <= z <= Zpos mS * 2 ^ (eS + 1074).
Proof.
  intros He HS Hle.
  destruct (bounded_facts mS eS HS) as (HeS & HmS & _).
  destruct (binary_round_cases false m e) as (m2 & Hm2 & Hb & Hr).
  cbv zeta in Hm2. rewrite Hr. clear Hr.
  pose proof (digits2_pos_bounds m) as [Hdlo Hdhi].
  set (d := Zpos (digits2_pos m)) in *.
  set (c := fexp prec emax (d + e)) in *.
  assert (Hc : c = Z.max (d + e - 53) (-1074)) by (unfold c; apply fexp64).
  set (V := Zpos m * 2 ^ (e + 1074)) in *.
  set (S := Zpos mS * 2 ^ (eS + 1074)) in *.
  pose proof (pow2_pos (e + 1074) ltac:(lia)) as Pe.
  pose proof (pow2_pos (eS + 1074) ltac:(lia)) as PS.
  pose proof (pow2_pos (c + 1074) ltac:(lia)) as Pc.
  (* the canonical exponent of the value is not above that of the bound *)
  assert (HcS : c <= eS).
  { destruct (Z.le_gt_cases c eS) as [Hok | Hbad]; [exact Hok|].
    exfalso.
    assert (H1 : S < 2 ^ 53 * 2 ^ (eS + 1074)) by (unfold S; nia).
    rewrite <- Z.pow_add_r in H1 by lia.
    assert (H2 : 2 ^ (53 + (eS + 1074)) <= 2 ^ (d - 1 + (e + 1074)))
      by (apply Z.pow_le_mono_r; lia).
    rewrite (Z.pow_add_r 2 (d - 1)) in H2 by lia.
    assert (H3 : 2 ^ (d - 1) * 2 ^ (e + 1074) <= V) by (unfold V; nia).
    lia. }
  (* the rounded value is not above the bound *)
  assert (Hval : m2 * 2 ^ (c + 1074) <= S).
  { assert (HSu : S = Zpos mS * 2 ^ (eS - c) * 2 ^ (c + 1074)).
    { unfold S. rewrite <- Z.mul_assoc, <- Z.pow_add_r by lia.
      do 2 f_equal. lia. }
    destruct Hm2 as [[Hce ->] | [Hce Hm2]].
    - replace (Zpos m * 2 ^ (e - c) * 2 ^ (c + 1074)) with V; [exact Hle|].
      unfold V. rewrite <- Z.mul_assoc, <- Z.pow_add_r by lia.
      do 2 f_equal. lia.
    - pose proof (pow2_pos (c - e) ltac:(lia)) as Pn.
      assert (HVu : V = Zpos m * 2 ^ (e + 1074)) by reflexivity.
      assert (Hu : 2 ^ (c + 1074) = 2 ^ (c - e) * 2 ^ (e + 1074)).
      { rewrite <- Z.pow_add_r by lia. f_equal. lia. }
      pose proof (Z.div_mod (Zpos m) (2 ^ (c - e)) ltac:(lia)) as Hdm.
      pose proof (Z.mod_pos_bound (Zpos m) (2 ^ (c - e)) Pn) as Hmb.
      set (q := Zpos m / 2 ^ (c - e)) in *.
      set (r := Zpos m mod 2 ^ (c - e)) in *.
      destruct Hm2 as [-> | [-> Hne]].
      + rewrite Hu. nia.
      + (* rounded up: the bound is a multiple of the unit *)
        set (k := Zpos mS * 2 ^ (eS - c)) in *.
        assert (Hk : q < k).
        { destruct (Z.lt_ge_cases q k) as [Hok | Hbad]; [exact Hok|].
          exfalso.
          assert (k * 2 ^ (c + 1074) <= q * 2 ^ (c + 1074)) by nia.
          assert (q * 2 ^ (c + 1074) < V).
          { rewrite Hu, HVu, Hdm. nia. }
          lia. }
        rewrite HSu. nia. }
  assert (Hm2lt : m2 < 2 ^ 53 -> c <= 971) by lia.
  assert (Hm2eq : m2 = 2 ^ 53 -> c + 1 <= 971).
  { intros ->.
    assert (H1 : S < 2 ^ 53 * 2 ^ (eS + 1074)) by (unfold S; nia).
    destruct (Z.le_gt_cases eS c) as [Hbad | Hok]; [|lia].
    exfalso.
    assert (2 ^ (eS + 1074) <= 2 ^ (c + 1074))
      by (apply Z.pow_le_mono_r; lia).
    nia. }
  rewrite (spec_units_rounded false m2 c ltac:(lia) Hb Hm2lt Hm2eq).
  eexists. split; [reflexivity|]. split; [nia | exact Hval].
Qed.

(** Adding a double that is not positive to a double, with a sum that is
    not negative, gives a finite double between 0 and the first one. *)
Lemma float_add_between (a b : float) (ua ub : Z) :
  float_units a = Some ua -> float_units b = Some ub ->
  ub <= 0 -> 0 <= ua + ub ->
  exists z, float_units (a + b)%float = Some z /\ 0 <= z <= ua.
Proof.
  unfold float_units. rewrite add_spec.
  pose proof (Prim2SF_valid a) as Va. pose proof (Prim2SF_valid b) as Vb.
  destruct (Prim2SF a) as [sa | sa | | sa ma ea];
    destruct (Prim2SF b) as [sb | sb | | sb mb eb];
    cbn [spec_units]; try discriminate; intros [= <-] [= <-] Hb Hsum.
  - exists 0. split; [|lia]. destruct sa, sb; reflexivity.
  - exfalso. pose proof (pow2_pos (eb + 1074)) as P.
    cbn [valid_binary] in Vb. destruct (bounded_facts mb eb Vb) as (Hb' & _).
    specialize (P ltac:(lia)). destruct sb; nia.
  - eexists. split; [reflexivity|]. lia.
  - cbn [valid_binary] in Va, Vb.
    destruct (bounded_facts ma ea Va) as (Hea & _).
    destruct (bounded_facts mb eb Vb) as (Heb & _).
    pose proof (pow2_pos (ea + 1074) ltac:(lia)) as Pa.
    pose proof (pow2_pos (eb + 1074) ltac:(lia)) as Pb.
    assert (sb = true) as -> by (destruct sb; [reflexivity | nia]).
    assert (sa = false) as -> by (destruct sa; [nia | reflexivity]).
    unfold SF64add, SFadd. set (ez := Z.min ea eb).
    destruct (shl_align_value ma ea ez ltac:(lia)) as (p & Hp & Hpv).
    destruct (shl_align_value mb eb ez ltac:(lia)) as (q & Hq & Hqv).
    rewrite Hp, Hq. cbn [fst cond_Zopp].
    pose proof (pow2_pos (ez + 1074) ltac:(lia)) as Pz.
    assert (Hua : Zpos ma * 2 ^ (ea + 1074) = Zpos p * 2 ^ (ez + 1074)).
    { rewrite Hpv, <- Z.mul_assoc, <- Z.pow_add_r by lia.
      do 2 f_equal. lia. }
    assert (Hub : Zpos mb * 2 ^ (eb + 1074) = Zpos q * 2 ^ (ez + 1074)).
    { rewrite Hqv, <- Z.mul_assoc, <- Z.pow_add_r by lia.
      do 2 f_equal. lia. }
    assert (Hpq : Zpos q <= Zpos p) by nia.
    unfold binary_normalize.
    destruct (Zpos p + - Zpos q) as [|r|r] eqn:Er; [| |lia].
    + exists 0. split; [reflexivity | nia].
    + destruct (binary_round_upper r ma ez ea ltac:(lia) Va) as (z & Hz & Hzb).
      { rewrite Hua. nia. }
      exists z. split; [exact Hz | exact Hzb].
Qed.

(** Two valid doubles of the same sign compare by exponent, then by
    mantissa. *)
Lemma bounded_lt_exponent (m1 m2 : positive) (e1 e2 : Z) :
  SpecFloat.bounded prec emax m1 e1 = true ->
  SpecFloat.bounded prec emax m2 e2 = true ->
  e1 < e2 ->
  Zpos m1 * 2 ^ (e1 + 1074) < Zpos m2 * 2 ^ (e2 + 1074).
Proof.
  intros H1 H2 Hlt.
  destruct (bounded_facts m1 e1 H1) as (He1 & Hm1 & _).
  destruct (bounded_facts m2 e2 H2) as (He2 & _ & Hm2).
  specialize (Hm2 ltac:(lia)).
  pose proof (pow2_pos (e1 + 1074) ltac:(lia)) as P1.
  assert (Hp : 2 ^ (e2 + 1074) = 2 ^ (e2 - e1 - 1) * (2 * 2 ^ (e1 + 1074))).
  { rewrite <- pow2_succ, <- Z.pow_add_r by lia. f_equal. lia. }
  pose proof (pow2_pos (e2 - e1 - 1) ltac:(lia)) as P2.
  rewrite Hp.
  change (2 ^ 53) with (2 * 2 ^ 52) in Hm1.
  assert (Zpos m1 * 2 ^ (e1 + 1074) < 2 ^ 52 * (2 * 2 ^ (e1 + 1074))) by nia.
  assert (2 ^ 52 * (2 * 2 ^ (e1 + 1074))
          <= Zpos m2 * (2 ^ (e2 - e1 - 1) * (2 * 2 ^ (e1 + 1074)))) by nia.
  lia.
Qed.

Lemma spec_compare_units (x y : spec_float) (ux uy : Z) :
  valid_binary x = true -> valid_binary y = true ->
  spec_units x = Some ux -> spec_units y = Some uy ->
  SFcompare x y = Some (ux ?= uy).
Proof.
  intros Vx Vy.
  destruct x as [sx | sx | | sx mx ex]; destruct y as [sy | sy | | sy my ey];
    cbn [spec_units]; try discriminate; intros [= <-] [= <-];
    cbn [valid_binary] in Vx, Vy.
  - reflexivity.
  - destruct (bounded_facts my ey Vy) as (Hey & _).
    pose proof (pow2_pos (ey + 1074) ltac:(lia)) as P.
    cbn [SFcompare]. f_equal. symmetry.
    destruct sy; [apply Z.compare_gt_iff | apply Z.compare_lt_iff]; nia.
  - destruct (bounded_facts mx ex Vx) as (Hex & _).
    pose proof (pow2_pos (ex + 1074) ltac:(lia)) as P.
    cbn [SFcompare]. f_equal. symmetry.
    destruct sx; [apply Z.compare_lt_iff | apply Z.compare_gt_iff]; nia.
  - destruct (bounded_facts mx ex Vx) as (Hex & _).
    destruct (bounded_facts my ey Vy) as (Hey & _).
    pose proof (pow2_pos (ex + 1074) ltac:(lia)) as Px.
    pose proof (pow2_pos (ey + 1074) ltac:(lia)) as Py.
    cbn [SFcompare]. f_equal. symmetry.
    destruct sx, sy.
    + destruct (Z.compare_spec ex ey) as [-> | Hlt | Hgt].
      * change (Pos.compare_cont Eq mx my) with (Pos.compare mx my).
        rewrite Pos2Z.inj_compare.
        destruct (Z.compare_spec (Zpos mx) (Zpos my)) as [E | L | G];
          cbn [CompOpp];
          [apply Z.compare_eq_iff | apply Z.compare_gt_iff
           | apply Z.compare_lt_iff]; nia.
      * apply Z.compare_gt_iff.
        pose proof (bounded_lt_exponent mx my ex ey Vx Vy Hlt). lia.
      * apply Z.compare_lt_iff.
        pose proof (bounded_lt_exponent my mx ey ex Vy Vx Hgt). lia.
    + apply Z.compare_lt_iff. nia.
    + apply Z.compare_gt_iff. nia.
    + destruct (Z.compare_spec ex ey) as [-> | Hlt | Hgt].
      * change (Pos.compare_cont Eq mx my) with (Pos.compare mx my).
        rewrite Pos2Z.inj_compare.
        destruct (Z.compare_spec (Zpos mx) (Zpos my)) as [E | L | G];
          [apply Z.compare_eq_iff | apply Z.compare_lt_iff
           | apply Z.compare_gt_iff]; nia.
      * apply Z.compare_lt_iff.
        exact (bounded_lt_exponent mx my ex ey Vx Vy Hlt).
      * apply Z.compare_gt_iff.
        exact (bounded_lt_exponent my mx ey ex Vy Vx Hgt).
Qed.

(** The comparison of two finite doubles is that of their values. *)
Lemma float_ltb_units (a b : float) (ua ub : Z) :
  float_units a = Some ua -> float_units b = Some ub ->
  ((a <? b)%float = true <-> ua < ub).
Proof.
  intros Ha Hb. rewrite ltb_spec. unfold SFltb.
  rewrite (spec_compare_units _ _ ua ub (Prim2SF_valid a) (Prim2SF_valid b)
             Ha Hb).
  destruct (Z.compare_spec ua ub); split; intros; try lia; try discriminate;
    reflexivity.
Qed.

(** The canonical form of a mantissa of at most 53 bits whose value is a
    whole number of units: [binary_round] loses nothing.  The mantissa is
    given with [j] extra low zero bits. *)
Lemma binary_round_exact (s : bool) (r : positive) (j e : Z) :
  0 <= j -> Zpos r < 2 ^ 53 -> -1074 <= e <= 971 ->
  let c := Z.max (Zpos (digits2_pos r) + e - 53) (-1074) in
  binary_round prec emax s (Z.to_pos (Zpos r * 2 ^ j)) (e - j)
  = S754_finite s (Z.to_pos (Zpos r * 2 ^ (e - c))) c.
Proof.
  intros Hj Hr He c0.
  pose proof (pow2_pos j Hj) as Pj.
  set (m := Z.to_pos (Zpos r * 2 ^ j)).
  assert (Hm : Zpos m = Zpos r * 2 ^ j) by (unfold m; rewrite Z2Pos.id; nia).
  pose proof (digits2_pos_bounds r) as [Rlo Rhi].
  pose proof (digits2_pos_bounds m) as [Mlo Mhi].
  set (dr := Zpos (digits2_pos r)) in *.
  assert (Hdr : dr <= 53) by (apply digits2_pos_le; [lia | exact Hr]).
  assert (Hd : Zpos (digits2_pos m) = dr + j).
  { set (dm := Zpos (digits2_pos m)) in *. rewrite Hm in Mlo, Mhi.
    assert (Hlt1 : 2 ^ (dm - 1) < 2 ^ (dr + j))
      by (rewrite Z.pow_add_r by lia; nia).
    assert (Hlt2 : 2 ^ (dr - 1 + j) < 2 ^ dm)
      by (rewrite Z.pow_add_r by lia; nia).
    apply Z.pow_lt_mono_r_iff in Hlt1; [|lia|lia].
    apply Z.pow_lt_mono_r_iff in Hlt2; [|lia|lia].
    lia. }
  destruct (binary_round_cases s m (e - j)) as (m2 & Hm2 & Hb & Hround).
  cbv zeta in Hm2. rewrite Hround. clear Hround.
  rewrite Hd in *.
  replace (dr + j + (e - j)) with (dr + e) in * by lia.
  set (c := fexp prec emax (dr + e)) in *.
  assert (Hc : c = Z.max (dr + e - 53) (-1074)) by (unfold c; apply fexp64).
  assert (Hce : -1074 <= c <= e) by lia.
  pose proof (pow2_pos (e - c) ltac:(lia)) as Pec.
  assert (Hval : m2 = Zpos r * 2 ^ (e - c)).
  { destruct Hm2 as [[Hle ->] | [Hgt Hm2]].
    - rewrite Hm, <- Z.mul_assoc, <- Z.pow_add_r by lia.
      do 2 f_equal. lia.
    - assert (Hsplit : Zpos m = Zpos r * 2 ^ (e - c) * 2 ^ (c - (e - j))).
      { rewrite Hm, <- Z.mul_assoc, <- Z.pow_add_r by lia.
        do 2 f_equal. lia. }
      pose proof (pow2_pos (c - (e - j)) ltac:(lia)) as Pn.
      assert (Hq : Zpos m / 2 ^ (c - (e - j)) = Zpos r * 2 ^ (e - c))
        by (rewrite Hsplit; apply Z.div_mul; lia).
      assert (Hz : Zpos m mod 2 ^ (c - (e - j)) = 0)
        by (rewrite Hsplit; apply Z.mod_mul; lia).
      destruct Hm2 as [-> | [_ Hne]]; [exact Hq | contradiction]. }
  assert (Hlt : m2 < 2 ^ 53).
  { rewrite Hval.
    assert (2 ^ dr * 2 ^ (e - c) <= 2 ^ 53).
    { rewrite <- Z.pow_add_r by lia. apply Z.pow_le_mono_r; lia. }
    nia. }
  assert (Hpos : 0 < m2) by (rewrite Hval; nia).
  assert (c0 = c) as -> by (unfold c0; fold dr; lia).
  unfold rounded.
  destruct (Z.eqb_spec m2 0) as [Hz | _]; [lia|].
  destruct (Z.ltb_spec m2 (2 ^ 53)) as [_ | Hbad]; [|lia].
  destruct (Z.leb_spec c 971) as [_ | Hbad]; [|lia].
  rewrite Hval. reflexivity.
Qed.

Lemma binary_round_exact_units (s : bool) (r : positive) (j e : Z) :
  0 <= j -> Zpos r < 2 ^ 53 -> -1074 <= e <= 971 ->
  spec_units (binary_round prec emax s (Z.to_pos (Zpos r * 2 ^ j)) (e - j))
  = Some ((if s then Zneg r else Zpos r) * 2 ^ (e + 1074)).
Proof.
  intros Hj Hr He. rewrite (binary_round_exact s r j e Hj Hr He). cbv zeta.
  set (c := Z.max (Zpos (digits2_pos r) + e - 53) (-1074)).
  assert (Hdr : Zpos (digits2_pos r) <= 53)
    by (apply digits2_pos_le; [lia | exact Hr]).
  assert (Hc : -1074 <= c <= e) by lia.
  pose proof (pow2_pos (e - c) ltac:(lia)) as Pec.
  cbn [spec_units]. f_equal.
  replace (2 ^ (e + 1074)) with (2 ^ (e - c) * 2 ^ (c + 1074))
    by (rewrite <- Z.pow_add_r by lia; f_equal; lia).
  assert (Hp : Zpos (Z.to_pos (Zpos r * 2 ^ (e - c))) = Zpos r * 2 ^ (e - c))
    by (rewrite Z2Pos.id; nia).
  destruct s.
  - change (Zneg (Z.to_pos (Zpos r * 2 ^ (e - c))))
      with (- Zpos (Z.to_pos (Zpos r * 2 ^ (e - c)))).
    rewrite Hp. change (Zneg r) with (- Zpos r). lia.
  - rewrite Hp. lia.
Qed.

(** The double that [SF2Prim] builds from a mantissa of at most 53 bits and
    an exponent of the format has the value of the pair, canonical or
    not. *)
Lemma SF2Prim_units (s : bool) (r : positive) (e : Z) :
  Zpos r < 2 ^ 53 -> -1074 <= e <= 971 ->
  float_units (SF2Prim (S754_finite s r e))
  = Some ((if s then Zneg r else Zpos r) * 2 ^ (e + 1074)).
Proof.
  intros Hr He. unfold float_units, SF2Prim.
  assert (Hf : spec_units
                 (Prim2SF (Z.ldexp (of_uint63 (Uint63.of_Z (Zpos r))) e))
               = Some (Zpos r * 2 ^ (e + 1074))).
  { rewrite Z_ldexp_spec, of_uint63_spec, Uint63.of_Z_spec.
    rewrite Z.mod_small
      by (change Uint63.wB with (2 ^ 53 * 1024); lia).
    cbn [binary_normalize].
    pose proof (binary_round_exact false r 0 0 ltac:(lia) Hr ltac:(lia))
      as H0.
    cbv zeta in H0. change (2 ^ 0) with 1 in H0.
    rewrite Z.mul_1_r in H0. cbn [Z.to_pos] in H0.
    rewrite Z.sub_0_r in H0. rewrite H0. clear H0.
    assert (Hdr : Zpos (digits2_pos r) <= 53)
      by (apply digits2_pos_le; [lia | exact Hr]).
    set (dr := Zpos (digits2_pos r)) in *.
    replace (Z.max (dr + 0 - 53) (-1074)) with (dr - 53) by lia.
    cbn [SFldexp].
    replace (0 - (dr - 53)) with (53 - dr) by lia.
    replace (dr - 53 + e) with (e - (53 - dr)) by lia.
    apply (binary_round_exact_units false r (53 - dr) e); [lia | exact Hr | exact He]. }
  destruct s; [|exact Hf].
  rewrite opp_spec.
  destruct (Prim2SF (Z.ldexp (of_uint63 (Uint63.of_Z (Zpos r))) e))
    as [s0 | s0 | | s0 m0 e0]; cbn [spec_units SFopp] in *; try discriminate.
  - injection Hf as Hf. pose proof (pow2_pos (e + 1074) ltac:(lia)). nia.
  - injection Hf as Hf. f_equal.
    pose proof (pow2_pos (e + 1074) ltac:(lia)) as Pe.
    destruct s0; cbn [negb].
    + exfalso. destruct (Z.le_gt_cases 0 (e0 + 1074)) as [Hok | Hneg].
      * pose proof (pow2_pos (e0 + 1074) Hok). nia.
      * rewrite Z.pow_neg_r in Hf by lia. nia.
    + rewrite <- !Pos2Z.opp_pos, !Z.mul_opp_l, Hf. reflexivity.
Qed.

(** [float_fmod] is the exact remainder of the values, with the sign of the
    dividend. *)
Lemma float_fmod_units (a b : float) (ua ub : Z) :
  float_units a = Some ua -> float_units b = Some ub -> 0 < ub ->
  float_units (float_fmod a b) = Some (Z.rem ua ub).
Proof.
  intros Ha Hb Hpos. unfold float_fmod.
  pose proof (Prim2SF_valid a) as Va. pose proof (Prim2SF_valid b) as Vb.
  unfold float_units in Ha, Hb.
  destruct (Prim2SF a) as [sa | sa | | sa ma ea] eqn:Ea;
    destruct (Prim2SF b) as [sb | sb | | sb mb eb] eqn:Eb;
    cbn [spec_units] in Ha, Hb; try discriminate;
    injection Ha as <-; injection Hb as <-; try lia.
  - unfold float_units. rewrite Ea. cbn [spec_units].
    rewrite Z.rem_0_l by lia. reflexivity.
  - cbn [valid_binary SpecFloat.valid_binary] in Va, Vb.
    destruct (bounded_facts ma ea Va) as (Hea & Hma & _).
    destruct (bounded_facts mb eb Vb) as (Heb & Hmb & _).
    pose proof (pow2_pos (eb + 1074) ltac:(lia)) as Pb.
    assert (sb = false) as -> by (destruct sb; [nia | reflexivity]).
    set (e := Z.min ea eb).
    pose proof (pow2_pos (e + 1074) ltac:(lia)) as Pe.
    pose proof (pow2_pos (ea - e) ltac:(lia)) as Pae.
    pose proof (pow2_pos (eb - e) ltac:(lia)) as Pbe.
    set (A := Zpos ma * 2 ^ (ea - e)).
    set (B := Zpos mb * 2 ^ (eb - e)).
    assert (HA : Zpos ma * 2 ^ (ea + 1074) = A * 2 ^ (e + 1074)).
    { unfold A. rewrite <- Z.mul_assoc, <- Z.pow_add_r by lia.
      do 2 f_equal. lia. }
    assert (HB : Zpos mb * 2 ^ (eb + 1074) = B * 2 ^ (e + 1074)).
    { unfold B. rewrite <- Z.mul_assoc, <- Z.pow_add_r by lia.
      do 2 f_equal. lia. }
    assert (HBpos : 0 < B) by (unfold B; nia).
    assert (HApos : 0 < A) by (unfold A; nia).
    pose proof (Z.mod_pos_bound A B HBpos) as Hr.
    assert (Hrlt : A mod B < 2 ^ 53).
    { destruct (Z.le_ge_cases ea eb) as [Hle | Hge].
      - assert (e = ea) as He by lia.
        assert (A = Zpos ma)
          by (unfold A; rewrite He, Z.sub_diag; change (2 ^ 0) with 1; lia).
        pose proof (Z.mod_le A B ltac:(lia) HBpos). lia.
      - assert (e = eb) as He by lia.
        assert (B = Zpos mb)
          by (unfold B; rewrite He, Z.sub_diag; change (2 ^ 0) with 1; lia).
        lia. }
    assert (Hrem : Z.rem ((if sa then Zneg ma else Zpos ma)
                          * 2 ^ (ea + 1074))
                         (Zpos mb * 2 ^ (eb + 1074))
                   = (if sa then - (A mod B) else A mod B)
                     * 2 ^ (e + 1074)).
    { assert (Hposrem : Z.rem (A * 2 ^ (e + 1074)) (B * 2 ^ (e + 1074))
                        = A mod B * 2 ^ (e + 1074)).
      { rewrite Z.rem_mod_nonneg by nia.
        apply Z.mul_mod_distr_r; lia. }
      destruct sa.
      - change (Zneg ma) with (- Zpos ma).
        rewrite Z.mul_opp_l, HA, HB, Z.rem_opp_l by nia.
        rewrite Hposrem. lia.
      - rewrite HA, HB. exact Hposrem. }
    rewrite Hrem. clear Hrem.
    destruct (A mod B) as [|r|r] eqn:Er; [| |lia].
    + unfold float_units.
      rewrite Prim2SF_SF2Prim by reflexivity. cbn [spec_units].
      destruct sa; reflexivity.
    + rewrite (SF2Prim_units sa r e Hrlt ltac:(lia)).
      destruct sa; reflexivity.
Qed.

Section RealsOfUnits.
Open Scope R_scope.

(** [fmod] of two whole numbers is the remainder of the truncating
    division. *)
Lemma Rfmod_IZR (a b : Z) :
  (0 < b)%Z -> Rfmod (IZR a) (IZR b) = IZR (Z.rem a b).
Proof.
  intros Hb. unfold Rfmod.
  assert (HbR : 0 < IZR b) by (apply IZR_lt; exact Hb).
  assert (Hq : Rtrunc (IZR a / IZR b) = Z.quot a b).
  { unfold Rtrunc.
    pose proof (Z.quot_rem' a b) as Hqr.
    destruct (Z.le_gt_cases 0 a) as [Ha | Ha].
    - pose proof (Z.rem_bound_pos a b Ha Hb) as Hr.
      assert (HaR : 0 <= IZR a) by (apply IZR_le; exact Ha).
      destruct (Rle_dec 0 (IZR a / IZR b)) as [_ | Hneg].
      + symmetry. apply Int_part_spec.
        assert (Hdec : IZR a = IZR b * IZR (Z.quot a b) + IZR (Z.rem a b))
          by (rewrite <- mult_IZR, <- plus_IZR; f_equal; exact Hqr).
        assert (Hr0 : 0 <= IZR (Z.rem a b) < IZR b)
          by (split; [apply IZR_le | apply IZR_lt]; lia).
        assert (Hx : IZR a / IZR b
                     = IZR (Z.quot a b) + IZR (Z.rem a b) / IZR b)
          by (rewrite Hdec; field; lra).
        assert (Hfrac : 0 <= IZR (Z.rem a b) / IZR b < 1).
        { split.
          - apply Rmult_le_pos; [lra|]. left. apply Rinv_0_lt_compat. lra.
          - apply (Rmult_lt_reg_r (IZR b)); [lra|].
            unfold Rdiv. rewrite Rmult_assoc, Rinv_l by lra. lra. }
        lra.
      + exfalso. apply Hneg. apply Rmult_le_pos; [lra|].
        left. apply Rinv_0_lt_compat. lra.
    - assert (HaR : IZR a < 0) by (apply IZR_lt; exact Ha).
      assert (Hx0 : IZR a / IZR b < 0).
      { assert (0 < - IZR a * / IZR b)
          by (apply Rmult_lt_0_compat; [lra | apply Rinv_0_lt_compat; lra]).
        unfold Rdiv. lra. }
      destruct (Rle_dec 0 (IZR a / IZR b)) as [Hbad | _]; [lra|].
      pose proof (Z.rem_bound_pos (- a) b ltac:(lia) Hb) as Hr.
      pose proof (Z.quot_rem' (- a) b) as Hqr'.
      assert (Hqo : (Z.quot a b = - Z.quot (- a) b)%Z)
        by (rewrite Z.quot_opp_l by lia; lia).
      rewrite Hqo. f_equal. symmetry. apply Int_part_spec.
      assert (Hdec : - IZR a
                     = IZR b * IZR (Z.quot (- a) b) + IZR (Z.rem (- a) b))
        by (rewrite <- opp_IZR, <- mult_IZR, <- plus_IZR; f_equal;
            exact Hqr').
      assert (Hr0 : 0 <= IZR (Z.rem (- a) b) < IZR b)
        by (split; [apply IZR_le | apply IZR_lt]; lia).
      assert (Hx : - (IZR a / IZR b)
                   = IZR (Z.quot (- a) b) + IZR (Z.rem (- a) b) / IZR b).
      { replace (- (IZR a / IZR b)) with (- IZR a / IZR b) by (field; lra).
        rewrite Hdec. field. lra. }
      assert (Hfrac : 0 <= IZR (Z.rem (- a) b) / IZR b < 1).
      { split.
        - apply Rmult_le_pos; [lra|]. left. apply Rinv_0_lt_compat. lra.
        - apply (Rmult_lt_reg_r (IZR b)); [lra|].
          unfold Rdiv. rewrite Rmult_assoc, Rinv_l by lra. lra. }
      lra. }
  rewrite Hq, <- mult_IZR, <- minus_IZR. f_equal.
  pose proof (Z.quot_rem' a b). lia.
Qed.
End RealsOfUnits.

Lemma float_val_units (a : float) (x : R) :
  float_val a = Some x -> exists u, float_units a = Some u /\ x = IZR u.
Proof.
  unfold float_val. destruct (float_units a) as [u|]; [|discriminate].
  intros [= <-]. exists u. split; reflexivity.
Qed.

Lemma float_val_zero : float_val (dZ 0) = Some 0%R.
Proof. reflexivity. Qed.

Lemma float_val_ltb (a b : float) (x y : R) :
  float_val a = Some x -> float_val b = Some y ->
  ((a <? b)%D = true <-> (x < y)%R).
Proof.
  intros Ha Hb.
  destruct (float_val_units a x Ha) as (ua & Hua & ->).
  destruct (float_val_units b y Hb) as (ub & Hub & ->).
  cbn [dltb float_DoubleOps]. rewrite (float_ltb_units a b ua ub Hua Hub).
  split; [apply IZR_lt | apply lt_IZR].
Qed.

Lemma float_val_add (a b : float) (x y : R) :
  float_val a = Some x -> float_val b = Some y ->
  (y <= 0)%R -> (0 <= x + y)%R ->
  exists z, float_val (a + b)%D = Some z /\ (0 <= z <= x)%R.
Proof.
  intros Ha Hb Hy Hsum.
  destruct (float_val_units a x Ha) as (ua & Hua & ->).
  destruct (float_val_units b y Hb) as (ub & Hub & ->).
  apply le_IZR in Hy. rewrite <- plus_IZR in Hsum. apply le_IZR in Hsum.
  destruct (float_add_between a b ua ub Hua Hub Hy Hsum) as (z & Hz & Hzb).
  exists (IZR z). cbn [dadd float_DoubleOps]. unfold float_val. rewrite Hz.
  split; [reflexivity|]. split; apply IZR_le; lia.
Qed.

Lemma float_val_fmod (a b : float) (x y : R) :
  float_val a = Some x -> float_val b = Some y -> (0 < y)%R ->
  float_val (dfmod a b) = Some (Rfmod x y).
Proof.
  intros Ha Hb Hy.
  destruct (float_val_units a x Ha) as (ua & Hua & ->).
  destruct (float_val_units b y Hb) as (ub & Hub & ->).
  apply lt_IZR in Hy.
  cbn [dfmod float_DoubleOps]. unfold float_val.
  rewrite (float_fmod_units a b ua ub Hua Hub Hy), Rfmod_IZR by exact Hy.
  reflexivity.
Qed.

(** On binary64, with the values counted in units of [2^-1074]: the domain
    size 10 is [10 * 2^1074] units. *)
Lemma wrapPositions_closed_range_witness :
  let val := float_val in
  let K := K0 in
  let sx := IZR (10 * 2 ^ 1074) in
  let sy := IZR (10 * 2 ^ 1074) in
  let r := wrapPositions K 3 stray_vortices stray_tracers 2 in
  let ok := fun (size : float) (s : R) (p p' : float) =>
    forall x, val p = Some x ->
      (exists x', val p' = Some x' /\ (0 <= x' <= s)%R)
      /\ (p' <? dZ 0)%D = false
      /\ (p' >? size)%D = false
      /\ ((0 <= x <= s)%R -> p' = p) in
  (forall i, 0 <= i < 3 ->
     ok (DOMAIN_SIZE_X K) sx (position_0 (rd stray_vortices i))
        (position_0 (rd (fst r) i))
     /\ ok (DOMAIN_SIZE_Y K) sy (position_1 (rd stray_vortices i))
           (position_1 (rd (fst r) i)))
  /\ (forall i, 0 <= i < 2 ->
     ok (DOMAIN_SIZE_X K) sx (t_position_0 (rd stray_tracers i))
        (t_position_0 (rd (snd r) i))
     /\ ok (DOMAIN_SIZE_Y K) sy (t_position_1 (rd stray_tracers i))
           (t_position_1 (rd (snd r) i))).
Proof.
  apply (wrapPositions_closed_range float_val float_val_zero float_val_ltb
           float_val_add float_val_fmod K0).
  - unfold float_val.
    replace (float_units (DOMAIN_SIZE_X K0)) with (Some (10 * 2 ^ 1074))
      by (vm_compute; reflexivity).
    reflexivity.
  - unfold float_val.
    replace (float_units (DOMAIN_SIZE_Y K0)) with (Some (10 * 2 ^ 1074))
      by (vm_compute; reflexivity).
    reflexivity.
  - apply IZR_lt. vm_compute. reflexivity.
  - apply IZR_lt. vm_compute. reflexivity.
  - simpl. lia.
  - simpl. lia.
Defined.

(** What the wrap makes of these bodies in doubles: the coordinates 23, -4
    and -17, 31 come back inside, [-2^-60] is rounded onto the upper edge,
    -20 lands on it, and 10 stays on it. *)
Lemma wrapPositions_stray_bodies :
  let r := wrapPositions K0 3 stray_vortices stray_tracers 2 in
  map (fun v => (position_0 v, position_1 v)) (take 3 (fst r))
  = [(3, 6); (10, 10); (3.5, 10)]%float
  /\ map (fun t => (t_position_0 t, t_position_1 t)) (snd r)
     = [(3, 1); (0x1p-49, 0x1p-1074)]%float.
Proof. vm_compute. split; reflexivity. Qed.

(** The wrap in doubles: the sum [DOMAIN_SIZE + fmod(p, DOMAIN_SIZE)] is
    rounded, and for a small negative coordinate it rounds to the domain
    size itself. *)
Lemma wrapCoordinate_rounds_to_upper_edge :
  wrapCoordinate 10%float (-0x1p-60)%float = 10%float.
Proof. reflexivity. Qed.

Lemma float_leb_units (a b : float) (ua ub : Z) :
  float_units a = Some ua -> float_units b = Some ub ->
  ((a <=? b)%float = true <-> ua <= ub).
Proof.
  intros Ha Hb. rewrite leb_spec. unfold SFleb.
  rewrite (spec_compare_units _ _ ua ub (Prim2SF_valid a) (Prim2SF_valid b)
             Ha Hb).
  destruct (Z.compare_spec ua ub); split; intros; try lia; try discriminate;
    reflexivity.
Qed.

(** The wrap of one coordinate on binary64, in the comparisons of the
    machine: for a finite coordinate and a finite positive size the result
    is between 0 and the size, both included, and a coordinate that is
    already there is returned as it is. *)
Lemma wrapCoordinate_binary64 (size p : float) :
  is_Some (float_units size) -> is_Some (float_units p) ->
  (0 <? size)%float = true ->
  let p' := wrapCoordinate size p in
  (0 <=? p')%float = true
  /\ (p' <=? size)%float = true
  /\ ((0 <=? p)%float = true -> (p <=? size)%float = true -> p' = p).
Proof.
  intros [us Hus] [up Hup] Hpos p'.
  assert (Hz : float_units 0%float = Some 0) by reflexivity.
  apply (float_ltb_units 0%float size 0 us Hz Hus) in Hpos.
  destruct (wrapCoordinate_closed float_val float_val_zero float_val_ltb
              float_val_add float_val_fmod size p (IZR us) (IZR up))
    as ((x' & Hx' & Hin) & _ & _ & Hsame).
  { unfold float_val. rewrite Hus. reflexivity. }
  { unfold float_val. rewrite Hup. reflexivity. }
  { apply IZR_lt. exact Hpos. }
  fold p' in Hx', Hsame.
  destruct (float_val_units p' x' Hx') as (u' & Hu' & ->).
  destruct Hin as [Hlo Hhi]. apply le_IZR in Hlo, Hhi.
  split; [apply (float_leb_units 0%float p' 0 u' Hz Hu'); exact Hlo|].
  split; [apply (float_leb_units p' size u' us Hu' Hus); exact Hhi|].
  intros H0 H1. apply Hsame.
  apply (float_leb_units 0%float p 0 up Hz Hup) in H0.
  apply (float_leb_units p size up us Hup Hus) in H1.
  split; apply IZR_le; assumption.
Qed.

(** ** Population manager *)

Section MemmoveLemmas.
Context {A : Type} `{Inhabited A}.

Lemma rd_total (a : list A) (i : Z) : 0 <= i -> rd a i = a !!! Z.to_nat i.
Proof. intros Hi. unfold rd. destruct (Z.ltb_spec i 0); [lia | reflexivity]. Qed.

Lemma length_memmove (buf : list A) (dst src n : Z) :
  0 <= dst -> 0 <= src -> 0 <= n ->
  dst + n <= Z.of_nat (length buf) -> src + n <= Z.of_nat (length buf) ->
  length (memmove buf dst src n) = length buf.
Proof.
  intros Hd Hs Hn Hdn Hsn. unfold memmove.
  rewrite !length_app, !length_take, !length_drop. lia.
Qed.

Lemma rd_memmove (buf : list A) (dst src n k : Z) :
  0 <= dst -> 0 <= src -> 0 <= n ->
  dst + n <= Z.of_nat (length buf) -> src + n <= Z.of_nat (length buf) ->
  rd (memmove buf dst src n) k
  = if (dst <=? k) && (k <? dst + n) then rd buf (src + (k - dst))
    else rd buf k.
Proof.
  intros Hd Hs Hn Hdn Hsn.
  destruct (Z.ltb_spec k 0) as [Hk | Hk].
  { unfold rd at 1 3. destruct (Z.ltb_spec k 0); [|lia].
    destruct (Z.leb_spec dst k); [lia | reflexivity]. }
  assert (Hchunk : length (take (Z.to_nat n) (drop (Z.to_nat src) buf))
                   = Z.to_nat n).
  { rewrite length_take, length_drop. lia. }
  rewrite rd_total by lia. unfold memmove. rewrite Hchunk.
  destruct (Z.leb_spec dst k) as [Hdk | Hdk]; cbn [andb].
  - rewrite lookup_total_app_r by (rewrite length_take; lia).
    rewrite length_take.
    replace (Z.to_nat k - Z.to_nat dst `min` length buf)%nat
      with (Z.to_nat (k - dst)) by lia.
    destruct (Z.ltb_spec k (dst + n)) as [Hkn | Hkn].
    + rewrite lookup_total_app_l by (rewrite Hchunk; lia).
      rewrite lookup_total_take_lt by lia.
      rewrite lookup_total_drop, rd_total by lia. f_equal. lia.
    + rewrite lookup_total_app_r by (rewrite Hchunk; lia).
      rewrite Hchunk, lookup_total_drop, rd_total by lia. f_equal. lia.
  - rewrite lookup_total_app_l by (rewrite length_take; lia).
    rewrite lookup_total_take_lt by lia. rewrite rd_total by lia. reflexivity.
Qed.
End MemmoveLemmas.

Section DeleteProps.
Context {D : Type} `{DoubleOps D}.
Context {G : Type}.
Variable K : Constants D.

(** What [deleteVortex] does to the vortex array and the scalars: the
    vortices above the deleted one move down by one place with their
    [vIndex] decremented, and the count drops by one. *)
Lemma deleteVortex_vorts (vort : Z) (p : Pop D G) :
  let d := vIndex (rd (vorts p) vort) in
  let N := numDriverVorts p in
  let p' := deleteVortex K vort p in
  0 <= d < N -> N <= Z.of_nat (length (vorts p)) ->
  numDriverVorts p' = N - 1
  /\ nextVortID p' = nextVortID p
  /\ rngState p' = rngState p
  /\ vortsAllocated p' = vortsAllocated p
  /\ length (vorts p') = length (vorts p)
  /\ (forall i, 0 <= i < d -> rd (vorts p') i = rd (vorts p) i)
  /\ (forall i, d <= i < N - 1 ->
        rd (vorts p') i
        = set_vIndex (rd (vorts p) (i + 1))
                     (vIndex (rd (vorts p) (i + 1)) - 1)).
Proof.
  intros d N p' Hd HN. subst p'. unfold deleteVortex. fold d. fold N.
  cbn [numDriverVorts nextVortID rngState vortsAllocated vorts].
  set (moved := memmove (vorts p) d (d + 1) (N - d - 1)).
  assert (Hlen : length moved = length (vorts p))
    by (apply length_memmove; lia).
  pose proof (for_loop_wr_map
    (fun v : Vortex D => set_vIndex v (vIndex v - 1)) d (N - 1) moved
    ltac:(lia) ltac:(lia)) as [Hlen' Hrd].
  cbv zeta in Hlen', Hrd.
  repeat (split; [first [reflexivity | congruence]|]). split.
  - intros i Hi. rewrite Hrd.
    destruct (Z.leb_spec d i); [lia|]. cbn [andb].
    unfold moved. rewrite rd_memmove by lia.
    destruct (Z.leb_spec d i); [lia | reflexivity].
  - intros i Hi. rewrite Hrd.
    destruct (Z.leb_spec d i), (Z.ltb_spec i (N - 1)); try lia. cbn [andb].
    unfold moved. rewrite rd_memmove by lia.
    destruct (Z.leb_spec d i), (Z.ltb_spec i (d + (N - d - 1))); try lia.
    cbn [andb]. replace (d + 1 + (i - d)) with (i + 1) by lia. reflexivity.
Qed.
End DeleteProps.

Section RandomizeProps.
Context {D : Type} `{DoubleOps D}.
Context {G : Type} `{RNGOps D G}.
Variable K : Constants D.
Variable currentTimestep : Z.

Lemma randomizeVortex_resample_accepted (fuel : nat) (g g' : G) (x : D) :
  randomizeVortex_resample K fuel g = Some (x, g') ->
  (dfabs x <? lit_0_001)%D = false.
Proof.
  revert g. induction fuel as [|fuel IH]; intros g; [discriminate|].
  cbn [randomizeVortex_resample].
  destruct (generateNormalRand (VORTEX_INTENSITY_SIGMA K) g) as [y g1].
  destruct (dfabs y <? lit_0_001)%D eqn:Hy; [apply IH|].
  intros [= <- <-]. exact Hy.
Qed.

(** When the generator yields an accepted intensity within [fuel] draws,
    [randomizeVortex] returns: the vortex gets the next identifier, an
    accepted intensity, zero velocity and the current step, and keeps its
    [vIndex]; nothing else of the population changes. *)
Lemma randomizeVortex_Some (fuel : nat) (vort : Z) (p : Pop D G) :
  (forall g, is_Some (randomizeVortex_resample K fuel g)) ->
  exists p' w,
    randomizeVortex K currentTimestep fuel vort p = Some p'
    /\ numDriverVorts p' = numDriverVorts p
    /\ nextVortID p' = nextVortID p + 1
    /\ vortsAllocated p' = vortsAllocated p
    /\ vortexRadii p' = vortexRadii p
    /\ tracerRads p' = tracerRads p
    /\ vorts p' = wr (vorts p) vort w
    /\ vIndex w = vIndex (rd (vorts p) vort)
    /\ vID w = nextVortID p
    /\ velocity_0 w = d0 /\ velocity_1 w = d0
    /\ initStep w = currentTimestep
    /\ (dfabs (intensity w) <? lit_0_001)%D = false.
Proof.
  intros Hrng. unfold randomizeVortex.
  destruct (generateUniformRandInRange (dZ 0) (DOMAIN_SIZE_X K) (rngState p))
    as [x g1].
  destruct (generateUniformRandInRange (dZ 0) (DOMAIN_SIZE_Y K) g1) as [y g2].
  destruct (generateNormalRand (VORTEX_INTENSITY_SIGMA K) g2) as [i0 g3].
  destruct (Hrng g3) as [[i g4] Hi]. rewrite Hi. cbn [mbind option_bind].
  eexists _, _. split; [reflexivity|].
  cbn [numDriverVorts nextVortID vortsAllocated vortexRadii tracerRads vorts
       vIndex vID velocity_0 velocity_1 initStep intensity
       set_vID set_position set_intensity set_velocity set_initStep].
  repeat (split; [reflexivity|]).
  eapply randomizeVortex_resample_accepted. exact Hi.
Qed.
End RandomizeProps.

Section MergeProps.
Context {D : Type} `{DoubleOps D}.
Context {G : Type} `{RNGOps D G}.
Variable K : Constants D.
Variable currentTimestep : Z.

(** The row scan runs the merge block on the first pair of the row whose
    cached distance is below the merge radius. *)
Lemma mergeVorts_row_fires (fuel : nat) (tracers : list (Tracer D))
    (n : nat) (v0 v1 v2 : Z) (s : MergeState D G) :
  v0 <= v1 < v0 + Z.of_nat n ->
  (forall v, v0 <= v < v1 ->
     (rd (vortexRadii (ms_pop s)) (calculateVortexRadiiIndex v v2)
      <? VORTEX_MERGE_RADIUS K)%D = false) ->
  (rd (vortexRadii (ms_pop s)) (calculateVortexRadiiIndex v1 v2)
   <? VORTEX_MERGE_RADIUS K)%D = true ->
  mergeVorts_row K currentTimestep fuel tracers n v0 v2 s
  = mergeVorts_merge K currentTimestep fuel tracers v1 v2 s.
Proof.
  revert v0. induction n as [|n IH]; intros v0 Hv Hbefore Hhit; [lia|].
  cbn [mergeVorts_row]. destruct (Z.eq_dec v0 v1) as [-> | Hne].
  - rewrite Hhit. reflexivity.
  - rewrite Hbefore by lia. apply IH; [lia | | assumption].
    intros v Hv'. apply Hbefore. lia.
Qed.

(** The merge block: the first vortex takes the weighted position and the
    merged intensity; the second is reinitialised when a spawn is left and
    deleted otherwise. *)
Lemma mergeVorts_merge_result (fuel : nat) (tracers : list (Tracer D))
    (v1 v2 : Z) (s : MergeState D G) :
  let p := ms_pop s in
  let N := numDriverVorts p in
  let vort1 := rd (vorts p) v1 in
  let vort2 := rd (vorts p) v2 in
  let absInt1 := dfabs (intensity vort1) in
  let absInt2 := dfabs (intensity vort2) in
  0 <= v1 < v2 -> v2 < N -> N <= Z.of_nat (length (vorts p)) ->
  vIndex vort2 = v2 ->
  (forall g, is_Some (randomizeVortex_resample K fuel g)) ->
  exists s',
    mergeVorts_merge K currentTimestep fuel tracers v1 v2 s = Some s'
    /\ let p' := ms_pop s' in
       let merged := rd (vorts p') v1 in
       position_0 merged
       = ((position_0 vort1 * absInt1 + position_0 vort2 * absInt2)
          / (absInt1 + absInt2))%D
       /\ position_1 merged
          = ((position_1 vort1 * absInt1 + position_1 vort2 * absInt2)
             / (absInt1 + absInt2))%D
       /\ intensity merged
          = mergeIntensities (intensity vort1) (intensity vort2)
       /\ ms_merges s' = ms_merges s + 1
       /\ (ms_spawnsLeft s <> 0 ->
             numDriverVorts p' = N
             /\ ms_spawnsLeft s' = ms_spawnsLeft s - 1
             /\ vIndex (rd (vorts p') v2) = v2
             /\ vID (rd (vorts p') v2) = nextVortID p
             /\ nextVortID p' = nextVortID p + 1
             /\ velocity_0 (rd (vorts p') v2) = d0
             /\ velocity_1 (rd (vorts p') v2) = d0
             /\ initStep (rd (vorts p') v2) = currentTimestep
             /\ (dfabs (intensity (rd (vorts p') v2)) <? lit_0_001)%D = false)
       /\ (ms_spawnsLeft s = 0 ->
             numDriverVorts p' = N - 1
             /\ ms_spawnsLeft s' = 0
             /\ forall i, v2 <= i < N - 1 ->
                  rd (vorts p') i
                  = set_vIndex (rd (vorts p) (i + 1))
                               (vIndex (rd (vorts p) (i + 1)) - 1)).
Proof.
  intros p N vort1 vort2 absInt1 absInt2 Hv1 Hv2 HN Hvi Hrng.
  unfold mergeVorts_merge. fold p. fold vort1. fold vort2.
  fold absInt1. fold absInt2.
  set (merged1 := set_intensity
         (set_position vort1
            ((position_0 vort1 * absInt1 + position_0 vort2 * absInt2)
             / (absInt1 + absInt2))%D
            ((position_1 vort1 * absInt1 + position_1 vort2 * absInt2)
             / (absInt1 + absInt2))%D)
         (mergeIntensities (intensity vort1) (intensity vort2))).
  set (p1 := set_vorts p (wr (vorts p) v1 merged1)).
  assert (Hrd1 : rd (vorts p1) v1 = merged1)
    by (apply rd_wr_eq; lia).
  assert (Hrd2 : rd (vorts p1) v2 = vort2)
    by (unfold p1; cbn [vorts set_vorts]; apply rd_wr_ne; lia).
  assert (Hlen1 : length (vorts p1) = length (vorts p))
    by (apply length_wr).
  destruct (Z.eqb_spec (ms_spawnsLeft s) 0) as [Hzero | Hleft]; cbn [negb].
  - (* no spawn left: the second vortex is deleted *)
    cbn [mbind option_bind].
    destruct (updateRadii_pythagorean _ _ _ _ _ _) as [vr tr] eqn:Hupd.
    eexists. split; [reflexivity|].
    cbn [ms_pop ms_merges ms_spawnsLeft set_radii vorts numDriverVorts].
    pose proof (deleteVortex_vorts K v2 p1) as Hdel. cbv zeta in Hdel.
    rewrite Hrd2, Hvi in Hdel.
    destruct Hdel as (HN' & _ & _ & _ & _ & Hlow & Hhigh);
      [cbn [numDriverVorts p1 set_vorts]; fold N; lia
      | cbn [numDriverVorts p1 set_vorts]; rewrite Hlen1; fold N; lia |].
    rewrite (Hlow v1) by lia. rewrite Hrd1.
    repeat (split; [reflexivity|]). split; [intros; contradiction|].
    intros _. split; [exact HN'|]. split; [assumption|].
    intros i Hi. rewrite (Hhigh i) by (cbn [numDriverVorts p1 set_vorts]; fold N; lia).
    unfold p1. cbn [vorts set_vorts]. rewrite rd_wr_ne by lia. reflexivity.
  - (* a spawn is left: the second vortex is reinitialised in place *)
    destruct (randomizeVortex_Some K currentTimestep fuel v2 p1 Hrng)
      as (p2 & w & Hrand & HN2 & Hid2 & _ & _ & _ & Hvorts2 & Hwi & Hwid
          & Hw0 & Hw1 & Hws & Hwint).
    rewrite Hrand. cbn [mbind option_bind].
    destruct (updateRadii_pythagorean _ _ _ _ _ _) as [vr tr] eqn:Hupd.
    eexists. split; [reflexivity|].
    cbn [ms_pop ms_merges ms_spawnsLeft set_radii vorts numDriverVorts].
    rewrite Hvorts2.
    rewrite (rd_wr_ne _ v2 v1) by lia. rewrite Hrd1.
    rewrite (rd_wr_eq _ v2) by (rewrite Hlen1; lia).
    repeat (split; [reflexivity|]). split.
    + intros _. rewrite Hrd2 in Hwi.
      repeat (split; [first [assumption | congruence]|]). assumption.
    + intros Hz. contradiction.
Qed.
End MergeProps.

Section MergeIntensity.
Open Scope R_scope.

Lemma Rtrunc_IZR (z : Z) : Rtrunc (IZR z) = z.
Proof.
  unfold Rtrunc. destruct (Rle_dec 0 (IZR z)).
  - symmetry. apply Int_part_spec. lra.
  - rewrite <- opp_IZR.
    replace (Int_part (IZR (- z))) with (- z)%Z
      by (apply Int_part_spec; lra).
    lia.
Qed.

Lemma sign_quotient (x : R) : x <> 0 -> IZR (Rtrunc (x / Rabs x)) = Rsign x.
Proof.
  intros Hx. unfold Rsign.
  destruct (Rlt_dec 0 x) as [Hpos | Hnpos].
  - rewrite Rabs_right by lra.
    replace (x / x) with (IZR 1) by (field; lra).
    rewrite Rtrunc_IZR. reflexivity.
  - destruct (Rlt_dec x 0) as [Hneg | Hnneg]; [|lra].
    rewrite Rabs_left by lra.
    replace (x / - x) with (IZR (-1)) by (field; lra).
    rewrite Rtrunc_IZR. reflexivity.
Qed.

(** Over the reals, [mergeIntensities] is the signed combination
    [sign(int1 + int2) * sqrt |sign(int1) int1^2 + sign(int2) int2^2|]. *)
Lemma mergeIntensities_real (int1 int2 : R) :
  int1 <> 0 -> int2 <> 0 ->
  mergeIntensities int1 int2
  = Rsign (int1 + int2)
    * sqrt (Rabs (Rsign int1 * Rsqr int1 + Rsign int2 * Rsqr int2)).
Proof.
  intros H1 H2. unfold mergeIntensities.
  cbn [dtrunc ddiv dfabs dsqrt dadd dmul dZ dltb dneg R_DoubleOps].
  rewrite !sign_quotient by assumption.
  change (dsqr int1) with (Rsqr int1). change (dsqr int2) with (Rsqr int2).
  set (newInt := sqrt (Rabs (Rsign int1 * Rsqr int1 + Rsign int2 * Rsqr int2))).
  unfold Rsign.
  destruct (Rlt_dec 0 (int1 + int2)) as [Hpos | Hnpos].
  - rewrite Rltb_true by assumption. ring.
  - rewrite Rltb_false by lra.
    destruct (Rlt_dec (int1 + int2) 0) as [Hneg | Hnneg]; [ring|].
    assert (Hopp : int2 = - int1) by lra.
    assert (Hzero : newInt = 0).
    { unfold newInt. subst int2. unfold Rsign, Rsqr.
      destruct (Rlt_dec 0 int1), (Rlt_dec int1 0), (Rlt_dec 0 (- int1)),
               (Rlt_dec (- int1) 0); try lra;
        match goal with |- sqrt (Rabs ?e) = 0 =>
          replace e with 0 by ring; rewrite Rabs_R0; apply sqrt_0
        end. }
    rewrite Hzero. ring.
Qed.
End MergeIntensity.

Section MergeReal.
Context {G : Type} `{RNGOps R G}.
Variable K : Constants R.
Variable currentTimestep : Z.

(** C7 (real arithmetic).  When the scan of row [v2] reaches a first pair
    [(v1, v2)] whose cached distance is below the merge radius, [v1] takes
    the |intensity|-weighted average position and the signed combination of
    the intensities; [v2] is reinitialised in place when a spawn is left (the
    count is unchanged) and is deleted otherwise (the count drops by
    one). *)
Theorem mergeVorts_merge_fires (fuel : nat) (tracers : list (Tracer R))
    (v1 v2 : Z) (s : MergeState R G) :
  let p := ms_pop s in
  let N := numDriverVorts p in
  let vort1 := rd (vorts p) v1 in
  let vort2 := rd (vorts p) v2 in
  let int1 := intensity vort1 in
  let int2 := intensity vort2 in
  0 <= v1 < v2 -> v2 < N -> N <= Z.of_nat (length (vorts p)) ->
  vIndex vort2 = v2 ->
  int1 <> 0%R -> int2 <> 0%R ->
  (forall g, is_Some (randomizeVortex_resample K fuel g)) ->
  (forall v, 0 <= v < v1 ->
     Rltb (rd (vortexRadii p) (calculateVortexRadiiIndex v v2))
          (VORTEX_MERGE_RADIUS K) = false) ->
  Rltb (rd (vortexRadii p) (calculateVortexRadiiIndex v1 v2))
       (VORTEX_MERGE_RADIUS K) = true ->
  exists s',
    mergeVorts_row K currentTimestep fuel tracers (Z.to_nat v2) 0 v2 s
    = Some s'
    /\ let p' := ms_pop s' in
       let merged := rd (vorts p') v1 in
       position_0 merged
       = ((position_0 vort1 * Rabs int1 + position_0 vort2 * Rabs int2)
          / (Rabs int1 + Rabs int2))%R
       /\ position_1 merged
          = ((position_1 vort1 * Rabs int1 + position_1 vort2 * Rabs int2)
             / (Rabs int1 + Rabs int2))%R
       /\ intensity merged
          = (Rsign (int1 + int2)
             * sqrt (Rabs (Rsign int1 * Rsqr int1 + Rsign int2 * Rsqr int2)))%R
       /\ (ms_spawnsLeft s <> 0 ->
             numDriverVorts p' = N
             /\ ms_spawnsLeft s' = ms_spawnsLeft s - 1
             /\ vIndex (rd (vorts p') v2) = v2
             /\ vID (rd (vorts p') v2) = nextVortID p
             /\ velocity_0 (rd (vorts p') v2) = 0%R
             /\ velocity_1 (rd (vorts p') v2) = 0%R
             /\ initStep (rd (vorts p') v2) = currentTimestep
             /\ ~ (Rabs (intensity (rd (vorts p') v2)) < 1 / 1000)%R)
       /\ (ms_spawnsLeft s = 0 ->
             numDriverVorts p' = N - 1
             /\ ms_spawnsLeft s' = 0
             /\ forall i, v2 <= i < N - 1 ->
                  rd (vorts p') i
                  = set_vIndex (rd (vorts p) (i + 1))
                               (vIndex (rd (vorts p) (i + 1)) - 1)).
Proof.
  intros p N vort1 vort2 int1 int2 Hv1 Hv2 HN Hvi Hint1 Hint2 Hrng
         Hbefore Hhit.
  rewrite (mergeVorts_row_fires K currentTimestep fuel tracers
             (Z.to_nat v2) 0 v1 v2 s) by (try assumption; lia).
  destruct (mergeVorts_merge_result K currentTimestep fuel tracers v1 v2 s
              Hv1 Hv2 HN Hvi Hrng)
    as (s' & Hs' & Hx & Hy & Hint & _ & Hleft & Hzero).
  exists s'. split; [exact Hs'|]. cbv zeta.
  split; [exact Hx|]. split; [exact Hy|]. split.
  - rewrite Hint. apply mergeIntensities_real; assumption.
  - split.
    + intros Hne. destruct (Hleft Hne)
        as (H1 & H2 & H3 & H4 & _ & H6 & H7 & H8 & H9).
      repeat (split; [assumption|]).
      intros Hlt. cbn [dltb dfabs R_DoubleOps] in H9.
      unfold lit_0_001 in H9. cbn [ddiv dZ R_DoubleOps] in H9.
      rewrite Rltb_true in H9 by exact Hlt. discriminate.
    + exact Hzero.
Qed.
End MergeReal.

(** The alternating generator yields an accepted intensity within two
    draws when 0 is below the floor and [sigma] is not. *)
Lemma alternating_resample {D : Type} `{DoubleOps D} (K : Constants D) :
  (dfabs (dZ 0) <? lit_0_001)%D = true ->
  (dfabs (VORTEX_INTENSITY_SIGMA K) <? lit_0_001)%D = false ->
  forall g : nat, is_Some (randomizeVortex_resample K 2 g).
Proof.
  intros Hzero Hacc g.
  cbn [randomizeVortex_resample generateNormalRand alternating_RNG].
  destruct (Nat.even g) eqn:Hg.
  - rewrite Hzero. rewrite Nat.even_succ, <- Nat.negb_even, Hg. cbn [negb].
    rewrite Hacc. eexists. reflexivity.
  - rewrite Hacc. eexists. reflexivity.
Qed.

Lemma alternating_resample_real (K : Constants R) :
  (1 / 1000 <= Rabs (VORTEX_INTENSITY_SIGMA K))%R ->
  forall g : nat, is_Some (randomizeVortex_resample K 2 g).
Proof.
  intros Hsigma. apply alternating_resample.
  - unfold lit_0_001. cbn [dltb dfabs ddiv dZ R_DoubleOps].
    apply Rltb_true. rewrite Rabs_R0. lra.
  - unfold lit_0_001. cbn [dltb dfabs ddiv dZ R_DoubleOps].
    apply Rltb_false. lra.
Qed.

Lemma mergeVorts_merge_fires_witness :
  exists s',
    mergeVorts_row KR 7 2 [] (Z.to_nat 1) 0 1 merging_pair = Some s'
    /\ position_0 (rd (vorts (ms_pop s')) 0)
       = ((1 * Rabs 1 + 5 / 4 * Rabs (-3)) / (Rabs 1 + Rabs (-3)))%R
    /\ intensity (rd (vorts (ms_pop s')) 0)
       = (Rsign (1 + -3)
          * sqrt (Rabs (Rsign 1 * Rsqr 1 + Rsign (-3) * Rsqr (-3))))%R
    /\ numDriverVorts (ms_pop s') = 1.
Proof.
  destruct (mergeVorts_merge_fires KR 7 2 [] 0 1 merging_pair)
    as (s' & Hrow & Hx & _ & Hint & _ & Hdel).
  - lia.
  - simpl. lia.
  - simpl. lia.
  - reflexivity.
  - simpl. lra.
  - simpl. lra.
  - apply alternating_resample_real. simpl. rewrite Rabs_R1. lra.
  - intros v Hv. lia.
  - change (Rltb (1 / 4) (1 / 2) = true). apply Rltb_true. lra.
  - exists s'. split; [exact Hrow|]. split; [exact Hx|]. split; [exact Hint|].
    apply Hdel. reflexivity.
Defined.

(** ** Spawning *)

Section SpawnProps.
Context {D : Type} `{DoubleOps D}.
Context {G : Type} `{RNGOps D G}.
Variable K : Constants D.
Variable currentTimestep : Z.
Variable fuel : nat.
Hypothesis Hrng : forall g, is_Some (randomizeVortex_resample K fuel g).

Lemma spawnVortex_Some (p : Pop D G) :
  let N := numDriverVorts p in
  0 <= N < Z.of_nat (length (vorts p)) ->
  exists p',
    spawnVortex K currentTimestep fuel p = Some p'
    /\ numDriverVorts p' = N + 1
    /\ nextVortID p' = nextVortID p + 1
    /\ vortsAllocated p' = vortsAllocated p
    /\ length (vorts p') = length (vorts p)
    /\ (forall i, i <> N -> rd (vorts p') i = rd (vorts p) i)
    /\ vIndex (rd (vorts p') N) = N
    /\ vID (rd (vorts p') N) = nextVortID p
    /\ (dfabs (intensity (rd (vorts p') N)) <? lit_0_001)%D = false.
Proof.
  intros N HN. unfold spawnVortex. fold N.
  match goal with |- context [randomizeVortex _ _ _ _ ?q] =>
    destruct (randomizeVortex_Some K currentTimestep fuel N q Hrng)
      as (p' & w & Hrand & HN' & Hid & Hal & _ & _ & Hvorts & Hwi & Hwid
          & _ & _ & _ & Hwint)
  end.
  cbn [numDriverVorts nextVortID vortsAllocated vorts set_vorts
       set_numDriverVorts] in *.
  rewrite (rd_wr_eq _ N) in Hwi by lia. cbn [vIndex set_velocity set_vIndex] in Hwi.
  exists p'. split; [exact Hrand|].
  rewrite Hvorts. rewrite !length_wr.
  repeat (split; [first [assumption | reflexivity]|]). split.
  - intros i Hi. rewrite !rd_wr_ne by lia. reflexivity.
  - rewrite (rd_wr_eq _ N) by (rewrite length_wr; lia). auto.
Qed.

Lemma spawnVorts_loop_Some (n : nat) (p : Pop D G) :
  let N := numDriverVorts p in
  0 <= N -> N + Z.of_nat n <= Z.of_nat (length (vorts p)) ->
  exists p',
    spawnVorts_loop K currentTimestep fuel n p = Some p'
    /\ numDriverVorts p' = N + Z.of_nat n
    /\ nextVortID p' = nextVortID p + Z.of_nat n
    /\ vortsAllocated p' = vortsAllocated p
    /\ length (vorts p') = length (vorts p)
    /\ (forall i, ~ N <= i < N + Z.of_nat n ->
          rd (vorts p') i = rd (vorts p) i)
    /\ (forall i, N <= i < N + Z.of_nat n ->
          vIndex (rd (vorts p') i) = i
          /\ vID (rd (vorts p') i) = nextVortID p + (i - N)
          /\ (dfabs (intensity (rd (vorts p') i)) <? lit_0_001)%D = false).
Proof.
  revert p. induction n as [|n IH]; intros p N HN Hlen.
  - exists p. cbn [spawnVorts_loop]. split; [reflexivity|].
    split; [lia|]. split; [lia|]. split; [reflexivity|].
    split; [reflexivity|]. split; [reflexivity|]. intros i Hi. lia.
  - cbn [spawnVorts_loop].
    destruct (spawnVortex_Some p ltac:(fold N; lia))
      as (p1 & Hs & HN1 & Hid1 & Hal1 & Hlen1 & Hother1 & Hvi1 & Hvid1 & Hint1).
    fold N in HN1, Hother1, Hvi1, Hvid1, Hint1.
    rewrite Hs. cbn [mbind option_bind].
    destruct (IH p1) as (p' & Hl & HN' & Hid' & Hal' & Hlen' & Hother' & Hnew');
      [lia | lia |].
    rewrite HN1 in *.
    exists p'. split; [exact Hl|].
    split; [lia|]. split; [lia|]. split; [congruence|]. split; [congruence|].
    split.
    + intros i Hi. rewrite Hother' by lia. apply Hother1. lia.
    + intros i Hi. destruct (Z.eq_dec i N) as [-> | Hne].
      * rewrite Hother' by lia.
        split; [assumption|]. split; [rewrite Hvid1; lia | assumption].
      * destruct (Hnew' i ltac:(lia)) as (Ha & Hb & Hc).
        split; [assumption|]. split; [rewrite Hb; lia | assumption].
Qed.

(** C8.  With room left in the buffers, [spawnVorts] returns with [k] more
    vortices: the old ones are untouched, the new ones follow them with
    [vIndex] equal to their array position, so that [vIndex] stays the
    identity on [[0, N + k)]; their [vID]s are the next [k] values of the
    counter, in increasing order; no new intensity is below the floor, nor
    zero. *)
Theorem spawnVorts_appends (k : Z) (p : Pop D G) :
  let N := numDriverVorts p in
  (dfabs (dZ 0) <? lit_0_001)%D = true ->
  0 <= k -> 0 <= N ->
  N + k < vortsAllocated p ->
  vortsAllocated p <= Z.of_nat (length (vorts p)) ->
  (forall i, 0 <= i < N -> vIndex (rd (vorts p) i) = i) ->
  exists p',
    spawnVorts K currentTimestep fuel k p = Some p'
    /\ numDriverVorts p' = N + k
    /\ nextVortID p' = nextVortID p + k
    /\ (forall i, 0 <= i < N -> rd (vorts p') i = rd (vorts p) i)
    /\ (forall i, 0 <= i < N + k -> vIndex (rd (vorts p') i) = i)
    /\ (forall i, N <= i < N + k ->
          vID (rd (vorts p') i) = nextVortID p + (i - N)
          /\ (dfabs (intensity (rd (vorts p') i)) <? lit_0_001)%D = false
          /\ intensity (rd (vorts p') i) <> dZ 0).
Proof.
  intros N Hzero Hk HN Hroom Hlen Hvi. unfold spawnVorts. fold N.
  destruct (Z.geb_spec (N + k) (vortsAllocated p)) as [Hge | _]; [lia|].
  destruct (spawnVorts_loop_Some (Z.to_nat k) p)
    as (p' & Hl & HN' & Hid' & _ & _ & Hother & Hnew); [fold N; lia.. |].
  fold N in HN', Hother, Hnew. rewrite Z2Nat.id in * by lia.
  exists p'. split; [exact Hl|]. split; [assumption|]. split; [assumption|].
  split; [|split].
  - intros i Hi. apply Hother. lia.
  - intros i Hi. destruct (Z.lt_ge_cases i N).
    + rewrite Hother by lia. apply Hvi. lia.
    + apply Hnew. lia.
  - intros i Hi. destruct (Hnew i Hi) as (_ & Hb & Hc).
    split; [assumption|]. split; [assumption|].
    intros Heq. rewrite Heq, Hzero in Hc. discriminate.
Qed.
End SpawnProps.

Lemma spawnVorts_appends_witness :
  exists p',
    spawnVorts K0 0 2 2 three_vortex_population = Some p'
    /\ numDriverVorts p' = 3 + 2
    /\ nextVortID p' = 3 + 2
    /\ (forall i, 0 <= i < 3 ->
          rd (vorts p') i = rd (vorts three_vortex_population) i)
    /\ (forall i, 0 <= i < 3 + 2 -> vIndex (rd (vorts p') i) = i)
    /\ (forall i, 3 <= i < 3 + 2 ->
          vID (rd (vorts p') i) = 3 + (i - 3)
          /\ (dfabs (intensity (rd (vorts p') i)) <? lit_0_001)%D = false
          /\ intensity (rd (vorts p') i) <> dZ 0).
Proof.
  assert (Hrng : forall g : nat, is_Some (randomizeVortex_resample K0 2 g))
    by (apply alternating_resample; reflexivity).
  apply (spawnVorts_appends K0 0 2 Hrng 2 three_vortex_population).
  - reflexivity.
  - lia.
  - simpl. lia.
  - simpl. lia.
  - simpl. lia.
  - intros i Hi. assert (Hc : i = 0 \/ i = 1 \/ i = 2) by (simpl in Hi; lia).
    destruct Hc as [-> | [-> | ->]]; reflexivity.
Defined.

(** ** RK4 integrator: what a step leaves alone *)

Section FixedViews.
Context {A B : Type} `{Inhabited A}.

(** Storing an element with the same view leaves the list of views alone. *)
Lemma fmap_wr_same (f : A -> B) (l : list A) (i : Z) (v : A) :
  f v = f (rd l i) -> f <$> wr l i v = f <$> l.
Proof.
  intros Hf. unfold wr. destruct (Z.ltb_spec i 0) as [Hi | Hi]; [reflexivity|].
  rewrite list_fmap_insert.
  destruct (decide (Z.to_nat i < length l)%nat) as [Hlt | Hge].
  - apply list_insert_id. rewrite list_lookup_fmap.
    rewrite (list_lookup_lookup_total_lt l (Z.to_nat i) Hlt). cbn.
    f_equal. rewrite Hf. unfold rd.
    destruct (Z.ltb_spec i 0); [lia | reflexivity].
  - apply list_insert_ge. rewrite length_fmap. lia.
Qed.

(** Lists with the same views have elements with the same views. *)
Lemma rd_fmap_eq (f : A -> B) (l l' : list A) (i : Z) :
  f <$> l = f <$> l' -> f (rd l i) = f (rd l' i).
Proof.
  intros Heq. unfold rd. destruct (i <? 0); [reflexivity|].
  rewrite !list_lookup_total_alt.
  assert (Hl : f <$> (l !! Z.to_nat i) = f <$> (l' !! Z.to_nat i))
    by (rewrite <- !list_lookup_fmap, Heq; reflexivity).
  destruct (l !! Z.to_nat i), (l' !! Z.to_nat i); cbn in Hl |- *;
    congruence.
Qed.
End FixedViews.

Section RKFrame.
Context {D : Type} `{DoubleOps D}.
Variable K : Constants D.
Variable N : Z.
Variable dt : D.

Lemma rk_frame_refl (m : RKMem D) : rk_frame m m.
Proof. repeat split. Qed.

Lemma rk_frame_trans (m1 m2 m3 : RKMem D) :
  rk_frame m1 m2 -> rk_frame m2 m3 -> rk_frame m1 m3.
Proof.
  intros (H1 & H2 & H3 & H4) (H1' & H2' & H3' & H4').
  repeat split; congruence.
Qed.

Lemma vortex_static_of_fixed (l l' : list (Vortex D)) :
  vortex_fixed <$> l = vortex_fixed <$> l' ->
  vortex_static <$> l = vortex_static <$> l'.
Proof.
  intros Heq.
  assert (Hc : forall l0 : list (Vortex D),
            vortex_static <$> l0
            = (fun x : D * D * D * Z * Z * Z =>
                 let '(_, _, g, i, id, st) := x in (g, i, id, st))
              <$> (vortex_fixed <$> l0)).
  { intros l0. rewrite <- list_fmap_compose. reflexivity. }
  rewrite (Hc l), (Hc l'), Heq. reflexivity.
Qed.

Lemma tIndex_of_fixed (l l' : list (Tracer D)) :
  tracer_fixed <$> l = tracer_fixed <$> l' -> tIndex <$> l = tIndex <$> l'.
Proof.
  intros Heq.
  assert (Hc : forall l0 : list (Tracer D),
            tIndex <$> l0
            = (fun x : D * D * Z => snd x) <$> (tracer_fixed <$> l0)).
  { intros l0. rewrite <- list_fmap_compose. reflexivity. }
  rewrite (Hc l), (Hc l'), Heq. reflexivity.
Qed.

(** A tracer task writes tracer velocities and the intermediate tracer
    table. *)
Lemma stepForwardTracerRK4_frame (args : TracerArgs) (m : RKMem D) :
  let m' := stepForwardTracerRK4 K N dt args m in
  rk_frame m m'
  /\ rk_vortices m' = rk_vortices m
  /\ rk_workingRadii m' = rk_workingRadii m
  /\ rk_intermediateRadii m' = rk_intermediateRadii m.
Proof.
  unfold stepForwardTracerRK4.
  apply (for_loop_frame (fun m' =>
    rk_frame m m' /\ rk_vortices m' = rk_vortices m
    /\ rk_workingRadii m' = rk_workingRadii m
    /\ rk_intermediateRadii m' = rk_intermediateRadii m)).
  - split; [apply rk_frame_refl | auto].
  - intros k m1 _ (Hf & Hv & Hw & Hi).
    destruct (calculateVel_tracer _ _ _ _ _ _) as [xv yv].
    destruct (tracerStageSwitch _ xv) as [kx xVel].
    destruct (tracerStageSwitch _ yv) as [ky yVel].
    cbn [rk_vortices rk_workingRadii rk_intermediateRadii set_rk_tracers
         set_rk_intermediateTracerRads].
    split; [|auto]. apply (rk_frame_trans _ m1); [exact Hf|].
    unfold rk_frame.
    cbn [rk_vortRadii rk_tracerRadii rk_vortices rk_tracers set_rk_tracers
         set_rk_intermediateTracerRads].
    repeat (split; [reflexivity|]).
    apply fmap_wr_same. reflexivity.
Qed.

(** A vortex task writes the velocity of its vortex, the working table and
    the intermediate tracer table. *)
Lemma stepForwardVortexRK4_frame (args : VortexArgs) (m : RKMem D) :
  let m' := stepForwardVortexRK4 K N dt args m in
  rk_frame m m'
  /\ rk_tracers m' = rk_tracers m
  /\ rk_intermediateRadii m' = rk_intermediateRadii m.
Proof.
  unfold stepForwardVortexRK4.
  destruct (calculateVel_vortex _ _ _ _ _ _) as [xv yv].
  destruct (vortexStageSwitch _ xv) as [kx xVel].
  destruct (vortexStageSwitch _ yv) as [ky yVel].
  cbn [rk_tracers rk_intermediateRadii set_rk_vortices
       set_rk_intermediateTracerRads set_rk_workingRadii].
  split; [|auto]. unfold rk_frame.
  cbn [rk_vortRadii rk_tracerRadii rk_vortices rk_tracers set_rk_vortices
       set_rk_intermediateTracerRads set_rk_workingRadii].
  repeat (split; [reflexivity|]). split; [|reflexivity].
  apply fmap_wr_same. reflexivity.
Qed.

Lemma tracerPhase_frame (RKStep : Z) (m : RKMem D) :
  let m' := tracerPhase K N dt RKStep m in
  rk_frame m m'
  /\ rk_vortices m' = rk_vortices m
  /\ rk_workingRadii m' = rk_workingRadii m
  /\ rk_intermediateRadii m' = rk_intermediateRadii m.
Proof.
  unfold tracerPhase. destruct (1 <? THREADCOUNT K).
  - apply (for_loop_frame (fun m' =>
      rk_frame m m' /\ rk_vortices m' = rk_vortices m
      /\ rk_workingRadii m' = rk_workingRadii m
      /\ rk_intermediateRadii m' = rk_intermediateRadii m)).
    + split; [apply rk_frame_refl | auto].
    + intros k m1 _ (Hf & Hv & Hw & Hi).
      match goal with |- context [stepForwardTracerRK4 _ _ _ ?a m1] =>
        destruct (stepForwardTracerRK4_frame a m1) as (Hf' & Hv' & Hw' & Hi')
      end.
      split; [apply (rk_frame_trans _ m1); assumption|].
      repeat split; congruence.
  - apply stepForwardTracerRK4_frame.
Qed.

Lemma vortexPhase_frame (RKStep vortRadLen : Z) (m : RKMem D) :
  let m' := vortexPhase K N dt RKStep vortRadLen m in
  rk_frame m m'
  /\ rk_tracers m' = rk_tracers m
  /\ rk_intermediateRadii m' = rk_intermediateRadii m.
Proof.
  unfold vortexPhase.
  apply (for_loop_frame (fun m' =>
    rk_frame m m' /\ rk_tracers m' = rk_tracers m
    /\ rk_intermediateRadii m' = rk_intermediateRadii m)).
  - split; [apply rk_frame_refl | auto].
  - intros k m1 _ (Hf & Ht & Hi).
    match goal with |- context [stepForwardVortexRK4 _ _ _ ?a m1] =>
      destruct (stepForwardVortexRK4_frame a m1) as (Hf' & Ht' & Hi')
    end.
    split; [apply (rk_frame_trans _ m1); assumption|].
    split; congruence.
Qed.

Lemma rkStage_frame (vortRadLen RKStep : Z) (m : RKMem D) :
  rk_frame m (rkStage K N dt vortRadLen RKStep m).
Proof.
  unfold rkStage.
  destruct (tracerPhase_frame RKStep m) as (Hf1 & _).
  destruct (vortexPhase_frame RKStep vortRadLen (tracerPhase K N dt RKStep m))
    as (Hf2 & _).
  cbv zeta.
  eapply rk_frame_trans; [exact Hf1|].
  eapply rk_frame_trans; [exact Hf2|].
  repeat split.
Qed.

Lemma rkInit_frame (vortRadLen : Z) (vortices : list (Vortex D))
    (vortRadii tracerRadii : list D) (tracers : list (Tracer D))
    (numTracers : Z) :
  let m := rkInit N vortRadLen vortices vortRadii tracerRadii tracers
                  numTracers in
  rk_vortRadii m = vortRadii
  /\ rk_tracerRadii m = tracerRadii
  /\ vortex_fixed <$> rk_vortices m = vortex_fixed <$> vortices
  /\ tracer_fixed <$> rk_tracers m = tracer_fixed <$> tracers.
Proof.
  unfold rkInit. cbv zeta.
  match goal with |- context [mkRKMem ?a ?b ?c ?d ?e ?f ?g] =>
    set (m0 := mkRKMem a b c d e f g)
  end.
  match goal with |- context [rk_vortRadii ?m2] =>
    assert (Hf : rk_frame m0 m2)
  end.
  { apply (for_loop_frame (rk_frame m0)).
    - apply (for_loop_frame (rk_frame m0)); [apply rk_frame_refl|].
      intros k m1 _ Hf. apply (rk_frame_trans _ m1); [exact Hf|].
      unfold rk_frame. cbn [rk_vortRadii rk_tracerRadii rk_vortices rk_tracers
                            set_rk_vortices].
      repeat (split; [reflexivity|]). split; [|reflexivity].
      apply fmap_wr_same. reflexivity.
    - intros k m1 _ Hf. apply (rk_frame_trans _ m1); [exact Hf|].
      unfold rk_frame. cbn [rk_vortRadii rk_tracerRadii rk_vortices rk_tracers
                            set_rk_tracers].
      repeat (split; [reflexivity|]).
      apply fmap_wr_same. reflexivity. }
  exact Hf.
Qed.

Lemma rkStages_frame (vortices : list (Vortex D))
    (vortRadii tracerRadii : list D) (tracers : list (Tracer D))
    (numTracers : Z) :
  let m := rkStages K N dt vortices vortRadii tracerRadii tracers
                    numTracers in
  rk_vortRadii m = vortRadii
  /\ rk_tracerRadii m = tracerRadii
  /\ vortex_fixed <$> rk_vortices m = vortex_fixed <$> vortices
  /\ tracer_fixed <$> rk_tracers m = tracer_fixed <$> tracers.
Proof.
  unfold rkStages. cbv zeta.
  destruct (rkInit_frame (vortRadLen_of N) vortices vortRadii tracerRadii
              tracers numTracers) as (H1 & H2 & H3 & H4).
  set (m0 := rkInit N (vortRadLen_of N) vortices vortRadii tracerRadii
                    tracers numTracers) in *.
  assert (Hf : rk_frame m0 (for_loop 1 5 (rkStage K N dt (vortRadLen_of N)) m0)).
  { apply (for_loop_frame (rk_frame m0)); [apply rk_frame_refl|].
    intros k m1 _ Hf. apply (rk_frame_trans _ m1); [exact Hf|].
    apply rkStage_frame. }
  destruct Hf as (H1' & H2' & H3' & H4'). repeat split; congruence.
Qed.

(** The commit writes the positions and the committed tracer table. *)
Lemma rkCommit_frame (numTracers : Z) (m : RKMem D) :
  let m' := rkCommit N dt numTracers m in
  rk_vortRadii m' = rk_vortRadii m
  /\ rk_tracerRadii m'
     = memcpy (rk_tracerRadii m) (rk_intermediateTracerRads m)
              (N * numTracers * 3)
  /\ vortex_static <$> rk_vortices m' = vortex_static <$> rk_vortices m
  /\ tIndex <$> rk_tracers m' = tIndex <$> rk_tracers m.
Proof.
  unfold rkCommit. cbv zeta.
  cbn [rk_vortRadii rk_tracerRadii rk_vortices rk_tracers set_rk_tracerRadii].
  set (P := fun m' : RKMem D =>
    rk_vortRadii m' = rk_vortRadii m
    /\ rk_tracerRadii m' = rk_tracerRadii m
    /\ rk_intermediateTracerRads m' = rk_intermediateTracerRads m
    /\ vortex_static <$> rk_vortices m' = vortex_static <$> rk_vortices m
    /\ tIndex <$> rk_tracers m' = tIndex <$> rk_tracers m).
  match goal with |- context [rk_vortRadii ?m2] =>
    assert (HP : P m2)
  end.
  { apply (for_loop_frame P).
    - apply (for_loop_frame P); [repeat split|].
      intros k m1 _ (H1 & H2 & H3 & H4 & H5). unfold P.
      cbn [rk_vortRadii rk_tracerRadii rk_intermediateTracerRads rk_vortices
           rk_tracers set_rk_vortices].
      repeat (split; [assumption|]). split; [|assumption].
      rewrite <- H4. apply fmap_wr_same. reflexivity.
    - intros k m1 _ (H1 & H2 & H3 & H4 & H5). unfold P.
      cbn [rk_vortRadii rk_tracerRadii rk_intermediateTracerRads rk_vortices
           rk_tracers set_rk_tracers].
      repeat (split; [assumption|]).
      rewrite <- H5. apply fmap_wr_same. reflexivity. }
  destruct HP as (H1 & H2 & H3 & H4 & H5).
  rewrite H2, H3. auto.
Qed.

(** C10.  [stepForward_RK4] returns the committed vortex-vortex table it was
    passed; the committed tracer table is overwritten, over the entries of
    the [numDriverVorts * numTracers] pairs, with the intermediate tracer
    table of the last stage; of the vortices and tracers only positions and
    velocities can differ. *)
Theorem stepForward_RK4_frame (vortices : list (Vortex D))
    (vortRadii tracerRadii : list D) (tracers : list (Tracer D))
    (numTracers : Z) :
  let m' := stepForward_RK4 K N dt vortices vortRadii tracerRadii tracers
                            numTracers in
  let staged := rkStages K N dt vortices vortRadii tracerRadii tracers
                         numTracers in
  rk_vortRadii m' = vortRadii
  /\ rk_vortRadii staged = vortRadii
  /\ rk_tracerRadii staged = tracerRadii
  /\ rk_tracerRadii m'
     = memcpy tracerRadii (rk_intermediateTracerRads staged)
              (N * numTracers * 3)
  /\ vortex_static <$> rk_vortices m' = vortex_static <$> vortices
  /\ tIndex <$> rk_tracers m' = tIndex <$> tracers.
Proof.
  intros m' staged. subst m'. unfold stepForward_RK4. fold staged.
  destruct (rkStages_frame vortices vortRadii tracerRadii tracers numTracers)
    as (H1 & H2 & H3 & H4).
  fold staged in H1, H2, H3, H4.
  destruct (rkCommit_frame numTracers staged) as (H1' & H2' & H3' & H4').
  split; [congruence|]. split; [assumption|]. split; [assumption|].
  split; [rewrite H2', H2; reflexivity|]. split.
  - rewrite H3'. apply vortex_static_of_fixed. exact H3.
  - rewrite H4'. apply tIndex_of_fixed. exact H4.
Qed.
End RKFrame.

(** ** RK4 integrator: the velocity samples *)

Section MoreLoops.
Context {S : Type}.
Implicit Types (body : Z -> S -> S) (s : S).

Lemma iter_from_app body (n1 n2 : nat) (i : Z) s :
  iter_from (n1 + n2) i body s
  = iter_from n2 (i + Z.of_nat n1) body (iter_from n1 i body s).
Proof.
  revert i s. induction n1 as [|n1 IH]; intros i s.
  - cbn [iter_from Nat.add]. rewrite Z.add_0_r. reflexivity.
  - cbn [iter_from Nat.add]. rewrite IH. f_equal. lia.
Qed.

Lemma for_loop_split body (lo mid hi : Z) s :
  lo <= mid <= hi ->
  for_loop lo hi body s = for_loop mid hi body (for_loop lo mid body s).
Proof.
  intros Hm. unfold for_loop.
  replace (Z.to_nat (hi - lo))
    with (Z.to_nat (mid - lo) + Z.to_nat (hi - mid))%nat by lia.
  rewrite iter_from_app. f_equal. lia.
Qed.

Lemma iter_from_shift body (n : nat) (i d : Z) s :
  iter_from n i (fun k => body (d + k)) s = iter_from n (d + i) body s.
Proof.
  revert i s. induction n as [|n IH]; intros i s; [reflexivity|].
  cbn [iter_from]. rewrite IH. f_equal. lia.
Qed.

Lemma for_loop_shift body (d n : Z) s :
  for_loop 0 n (fun k => body (d + k)) s = for_loop d (d + n) body s.
Proof.
  unfold for_loop. rewrite iter_from_shift.
  rewrite Z.add_0_r. do 2 f_equal. lia.
Qed.

(** Two loops whose bodies agree on the states that an invariant
    describes. *)
Lemma for_loop_ext_inv (I : S -> Prop) (lo hi : Z) body body' s :
  I s ->
  (forall k s, lo <= k < hi -> I s -> body k s = body' k s /\ I (body k s)) ->
  for_loop lo hi body s = for_loop lo hi body' s.
Proof.
  intros Hs Hstep. unfold for_loop.
  destruct (Z.le_gt_cases lo hi) as [Hle | Hgt].
  2: { replace (Z.to_nat (hi - lo)) with O by lia. reflexivity. }
  assert (Hgen : forall n i s,
             lo <= i -> i + Z.of_nat n <= hi -> I s ->
             iter_from n i body s = iter_from n i body' s).
  { induction n as [|n IH]; intros i s' Hi Hn Hs'; [reflexivity|].
    cbn [iter_from]. destruct (Hstep i s' ltac:(lia) Hs') as [Heq HI].
    rewrite <- Heq. apply IH; [lia | lia | exact HI]. }
  apply Hgen; [lia | lia | exact Hs].
Qed.
End MoreLoops.

Lemma rd_drop {A : Type} `{Inhabited A} (l : list A) (off i : Z) :
  0 <= off -> 0 <= i -> rd (drop (Z.to_nat off) l) i = rd l (off + i).
Proof.
  intros Hoff Hi. rewrite !rd_total by lia.
  rewrite lookup_total_drop. f_equal. lia.
Qed.

Section SampleLemmas.
Context {D : Type} `{DoubleOps D}.
Variable K : Constants D.
Variable N : Z.

(** The vortex evaluator reads, of the vortices, only [vIndex] and
    [intensity]. *)
Lemma calculateVel_vortex_ext (vel : D * D) (v v' : Vortex D)
    (vs vs' : list (Vortex D)) (rads : list D) :
  vortex_fixed v = vortex_fixed v' ->
  vortex_fixed <$> vs = vortex_fixed <$> vs' ->
  calculateVel_vortex K N vel v vs rads
  = calculateVel_vortex K N vel v' vs' rads.
Proof.
  intros Hv Hvs.
  assert (Hi : vIndex v = vIndex v') by (unfold vortex_fixed in Hv; congruence).
  assert (Hj : forall j, vIndex (rd vs j) = vIndex (rd vs' j)
                         /\ intensity (rd vs j) = intensity (rd vs' j)).
  { intros j. pose proof (rd_fmap_eq vortex_fixed vs vs' j Hvs) as Hf.
    unfold vortex_fixed in Hf. split; congruence. }
  unfold calculateVel_vortex. apply for_loop_ext. intros j vel' _.
  destruct (Hj j) as [-> ->]. rewrite Hi. reflexivity.
Qed.

(** The tracer evaluator reads only the row of its tracer. *)
Lemma calculateVel_tracer_ext (vel : D * D) (t : Z) (rads rads' : list D)
    (vs vs' : list (Vortex D)) :
  (forall v c, 0 <= v < N -> 0 <= c <= 2 ->
     rd rads (calculateTracerRadiiIndex N t v + c)
     = rd rads' (calculateTracerRadiiIndex N t v + c)) ->
  vortex_fixed <$> vs = vortex_fixed <$> vs' ->
  calculateVel_tracer K N vel t rads vs
  = calculateVel_tracer K N vel t rads' vs'.
Proof.
  intros Hrow Hvs. unfold calculateVel_tracer.
  apply for_loop_ext. intros v vel' Hv. cbv zeta.
  pose proof (Hrow v 0 Hv ltac:(lia)) as H0. rewrite Z.add_0_r in H0.
  rewrite (Hrow v 1 Hv ltac:(lia)), (Hrow v 2 Hv ltac:(lia)), H0.
  pose proof (rd_fmap_eq vortex_fixed vs vs' v Hvs) as Hf.
  assert (Hint : intensity (rd vs v) = intensity (rd vs' v))
    by (unfold vortex_fixed in Hf; congruence).
  rewrite Hint. reflexivity.
Qed.

Lemma calculateTracerRadiiIndex_add (tb j v : Z) :
  calculateTracerRadiiIndex N tb 0 + calculateTracerRadiiIndex N j v
  = calculateTracerRadiiIndex N (tb + j) v.
Proof. unfold calculateTracerRadiiIndex. ring. Qed.

(** Reading a piece of the table with the index relative to the piece is
    reading the whole table with the index of the tracer. *)
Lemma calculateVel_tracer_piece (vel : D * D) (tb j : Z) (rads : list D)
    (vs : list (Vortex D)) :
  0 <= N -> 0 <= tb -> 0 <= j ->
  calculateVel_tracer K N vel j
    (drop (Z.to_nat (calculateTracerRadiiIndex N tb 0)) rads) vs
  = calculateVel_tracer K N vel (tb + j) rads vs.
Proof.
  intros HN Htb Hj. unfold calculateVel_tracer.
  apply for_loop_ext. intros v vel' Hv. cbv zeta.
  assert (Hoff : 0 <= calculateTracerRadiiIndex N tb 0)
    by (unfold calculateTracerRadiiIndex; nia).
  assert (Hidx : 0 <= calculateTracerRadiiIndex N j v)
    by (unfold calculateTracerRadiiIndex; nia).
  rewrite !rd_drop by lia.
  rewrite !Z.add_assoc, calculateTracerRadiiIndex_add. reflexivity.
Qed.
End SampleLemmas.

Section TracerPhase.
Context {D : Type} `{DoubleOps D}.
Variable K : Constants D.
Variable N : Z.
Variable dt : D.
Hypothesis HN : 0 <= N.

(** A tracer task on a piece whose tracers carry their array position as
    [tIndex] runs [tracerStep] on each tracer of the piece. *)
Lemma stepForwardTracerRK4_steps (RKStep tb cnt : Z) (m : RKMem D) :
  0 <= tb ->
  (forall i, tb <= i < tb + cnt -> tIndex (rd (rk_tracers m) i) = i) ->
  stepForwardTracerRK4 K N dt
    (mkTracerArgs RKStep tb cnt (calculateTracerRadiiIndex N tb 0)
                  (calculateTracerRadiiIndex N tb 0)) m
  = for_loop tb (tb + cnt) (tracerStep K N dt RKStep) m.
Proof.
  intros Htb Hidx. unfold stepForwardTracerRK4.
  cbn [ta_RKStep ta_tracers ta_numTracers ta_tracerRadii
       ta_intermediateTracerRads].
  rewrite <- for_loop_shift.
  apply (for_loop_ext_inv (fun m1 =>
    tracer_fixed <$> rk_tracers m1 = tracer_fixed <$> rk_tracers m));
    [reflexivity|].
  intros j m1 Hj HI.
  assert (Ht : forall i, tb <= i < tb + cnt -> tIndex (rd (rk_tracers m1) i) = i).
  { intros i Hi. rewrite <- (Hidx i Hi) at 2.
    exact (f_equal snd (rd_fmap_eq tracer_fixed _ _ i HI)). }
  split.
  - unfold tracerStep, tracerSample.
    rewrite (Ht (tb + j)), (Ht tb) by lia.
    replace (tb + j - tb) with j by lia.
    rewrite calculateVel_tracer_piece by lia.
    destruct (calculateVel_tracer K N (d0, d0) (tb + j)
                (rk_intermediateTracerRads m1) (rk_vortices m1)) as [xv yv].
    destruct (tracerStageSwitch RKStep xv) as [kx xVel].
    destruct (tracerStageSwitch RKStep yv) as [ky yVel].
    do 2 f_equal. apply for_loop_ext. intros v a Hv. cbv zeta.
    rewrite !Z.add_assoc, !calculateTracerRadiiIndex_add. reflexivity.
  - destruct (calculateVel_tracer _ _ _ _ _ _) as [xv yv].
    destruct (tracerStageSwitch _ xv) as [kx xVel].
    destruct (tracerStageSwitch _ yv) as [ky yVel].
    cbn [rk_tracers set_rk_tracers]. rewrite <- HI.
    apply fmap_wr_same. reflexivity.
Qed.

(** What [tracerStep] changes: the velocity of its tracer, by the weighted
    stage sample, and the row of its tracer in the intermediate tracer
    table. *)
Lemma tracerStep_effect (RKStep t : Z) (m : RKMem D) :
  0 <= t < Z.of_nat (length (rk_tracers m)) ->
  let m' := tracerStep K N dt RKStep t m in
  let sample := tracerSample K N m t in
  rk_frame m m'
  /\ rk_vortices m' = rk_vortices m
  /\ rk_workingRadii m' = rk_workingRadii m
  /\ rk_intermediateRadii m' = rk_intermediateRadii m
  /\ length (rk_tracers m') = length (rk_tracers m)
  /\ (forall i, i <> t -> rd (rk_tracers m') i = rd (rk_tracers m) i)
  /\ t_velocity_0 (rd (rk_tracers m') t)
     = (t_velocity_0 (rd (rk_tracers m) t)
        + rkWeightedSum (fst (tracerStageSwitch RKStep (fst sample))))%D
  /\ t_velocity_1 (rd (rk_tracers m') t)
     = (t_velocity_1 (rd (rk_tracers m) t)
        + rkWeightedSum (fst (tracerStageSwitch RKStep (snd sample))))%D
  /\ (forall t' v c, t' <> t -> 0 <= v < N -> 0 <= c <= 2 ->
        rd (rk_intermediateTracerRads m')
           (calculateTracerRadiiIndex N t' v + c)
        = rd (rk_intermediateTracerRads m)
             (calculateTracerRadiiIndex N t' v + c)).
Proof.
  intros Ht m' sample. subst m'. unfold tracerStep. fold sample.
  destruct sample as [xv yv]. cbn [fst snd].
  destruct (tracerStageSwitch RKStep xv) as [kx xVel].
  destruct (tracerStageSwitch RKStep yv) as [ky yVel].
  cbn [fst rk_vortices rk_workingRadii rk_intermediateRadii rk_tracers
       rk_intermediateTracerRads set_rk_tracers
       set_rk_intermediateTracerRads].
  split.
  { unfold rk_frame.
    cbn [rk_vortRadii rk_tracerRadii rk_vortices rk_tracers set_rk_tracers
         set_rk_intermediateTracerRads].
    repeat (split; [reflexivity|]). apply fmap_wr_same. reflexivity. }
  repeat (split; [reflexivity|]).
  split; [apply length_wr|].
  split; [intros i Hi; apply rd_wr_ne; lia|].
  rewrite rd_wr_eq by lia.
  cbn [t_velocity_0 t_velocity_1 set_t_velocity].
  repeat (split; [reflexivity|]).
  intros t' v c Ht' Hv Hc.
  apply (for_loop_frame (fun a =>
    rd a (calculateTracerRadiiIndex N t' v + c)
    = rd (rk_intermediateTracerRads m)
         (calculateTracerRadiiIndex N t' v + c))); [reflexivity|].
  intros v0 a Hv0 Ha. cbv zeta. rewrite <- Ha.
  pose proof (calculateTracerRadiiIndex_apart N t' v t v0 Hv Hv0) as Hap.
  apply rd_wr_entry_other; destruct Hap as [Hap | Hap];
    try lia; intros Heq; inversion Heq; lia.
Qed.

(** A run of [tracerStep] over the first [M] tracers adds to each velocity
    the weighted stage sample computed from the memory before the run. *)
Lemma tracerSteps_velocities (RKStep M : Z) (m : RKMem D) :
  0 <= M <= Z.of_nat (length (rk_tracers m)) ->
  let m' := for_loop 0 M (tracerStep K N dt RKStep) m in
  rk_frame m m'
  /\ rk_vortices m' = rk_vortices m
  /\ rk_workingRadii m' = rk_workingRadii m
  /\ rk_intermediateRadii m' = rk_intermediateRadii m
  /\ forall t, 0 <= t < M ->
       let sample := tracerSample K N m t in
       t_velocity_0 (rd (rk_tracers m') t)
       = (t_velocity_0 (rd (rk_tracers m) t)
          + rkWeightedSum (fst (tracerStageSwitch RKStep (fst sample))))%D
       /\ t_velocity_1 (rd (rk_tracers m') t)
          = (t_velocity_1 (rd (rk_tracers m) t)
             + rkWeightedSum (fst (tracerStageSwitch RKStep (snd sample))))%D.
Proof.
  intros HM m'. subst m'.
  set (vel_ok := fun (m1 : RKMem D) (t : Z) =>
    t_velocity_0 (rd (rk_tracers m1) t)
    = (t_velocity_0 (rd (rk_tracers m) t)
       + rkWeightedSum
           (fst (tracerStageSwitch RKStep (fst (tracerSample K N m t)))))%D
    /\ t_velocity_1 (rd (rk_tracers m1) t)
       = (t_velocity_1 (rd (rk_tracers m) t)
          + rkWeightedSum
              (fst (tracerStageSwitch RKStep (snd (tracerSample K N m t)))))%D).
  set (Q := fun (k : Z) (m1 : RKMem D) =>
    rk_frame m m1
    /\ rk_vortices m1 = rk_vortices m
    /\ rk_workingRadii m1 = rk_workingRadii m
    /\ rk_intermediateRadii m1 = rk_intermediateRadii m
    /\ length (rk_tracers m1) = length (rk_tracers m)
    /\ (forall t, 0 <= t < k -> vel_ok m1 t)
    /\ (forall t, k <= t -> rd (rk_tracers m1) t = rd (rk_tracers m) t)
    /\ (forall t v c, k <= t -> 0 <= v < N -> 0 <= c <= 2 ->
          rd (rk_intermediateTracerRads m1)
             (calculateTracerRadiiIndex N t v + c)
          = rd (rk_intermediateTracerRads m)
               (calculateTracerRadiiIndex N t v + c))).
  assert (HQ : Q M (for_loop 0 M (tracerStep K N dt RKStep) m)).
  2: { destruct HQ as (H1 & H2 & H3 & H4 & _ & H6 & _).
       repeat (split; [assumption|]). exact H6. }
  apply (for_loop_inv Q); [lia | |].
  { split; [apply rk_frame_refl|]. repeat (split; [reflexivity|]).
    split; [intros; lia|]. split; reflexivity. }
  intros k m1 Hk (Hf & Hv & Hw & Hi & Hlen & Hdone & Htodo & Hrows).
  destruct (tracerStep_effect RKStep k m1 ltac:(lia))
    as (Hf' & Hv' & Hw' & Hi' & Hlen' & Hother & Hv0 & Hv1 & Hrows').
  assert (Hsample : tracerSample K N m1 k = tracerSample K N m k).
  { unfold tracerSample. apply calculateVel_tracer_ext.
    - intros v c Hvr Hc. apply Hrows; lia.
    - rewrite Hv. reflexivity. }
  rewrite Hsample in Hv0, Hv1.
  split; [apply (rk_frame_trans _ m1); assumption|].
  split; [congruence|]. split; [congruence|]. split; [congruence|].
  split; [congruence|]. split; [|split].
  - intros t Ht. destruct (Z.eq_dec t k) as [-> | Hne].
    + unfold vel_ok. rewrite Hv0, Hv1, (Htodo k) by lia. split; reflexivity.
    + unfold vel_ok. rewrite (Hother t Hne). apply Hdone. lia.
  - intros t Ht. rewrite Hother by lia. apply Htodo. lia.
  - intros t v c Ht Hvr Hc. rewrite Hrows' by (try assumption; lia).
    apply Hrows; [lia | assumption | assumption].
Qed.
End TracerPhase.

Section Phases.
Context {D : Type} `{DoubleOps D}.
Variable K : Constants D.
Variable N : Z.
Variable dt : D.
Hypothesis HN : 0 <= N.

(** With at least one thread, the pieces given to the tracer tasks cover the
    tracers once, in order. *)
Lemma tracerPhase_steps (RKStep : Z) (m : RKMem D) :
  1 <= THREADCOUNT K -> 0 <= NUM_TRACERS K ->
  Z.of_nat (length (rk_tracers m)) = NUM_TRACERS K ->
  (forall i, 0 <= i < NUM_TRACERS K -> tIndex (rd (rk_tracers m) i) = i) ->
  tracerPhase K N dt RKStep m
  = for_loop 0 (NUM_TRACERS K) (tracerStep K N dt RKStep) m.
Proof.
  intros HT HM Hlen Hidx. unfold tracerPhase.
  set (T := THREADCOUNT K) in *. set (M := NUM_TRACERS K) in *.
  set (per := M ÷ T).
  assert (Hper : 0 <= per) by (apply Z.quot_pos; lia).
  pose proof (Z.quot_rem' M T) as Hqr. fold per in Hqr.
  pose proof (Z.rem_bound_pos M T ltac:(lia) ltac:(lia)) as Hrem.
  destruct (Z.ltb_spec 1 T) as [Hmany | Hone].
  - set (bound := fun th : Z => if th <? T then th * per else M).
    set (P := fun (th : Z) (m1 : RKMem D) =>
      m1 = for_loop 0 (bound th) (tracerStep K N dt RKStep) m).
    assert (HP : P T (for_loop 0 T
      (fun thread m0 =>
         stepForwardTracerRK4 K N dt
           (mkTracerArgs RKStep (thread * per)
              (if thread =? T - 1 then per + Z.rem M T else per)
              (calculateTracerRadiiIndex N
                 (tIndex (rd (rk_tracers m0) (thread * per))) 0)
              (calculateTracerRadiiIndex N
                 (tIndex (rd (rk_tracers m0) (thread * per))) 0)) m0) m)).
    2: { unfold P, bound in HP. rewrite Z.ltb_irrefl in HP. exact HP. }
    apply (for_loop_inv P); [lia | |].
    { unfold P, bound. destruct (Z.ltb_spec 0 T); [|lia].
      rewrite for_loop_nop by lia. reflexivity. }
    intros th m1 Hth Hm1. unfold P in *.
    set (cnt := if th =? T - 1 then per + Z.rem M T else per).
    assert (Hbound : bound (th + 1) = bound th + cnt /\ bound th = th * per
                     /\ 0 <= cnt /\ bound th + cnt <= M).
    { unfold bound, cnt.
      destruct (Z.ltb_spec th T); [|lia].
      destruct (Z.eqb_spec th (T - 1)) as [-> | Hne].
      - destruct (Z.ltb_spec (T - 1 + 1) T); [lia|]. nia.
      - destruct (Z.ltb_spec (th + 1) T); [|lia]. nia. }
    destruct Hbound as (Hnext & Hcur & Hcnt & Hle).
    rewrite Hnext, Hcur in *.
    destruct (tracerSteps_velocities K N dt RKStep (th * per) m
                ltac:(nia)) as (Hframe & _).
    rewrite <- Hm1 in Hframe. destruct Hframe as (_ & _ & _ & Hfixed).
    assert (Ht : forall i, 0 <= i < M -> tIndex (rd (rk_tracers m1) i) = i).
    { intros i Hi. rewrite <- (Hidx i Hi) at 2.
      exact (f_equal snd (rd_fmap_eq tracer_fixed _ _ i Hfixed)). }
    destruct (Z.eq_dec cnt 0) as [Hzero | Hpos].
    + rewrite Hzero, Z.add_0_r.
      unfold stepForwardTracerRK4. cbn [ta_numTracers].
      rewrite for_loop_nop by lia. exact Hm1.
    + rewrite (Ht (th * per)) by lia.
      rewrite stepForwardTracerRK4_steps;
        [|assumption | nia | intros i Hi; apply Ht; lia].
      rewrite Hm1. symmetry. apply for_loop_split. nia.
  - assert (HT1 : T = 1) by lia.
    assert (Hper1 : per = M) by (unfold per; rewrite HT1; apply Z.quot_1_r).
    rewrite Hper1.
    pose proof (stepForwardTracerRK4_steps K N dt HN RKStep 0 M m
                  ltac:(lia)) as Hs.
    change (calculateTracerRadiiIndex N 0 0) with 0 in Hs.
    rewrite Z.add_0_l in Hs. apply Hs. intros i Hi. apply Hidx. lia.
Qed.

(** What a vortex task changes of the vortices: the velocity of its own
    vortex, by the weighted stage sample. *)
Lemma stepForwardVortexRK4_effect (args : VortexArgs) (m : RKMem D) :
  let o := va_originVortIndex args in
  0 <= o < Z.of_nat (length (rk_vortices m)) ->
  let m' := stepForwardVortexRK4 K N dt args m in
  let sample := vortexSample K N m o in
  length (rk_vortices m') = length (rk_vortices m)
  /\ (forall i, i <> o -> rd (rk_vortices m') i = rd (rk_vortices m) i)
  /\ velocity_0 (rd (rk_vortices m') o)
     = (velocity_0 (rd (rk_vortices m) o)
        + rkWeightedSum
            (fst (vortexStageSwitch (va_RKStep args) (fst sample))))%D
  /\ velocity_1 (rd (rk_vortices m') o)
     = (velocity_1 (rd (rk_vortices m) o)
        + rkWeightedSum
            (fst (vortexStageSwitch (va_RKStep args) (snd sample))))%D.
Proof.
  intros o Ho m' sample. subst m'. unfold stepForwardVortexRK4.
  fold o. change (calculateVel_vortex K N (d0, d0) (rd (rk_vortices m) o)
                    (rk_vortices m) (rk_intermediateRadii m)) with sample.
  destruct sample as [xv yv]. cbn [fst snd].
  destruct (vortexStageSwitch (va_RKStep args) xv) as [kx xVel].
  destruct (vortexStageSwitch (va_RKStep args) yv) as [ky yVel].
  cbn [fst rk_vortices set_rk_vortices].
  split; [apply length_wr|].
  split; [intros i Hi; apply rd_wr_ne; lia|].
  rewrite rd_wr_eq by lia. split; reflexivity.
Qed.

(** The vortex tasks of a stage add to each vortex velocity the weighted
    stage sample computed from the memory before the phase. *)
Lemma vortexPhase_velocities (RKStep vortRadLen : Z) (m : RKMem D) :
  N <= Z.of_nat (length (rk_vortices m)) ->
  let m' := vortexPhase K N dt RKStep vortRadLen m in
  forall i, 0 <= i < N ->
    let sample := vortexSample K N m i in
    velocity_0 (rd (rk_vortices m') i)
    = (velocity_0 (rd (rk_vortices m) i)
       + rkWeightedSum (fst (vortexStageSwitch RKStep (fst sample))))%D
    /\ velocity_1 (rd (rk_vortices m') i)
       = (velocity_1 (rd (rk_vortices m) i)
          + rkWeightedSum (fst (vortexStageSwitch RKStep (snd sample))))%D.
Proof.
  intros Hlen m'. subst m'. unfold vortexPhase.
  set (vel_ok := fun (m1 : RKMem D) (i : Z) =>
    velocity_0 (rd (rk_vortices m1) i)
    = (velocity_0 (rd (rk_vortices m) i)
       + rkWeightedSum
           (fst (vortexStageSwitch RKStep (fst (vortexSample K N m i)))))%D
    /\ velocity_1 (rd (rk_vortices m1) i)
       = (velocity_1 (rd (rk_vortices m) i)
          + rkWeightedSum
              (fst (vortexStageSwitch RKStep (snd (vortexSample K N m i)))))%D).
  set (Q := fun (k : Z) (m1 : RKMem D) =>
    rk_frame m m1
    /\ rk_intermediateRadii m1 = rk_intermediateRadii m
    /\ length (rk_vortices m1) = length (rk_vortices m)
    /\ (forall i, 0 <= i < k -> vel_ok m1 i)
    /\ (forall i, k <= i -> rd (rk_vortices m1) i = rd (rk_vortices m) i)).
  match goal with |- context [for_loop 0 N ?body m] =>
    assert (HQ : Q N (for_loop 0 N body m))
  end.
  2: { destruct HQ as (_ & _ & _ & Hdone & _). exact Hdone. }
  apply (for_loop_inv Q); [lia | |].
  { split; [apply rk_frame_refl|]. repeat (split; [reflexivity|]).
    split; [intros; lia | reflexivity]. }
  intros o m1 Ho (Hf & Hi & Hl & Hdone & Htodo).
  set (args := mkVortexArgs RKStep o vortRadLen (NUM_TRACERS K)).
  destruct (stepForwardVortexRK4_frame K N dt args m1) as (Hf' & _ & Hi').
  destruct (stepForwardVortexRK4_effect args m1 ltac:(cbn; lia))
    as (Hl' & Hother & Hv0 & Hv1).
  cbn [va_originVortIndex va_RKStep args] in Hother, Hv0, Hv1.
  assert (Hsample : vortexSample K N m1 o = vortexSample K N m o).
  { unfold vortexSample. rewrite Hi. destruct Hf as (_ & _ & Hfixed & _).
    apply calculateVel_vortex_ext; [|exact Hfixed].
    apply rd_fmap_eq. exact Hfixed. }
  rewrite Hsample in Hv0, Hv1.
  split; [apply (rk_frame_trans _ m1); assumption|].
  split; [congruence|]. split; [congruence|]. split.
  - intros i Hir. destruct (Z.eq_dec i o) as [-> | Hne].
    + unfold vel_ok. rewrite Hv0, Hv1, (Htodo o) by lia. split; reflexivity.
    + unfold vel_ok. rewrite (Hother i Hne). apply Hdone. lia.
  - intros i Hir. rewrite Hother by lia. apply Htodo. lia.
Qed.

(** One stage adds to every vortex and tracer velocity the weighted sample
    that the force evaluator returns on the tables at the start of the
    stage. *)
Lemma rkStage_velocities (vortRadLen RKStep : Z) (m : RKMem D) :
  N <= Z.of_nat (length (rk_vortices m)) ->
  1 <= THREADCOUNT K -> 0 <= NUM_TRACERS K ->
  Z.of_nat (length (rk_tracers m)) = NUM_TRACERS K ->
  (forall i, 0 <= i < NUM_TRACERS K -> tIndex (rd (rk_tracers m) i) = i) ->
  let m' := rkStage K N dt vortRadLen RKStep m in
  (forall i, 0 <= i < N ->
     let sample := vortexSample K N m i in
     velocity_0 (rd (rk_vortices m') i)
     = (velocity_0 (rd (rk_vortices m) i)
        + rkWeightedSum (fst (vortexStageSwitch RKStep (fst sample))))%D
     /\ velocity_1 (rd (rk_vortices m') i)
        = (velocity_1 (rd (rk_vortices m) i)
           + rkWeightedSum (fst (vortexStageSwitch RKStep (snd sample))))%D)
  /\ (forall t, 0 <= t < NUM_TRACERS K ->
     let sample := tracerSample K N m t in
     t_velocity_0 (rd (rk_tracers m') t)
     = (t_velocity_0 (rd (rk_tracers m) t)
        + rkWeightedSum (fst (tracerStageSwitch RKStep (fst sample))))%D
     /\ t_velocity_1 (rd (rk_tracers m') t)
        = (t_velocity_1 (rd (rk_tracers m) t)
           + rkWeightedSum (fst (tracerStageSwitch RKStep (snd sample))))%D).
Proof.
  intros Hlen HT HM Htl Hidx m'. subst m'. unfold rkStage. cbv zeta.
  cbn [rk_vortices rk_tracers set_rk_workingRadii set_rk_intermediateRadii].
  set (ma := tracerPhase K N dt RKStep m).
  assert (Hma : ma = for_loop 0 (NUM_TRACERS K) (tracerStep K N dt RKStep) m)
    by (apply tracerPhase_steps; assumption).
  destruct (tracerSteps_velocities K N dt RKStep (NUM_TRACERS K) m
              ltac:(lia)) as (Hfa & Hva & _ & Hia & Hta).
  rewrite <- Hma in Hfa, Hva, Hia, Hta.
  destruct (vortexPhase_frame K N dt RKStep vortRadLen ma) as (_ & Htb & _).
  pose proof (vortexPhase_velocities RKStep vortRadLen ma
                ltac:(rewrite Hva; exact Hlen)) as Hvb.
  cbv zeta in Hvb. split.
  - intros i Hi. specialize (Hvb i Hi).
    assert (Hsample : vortexSample K N ma i = vortexSample K N m i)
      by (unfold vortexSample; rewrite Hva, Hia; reflexivity).
    rewrite Hsample, Hva in Hvb. exact Hvb.
  - intros t Ht. rewrite Htb. apply Hta. exact Ht.
Qed.
End Phases.

(** A loop that updates one component of a state is the update of that
    component by the loop on it. *)
Lemma for_loop_lift {S A : Type} (get : S -> A) (set : S -> A -> S)
    (g : Z -> A -> A) (lo hi : Z) (s : S) :
  (forall s a, get (set s a) = a) ->
  (forall s a b, set (set s a) b = set s b) ->
  (forall s, set s (get s) = s) ->
  for_loop lo hi (fun i s => set s (g i (get s))) s
  = set s (for_loop lo hi g (get s)).
Proof.
  intros Hgs Hss Hsg. unfold for_loop.
  generalize (Z.to_nat (hi - lo)) as n. intros n. revert lo s.
  induction n as [|n IH]; intros lo s.
  - cbn [iter_from]. symmetry. apply Hsg.
  - cbn [iter_from]. rewrite IH, Hgs, Hss. reflexivity.
Qed.

Section InitCommit.
Context {D : Type} `{DoubleOps D}.
Variable N : Z.
Variable dt : D.

Lemma rkInit_velocities (vortRadLen : Z) (vortices : list (Vortex D))
    (vortRadii tracerRadii : list D) (tracers : list (Tracer D))
    (numTracers : Z) :
  N <= Z.of_nat (length vortices) ->
  numTracers <= Z.of_nat (length tracers) ->
  let m := rkInit N vortRadLen vortices vortRadii tracerRadii tracers
                  numTracers in
  (forall i, 0 <= i < N ->
     velocity_0 (rd (rk_vortices m) i) = d0
     /\ velocity_1 (rd (rk_vortices m) i) = d0)
  /\ (forall t, 0 <= t < numTracers ->
     t_velocity_0 (rd (rk_tracers m) t) = d0
     /\ t_velocity_1 (rd (rk_tracers m) t) = d0).
Proof.
  intros Hv Ht m. subst m. unfold rkInit. cbv zeta.
  rewrite (for_loop_lift rk_vortices set_rk_vortices
             (fun i a => wr a i (set_velocity (rd a i) d0 d0)))
    by (try reflexivity; intros []; reflexivity).
  rewrite (for_loop_lift rk_tracers set_rk_tracers
             (fun i a => wr a i (set_t_velocity (rd a i) d0 d0)))
    by (try reflexivity; intros []; reflexivity).
  cbn [rk_vortices rk_tracers set_rk_vortices set_rk_tracers].
  destruct (for_loop_wr_map (fun v : Vortex D => set_velocity v d0 d0)
              0 N vortices ltac:(lia) Hv) as [_ Hrv].
  destruct (for_loop_wr_map (fun t : Tracer D => set_t_velocity t d0 d0)
              0 numTracers tracers ltac:(lia) Ht) as [_ Hrt].
  cbv zeta in Hrv, Hrt. split.
  - intros i Hi. rewrite Hrv.
    destruct (Z.leb_spec 0 i), (Z.ltb_spec i N); try lia.
    split; reflexivity.
  - intros t Hti. rewrite Hrt.
    destruct (Z.leb_spec 0 t), (Z.ltb_spec t numTracers); try lia.
    split; reflexivity.
Qed.

Lemma rkCommit_positions (numTracers : Z) (m : RKMem D) :
  N <= Z.of_nat (length (rk_vortices m)) ->
  numTracers <= Z.of_nat (length (rk_tracers m)) ->
  let m' := rkCommit N dt numTracers m in
  (forall i, 0 <= i < N ->
     let v := rd (rk_vortices m) i in
     rd (rk_vortices m') i
     = set_position v (position_0 v + velocity_0 v * dt)%D
                      (position_1 v + velocity_1 v * dt)%D)
  /\ (forall t, 0 <= t < numTracers ->
     let tr := rd (rk_tracers m) t in
     rd (rk_tracers m') t
     = set_t_position tr (t_position_0 tr + t_velocity_0 tr * dt)%D
                         (t_position_1 tr + t_velocity_1 tr * dt)%D).
Proof.
  intros Hv Ht m'. subst m'. unfold rkCommit. cbv zeta.
  rewrite (for_loop_lift rk_vortices set_rk_vortices
             (fun i a => wr a i
                (set_position (rd a i)
                   (position_0 (rd a i) + velocity_0 (rd a i) * dt)%D
                   (position_1 (rd a i) + velocity_1 (rd a i) * dt)%D)))
    by (try reflexivity; intros []; reflexivity).
  rewrite (for_loop_lift rk_tracers set_rk_tracers
             (fun i a => wr a i
                (set_t_position (rd a i)
                   (t_position_0 (rd a i) + t_velocity_0 (rd a i) * dt)%D
                   (t_position_1 (rd a i) + t_velocity_1 (rd a i) * dt)%D)))
    by (try reflexivity; intros []; reflexivity).
  cbn [rk_vortices rk_tracers set_rk_vortices set_rk_tracers
       set_rk_tracerRadii].
  destruct (for_loop_wr_map
              (fun v : Vortex D =>
                 set_position v (position_0 v + velocity_0 v * dt)%D
                                (position_1 v + velocity_1 v * dt)%D)
              0 N (rk_vortices m) ltac:(lia) Hv) as [_ Hrv].
  destruct (for_loop_wr_map
              (fun tr : Tracer D =>
                 set_t_position tr (t_position_0 tr + t_velocity_0 tr * dt)%D
                                   (t_position_1 tr + t_velocity_1 tr * dt)%D)
              0 numTracers (rk_tracers m) ltac:(lia) Ht) as [_ Hrt].
  cbv zeta in Hrv, Hrt. split.
  - intros i Hi. rewrite Hrv.
    destruct (Z.leb_spec 0 i), (Z.ltb_spec i N); try lia. reflexivity.
  - intros t Hti. rewrite Hrt.
    destruct (Z.leb_spec 0 t), (Z.ltb_spec t numTracers); try lia.
    reflexivity.
Qed.
End InitCommit.

Lemma for_loop_1_5 {S : Type} (body : Z -> S -> S) (s : S) :
  for_loop 1 5 body s = body 4 (body 3 (body 2 (body 1 s))).
Proof. reflexivity. Qed.

Section StageChain.
Context {D : Type} `{DoubleOps D}.
Variable K : Constants D.
Variable N : Z.

(** The conditions under which a stage runs as the lemmas above describe
    are kept by everything that leaves the fixed views alone. *)
Lemma rk_frame_ready (m m' : RKMem D) :
  rk_frame m m' ->
  N <= Z.of_nat (length (rk_vortices m))
  /\ Z.of_nat (length (rk_tracers m)) = NUM_TRACERS K
  /\ (forall t, 0 <= t < NUM_TRACERS K -> tIndex (rd (rk_tracers m) t) = t) ->
  N <= Z.of_nat (length (rk_vortices m'))
  /\ Z.of_nat (length (rk_tracers m')) = NUM_TRACERS K
  /\ (forall t, 0 <= t < NUM_TRACERS K -> tIndex (rd (rk_tracers m') t) = t).
Proof.
  intros (_ & _ & Hv & Ht) (Hlen & Htl & Hidx).
  pose proof (f_equal length Hv) as Hlv. rewrite !length_fmap in Hlv.
  pose proof (f_equal length Ht) as Hlt. rewrite !length_fmap in Hlt.
  split; [lia|]. split; [lia|].
  intros t Htr. rewrite <- (Hidx t Htr) at 2.
  exact (f_equal snd (rd_fmap_eq tracer_fixed _ _ t Ht)).
Qed.
End StageChain.

(** ** RK4 integrator: the commit, in real arithmetic *)

Section RK4Real.
Variable K : Constants R.
Variable N : Z.
Variable dt : R.
Hypothesis HN : 0 <= N.
Open Scope R_scope.

Lemma vortex_weights (k : R) :
  rkWeightedSum (fst (vortexStageSwitch 1 k)) = k / 6
  /\ rkWeightedSum (fst (vortexStageSwitch 2 k)) = 2 * k / 6
  /\ rkWeightedSum (fst (vortexStageSwitch 3 k)) = 2 * k / 6
  /\ rkWeightedSum (fst (vortexStageSwitch 4 k)) = k / 6.
Proof.
  unfold rkWeightedSum, vortexStageSwitch, d0.
  cbn [fst dadd dmul ddiv dZ R_DoubleOps]. repeat split; lra.
Qed.

Lemma tracer_weights (k : R) :
  rkWeightedSum (fst (tracerStageSwitch 1 k)) = k / 6
  /\ rkWeightedSum (fst (tracerStageSwitch 2 k)) = 2 * k / 6
  /\ rkWeightedSum (fst (tracerStageSwitch 3 k)) = 2 * k / 6
  /\ rkWeightedSum (fst (tracerStageSwitch 4 k)) = k / 6.
Proof.
  unfold rkWeightedSum, tracerStageSwitch, d0.
  cbn [fst dadd dmul ddiv dZ R_DoubleOps]. repeat split; lra.
Qed.

(** Where nothing is rounded (real arithmetic, tasks run in submission
    order) the four additions of the stages amount to the closed form: the
    velocities are zero after the initialisation; after the four stages the
    velocity of each vortex and tracer is [(k1 + 2 k2 + 2 k3 + k4) / 6],
    where [k1 .. k4] are the samples that the force evaluator returns on the
    intermediate tables at the start of stages 1 to 4; the committed
    position is the old one plus that velocity times the timestep. *)
Theorem stepForward_RK4_accumulates (vortices : list (Vortex R))
    (vortRadii tracerRadii : list R) (tracers : list (Tracer R))
    (numTracers : Z) :
  (N <= Z.of_nat (length vortices))%Z ->
  numTracers = NUM_TRACERS K ->
  Z.of_nat (length tracers) = numTracers ->
  (1 <= THREADCOUNT K)%Z ->
  (forall t, (0 <= t < numTracers)%Z -> tIndex (rd tracers t) = t) ->
  let vl := vortRadLen_of (D := R) N in
  let m0 := rkInit N vl vortices vortRadii tracerRadii tracers numTracers in
  let m1 := rkStage K N dt vl 1 m0 in
  let m2 := rkStage K N dt vl 2 m1 in
  let m3 := rkStage K N dt vl 3 m2 in
  let m' := stepForward_RK4 K N dt vortices vortRadii tracerRadii tracers
                            numTracers in
  (forall i, (0 <= i < N)%Z ->
     let k1 := vortexSample K N m0 i in
     let k2 := vortexSample K N m1 i in
     let k3 := vortexSample K N m2 i in
     let k4 := vortexSample K N m3 i in
     let v := rd (rk_vortices m') i in
     velocity_0 (rd (rk_vortices m0) i) = 0
     /\ velocity_1 (rd (rk_vortices m0) i) = 0
     /\ velocity_0 v = (fst k1 + 2 * fst k2 + 2 * fst k3 + fst k4) / 6
     /\ velocity_1 v = (snd k1 + 2 * snd k2 + 2 * snd k3 + snd k4) / 6
     /\ position_0 v = position_0 (rd vortices i) + velocity_0 v * dt
     /\ position_1 v = position_1 (rd vortices i) + velocity_1 v * dt)
  /\ (forall t, (0 <= t < numTracers)%Z ->
     let k1 := tracerSample K N m0 t in
     let k2 := tracerSample K N m1 t in
     let k3 := tracerSample K N m2 t in
     let k4 := tracerSample K N m3 t in
     let tr := rd (rk_tracers m') t in
     t_velocity_0 (rd (rk_tracers m0) t) = 0
     /\ t_velocity_1 (rd (rk_tracers m0) t) = 0
     /\ t_velocity_0 tr = (fst k1 + 2 * fst k2 + 2 * fst k3 + fst k4) / 6
     /\ t_velocity_1 tr = (snd k1 + 2 * snd k2 + 2 * snd k3 + snd k4) / 6
     /\ t_position_0 tr = t_position_0 (rd tracers t) + t_velocity_0 tr * dt
     /\ t_position_1 tr = t_position_1 (rd tracers t) + t_velocity_1 tr * dt).
Proof.
  intros Hlen HM Htl HT Hidx vl m0 m1 m2 m3 m'. subst numTracers.
  set (M := NUM_TRACERS K) in *.
  assert (HM0 : (0 <= M)%Z) by lia.
  set (m4 := rkStage K N dt vl 4 m3).
  assert (Hm' : m' = rkCommit N dt M m4).
  { unfold m', stepForward_RK4, rkStages. cbv zeta.
    rewrite for_loop_1_5. reflexivity. }
  (* the fixed views, from the input to the memory after stage 4 *)
  destruct (rkInit_frame N vl vortices vortRadii tracerRadii tracers M)
    as (_ & _ & Hv0 & Ht0). fold m0 in Hv0, Ht0.
  assert (Hready0 : (N <= Z.of_nat (length (rk_vortices m0)))%Z
            /\ Z.of_nat (length (rk_tracers m0)) = M
            /\ (forall t, (0 <= t < M)%Z -> tIndex (rd (rk_tracers m0) t) = t)).
  { pose proof (f_equal length Hv0) as Hlv. rewrite !length_fmap in Hlv.
    pose proof (f_equal length Ht0) as Hlt. rewrite !length_fmap in Hlt.
    split; [lia|]. split; [lia|].
    intros t Htr. rewrite <- (Hidx t Htr) at 2.
    exact (f_equal snd (rd_fmap_eq tracer_fixed _ _ t Ht0)). }
  pose proof (rkStage_frame K N dt vl 1 m0) as Hf1. fold m1 in Hf1.
  pose proof (rkStage_frame K N dt vl 2 m1) as Hf2. fold m2 in Hf2.
  pose proof (rkStage_frame K N dt vl 3 m2) as Hf3. fold m3 in Hf3.
  pose proof (rkStage_frame K N dt vl 4 m3) as Hf4. fold m4 in Hf4.
  pose proof (rk_frame_ready K N m0 m1 Hf1 Hready0) as Hready1.
  pose proof (rk_frame_ready K N m1 m2 Hf2 Hready1) as Hready2.
  pose proof (rk_frame_ready K N m2 m3 Hf3 Hready2) as Hready3.
  pose proof (rk_frame_ready K N m3 m4 Hf4 Hready3) as Hready4.
  (* the velocities, stage by stage *)
  destruct (rkInit_velocities N vl vortices vortRadii tracerRadii tracers M
              Hlen ltac:(lia)) as [Hzv Hzt]. fold m0 in Hzv, Hzt.
  destruct Hready0 as (Hl0 & Htl0 & Hi0).
  destruct Hready1 as (Hl1 & Htl1 & Hi1).
  destruct Hready2 as (Hl2 & Htl2 & Hi2).
  destruct Hready3 as (Hl3 & Htl3 & Hi3).
  destruct Hready4 as (Hl4 & Htl4 & Hi4).
  destruct (rkStage_velocities K N dt HN vl 1 m0 Hl0 HT HM0 Htl0 Hi0)
    as [Hv1 Ht1]. fold m1 in Hv1, Ht1.
  destruct (rkStage_velocities K N dt HN vl 2 m1 Hl1 HT HM0 Htl1 Hi1)
    as [Hv2 Ht2]. fold m2 in Hv2, Ht2.
  destruct (rkStage_velocities K N dt HN vl 3 m2 Hl2 HT HM0 Htl2 Hi2)
    as [Hv3 Ht3]. fold m3 in Hv3, Ht3.
  destruct (rkStage_velocities K N dt HN vl 4 m3 Hl3 HT HM0 Htl3 Hi3)
    as [Hv4 Ht4]. fold m4 in Hv4, Ht4.
  destruct (rkCommit_positions N dt M m4 Hl4 ltac:(lia)) as [Hcv Hct].
  rewrite <- Hm' in Hcv, Hct.
  assert (Hfix : rk_frame m0 m4).
  { eapply rk_frame_trans; [exact Hf1|].
    eapply rk_frame_trans; [exact Hf2|].
    eapply rk_frame_trans; [exact Hf3 | exact Hf4]. }
  destruct Hfix as (_ & _ & Hv04 & Ht04).
  split.
  - intros i Hi k1 k2 k3 k4 v. subst v.
    destruct (Hzv i Hi) as [Hz0 Hz1].
    destruct (Hv1 i Hi) as [Ha0 Ha1]. destruct (Hv2 i Hi) as [Hb0 Hb1].
    destruct (Hv3 i Hi) as [Hc0 Hc1]. destruct (Hv4 i Hi) as [Hd0 Hd1].
    fold k1 in Ha0, Ha1. fold k2 in Hb0, Hb1.
    fold k3 in Hc0, Hc1. fold k4 in Hd0, Hd1.
    destruct (vortex_weights (fst k1)) as (W1 & _ & _ & _).
    destruct (vortex_weights (fst k2)) as (_ & W2 & _ & _).
    destruct (vortex_weights (fst k3)) as (_ & _ & W3 & _).
    destruct (vortex_weights (fst k4)) as (_ & _ & _ & W4).
    destruct (vortex_weights (snd k1)) as (X1 & _ & _ & _).
    destruct (vortex_weights (snd k2)) as (_ & X2 & _ & _).
    destruct (vortex_weights (snd k3)) as (_ & _ & X3 & _).
    destruct (vortex_weights (snd k4)) as (_ & _ & _ & X4).
    rewrite W1 in Ha0. rewrite W2 in Hb0. rewrite W3 in Hc0. rewrite W4 in Hd0.
    rewrite X1 in Ha1. rewrite X2 in Hb1. rewrite X3 in Hc1. rewrite X4 in Hd1.
    cbn [dadd R_DoubleOps] in Ha0, Ha1, Hb0, Hb1, Hc0, Hc1, Hd0, Hd1.
    change (@d0 R _) with 0 in Hz0, Hz1.
    pose proof (rd_fmap_eq vortex_fixed _ _ i Hv04) as Hp4.
    pose proof (rd_fmap_eq vortex_fixed _ _ i Hv0) as Hp0.
    assert (Hpos0 : position_0 (rd (rk_vortices m4) i)
                    = position_0 (rd vortices i))
      by (unfold vortex_fixed in Hp4, Hp0; congruence).
    assert (Hpos1 : position_1 (rd (rk_vortices m4) i)
                    = position_1 (rd vortices i))
      by (unfold vortex_fixed in Hp4, Hp0; congruence).
    rewrite (Hcv i Hi).
    cbn [velocity_0 velocity_1 position_0 position_1 set_position
         dadd dmul R_DoubleOps].
    rewrite Hpos0, Hpos1.
    repeat split; lra.
  - intros t Hti k1 k2 k3 k4 tr. subst tr.
    destruct (Hzt t Hti) as [Hz0 Hz1].
    destruct (Ht1 t Hti) as [Ha0 Ha1]. destruct (Ht2 t Hti) as [Hb0 Hb1].
    destruct (Ht3 t Hti) as [Hc0 Hc1]. destruct (Ht4 t Hti) as [Hd0 Hd1].
    fold k1 in Ha0, Ha1. fold k2 in Hb0, Hb1.
    fold k3 in Hc0, Hc1. fold k4 in Hd0, Hd1.
    destruct (tracer_weights (fst k1)) as (W1 & _ & _ & _).
    destruct (tracer_weights (fst k2)) as (_ & W2 & _ & _).
    destruct (tracer_weights (fst k3)) as (_ & _ & W3 & _).
    destruct (tracer_weights (fst k4)) as (_ & _ & _ & W4).
    destruct (tracer_weights (snd k1)) as (X1 & _ & _ & _).
    destruct (tracer_weights (snd k2)) as (_ & X2 & _ & _).
    destruct (tracer_weights (snd k3)) as (_ & _ & X3 & _).
    destruct (tracer_weights (snd k4)) as (_ & _ & _ & X4).
    rewrite W1 in Ha0. rewrite W2 in Hb0. rewrite W3 in Hc0. rewrite W4 in Hd0.
    rewrite X1 in Ha1. rewrite X2 in Hb1. rewrite X3 in Hc1. rewrite X4 in Hd1.
    cbn [dadd R_DoubleOps] in Ha0, Ha1, Hb0, Hb1, Hc0, Hc1, Hd0, Hd1.
    change (@d0 R _) with 0 in Hz0, Hz1.
    pose proof (rd_fmap_eq tracer_fixed _ _ t Ht04) as Hp4.
    pose proof (rd_fmap_eq tracer_fixed _ _ t Ht0) as Hp0.
    assert (Hpos0 : t_position_0 (rd (rk_tracers m4) t)
                    = t_position_0 (rd tracers t))
      by (unfold tracer_fixed in Hp4, Hp0; congruence).
    assert (Hpos1 : t_position_1 (rd (rk_tracers m4) t)
                    = t_position_1 (rd tracers t))
      by (unfold tracer_fixed in Hp4, Hp0; congruence).
    rewrite (Hct t Hti).
    cbn [t_velocity_0 t_velocity_1 t_position_0 t_position_1 set_t_position
         dadd dmul R_DoubleOps].
    rewrite Hpos0, Hpos1.
    repeat split; lra.
Qed.
End RK4Real.

(** ** The accumulation in every arithmetic *)

Section RK4Stagewise.
Context {D : Type} `{DoubleOps D}.
Variable K : Constants D.
Variable N : Z.
Variable dt : D.
Hypothesis HN : 0 <= N.

(** C6, as amended (tasks run in submission order).  In every
    interpretation of [double]: the velocities are zero after the
    initialisation; each of the four stages adds to the velocity of each
    vortex and tracer the value of [(k1 + k2 * 2 + k3 * 2 + k4) / 6]
    computed with the sample of that stage in its place and 0 in the three
    other places, where the samples [k1 .. k4] are what the force evaluator
    returns on the intermediate tables at the start of stages 1 to 4, and
    nothing else is added; the committed position is the old one plus the
    accumulated velocity times the timestep.  The four quotients are rounded
    one by one, and so is each addition. *)
Theorem stepForward_RK4_stage_sums (vortices : list (Vortex D))
    (vortRadii tracerRadii : list D) (tracers : list (Tracer D))
    (numTracers : Z) :
  N <= Z.of_nat (length vortices) ->
  numTracers = NUM_TRACERS K ->
  Z.of_nat (length tracers) = numTracers ->
  1 <= THREADCOUNT K ->
  (forall t, 0 <= t < numTracers -> tIndex (rd tracers t) = t) ->
  let vl := vortRadLen_of N in
  let m0 := rkInit N vl vortices vortRadii tracerRadii tracers numTracers in
  let m1 := rkStage K N dt vl 1 m0 in
  let m2 := rkStage K N dt vl 2 m1 in
  let m3 := rkStage K N dt vl 3 m2 in
  let m' := stepForward_RK4 K N dt vortices vortRadii tracerRadii tracers
                            numTracers in
  let s1 := fun k : D => ((k + d0 * dZ 2 + d0 * dZ 2 + d0) / dZ 6)%D in
  let s2 := fun k : D => ((d0 + k * dZ 2 + d0 * dZ 2 + d0) / dZ 6)%D in
  let s3 := fun k : D => ((d0 + d0 * dZ 2 + k * dZ 2 + d0) / dZ 6)%D in
  let s4 := fun k : D => ((d0 + d0 * dZ 2 + d0 * dZ 2 + k) / dZ 6)%D in
  (forall i, 0 <= i < N ->
     let k1 := vortexSample K N m0 i in
     let k2 := vortexSample K N m1 i in
     let k3 := vortexSample K N m2 i in
     let k4 := vortexSample K N m3 i in
     let v := rd (rk_vortices m') i in
     velocity_0 (rd (rk_vortices m0) i) = d0
     /\ velocity_1 (rd (rk_vortices m0) i) = d0
     /\ velocity_0 v
        = (d0 + s1 (fst k1) + s2 (fst k2) + s3 (fst k3) + s4 (fst k4))%D
     /\ velocity_1 v
        = (d0 + s1 (snd k1) + s2 (snd k2) + s3 (snd k3) + s4 (snd k4))%D
     /\ position_0 v = (position_0 (rd vortices i) + velocity_0 v * dt)%D
     /\ position_1 v = (position_1 (rd vortices i) + velocity_1 v * dt)%D)
  /\ (forall t, 0 <= t < numTracers ->
     let k1 := tracerSample K N m0 t in
     let k2 := tracerSample K N m1 t in
     let k3 := tracerSample K N m2 t in
     let k4 := tracerSample K N m3 t in
     let tr := rd (rk_tracers m') t in
     t_velocity_0 (rd (rk_tracers m0) t) = d0
     /\ t_velocity_1 (rd (rk_tracers m0) t) = d0
     /\ t_velocity_0 tr
        = (d0 + s1 (d0 + fst k1) + s2 (d0 + fst k2) + s3 (d0 + fst k3)
           + s4 (d0 + fst k4))%D
     /\ t_velocity_1 tr
        = (d0 + s1 (d0 + snd k1) + s2 (d0 + snd k2) + s3 (d0 + snd k3)
           + s4 (d0 + snd k4))%D
     /\ t_position_0 tr
        = (t_position_0 (rd tracers t) + t_velocity_0 tr * dt)%D
     /\ t_position_1 tr
        = (t_position_1 (rd tracers t) + t_velocity_1 tr * dt)%D).
Proof.
  intros Hlen HM Htl HT Hidx vl m0 m1 m2 m3 m' s1 s2 s3 s4.
  subst numTracers. set (M := NUM_TRACERS K) in *.
  assert (HM0 : 0 <= M) by lia.
  set (m4 := rkStage K N dt vl 4 m3).
  assert (Hm' : m' = rkCommit N dt M m4).
  { unfold m', stepForward_RK4, rkStages. cbv zeta.
    rewrite for_loop_1_5. reflexivity. }
  destruct (rkInit_frame N vl vortices vortRadii tracerRadii tracers M)
    as (_ & _ & Hv0 & Ht0). fold m0 in Hv0, Ht0.
  assert (Hready0 : N <= Z.of_nat (length (rk_vortices m0))
            /\ Z.of_nat (length (rk_tracers m0)) = M
            /\ (forall t, 0 <= t < M -> tIndex (rd (rk_tracers m0) t) = t)).
  { pose proof (f_equal length Hv0) as Hlv. rewrite !length_fmap in Hlv.
    pose proof (f_equal length Ht0) as Hlt. rewrite !length_fmap in Hlt.
    split; [lia|]. split; [lia|].
    intros t Htr. rewrite <- (Hidx t Htr) at 2.
    exact (f_equal snd (rd_fmap_eq tracer_fixed _ _ t Ht0)). }
  pose proof (rkStage_frame K N dt vl 1 m0) as Hf1. fold m1 in Hf1.
  pose proof (rkStage_frame K N dt vl 2 m1) as Hf2. fold m2 in Hf2.
  pose proof (rkStage_frame K N dt vl 3 m2) as Hf3. fold m3 in Hf3.
  pose proof (rkStage_frame K N dt vl 4 m3) as Hf4. fold m4 in Hf4.
  pose proof (rk_frame_ready K N m0 m1 Hf1 Hready0) as Hready1.
  pose proof (rk_frame_ready K N m1 m2 Hf2 Hready1) as Hready2.
  pose proof (rk_frame_ready K N m2 m3 Hf3 Hready2) as Hready3.
  pose proof (rk_frame_ready K N m3 m4 Hf4 Hready3) as Hready4.
  destruct (rkInit_velocities N vl vortices vortRadii tracerRadii tracers M
              Hlen ltac:(lia)) as [Hzv Hzt]. fold m0 in Hzv, Hzt.
  destruct Hready0 as (Hl0 & Htl0 & Hi0).
  destruct Hready1 as (Hl1 & Htl1 & Hi1).
  destruct Hready2 as (Hl2 & Htl2 & Hi2).
  destruct Hready3 as (Hl3 & Htl3 & Hi3).
  destruct Hready4 as (Hl4 & Htl4 & Hi4).
  destruct (rkStage_velocities K N dt HN vl 1 m0 Hl0 HT HM0 Htl0 Hi0)
    as [Hv1 Ht1]. fold m1 in Hv1, Ht1.
  destruct (rkStage_velocities K N dt HN vl 2 m1 Hl1 HT HM0 Htl1 Hi1)
    as [Hv2 Ht2]. fold m2 in Hv2, Ht2.
  destruct (rkStage_velocities K N dt HN vl 3 m2 Hl2 HT HM0 Htl2 Hi2)
    as [Hv3 Ht3]. fold m3 in Hv3, Ht3.
  destruct (rkStage_velocities K N dt HN vl 4 m3 Hl3 HT HM0 Htl3 Hi3)
    as [Hv4 Ht4]. fold m4 in Hv4, Ht4.
  destruct (rkCommit_positions N dt M m4 Hl4 ltac:(lia)) as [Hcv Hct].
  rewrite <- Hm' in Hcv, Hct.
  assert (Hfix : rk_frame m0 m4).
  { eapply rk_frame_trans; [exact Hf1|].
    eapply rk_frame_trans; [exact Hf2|].
    eapply rk_frame_trans; [exact Hf3 | exact Hf4]. }
  destruct Hfix as (_ & _ & Hv04 & Ht04).
  split.
  - intros i Hi k1 k2 k3 k4 v. subst v.
    destruct (Hzv i Hi) as [Hz0 Hz1].
    destruct (Hv1 i Hi) as [Ha0 Ha1]. destruct (Hv2 i Hi) as [Hb0 Hb1].
    destruct (Hv3 i Hi) as [Hc0 Hc1]. destruct (Hv4 i Hi) as [Hd0 Hd1].
    fold k1 in Ha0, Ha1. fold k2 in Hb0, Hb1.
    fold k3 in Hc0, Hc1. fold k4 in Hd0, Hd1.
    change (rkWeightedSum (fst (vortexStageSwitch 1 (fst k1))))
      with (s1 (fst k1)) in Ha0.
    change (rkWeightedSum (fst (vortexStageSwitch 1 (snd k1))))
      with (s1 (snd k1)) in Ha1.
    change (rkWeightedSum (fst (vortexStageSwitch 2 (fst k2))))
      with (s2 (fst k2)) in Hb0.
    change (rkWeightedSum (fst (vortexStageSwitch 2 (snd k2))))
      with (s2 (snd k2)) in Hb1.
    change (rkWeightedSum (fst (vortexStageSwitch 3 (fst k3))))
      with (s3 (fst k3)) in Hc0.
    change (rkWeightedSum (fst (vortexStageSwitch 3 (snd k3))))
      with (s3 (snd k3)) in Hc1.
    change (rkWeightedSum (fst (vortexStageSwitch 4 (fst k4))))
      with (s4 (fst k4)) in Hd0.
    change (rkWeightedSum (fst (vortexStageSwitch 4 (snd k4))))
      with (s4 (snd k4)) in Hd1.
    pose proof (rd_fmap_eq vortex_fixed _ _ i Hv04) as Hp4.
    pose proof (rd_fmap_eq vortex_fixed _ _ i Hv0) as Hp0.
    assert (Hpos0 : position_0 (rd (rk_vortices m4) i)
                    = position_0 (rd vortices i))
      by (unfold vortex_fixed in Hp4, Hp0; congruence).
    assert (Hpos1 : position_1 (rd (rk_vortices m4) i)
                    = position_1 (rd vortices i))
      by (unfold vortex_fixed in Hp4, Hp0; congruence).
    rewrite (Hcv i Hi).
    cbn [velocity_0 velocity_1 position_0 position_1 set_position].
    rewrite Hpos0, Hpos1.
    split; [exact Hz0|]. split; [exact Hz1|].
    split; [rewrite Hd0, Hc0, Hb0, Ha0, Hz0; reflexivity|].
    split; [rewrite Hd1, Hc1, Hb1, Ha1, Hz1; reflexivity|].
    split; reflexivity.
  - intros t Hti k1 k2 k3 k4 tr. subst tr.
    destruct (Hzt t Hti) as [Hz0 Hz1].
    destruct (Ht1 t Hti) as [Ha0 Ha1]. destruct (Ht2 t Hti) as [Hb0 Hb1].
    destruct (Ht3 t Hti) as [Hc0 Hc1]. destruct (Ht4 t Hti) as [Hd0 Hd1].
    fold k1 in Ha0, Ha1. fold k2 in Hb0, Hb1.
    fold k3 in Hc0, Hc1. fold k4 in Hd0, Hd1.
    change (rkWeightedSum (fst (tracerStageSwitch 1 (fst k1))))
      with (s1 (d0 + fst k1)%D) in Ha0.
    change (rkWeightedSum (fst (tracerStageSwitch 1 (snd k1))))
      with (s1 (d0 + snd k1)%D) in Ha1.
    change (rkWeightedSum (fst (tracerStageSwitch 2 (fst k2))))
      with (s2 (d0 + fst k2)%D) in Hb0.
    change (rkWeightedSum (fst (tracerStageSwitch 2 (snd k2))))
      with (s2 (d0 + snd k2)%D) in Hb1.
    change (rkWeightedSum (fst (tracerStageSwitch 3 (fst k3))))
      with (s3 (d0 + fst k3)%D) in Hc0.
    change (rkWeightedSum (fst (tracerStageSwitch 3 (snd k3))))
      with (s3 (d0 + snd k3)%D) in Hc1.
    change (rkWeightedSum (fst (tracerStageSwitch 4 (fst k4))))
      with (s4 (d0 + fst k4)%D) in Hd0.
    change (rkWeightedSum (fst (tracerStageSwitch 4 (snd k4))))
      with (s4 (d0 + snd k4)%D) in Hd1.
    pose proof (rd_fmap_eq tracer_fixed _ _ t Ht04) as Hp4.
    pose proof (rd_fmap_eq tracer_fixed _ _ t Ht0) as Hp0.
    assert (Hpos0 : t_position_0 (rd (rk_tracers m4) t)
                    = t_position_0 (rd tracers t))
      by (unfold tracer_fixed in Hp4, Hp0; congruence).
    assert (Hpos1 : t_position_1 (rd (rk_tracers m4) t)
                    = t_position_1 (rd tracers t))
      by (unfold tracer_fixed in Hp4, Hp0; congruence).
    rewrite (Hct t Hti).
    cbn [t_velocity_0 t_velocity_1 t_position_0 t_position_1 set_t_position].
    rewrite Hpos0, Hpos1.
    split; [exact Hz0|]. split; [exact Hz1|].
    split; [rewrite Hd0, Hc0, Hb0, Ha0, Hz0; reflexivity|].
    split; [rewrite Hd1, Hc1, Hb1, Ha1, Hz1; reflexivity|].
    split; reflexivity.
Qed.
End RK4Stagewise.

(** On binary64: five vortices and two tracers, with the distances of
    their positions in the tables. *)
Lemma stepForward_RK4_stage_sums_witness :
  let K := K0 in
  let N := 5 in
  let dt := 0.5%float in
  let vortices := five_vortices in
  let vortRadii := vortexRadii five_vortex_distances in
  let tracerRadii := tracerRads five_vortex_distances in
  let tracers := two_tracers in
  let numTracers := 2 in
  let vl := vortRadLen_of (D := float) N in
  let m0 := rkInit N vl vortices vortRadii tracerRadii tracers numTracers in
  let m1 := rkStage K N dt vl 1 m0 in
  let m2 := rkStage K N dt vl 2 m1 in
  let m3 := rkStage K N dt vl 3 m2 in
  let m' := stepForward_RK4 K N dt vortices vortRadii tracerRadii tracers
                            numTracers in
  let s1 := fun k : float => ((k + d0 * dZ 2 + d0 * dZ 2 + d0) / dZ 6)%D in
  let s2 := fun k : float => ((d0 + k * dZ 2 + d0 * dZ 2 + d0) / dZ 6)%D in
  let s3 := fun k : float => ((d0 + d0 * dZ 2 + k * dZ 2 + d0) / dZ 6)%D in
  let s4 := fun k : float => ((d0 + d0 * dZ 2 + d0 * dZ 2 + k) / dZ 6)%D in
  (forall i, 0 <= i < N ->
     let k1 := vortexSample K N m0 i in
     let k2 := vortexSample K N m1 i in
     let k3 := vortexSample K N m2 i in
     let k4 := vortexSample K N m3 i in
     let v := rd (rk_vortices m') i in
     velocity_0 (rd (rk_vortices m0) i) = d0
     /\ velocity_1 (rd (rk_vortices m0) i) = d0
     /\ velocity_0 v
        = (d0 + s1 (fst k1) + s2 (fst k2) + s3 (fst k3) + s4 (fst k4))%D
     /\ velocity_1 v
        = (d0 + s1 (snd k1) + s2 (snd k2) + s3 (snd k3) + s4 (snd k4))%D
     /\ position_0 v = (position_0 (rd vortices i) + velocity_0 v * dt)%D
     /\ position_1 v = (position_1 (rd vortices i) + velocity_1 v * dt)%D)
  /\ (forall t, 0 <= t < numTracers ->
     let k1 := tracerSample K N m0 t in
     let k2 := tracerSample K N m1 t in
     let k3 := tracerSample K N m2 t in
     let k4 := tracerSample K N m3 t in
     let tr := rd (rk_tracers m') t in
     t_velocity_0 (rd (rk_tracers m0) t) = d0
     /\ t_velocity_1 (rd (rk_tracers m0) t) = d0
     /\ t_velocity_0 tr
        = (d0 + s1 (d0 + fst k1) + s2 (d0 + fst k2) + s3 (d0 + fst k3)
           + s4 (d0 + fst k4))%D
     /\ t_velocity_1 tr
        = (d0 + s1 (d0 + snd k1) + s2 (d0 + snd k2) + s3 (d0 + snd k3)
           + s4 (d0 + snd k4))%D
     /\ t_position_0 tr
        = (t_position_0 (rd tracers t) + t_velocity_0 tr * dt)%D
     /\ t_position_1 tr
        = (t_position_1 (rd tracers t) + t_velocity_1 tr * dt)%D).
Proof.
  apply (stepForward_RK4_stage_sums K0 5 0.5%float ltac:(lia) five_vortices
           (vortexRadii five_vortex_distances)
           (tracerRads five_vortex_distances) two_tracers 2).
  - simpl. lia.
  - reflexivity.
  - reflexivity.
  - simpl. lia.
  - intros t Ht. assert (Hc : t = 0 \/ t = 1) by lia.
    destruct Hc as [-> | ->]; reflexivity.
Defined.

(** C6 as stated fails in doubles.  Five vortices and two tracers with the
    distances of their positions in the tables, one step of size 0.5: the
    x-velocity that vortex 3 has accumulated differs in the last bits from
    [(k1 + 2 k2 + 2 k3 + k4) / 6] computed in doubles from the four samples
    of the step, and six times its exact value is not the exact value of
    [k1 + 2 k2 + 2 k3 + k4]. *)
Lemma stepForward_RK4_rounds_by_stage :
  let radii := vortexRadii five_vortex_distances in
  let tracerRadii := tracerRads five_vortex_distances in
  let dt := 0.5%float in
  let vl := vortRadLen_of (D := float) 5 in
  let m0 := rkInit 5 vl five_vortices radii tracerRadii two_tracers 2 in
  let m1 := rkStage K0 5 dt vl 1 m0 in
  let m2 := rkStage K0 5 dt vl 2 m1 in
  let m3 := rkStage K0 5 dt vl 3 m2 in
  let m' := stepForward_RK4 K0 5 dt five_vortices radii tracerRadii
                            two_tracers 2 in
  let k1 := fst (vortexSample K0 5 m0 3) in
  let k2 := fst (vortexSample K0 5 m1 3) in
  let k3 := fst (vortexSample K0 5 m2 3) in
  let k4 := fst (vortexSample K0 5 m3 3) in
  let v := velocity_0 (rd (rk_vortices m') 3) in
  (k1, k2, k3, k4)
  = (0x1.b76fccacff938p-6, 0x1.b4ea71c82e412p-6, 0x1.b449ed1b4c8d8p-6,
     0x1.b124755f2e33cp-6)%float
  /\ v = 0x1.b47f7ff885e61p-6%float
  /\ ((k1 + 2 * k2 + 2 * k3 + k4) / 6)%float = 0x1.b47f7ff885e63p-6%float
  /\ v <> ((k1 + 2 * k2 + 2 * k3 + k4) / 6)%float
  /\ (u ← float_units v; a ← float_units k1; b ← float_units k2;
      c ← float_units k3; d ← float_units k4;
      Some (6 * u =? a + 2 * b + 2 * c + d))
     = Some false.
Proof.
  cbv zeta.
  split; [vm_compute; reflexivity|].
  split; [vm_compute; reflexivity|].
  split; [vm_compute; reflexivity|].
  split; [|vm_compute; reflexivity].
  intros E.
  apply (f_equal (fun x => PrimFloat.eqb x 0x1.b47f7ff885e61p-6%float)) in E.
  vm_compute in E. discriminate.
Qed.

(** * Further properties of the code *)

(** ** Index calculators *)

Lemma calculateVortexRadiiIndex_no_overflow_witness :
  let m := Z.max 2147483647 2147483646 in
  0 <= (m - 1) * m <= LONG_MAX
  /\ 0 <= (m - 1) * m ÷ 2 + Z.min 2147483647 2147483646 <= LONG_MAX
  /\ 0 <= calculateVortexRadiiIndex 2147483647 2147483646 <= LONG_MAX.
Proof.
  apply (calculateVortexRadiiIndex_no_overflow 2147483647 2147483646);
    unfold INT_MAX; lia.
Defined.

(** X2.  The rectangular tracer table has one three-double slot for every
    (tracer, vortex) pair: the slot of tracer [t] and vortex [v] lies inside
    the first [3 * M * N] doubles, the slots of a tracer are consecutive,
    and the slots of two different pairs do not overlap. *)
Theorem calculateTracerRadiiIndex_layout (N M t v t' v' : Z) :
  0 <= t < M -> 0 <= v < N -> 0 <= t' < M -> 0 <= v' < N ->
  0 <= calculateTracerRadiiIndex N t v
  /\ calculateTracerRadiiIndex N t v + 3 <= 3 * (M * N)
  /\ calculateTracerRadiiIndex N t v
     = calculateTracerRadiiIndex N t 0 + 3 * v
  /\ ((t, v) <> (t', v') ->
      calculateTracerRadiiIndex N t v + 3 <= calculateTracerRadiiIndex N t' v'
      \/ calculateTracerRadiiIndex N t' v' + 3
         <= calculateTracerRadiiIndex N t v).
Proof.
  intros Ht Hv Ht' Hv'.
  pose proof (calculateTracerRadiiIndex_range N M t v Ht Hv) as [H0 H1].
  repeat split; try assumption.
  - unfold calculateTracerRadiiIndex. lia.
  - intros Hne.
    destruct (calculateTracerRadiiIndex_apart N t v t' v' Hv Hv' Hne); lia.
Qed.

Lemma calculateTracerRadiiIndex_layout_witness :
  0 <= calculateTracerRadiiIndex 5 1 4
  /\ calculateTracerRadiiIndex 5 1 4 + 3 <= 3 * (2 * 5)
  /\ calculateTracerRadiiIndex 5 1 4
     = calculateTracerRadiiIndex 5 1 0 + 3 * 4
  /\ ((1, 4) <> (0, 4) ->
      calculateTracerRadiiIndex 5 1 4 + 3 <= calculateTracerRadiiIndex 5 0 4
      \/ calculateTracerRadiiIndex 5 0 4 + 3
         <= calculateTracerRadiiIndex 5 1 4).
Proof. apply (calculateTracerRadiiIndex_layout 5 2 1 4 0 4); lia. Defined.

(** ** Force evaluator *)

Section SelfInduction.
Context {D : Type} `{DoubleOps D}.
Variable K : Constants D.

(** X3.  A vortex induces no velocity on itself, its eight periodic images
    included: the result of [calculateVel_vortex] does not depend on the
    array element at the body's own index, and for a single vortex the
    accumulators come back as they were passed. *)
Theorem calculateVel_vortex_no_self_induction (N : Z) (vel : D * D)
    (vort w : Vortex D) (vortices : list (Vortex D)) (rads : list D) :
  calculateVel_vortex K N vel vort (wr vortices (vIndex vort) w) rads
  = calculateVel_vortex K N vel vort vortices rads
  /\ (vIndex vort = 0 -> calculateVel_vortex K 1 vel vort vortices rads = vel).
Proof.
  split.
  - unfold calculateVel_vortex.
    apply for_loop_ext. intros j s Hj.
    destruct (Z.eqb_spec (vIndex vort) j) as [|Hne]; [reflexivity|].
    rewrite rd_wr_ne by exact Hne. reflexivity.
  - intros Hv. unfold calculateVel_vortex, for_loop. simpl.
    rewrite Hv. reflexivity.
Qed.
End SelfInduction.

(** ** Distance cache *)

Section WriteBack.
Context {A : Type} `{Inhabited A}.

(** Storing the value that is already there. *)
Lemma wr_same (a : list A) (i : Z) (v : A) : rd a i = v -> wr a i v = a.
Proof.
  unfold rd, wr. destruct (i <? 0); [reflexivity|]. intros Hv.
  destruct (a !! Z.to_nat i) as [x|] eqn:Hx.
  - apply list_insert_id. rewrite Hx. f_equal.
    rewrite (list_lookup_total_correct _ _ _ Hx) in Hv. exact Hv.
  - apply list_insert_ge. apply lookup_ge_None. exact Hx.
Qed.
End WriteBack.

Section CacheFrame.
Context {D : Type} `{DoubleOps D}.

Lemma wr_entry_same (a : list D) (index : Z) (x y : D) :
  entry_is a index x y -> wr_entry a index x y = a.
Proof.
  intros (Hx & Hy & Hr). unfold wr_entry. cbv zeta.
  rewrite (wr_same a (index + 1) x Hx), (wr_same a (index + 2) y Hy).
  apply wr_same. rewrite Hx, Hy. exact Hr.
Qed.

(** X4.  [updateRadii_pythagorean] stays inside the part of each table that
    belongs to the [N] vortices and [M] tracers: both tables keep their
    size, and every double from [3 * N * (N - 1) / 2] on in the vortex table
    and from [3 * M * N] on in the tracer table keeps its value. *)
Theorem updateRadii_pythagorean_frame (N : Z)
    (vortexRadii : list D) (vortices : list (Vortex D))
    (tracerRadii : list D) (tracers : list (Tracer D)) (M : Z) :
  (forall i, 0 <= i < N -> vIndex (rd vortices i) = i) ->
  let radii := updateRadii_pythagorean N vortexRadii vortices
                                       tracerRadii tracers M in
  length (fst radii) = length vortexRadii
  /\ length (snd radii) = length tracerRadii
  /\ (forall k, 3 * (N * (N - 1) / 2) <= k ->
        rd (fst radii) k = rd vortexRadii k)
  /\ (forall k, 3 * (M * N) <= k -> rd (snd radii) k = rd tracerRadii k).
Proof.
  intros Hvi radii. subst radii. unfold updateRadii_pythagorean.
  cbn [fst snd].
  set (P := fun a' : list D =>
    length a' = length vortexRadii
    /\ forall k, 3 * (N * (N - 1) / 2) <= k -> rd a' k = rd vortexRadii k).
  set (Q := fun a' : list D =>
    length a' = length tracerRadii
    /\ forall k, 3 * (M * N) <= k -> rd a' k = rd tracerRadii k).
  match goal with |- length ?a = _ /\ length ?b = _ /\ _ =>
    assert (HP : P a); [| assert (HQ : Q b)] end.
  - apply for_loop_frame; [split; [reflexivity | intros; reflexivity]|].
    intros i a Hi Ha. apply for_loop_frame; [assumption|].
    intros j a' Hj [Hl Hk]. cbv zeta.
    rewrite (Hvi i), (Hvi j) by lia. fold_wr_entry.
    rewrite (calculateVortexRadiiIndex_sym i j).
    pose proof (calculateVortexRadiiIndex_lt_range N j i) as Hrange.
    split; [rewrite length_wr_entry; assumption|].
    intros k Hk'. rewrite rd_wr_entry_other by lia. apply Hk. exact Hk'.
  - apply for_loop_frame; [split; [reflexivity | intros; reflexivity]|].
    intros t a Ht Ha. apply for_loop_frame; [assumption|].
    intros v a' Hv [Hl Hk]. cbv zeta. fold_wr_entry.
    pose proof (calculateTracerRadiiIndex_range N M t v) as Hrange.
    split; [rewrite length_wr_entry; assumption|].
    intros k Hk'. rewrite rd_wr_entry_other by lia. apply Hk. exact Hk'.
  - destruct HP as [? ?], HQ as [? ?]. auto.
Qed.

(** X5.  The tables are a function of the positions: recomputing them a
    second time, with no body moved in between, changes nothing. *)
Theorem updateRadii_pythagorean_idempotent (N : Z)
    (vortexRadii : list D) (vortices : list (Vortex D))
    (tracerRadii : list D) (tracers : list (Tracer D)) (M : Z) :
  (forall i, 0 <= i < N -> vIndex (rd vortices i) = i) ->
  3 * (N * (N - 1) / 2) <= Z.of_nat (length vortexRadii) ->
  3 * (M * N) <= Z.of_nat (length tracerRadii) ->
  let radii := updateRadii_pythagorean N vortexRadii vortices
                                       tracerRadii tracers M in
  updateRadii_pythagorean N (fst radii) vortices (snd radii) tracers M
  = radii.
Proof.
  intros Hvi Hlv Hlt radii.
  pose proof (updateRadii_vortex_table N vortices vortexRadii tracerRadii
                tracers M Hvi Hlv) as Hv.
  pose proof (updateRadii_tracer_table N vortices vortexRadii tracerRadii
                tracers M Hlt) as Ht.
  fold radii in Hv, Ht.
  rewrite (surjective_pairing radii) at 3.
  unfold updateRadii_pythagorean at 1. f_equal.
  - apply (for_loop_frame (fun a => a = fst radii)); [reflexivity|].
    intros i a Hi ->.
    apply (for_loop_frame (fun a => a = fst radii)); [reflexivity|].
    intros j a Hj ->. cbv zeta.
    rewrite (Hvi i), (Hvi j) by lia. fold_wr_entry.
    rewrite (calculateVortexRadiiIndex_sym i j).
    apply wr_entry_same. apply Hv; lia.
  - apply (for_loop_frame (fun a => a = snd radii)); [reflexivity|].
    intros t a Ht' ->.
    apply (for_loop_frame (fun a => a = snd radii)); [reflexivity|].
    intros v a Hv' ->. cbv zeta. fold_wr_entry.
    apply wr_entry_same. apply Ht; lia.
Qed.
End CacheFrame.

Lemma five_vortices_indexed (i : Z) :
  0 <= i < 5 -> vIndex (rd five_vortices i) = i.
Proof.
  intros Hi. assert (Hc : i = 0 \/ i = 1 \/ i = 2 \/ i = 3 \/ i = 4) by lia.
  destruct Hc as [-> | [-> | [-> | [-> | ->]]]]; reflexivity.
Defined.

Lemma updateRadii_pythagorean_frame_witness :
  let radii :=
    updateRadii_pythagorean 5 (vortexRadii five_vortex_population)
      five_vortices (tracerRads five_vortex_population) two_tracers 2 in
  length (fst radii) = length (vortexRadii five_vortex_population)
  /\ length (snd radii) = length (tracerRads five_vortex_population)
  /\ (forall k, 3 * (5 * (5 - 1) / 2) <= k ->
        rd (fst radii) k = rd (vortexRadii five_vortex_population) k)
  /\ (forall k, 3 * (2 * 5) <= k ->
        rd (snd radii) k = rd (tracerRads five_vortex_population) k).
Proof.
  exact (updateRadii_pythagorean_frame 5
           (vortexRadii five_vortex_population) five_vortices
           (tracerRads five_vortex_population) two_tracers 2
           five_vortices_indexed).
Defined.

Lemma updateRadii_pythagorean_idempotent_witness :
  let radii :=
    updateRadii_pythagorean 5 (vortexRadii five_vortex_population)
      five_vortices (tracerRads five_vortex_population) two_tracers 2 in
  updateRadii_pythagorean 5 (fst radii) five_vortices (snd radii)
                          two_tracers 2
  = radii.
Proof.
  apply (updateRadii_pythagorean_idempotent 5
           (vortexRadii five_vortex_population) five_vortices
           (tracerRads five_vortex_population) two_tracers 2
           five_vortices_indexed).
  - vm_compute. discriminate.
  - vm_compute. discriminate.
Defined.

(** ** Domain wrap *)

Section WrapPeriodic.
Variable K : Constants R.
Open Scope R_scope.

(** A wrapped coordinate differs from the original by a whole number of
    domain sizes, and wrapping it again changes nothing. *)
Lemma wrapCoordinate_congruent (size p : R) :
  0 < size ->
  (exists k : Z, wrapCoordinate size p = p + IZR k * size)
  /\ wrapCoordinate size (wrapCoordinate size p) = wrapCoordinate size p.
Proof.
  intros Hsize. split.
  - unfold wrapCoordinate.
    cbn [dltb dfmod dadd dZ R_DoubleOps]. unfold Rfmod.
    destruct (Rltb p 0).
    + exists (1 - Rtrunc (p / size))%Z. rewrite minus_IZR. lra.
    + destruct (Rltb size p).
      * exists (- Rtrunc (p / size))%Z. rewrite opp_IZR. lra.
      * exists 0%Z. lra.
  - pose proof (wrapCoordinate_range size p Hsize) as (Hr & _ & _).
    pose proof (wrapCoordinate_range size (wrapCoordinate size p) Hsize)
      as (_ & _ & Hid).
    apply Hid. exact Hr.
Qed.

(** X6.  (real arithmetic)  [wrapPositions] moves every coordinate of every
    vortex and tracer by a whole number of domain sizes and touches no other
    field; applying it a second time changes no body. *)
Theorem wrapPositions_periodic (N : Z) (vorts : list (Vortex R))
    (tracers : list (Tracer R)) (numTracers : Z) :
  0 < DOMAIN_SIZE_X K -> 0 < DOMAIN_SIZE_Y K ->
  (N <= Z.of_nat (length vorts))%Z ->
  (numTracers <= Z.of_nat (length tracers))%Z ->
  let r := wrapPositions K N vorts tracers numTracers in
  let again := wrapPositions K N (fst r) (snd r) numTracers in
  let shifted := fun (size p p' : R) => exists k : Z, p' = p + IZR k * size in
  (forall i, (0 <= i < N)%Z ->
     let v := rd vorts i in
     let v' := rd (fst r) i in
     shifted (DOMAIN_SIZE_X K) (position_0 v) (position_0 v')
     /\ shifted (DOMAIN_SIZE_Y K) (position_1 v) (position_1 v')
     /\ set_position v' (position_0 v) (position_1 v) = v
     /\ rd (fst again) i = v')
  /\ (forall i, (0 <= i < numTracers)%Z ->
     let t := rd tracers i in
     let t' := rd (snd r) i in
     shifted (DOMAIN_SIZE_X K) (t_position_0 t) (t_position_0 t')
     /\ shifted (DOMAIN_SIZE_Y K) (t_position_1 t) (t_position_1 t')
     /\ set_t_position t' (t_position_0 t) (t_position_1 t) = t
     /\ rd (snd again) i = t').
Proof.
  intros HX HY HN HM r again shifted.
  pose proof (wrapPositions_bodies K N vorts tracers numTracers HN HM)
    as [Hv Ht].
  assert (HN' : (N <= Z.of_nat (length (fst r)))%Z).
  { unfold r, wrapPositions. cbn [fst].
    pose proof (for_loop_wr_map
      (fun v => set_position v
         (wrapCoordinate (DOMAIN_SIZE_X K) (position_0 v))
         (wrapCoordinate (DOMAIN_SIZE_Y K) (position_1 v)))
      0 N vorts ltac:(lia) HN) as [Hl _].
    cbv zeta in Hl. rewrite Hl. exact HN. }
  assert (HM' : (numTracers <= Z.of_nat (length (snd r)))%Z).
  { unfold r, wrapPositions. cbn [snd].
    pose proof (for_loop_wr_map
      (fun t => set_t_position t
         (wrapCoordinate (DOMAIN_SIZE_X K) (t_position_0 t))
         (wrapCoordinate (DOMAIN_SIZE_Y K) (t_position_1 t)))
      0 numTracers tracers ltac:(lia) HM) as [Hl _].
    cbv zeta in Hl. rewrite Hl. exact HM. }
  pose proof (wrapPositions_bodies K N (fst r) (snd r) numTracers HN' HM')
    as [Hv2 Ht2].
  cbv zeta in Hv, Ht, Hv2, Ht2. fold r in Hv, Ht. fold again in Hv2, Ht2.
  split.
  - intros i Hi v v'. subst v v'.
    rewrite (Hv2 i Hi), (Hv i Hi). cbn [position_0 position_1 set_position].
    destruct (wrapCoordinate_congruent (DOMAIN_SIZE_X K)
                (position_0 (rd vorts i)) HX) as [Hkx Hix].
    destruct (wrapCoordinate_congruent (DOMAIN_SIZE_Y K)
                (position_1 (rd vorts i)) HY) as [Hky Hiy].
    split; [exact Hkx|]. split; [exact Hky|]. split.
    + destruct (rd vorts i); reflexivity.
    + rewrite Hix, Hiy. reflexivity.
  - intros i Hi t t'. subst t t'.
    rewrite (Ht2 i Hi), (Ht i Hi).
    cbn [t_position_0 t_position_1 set_t_position].
    destruct (wrapCoordinate_congruent (DOMAIN_SIZE_X K)
                (t_position_0 (rd tracers i)) HX) as [Hkx Hix].
    destruct (wrapCoordinate_congruent (DOMAIN_SIZE_Y K)
                (t_position_1 (rd tracers i)) HY) as [Hky Hiy].
    split; [exact Hkx|]. split; [exact Hky|]. split.
    + destruct (rd tracers i); reflexivity.
    + rewrite Hix, Hiy. reflexivity.
Qed.
End WrapPeriodic.

Lemma wrapPositions_periodic_witness :
  let r := wrapPositions KR 1 far_vortex far_tracer 1 in
  let again := wrapPositions KR 1 (fst r) (snd r) 1 in
  let shifted := fun (size p p' : R) =>
    exists k : Z, p' = (p + IZR k * size)%R in
  (forall i, 0 <= i < 1 ->
     let v := rd far_vortex i in
     let v' := rd (fst r) i in
     shifted (DOMAIN_SIZE_X KR) (position_0 v) (position_0 v')
     /\ shifted (DOMAIN_SIZE_Y KR) (position_1 v) (position_1 v')
     /\ set_position v' (position_0 v) (position_1 v) = v
     /\ rd (fst again) i = v')
  /\ (forall i, 0 <= i < 1 ->
     let t := rd far_tracer i in
     let t' := rd (snd r) i in
     shifted (DOMAIN_SIZE_X KR) (t_position_0 t) (t_position_0 t')
     /\ shifted (DOMAIN_SIZE_Y KR) (t_position_1 t) (t_position_1 t')
     /\ set_t_position t' (t_position_0 t) (t_position_1 t) = t
     /\ rd (snd again) i = t').
Proof.
  apply (wrapPositions_periodic KR 1 far_vortex far_tracer 1);
    simpl; first [lra | lia].
Defined.

(** ** Population manager *)

Section DeleteSurvivors.
Context {D : Type} `{DoubleOps D}.
Context {G : Type}.
Variable K : Constants D.

(** X7.  [deleteVortex] closes the gap in the vortex array: the count drops
    by one, the element at every index below the new count is the survivor
    that stood at that index (or, from the deleted index on, at the next
    one) with every field but [vIndex] as it was, and [vIndex] is again the
    array position.  No identifier is consumed. *)
Theorem deleteVortex_keeps_survivors (d : Z) (p : Pop D G) :
  let N := numDriverVorts p in
  let p' := deleteVortex K d p in
  0 <= d < N -> N <= Z.of_nat (length (vorts p)) ->
  (forall i, 0 <= i < N -> vIndex (rd (vorts p) i) = i) ->
  numDriverVorts p' = N - 1
  /\ nextVortID p' = nextVortID p
  /\ vortsAllocated p' = vortsAllocated p
  /\ length (vorts p') = length (vorts p)
  /\ (forall i, 0 <= i < N - 1 ->
        rd (vorts p') i = set_vIndex (rd (vorts p) (survivor d i)) i
        /\ vIndex (rd (vorts p') i) = i).
Proof.
  intros N p' Hd HN Hvi.
  pose proof (deleteVortex_vorts K d p) as Hdel. cbv zeta in Hdel.
  rewrite (Hvi d Hd) in Hdel. fold N in Hdel.
  destruct (Hdel Hd HN) as (Hn & Hid & _ & Hal & Hlen & Hlow & Hhigh).
  fold p' in Hn, Hid, Hal, Hlen, Hlow, Hhigh.
  repeat (split; [assumption|]).
  intros i Hi. unfold survivor.
  destruct (Z.ltb_spec i d) as [Hlt | Hge].
  - rewrite (Hlow i) by lia.
    assert (Hii : vIndex (rd (vorts p) i) = i) by (apply Hvi; lia).
    split; [|exact Hii].
    rewrite <- Hii at 3. destruct (rd (vorts p) i); reflexivity.
  - rewrite (Hhigh i) by lia.
    rewrite (Hvi (i + 1)) by lia.
    replace (i + 1 - 1) with i by lia. split; reflexivity.
Qed.
End DeleteSurvivors.

Lemma deleteVortex_keeps_survivors_witness :
  let p := five_vortex_population in
  let p' := deleteVortex K0 1 p in
  numDriverVorts p' = 5 - 1
  /\ nextVortID p' = nextVortID p
  /\ vortsAllocated p' = vortsAllocated p
  /\ length (vorts p') = length (vorts p)
  /\ (forall i, 0 <= i < 5 - 1 ->
        rd (vorts p') i = set_vIndex (rd (vorts p) (survivor 1 i)) i
        /\ vIndex (rd (vorts p') i) = i).
Proof.
  apply (deleteVortex_keeps_survivors K0 1 five_vortex_population).
  - simpl. lia.
  - simpl. lia.
  - exact five_vortices_indexed.
Defined.

Section MergedIntensity.
Open Scope R_scope.

(** X8.  (real arithmetic)  [mergeIntensities] does not depend on the order
    of its arguments.  Two intensities of the same sign merge into that sign
    and the magnitude [sqrt(int1^2 + int2^2)]; opposite intensities of equal
    magnitude cancel to 0; the merged magnitude never exceeds
    [sqrt(int1^2 + int2^2)]. *)
Theorem mergeIntensities_signed_energy (int1 int2 : R) :
  int1 <> 0 -> int2 <> 0 ->
  mergeIntensities int1 int2 = mergeIntensities int2 int1
  /\ (0 < int1 -> 0 < int2 ->
      mergeIntensities int1 int2 = sqrt (Rsqr int1 + Rsqr int2))
  /\ (int1 < 0 -> int2 < 0 ->
      mergeIntensities int1 int2 = - sqrt (Rsqr int1 + Rsqr int2))
  /\ (int1 + int2 = 0 -> mergeIntensities int1 int2 = 0)
  /\ Rabs (mergeIntensities int1 int2) <= sqrt (Rsqr int1 + Rsqr int2).
Proof.
  intros H1 H2.
  rewrite (mergeIntensities_real int1 int2 H1 H2),
          (mergeIntensities_real int2 int1 H2 H1).
  pose proof (Rle_0_sqr int1) as Hs1. pose proof (Rle_0_sqr int2) as Hs2.
  split; [|split; [|split; [|split]]].
  - rewrite (Rplus_comm int2 int1).
    rewrite (Rplus_comm (Rsign int2 * Rsqr int2)). reflexivity.
  - intros Hp1 Hp2. unfold Rsign.
    destruct (Rlt_dec 0 (int1 + int2)); [|lra].
    destruct (Rlt_dec 0 int1); [|lra]. destruct (Rlt_dec 0 int2); [|lra].
    rewrite !Rmult_1_l. rewrite Rabs_right by lra. reflexivity.
  - intros Hn1 Hn2. unfold Rsign.
    destruct (Rlt_dec 0 (int1 + int2)); [lra|].
    destruct (Rlt_dec (int1 + int2) 0); [|lra].
    destruct (Rlt_dec 0 int1); [lra|]. destruct (Rlt_dec int1 0); [|lra].
    destruct (Rlt_dec 0 int2); [lra|]. destruct (Rlt_dec int2 0); [|lra].
    replace (-1 * Rsqr int1 + -1 * Rsqr int2)
      with (- (Rsqr int1 + Rsqr int2)) by ring.
    rewrite Rabs_Ropp, Rabs_right by lra. ring.
  - intros H0. unfold Rsign at 1.
    destruct (Rlt_dec 0 (int1 + int2)); [lra|].
    destruct (Rlt_dec (int1 + int2) 0); [lra|]. ring.
  - set (e := Rsign int1 * Rsqr int1 + Rsign int2 * Rsqr int2).
    assert (He : Rabs e <= Rsqr int1 + Rsqr int2).
    { unfold e, Rsign.
      destruct (Rlt_dec 0 int1), (Rlt_dec int1 0), (Rlt_dec 0 int2),
               (Rlt_dec int2 0); try lra;
        apply Rabs_le; lra. }
    assert (Hsq : sqrt (Rabs e) <= sqrt (Rsqr int1 + Rsqr int2))
      by (apply sqrt_le_1; [apply Rabs_pos | lra | exact He]).
    pose proof (sqrt_pos (Rabs e)) as Hpos.
    rewrite Rabs_mult, (Rabs_right (sqrt (Rabs e))) by lra.
    assert (Hsg : 0 <= Rabs (Rsign (int1 + int2)) <= 1).
    { unfold Rsign.
      destruct (Rlt_dec 0 (int1 + int2)), (Rlt_dec (int1 + int2) 0);
        unfold Rabs; destruct (Rcase_abs _); lra. }
    apply Rle_trans with (1 * sqrt (Rabs e)); [|lra].
    apply Rmult_le_compat_r; lra.
Qed.
End MergedIntensity.

Lemma mergeIntensities_signed_energy_witness :
  mergeIntensities 3%R (-3)%R = mergeIntensities (-3)%R 3%R
  /\ ((0 < 3)%R -> (0 < -3)%R ->
      mergeIntensities 3%R (-3)%R = sqrt (Rsqr 3 + Rsqr (-3)))
  /\ ((3 < 0)%R -> (-3 < 0)%R ->
      mergeIntensities 3%R (-3)%R = (- sqrt (Rsqr 3 + Rsqr (-3)))%R)
  /\ ((3 + -3)%R = 0%R -> mergeIntensities 3%R (-3)%R = 0%R)
  /\ (Rabs (mergeIntensities 3%R (-3)%R) <= sqrt (Rsqr 3 + Rsqr (-3)))%R.
Proof. apply (mergeIntensities_signed_energy 3 (-3)); lra. Defined.

Section MergedPosition.
Context {G : Type} `{RNGOps R G}.
Variable K : Constants R.
Variable currentTimestep : Z.
Open Scope R_scope.

Lemma weighted_mean_between (x1 x2 a b : R) :
  0 <= a -> 0 <= b -> 0 < a + b ->
  Rmin x1 x2 <= (x1 * a + x2 * b) / (a + b) <= Rmax x1 x2.
Proof.
  intros Ha Hb Hab.
  pose proof (Rmin_l x1 x2). pose proof (Rmin_r x1 x2).
  pose proof (Rmax_l x1 x2). pose proof (Rmax_r x1 x2).
  assert (Hinv : 0 < / (a + b)) by (apply Rinv_0_lt_compat; exact Hab).
  split.
  - replace (Rmin x1 x2) with ((Rmin x1 x2 * (a + b)) / (a + b))
      by (field; lra).
    apply Rmult_le_compat_r; [lra|]. nra.
  - replace (Rmax x1 x2) with ((Rmax x1 x2 * (a + b)) / (a + b))
      by (field; lra).
    apply Rmult_le_compat_r; [lra|]. nra.
Qed.

(** X9.  (real arithmetic)  The vortex that survives a merge is placed on
    the segment between the two merged vortices: each of its coordinates
    lies between theirs. *)
Theorem mergeVorts_merge_between (fuel : nat) (tracers : list (Tracer R))
    (v1 v2 : Z) (s : MergeState R G) :
  let p := ms_pop s in
  let N := numDriverVorts p in
  let vort1 := rd (vorts p) v1 in
  let vort2 := rd (vorts p) v2 in
  (0 <= v1 < v2)%Z -> (v2 < N)%Z -> (N <= Z.of_nat (length (vorts p)))%Z ->
  vIndex vort2 = v2 ->
  intensity vort1 <> 0 ->
  (forall g, is_Some (randomizeVortex_resample K fuel g)) ->
  exists s',
    mergeVorts_merge K currentTimestep fuel tracers v1 v2 s = Some s'
    /\ let merged := rd (vorts (ms_pop s')) v1 in
       Rmin (position_0 vort1) (position_0 vort2) <= position_0 merged
         <= Rmax (position_0 vort1) (position_0 vort2)
       /\ Rmin (position_1 vort1) (position_1 vort2) <= position_1 merged
            <= Rmax (position_1 vort1) (position_1 vort2).
Proof.
  intros p N vort1 vort2 Hv1 Hv2 HN Hidx Hint Hrng.
  destruct (mergeVorts_merge_result K currentTimestep fuel tracers v1 v2 s
              Hv1 Hv2 HN Hidx Hrng) as (s' & Hs' & Hx & Hy & _).
  exists s'. split; [exact Hs'|]. cbv zeta.
  fold p vort1 vort2 in Hx, Hy. rewrite Hx, Hy.
  cbn [dfabs dadd dmul ddiv R_DoubleOps].
  pose proof (Rabs_pos (intensity vort2)).
  pose proof (Rabs_pos_lt (intensity vort1) Hint).
  split; apply weighted_mean_between; lra.
Qed.
End MergedPosition.

Lemma mergeVorts_merge_between_witness :
  let p := ms_pop merging_pair in
  let vort1 := rd (vorts p) 0 in
  let vort2 := rd (vorts p) 1 in
  exists s',
    mergeVorts_merge KR 7 2 [] 0 1 merging_pair = Some s'
    /\ let merged := rd (vorts (ms_pop s')) 0 in
       (Rmin (position_0 vort1) (position_0 vort2) <= position_0 merged
          <= Rmax (position_0 vort1) (position_0 vort2))%R
       /\ (Rmin (position_1 vort1) (position_1 vort2) <= position_1 merged
             <= Rmax (position_1 vort1) (position_1 vort2))%R.
Proof.
  assert (Hrng : forall g : nat, is_Some (randomizeVortex_resample KR 2 g)).
  { apply alternating_resample_real. simpl. rewrite Rabs_R1. lra. }
  apply (mergeVorts_merge_between KR 7 2 [] 0 1 merging_pair);
    simpl; first [lia | lra | reflexivity | exact Hrng].
Defined.

(** ** RK4 integrator: tracers are passive *)

Section LoopSimulation.
Context {S S' : Type}.

(** Two loops whose bodies keep a relation between their states. *)
Lemma iter_from_sim (R : S -> S' -> Prop) (body : Z -> S -> S)
    (body' : Z -> S' -> S') (n : nat) (i : Z) (s : S) (s' : S') :
  R s s' ->
  (forall k s s', i <= k < i + Z.of_nat n -> R s s' ->
     R (body k s) (body' k s')) ->
  R (iter_from n i body s) (iter_from n i body' s').
Proof.
  revert i s s'. induction n as [|n IH]; intros i s s' Hr Hstep.
  - exact Hr.
  - simpl. apply IH.
    + apply Hstep; [lia | exact Hr].
    + intros k t t' Hk. apply Hstep. lia.
Qed.

Lemma for_loop_sim (R : S -> S' -> Prop) (body : Z -> S -> S)
    (body' : Z -> S' -> S') (lo hi : Z) (s : S) (s' : S') :
  R s s' ->
  (forall k s s', lo <= k < hi -> R s s' -> R (body k s) (body' k s')) ->
  R (for_loop lo hi body s) (for_loop lo hi body' s').
Proof.
  intros Hr Hstep. unfold for_loop. apply iter_from_sim; [exact Hr|].
  intros k t t' Hk. apply Hstep. lia.
Qed.
End LoopSimulation.

Section PassiveTracers.
Context {D : Type} `{DoubleOps D}.
Variable K : Constants D.
Variable N : Z.
Variable dt : D.
Variable K' : Constants D.
Hypothesis HX : DOMAIN_SIZE_X K' = DOMAIN_SIZE_X K.
Hypothesis HY : DOMAIN_SIZE_Y K' = DOMAIN_SIZE_Y K.

Lemma calculateVel_vortex_domain (vel : D * D) (vort : Vortex D)
    (vortices : list (Vortex D)) (rads : list D) :
  calculateVel_vortex K' N vel vort vortices rads
  = calculateVel_vortex K N vel vort vortices rads.
Proof.
  destruct K, K'. cbn in HX, HY. subst. reflexivity.
Qed.

Lemma stepForwardVortexRK4_vortex_side (args args' : VortexArgs)
    (m m' : RKMem D) :
  va_RKStep args' = va_RKStep args ->
  va_originVortIndex args' = va_originVortIndex args ->
  vortex_side m = vortex_side m' ->
  vortex_side (stepForwardVortexRK4 K N dt args m)
  = vortex_side (stepForwardVortexRK4 K' N dt args' m').
Proof.
  destruct m as [vs vr tr ts wk im it], m' as [vs' vr' tr' ts' wk' im' it'].
  unfold vortex_side. cbn [rk_vortices rk_vortRadii rk_workingRadii
                           rk_intermediateRadii].
  intros Hs Ho Heq. inversion Heq; subst. unfold stepForwardVortexRK4.
  cbn [rk_vortices rk_vortRadii rk_workingRadii rk_intermediateRadii
       rk_intermediateTracerRads rk_tracers rk_tracerRadii].
  rewrite calculateVel_vortex_domain, Hs, Ho.
  destruct (calculateVel_vortex K N (d0, d0) _ _ _) as [xVel yVel].
  destruct (vortexStageSwitch (va_RKStep args) xVel) as [kx xv].
  destruct (vortexStageSwitch (va_RKStep args) yVel) as [ky yv].
  reflexivity.
Qed.

Lemma tracerPhase_vortex_side (C : Constants D) (RKStep : Z) (m : RKMem D) :
  vortex_side (tracerPhase C N dt RKStep m) = vortex_side m.
Proof.
  destruct (tracerPhase_frame C N dt RKStep m) as ((Hr & _) & Hv & Hw & Hi).
  unfold vortex_side. rewrite Hr, Hv, Hw, Hi. reflexivity.
Qed.

Lemma rkStage_vortex_side (vortRadLen RKStep : Z) (m m' : RKMem D) :
  vortex_side m = vortex_side m' ->
  vortex_side (rkStage K N dt vortRadLen RKStep m)
  = vortex_side (rkStage K' N dt vortRadLen RKStep m').
Proof.
  intros Heq. unfold rkStage. cbv zeta.
  match goal with
  | |- vortex_side (set_rk_workingRadii (set_rk_intermediateRadii ?a _) _)
       = vortex_side (set_rk_workingRadii (set_rk_intermediateRadii ?b _) _) =>
      assert (Hab : vortex_side a = vortex_side b)
  end.
  { unfold vortexPhase.
    apply (for_loop_sim (fun a b => vortex_side a = vortex_side b)).
    - rewrite !tracerPhase_vortex_side. exact Heq.
    - intros o a b _ Hab.
      apply stepForwardVortexRK4_vortex_side; [reflexivity .. | exact Hab]. }
  revert Hab. generalize (vortexPhase K N dt RKStep vortRadLen
                            (tracerPhase K N dt RKStep m)).
  generalize (vortexPhase K' N dt RKStep vortRadLen
                (tracerPhase K' N dt RKStep m')).
  intros b a Hab. destruct a, b. unfold vortex_side in *.
  cbn in *. inversion Hab; subst. reflexivity.
Qed.

Lemma zero_velocities_vortex_side (m m' : RKMem D) :
  vortex_side m = vortex_side m' ->
  vortex_side
    (for_loop 0 N (fun i m =>
       set_rk_vortices m
         (wr (rk_vortices m) i (set_velocity (rd (rk_vortices m) i) d0 d0)))
       m)
  = vortex_side
      (for_loop 0 N (fun i m =>
         set_rk_vortices m
           (wr (rk_vortices m) i (set_velocity (rd (rk_vortices m) i) d0 d0)))
         m').
Proof.
  intros Heq.
  apply (for_loop_sim (fun a b => vortex_side a = vortex_side b));
    [exact Heq|].
  intros i a b _ Hab. destruct a, b. unfold vortex_side in *.
  cbn in *. inversion Hab; subst. reflexivity.
Qed.

Lemma rkInit_vortex_side (vortRadLen : Z) (vortices : list (Vortex D))
    (vortRadii tracerRadii tracerRadii' : list D)
    (tracers tracers' : list (Tracer D)) (numTracers numTracers' : Z) :
  vortex_side (rkInit N vortRadLen vortices vortRadii tracerRadii tracers
                      numTracers)
  = vortex_side (rkInit N vortRadLen vortices vortRadii tracerRadii'
                        tracers' numTracers').
Proof.
  unfold rkInit. cbv zeta.
  assert (Htr : forall M (m : RKMem D),
    vortex_side
      (for_loop 0 M (fun i m =>
         set_rk_tracers m
           (wr (rk_tracers m) i
               (set_t_velocity (rd (rk_tracers m) i) d0 d0))) m)
    = vortex_side m).
  { intros M m.
    apply (for_loop_frame (fun a => vortex_side a = vortex_side m));
      [reflexivity|].
    intros i a _ Ha. rewrite <- Ha. destruct a. reflexivity. }
  rewrite !Htr. apply zero_velocities_vortex_side. reflexivity.
Qed.

Lemma rkCommit_vortex_side (numTracers numTracers' : Z) (m m' : RKMem D) :
  vortex_side m = vortex_side m' ->
  vortex_side (rkCommit N dt numTracers m)
  = vortex_side (rkCommit N dt numTracers' m').
Proof.
  intros Heq. unfold rkCommit. cbv zeta.
  assert (Htr : forall M (a : RKMem D),
    vortex_side
      (for_loop 0 M (fun i m =>
         let tracer := rd (rk_tracers m) i in
         set_rk_tracers m
           (wr (rk_tracers m) i
               (set_t_position tracer
                  (t_position_0 tracer + t_velocity_0 tracer * dt)%D
                  (t_position_1 tracer + t_velocity_1 tracer * dt)%D))) a)
    = vortex_side a).
  { intros M a.
    apply (for_loop_frame (fun b => vortex_side b = vortex_side a));
      [reflexivity|].
    intros i b _ Hb. rewrite <- Hb. destruct b. reflexivity. }
  assert (Hset : forall (a : RKMem D) l,
            vortex_side (set_rk_tracerRadii a l) = vortex_side a).
  { intros a l. destruct a. reflexivity. }
  rewrite !Hset, !Htr.
  apply (for_loop_sim (fun a b => vortex_side a = vortex_side b));
    [exact Heq|].
  intros i a b _ Hab. destruct a, b. unfold vortex_side in *.
  cbn in *. inversion Hab; subst. reflexivity.
Qed.

(** X10.  Tracers are passive.  The vortices that [stepForward_RK4] returns
    (positions and velocities included) are the same whatever the tracers,
    the tracer table and the number of tracers are, and whatever the
    configuration is apart from the domain size: the thread count, the
    number of tracers and the test case do not reach the vortices. *)
Theorem stepForward_RK4_passive_tracers (vortices : list (Vortex D))
    (vortRadii tracerRadii tracerRadii' : list D)
    (tracers tracers' : list (Tracer D)) (numTracers numTracers' : Z) :
  rk_vortices (stepForward_RK4 K N dt vortices vortRadii tracerRadii tracers
                               numTracers)
  = rk_vortices (stepForward_RK4 K' N dt vortices vortRadii tracerRadii'
                                 tracers' numTracers').
Proof.
  enough (Hside :
    vortex_side (stepForward_RK4 K N dt vortices vortRadii tracerRadii
                                 tracers numTracers)
    = vortex_side (stepForward_RK4 K' N dt vortices vortRadii tracerRadii'
                                   tracers' numTracers')).
  { unfold vortex_side in Hside. congruence. }
  unfold stepForward_RK4. apply rkCommit_vortex_side.
  unfold rkStages. cbv zeta. rewrite !for_loop_1_5.
  repeat apply rkStage_vortex_side. apply rkInit_vortex_side.
Qed.
End PassiveTracers.

Lemma stepForward_RK4_passive_tracers_witness :
  rk_vortices (stepForward_RK4 K1 2 0.5%float vortex_pair vortex_pair_radii
                               [] [] 0)
  = rk_vortices (stepForward_RK4 K0 2 0.5%float vortex_pair
                                 vortex_pair_radii (replicate 12 0%float)
                                 two_tracers 2).
Proof.
  apply (stepForward_RK4_passive_tracers K1 2 0.5%float K0); reflexivity.
Defined.

(** ** RK4 integrator: the number of threads *)

Section ThreadCount.
Context {D : Type} `{DoubleOps D}.
Variable K : Constants D.
Variable N : Z.
Variable dt : D.
Variable threads : Z.
Hypothesis HN : 0 <= N.
Hypothesis HT : 1 <= THREADCOUNT K.
Hypothesis HT' : 1 <= threads.

Lemma tracerStep_set_THREADCOUNT (RKStep t : Z) (m : RKMem D) :
  tracerStep (set_THREADCOUNT K threads) N dt RKStep t m
  = tracerStep K N dt RKStep t m.
Proof. destruct K. reflexivity. Qed.

Lemma vortexPhase_set_THREADCOUNT (RKStep vortRadLen : Z) (m : RKMem D) :
  vortexPhase (set_THREADCOUNT K threads) N dt RKStep vortRadLen m
  = vortexPhase K N dt RKStep vortRadLen m.
Proof. destruct K. reflexivity. Qed.

Lemma rkStage_set_THREADCOUNT (vortRadLen RKStep : Z) (m : RKMem D) :
  Z.of_nat (length (rk_tracers m)) = NUM_TRACERS K ->
  (forall t, 0 <= t < NUM_TRACERS K -> tIndex (rd (rk_tracers m) t) = t) ->
  rkStage (set_THREADCOUNT K threads) N dt vortRadLen RKStep m
  = rkStage K N dt vortRadLen RKStep m.
Proof.
  intros Hlen Hidx. unfold rkStage. cbv zeta.
  assert (HM : 0 <= NUM_TRACERS K) by lia.
  rewrite (tracerPhase_steps K N dt HN RKStep m HT HM Hlen Hidx).
  rewrite (tracerPhase_steps (set_THREADCOUNT K threads) N dt HN RKStep m
             HT' HM Hlen Hidx).
  change (NUM_TRACERS (set_THREADCOUNT K threads)) with (NUM_TRACERS K).
  rewrite (for_loop_ext 0 (NUM_TRACERS K)
             (tracerStep (set_THREADCOUNT K threads) N dt RKStep)
             (tracerStep K N dt RKStep))
    by (intros; apply tracerStep_set_THREADCOUNT).
  rewrite vortexPhase_set_THREADCOUNT. reflexivity.
Qed.

(** X11.  With the pool's tasks run in submission order, the result of
    [stepForward_RK4] does not depend on the number of threads: the pieces
    that [THREADCOUNT] cuts the tracer array into, the last one taking the
    remainder, cover every tracer once. *)
Theorem stepForward_RK4_any_thread_count (vortices : list (Vortex D))
    (vortRadii tracerRadii : list D) (tracers : list (Tracer D))
    (numTracers : Z) :
  numTracers = NUM_TRACERS K ->
  Z.of_nat (length tracers) = numTracers ->
  (forall t, 0 <= t < numTracers -> tIndex (rd tracers t) = t) ->
  stepForward_RK4 (set_THREADCOUNT K threads) N dt vortices vortRadii
                  tracerRadii tracers numTracers
  = stepForward_RK4 K N dt vortices vortRadii tracerRadii tracers numTracers.
Proof.
  intros -> Hlen Hidx. unfold stepForward_RK4. f_equal.
  unfold rkStages. cbv zeta. rewrite !for_loop_1_5.
  set (vl := vortRadLen_of N).
  set (m0 := rkInit N vl vortices vortRadii tracerRadii tracers
                    (NUM_TRACERS K)).
  assert (Hready0 :
    0 <= Z.of_nat (length (rk_vortices m0))
    /\ Z.of_nat (length (rk_tracers m0)) = NUM_TRACERS K
    /\ (forall t, 0 <= t < NUM_TRACERS K ->
          tIndex (rd (rk_tracers m0) t) = t)).
  { destruct (rkInit_frame N vl vortices vortRadii tracerRadii tracers
                (NUM_TRACERS K)) as (_ & _ & _ & Ht). fold m0 in Ht.
    pose proof (f_equal length Ht) as Hlt. rewrite !length_fmap in Hlt.
    split; [lia|]. split; [lia|].
    intros t Htr. rewrite <- (Hidx t Htr) at 2.
    exact (f_equal snd (rd_fmap_eq tracer_fixed _ _ t Ht)). }
  set (m1 := rkStage K N dt vl 1 m0).
  set (m2 := rkStage K N dt vl 2 m1).
  set (m3 := rkStage K N dt vl 3 m2).
  pose proof (rk_frame_ready K 0 m0 m1 (rkStage_frame K N dt vl 1 m0) Hready0)
    as Hready1.
  pose proof (rk_frame_ready K 0 m1 m2 (rkStage_frame K N dt vl 2 m1) Hready1)
    as Hready2.
  pose proof (rk_frame_ready K 0 m2 m3 (rkStage_frame K N dt vl 3 m2) Hready2)
    as Hready3.
  destruct Hready0 as (_ & Hl0 & Hi0). destruct Hready1 as (_ & Hl1 & Hi1).
  destruct Hready2 as (_ & Hl2 & Hi2). destruct Hready3 as (_ & Hl3 & Hi3).
  rewrite (rkStage_set_THREADCOUNT vl 1 m0 Hl0 Hi0). fold m1.
  rewrite (rkStage_set_THREADCOUNT vl 2 m1 Hl1 Hi1). fold m2.
  rewrite (rkStage_set_THREADCOUNT vl 3 m2 Hl2 Hi2). fold m3.
  rewrite (rkStage_set_THREADCOUNT vl 4 m3 Hl3 Hi3). reflexivity.
Qed.
End ThreadCount.

Lemma stepForward_RK4_any_thread_count_witness :
  stepForward_RK4 (set_THREADCOUNT K0 2) 2 0.5%float vortex_pair
                  vortex_pair_radii (replicate 12 0%float) two_tracers 2
  = stepForward_RK4 K0 2 0.5%float vortex_pair vortex_pair_radii
                    (replicate 12 0%float) two_tracers 2.
Proof.
  apply (stepForward_RK4_any_thread_count K0 2 0.5%float 2);
    try (simpl; lia); try reflexivity.
  intros t Ht. assert (Hc : t = 0 \/ t = 1) by lia.
  destruct Hc as [-> | ->]; reflexivity.
Defined.

(** ** Spawning past the allocated capacity *)

Section ReallocLemmas.
Context {A : Type} `{Inhabited A}.

Lemma length_realloc (buf : list A) (n : Z) :
  0 <= n -> Z.of_nat (length (realloc buf n)) = n.
Proof.
  intros Hn. unfold realloc.
  rewrite length_app, length_take, length_replicate. lia.
Qed.

Lemma rd_realloc (buf : list A) (n i : Z) :
  0 <= i < n -> i < Z.of_nat (length buf) ->
  rd (realloc buf n) i = rd buf i.
Proof.
  intros Hi Hlen. rewrite !rd_total by lia. unfold realloc.
  apply list_lookup_total_correct.
  rewrite lookup_app_l by (rewrite length_take; lia).
  rewrite lookup_take_lt by lia.
  apply list_lookup_lookup_total_lt. lia.
Qed.
End ReallocLemmas.

Section SpawnTables.
Context {D : Type} `{DoubleOps D}.
Context {G : Type} `{RNGOps D G}.
Variable K : Constants D.
Variable currentTimestep : Z.

(** What [randomizeVortex] leaves alone, whenever it returns. *)
Lemma randomizeVortex_keeps (fuel : nat) (vort : Z) (p p' : Pop D G) :
  randomizeVortex K currentTimestep fuel vort p = Some p' ->
  numDriverVorts p' = numDriverVorts p
  /\ nextVortID p' = nextVortID p + 1
  /\ vortsAllocated p' = vortsAllocated p
  /\ vortexRadii p' = vortexRadii p
  /\ tracerRads p' = tracerRads p
  /\ length (vorts p') = length (vorts p)
  /\ (forall i, i <> vort -> rd (vorts p') i = rd (vorts p) i)
  /\ vIndex (rd (vorts p') vort) = vIndex (rd (vorts p) vort).
Proof.
  unfold randomizeVortex.
  destruct (generateUniformRandInRange _ _ _) as [x g1].
  destruct (generateUniformRandInRange _ _ g1) as [y g2].
  destruct (generateNormalRand _ g2) as [i0 g3].
  destruct (randomizeVortex_resample K fuel g3) as [[i1 g4]|];
    cbn [mbind option_bind]; [|discriminate].
  intros Heq. inversion Heq; subst; clear Heq.
  cbn [numDriverVorts nextVortID vortsAllocated vortexRadii tracerRads vorts].
  repeat (split; [first [reflexivity | apply length_wr]|]). split.
  - intros i Hi. apply rd_wr_ne. congruence.
  - destruct (Z.lt_ge_cases vort 0) as [Hneg | Hpos].
    { unfold wr, rd. rewrite (proj2 (Z.ltb_lt vort 0) Hneg). reflexivity. }
    destruct (Z.lt_ge_cases vort (Z.of_nat (length (vorts p)))) as [Hin | Hout].
    + rewrite rd_wr_eq by lia. reflexivity.
    + rewrite !rd_total by lia. unfold wr.
      rewrite (proj2 (Z.ltb_ge vort 0) Hpos).
      rewrite list_insert_ge by lia. reflexivity.
Qed.

Lemma spawnVorts_loop_keeps (fuel n : nat) (p p' : Pop D G) :
  spawnVorts_loop K currentTimestep fuel n p = Some p' ->
  numDriverVorts p' = numDriverVorts p + Z.of_nat n
  /\ vortsAllocated p' = vortsAllocated p
  /\ vortexRadii p' = vortexRadii p
  /\ tracerRads p' = tracerRads p
  /\ length (vorts p') = length (vorts p).
Proof.
  revert p. induction n as [|n IH]; intros p.
  - cbn [spawnVorts_loop]. intros Heq. inversion Heq; subst.
    repeat split; try reflexivity. lia.
  - cbn [spawnVorts_loop]. unfold spawnVortex at 1.
    destruct (randomizeVortex _ _ _ _ _) as [p1|] eqn:Hr;
      cbn [mbind option_bind]; [|discriminate].
    intros Hl. apply randomizeVortex_keeps in Hr.
    destruct Hr as (Hn & _ & Ha & Hv & Ht & Hlen & _).
    cbn [numDriverVorts vortsAllocated vortexRadii tracerRads vorts
         set_vorts set_numDriverVorts] in Hn, Ha, Hv, Ht, Hlen.
    rewrite length_wr in Hlen.
    destruct (IH p1 Hl) as (Hn' & Ha' & Hv' & Ht' & Hlen').
    repeat split; try congruence. lia.
Qed.
End SpawnTables.

Section SpawnGrowth.
Context {G : Type} `{RNGOps R G}.
Variable K : Constants R.
Variable currentTimestep : Z.
Variable fuel : nat.
Hypothesis Hrng : forall g, is_Some (randomizeVortex_resample K fuel g).

Lemma Rtrunc_three_halves (n : Z) :
  0 <= n -> Rtrunc (IZR n * (3 / 2)) = 3 * n / 2.
Proof.
  intros Hn. unfold Rtrunc.
  assert (Hpos : (0 <= IZR n)%R) by (apply IZR_le; exact Hn).
  destruct (Rle_dec 0 (IZR n * (3 / 2))) as [_ | Hneg]; [|exfalso; lra].
  symmetry. apply Int_part_spec.
  set (z := 3 * n / 2).
  assert (Hz : 2 * z <= 3 * n < 2 * z + 2).
  { pose proof (Z.div_mod (3 * n) 2 ltac:(lia)) as Hdm.
    pose proof (Z.mod_pos_bound (3 * n) 2 ltac:(lia)) as Hmb.
    fold z in Hdm. lia. }
  destruct Hz as [Hlo Hhi].
  apply IZR_le in Hlo. apply IZR_lt in Hhi.
  rewrite plus_IZR, !mult_IZR in *. lra.
Qed.

(** X12.  (real arithmetic)  When the request does not fit the allocated
    capacity, [spawnVorts] first grows the three buffers to the capacity
    [3 * (N + k) / 2], which is enough for the [N + k] vortices, and then
    appends: the old vortices and the old table entries are kept, the new
    vortices carry their array position as [vIndex] and the next [k]
    identifiers. *)
Theorem spawnVorts_grows (k : Z) (p : Pop R G) :
  let N := numDriverVorts p in
  let cap := 3 * (N + k) / 2 in
  0 <= k -> 0 <= N -> 0 <= NUM_TRACERS K ->
  vortsAllocated p <= N + k ->
  N <= Z.of_nat (length (vorts p)) ->
  exists p',
    spawnVorts K currentTimestep fuel k p = Some p'
    /\ numDriverVorts p' = N + k
    /\ vortsAllocated p' = cap
    /\ N + k <= cap
    /\ Z.of_nat (length (vorts p')) = cap
    /\ Z.of_nat (length (vortexRadii p')) = 3 * (cap * (cap - 1) / 2)
    /\ Z.of_nat (length (tracerRads p')) = 3 * (cap * NUM_TRACERS K)
    /\ (forall i, 0 <= i < N -> rd (vorts p') i = rd (vorts p) i)
    /\ (forall i, N <= i < N + k ->
          vIndex (rd (vorts p') i) = i
          /\ vID (rd (vorts p') i) = nextVortID p + (i - N))
    /\ (forall j, 0 <= j < 3 * (cap * (cap - 1) / 2) ->
          j < Z.of_nat (length (vortexRadii p)) ->
          rd (vortexRadii p') j = rd (vortexRadii p) j)
    /\ (forall j, 0 <= j < 3 * (cap * NUM_TRACERS K) ->
          j < Z.of_nat (length (tracerRads p)) ->
          rd (tracerRads p') j = rd (tracerRads p) j).
Proof.
  intros N cap Hk HN HM Hfull Hlen. unfold spawnVorts. fold N.
  destruct (Z.geb_spec (N + k) (vortsAllocated p)) as [_ | Hlt]; [|lia].
  change (dtrunc (dZ (N + k) * lit_1_5)%D)
    with (Rtrunc (IZR (N + k) * (IZR 3 / IZR 2))).
  rewrite Rtrunc_three_halves by lia. fold cap.
  assert (Hcap : N + k <= cap).
  { pose proof (Z.div_mod (3 * (N + k)) 2 ltac:(lia)) as Hdm.
    pose proof (Z.mod_pos_bound (3 * (N + k)) 2 ltac:(lia)) as Hmb.
    fold cap in Hdm. lia. }
  assert (Hsq : 0 <= cap * (cap - 1)).
  { destruct (Z.eq_dec cap 0) as [-> | Hne]; [lia|].
    apply Z.mul_nonneg_nonneg; lia. }
  assert (Hcap1 : 0 <= cap * (cap - 1) / 2) by (apply Z.div_pos; lia).
  assert (Hquot : cap * (cap - 1) ÷ 2 = cap * (cap - 1) / 2)
    by (apply Z.quot_div_nonneg; lia).
  rewrite Hquot.
  set (p1 := mkPop N (nextVortID p) (rngState p) (realloc (vorts p) cap) cap
               (realloc (vortexRadii p) (cap * (cap - 1) / 2 * 3))
               (realloc (tracerRads p) (cap * NUM_TRACERS K * 3))).
  assert (Hlen1 : Z.of_nat (length (vorts p1)) = cap)
    by (apply length_realloc; lia).
  destruct (spawnVorts_loop_Some K currentTimestep fuel Hrng (Z.to_nat k) p1)
    as (p' & Hl & HN' & Hid' & Hal' & Hlen' & Hother & Hnew).
  { exact HN. }
  { change (numDriverVorts p1) with N. rewrite Hlen1. lia. }
  change (numDriverVorts p1) with N in HN', Hother, Hnew.
  change (nextVortID p1) with (nextVortID p) in Hid', Hnew.
  change (vortsAllocated p1) with cap in Hal'.
  rewrite Z2Nat.id in * by lia.
  destruct (spawnVorts_loop_keeps K currentTimestep fuel (Z.to_nat k) p1 p' Hl)
    as (_ & _ & Hvr & Htr & _).
  exists p'. split; [exact Hl|].
  split; [exact HN'|]. split; [exact Hal'|]. split; [exact Hcap|].
  split; [congruence|].
  split; [rewrite Hvr; cbn [vortexRadii p1]; rewrite length_realloc; lia|].
  split; [rewrite Htr; cbn [tracerRads p1]; rewrite length_realloc; nia|].
  split; [|split; [|split]].
  - intros i Hi. rewrite Hother by lia. cbn [vorts p1].
    apply rd_realloc; lia.
  - intros i Hi. destruct (Hnew i Hi) as (Ha & Hb & _). auto.
  - intros j Hj Hjl. rewrite Hvr. cbn [vortexRadii p1].
    apply rd_realloc; lia.
  - intros j Hj Hjl. rewrite Htr. cbn [tracerRads p1].
    apply rd_realloc; lia.
Qed.
End SpawnGrowth.

Lemma spawnVorts_grows_witness :
  let p := lone_vortex_population in
  let cap := 3 * (1 + 2) / 2 in
  exists p',
    spawnVorts KR 0 2 2 p = Some p'
    /\ numDriverVorts p' = 1 + 2
    /\ vortsAllocated p' = cap
    /\ 1 + 2 <= cap
    /\ Z.of_nat (length (vorts p')) = cap
    /\ Z.of_nat (length (vortexRadii p')) = 3 * (cap * (cap - 1) / 2)
    /\ Z.of_nat (length (tracerRads p')) = 3 * (cap * NUM_TRACERS KR)
    /\ (forall i, 0 <= i < 1 -> rd (vorts p') i = rd (vorts p) i)
    /\ (forall i, 1 <= i < 1 + 2 ->
          vIndex (rd (vorts p') i) = i
          /\ vID (rd (vorts p') i) = nextVortID p + (i - 1))
    /\ (forall j, 0 <= j < 3 * (cap * (cap - 1) / 2) ->
          j < Z.of_nat (length (vortexRadii p)) ->
          rd (vortexRadii p') j = rd (vortexRadii p) j)
    /\ (forall j, 0 <= j < 3 * (cap * NUM_TRACERS KR) ->
          j < Z.of_nat (length (tracerRads p)) ->
          rd (tracerRads p') j = rd (tracerRads p) j).
Proof.
  assert (Hrng : forall g : nat, is_Some (randomizeVortex_resample KR 2 g)).
  { apply alternating_resample_real. simpl. rewrite Rabs_R1. lra. }
  apply (spawnVorts_grows KR 0 2 Hrng 2 lone_vortex_population);
    simpl; lia.
Defined.

(** ** Diagnostics *)

(** Every slot of the triangular table belongs to a pair. *)
Lemma triangular_slot_pair (N j : Z) :
  0 <= N -> 0 <= j < N * (N - 1) / 2 ->
  exists a b, 0 <= a < b /\ b < N /\ j = b * (b - 1) / 2 + a.
Proof.
  intros HN. revert j. pattern N. apply natlike_ind; [| |exact HN].
  - intros j Hj. change (0 * (0 - 1) / 2) with 0 in Hj. lia.
  - clear N HN. intros N HN IH j Hj.
    assert (Hsucc : Z.succ N * (Z.succ N - 1) / 2 = N * (N - 1) / 2 + N).
    { pose proof (tri_double N) as Ht. pose proof (tri_double (Z.succ N)) as Hs.
      lia. }
    rewrite Hsucc in Hj.
    destruct (Z.lt_ge_cases j (N * (N - 1) / 2)) as [Hlt | Hge].
    + destruct (IH j ltac:(lia)) as (a & b & Hab & Hb & Hj').
      exists a, b. repeat split; lia.
    + exists (j - N * (N - 1) / 2), N. repeat split; lia.
Qed.

Section DiagnosticsReal.
Open Scope R_scope.

Lemma minRad_radLen (N : Z) :
  Rtrunc ((dsqr (IZR N) - IZR N) / 2 * 3) = (3 * (N * (N - 1) / 2))%Z.
Proof.
  pose proof (tri_double N) as Ht.
  replace ((dsqr (IZR N) - IZR N) / 2 * 3)
    with (IZR (3 * (N * (N - 1) / 2))); [apply Rtrunc_IZR|].
  apply (f_equal IZR) in Ht. rewrite !mult_IZR, minus_IZR in Ht.
  rewrite mult_IZR. unfold dsqr. cbn [dmul R_DoubleOps]. lra.
Qed.

(** X13.  (real arithmetic)  [minRad] returns 0 when there is no vortex, and
    for a single vortex the double at slot 0, which belongs to no pair.  For
    two vortices or more it returns the least stored distance: no pair has a
    smaller one and some pair has it. *)
Theorem minRad_least (radArr : list R) :
  minRad radArr 0 = 0
  /\ minRad radArr 1 = rd radArr 0
  /\ forall N, (2 <= N)%Z ->
       (forall a b, (0 <= a < b)%Z -> (b < N)%Z ->
          minRad radArr N <= rd radArr (calculateVortexRadiiIndex a b))
       /\ exists a b, (0 <= a < b)%Z /\ (b < N)%Z
            /\ minRad radArr N = rd radArr (calculateVortexRadiiIndex a b).
Proof.
  split; [reflexivity|]. split.
  { unfold minRad. cbn [Z.eqb]. cbv zeta.
    change (dtrunc ((dsqr (dZ 1) - dZ 1) / dZ 2 * dZ 3)%D)
      with (Rtrunc ((dsqr (IZR 1) - IZR 1) / 2 * 3)).
    rewrite minRad_radLen. reflexivity. }
  intros N HN. unfold minRad.
  destruct (Z.eqb_spec N 0) as [? | _]; [lia|]. cbv zeta.
  change (dtrunc ((dsqr (dZ N) - dZ N) / dZ 2 * dZ 3)%D)
    with (Rtrunc ((dsqr (IZR N) - IZR N) / 2 * 3)).
  rewrite minRad_radLen. unfold for_loop_by.
  set (P := (N * (N - 1) / 2)%Z).
  assert (HP : (1 <= P)%Z).
  { pose proof (tri_double N) as Ht. fold P in Ht. nia. }
  replace ((3 * P - 0 + 3 - 1) / 3)%Z with P
    by (apply Z.div_unique with (r := 2%Z); lia).
  set (body := fun (k : Z) (min : R) =>
    if (rd radArr (0 + 3 * k) <? min)%D then rd radArr (0 + 3 * k) else min).
  set (I := fun (k : Z) (m : R) =>
    m <= rd radArr 0
    /\ (forall j, (0 <= j < k)%Z -> m <= rd radArr (3 * j))
    /\ exists j, (0 <= j < P)%Z /\ m = rd radArr (3 * j)).
  assert (Hinv : I P (for_loop 0 P body (rd radArr 0))).
  { apply (for_loop_inv I); [lia| |].
    - split; [lra|]. split; [intros; lia|]. exists 0%Z. split; [lia|].
      reflexivity.
    - intros k m Hk (H0 & Hle & j & Hj & Hm). unfold body.
      cbn [dltb R_DoubleOps]. rewrite Z.add_0_l.
      destruct (Rlt_dec (rd radArr (3 * k)) m) as [Hlt | Hge].
      + rewrite Rltb_true by exact Hlt. split; [lra|]. split.
        * intros j' Hj'. destruct (Z.eq_dec j' k) as [-> | Hne]; [lra|].
          specialize (Hle j' ltac:(lia)). lra.
        * exists k. split; [lia | reflexivity].
      + rewrite Rltb_false by lra. split; [exact H0|]. split.
        * intros j' Hj'. destruct (Z.eq_dec j' k) as [-> | Hne]; [lra|].
          apply Hle. lia.
        * exists j. split; [exact Hj | exact Hm]. }
  destruct Hinv as (_ & Hle & j & Hj & Hm). split.
  - intros a b Hab Hb. rewrite calculateVortexRadiiIndex_lt by lia.
    apply Hle.
    pose proof (calculateVortexRadiiIndex_lt_range N a b Hab Hb) as [_ Hr].
    rewrite calculateVortexRadiiIndex_lt in Hr by lia. fold P in Hr.
    pose proof (tri_double b) as Htb. nia.
  - destruct (triangular_slot_pair N j ltac:(lia) Hj) as (a & b & Hab & Hb & ->).
    exists a, b. split; [exact Hab|]. split; [exact Hb|].
    rewrite calculateVortexRadiiIndex_lt by lia. exact Hm.
Qed.

(** X14.  (real arithmetic)  [maxVelocity] returns the greatest speed
    [sqrt(vx^2 + vy^2)] among the [N] vortices: it bounds every speed, it is
    the speed of some vortex when there is one, and it is 0 when there is
    none. *)
Theorem maxVelocity_greatest (N : Z) (vorts : list (Vortex R)) :
  let speed := fun i =>
    sqrt (Rsqr (velocity_0 (rd vorts i)) + Rsqr (velocity_1 (rd vorts i))) in
  0 <= maxVelocity N vorts
  /\ (forall i, (0 <= i < N)%Z -> speed i <= maxVelocity N vorts)
  /\ ((N <= 0)%Z -> maxVelocity N vorts = 0)
  /\ ((1 <= N)%Z -> exists i, (0 <= i < N)%Z /\ maxVelocity N vorts = speed i).
Proof.
  intros speed. unfold maxVelocity.
  set (body := fun (i : Z) (maxV : R) =>
    let vort := rd vorts i in
    let totalV := hypotenuse (velocity_0 vort) (velocity_1 vort) in
    if (totalV >? maxV)%D then totalV else maxV).
  change (for_loop 0 N _ (dZ 0)) with (for_loop 0 N body 0).
  assert (Hspeed : forall i, hypotenuse (velocity_0 (rd vorts i))
                               (velocity_1 (rd vorts i)) = speed i)
    by reflexivity.
  destruct (Z.le_gt_cases N 0) as [Hle | Hgt].
  { rewrite for_loop_nop by lia. split; [lra|]. split; [intros; lia|].
    split; [reflexivity | intros; lia]. }
  set (I := fun (k : Z) (m : R) =>
    0 <= m
    /\ (forall i, (0 <= i < k)%Z -> speed i <= m)
    /\ (m = 0 \/ exists i, (0 <= i < k)%Z /\ m = speed i)).
  assert (Hinv : I N (for_loop 0 N body 0)).
  { apply (for_loop_inv I); [lia| |].
    - split; [lra|]. split; [intros; lia | left; reflexivity].
    - intros k m Hk (H0 & Hle & Hm). unfold body. cbv zeta.
      rewrite Hspeed. cbn [dltb R_DoubleOps].
      destruct (Rlt_dec m (speed k)) as [Hlt | Hge].
      + rewrite Rltb_true by exact Hlt. split; [lra|]. split.
        * intros i Hi. destruct (Z.eq_dec i k) as [-> | Hne]; [lra|].
          specialize (Hle i ltac:(lia)). lra.
        * right. exists k. split; [lia | reflexivity].
      + rewrite Rltb_false by lra. split; [exact H0|]. split.
        * intros i Hi. destruct (Z.eq_dec i k) as [-> | Hne]; [lra|].
          apply Hle. lia.
        * destruct Hm as [Hm | (i & Hi & Hm)]; [left; exact Hm|].
          right. exists i. split; [lia | exact Hm]. }
  destruct Hinv as (H0 & Hle & Hm).
  split; [exact H0|]. split; [exact Hle|]. split; [intros; lia|].
  intros _. destruct Hm as [Hm | Hm]; [|exact Hm].
  exists 0%Z. split; [lia|].
  pose proof (Hle 0%Z ltac:(lia)) as Hs.
  pose proof (sqrt_pos (Rsqr (velocity_0 (rd vorts 0))
                        + Rsqr (velocity_1 (rd vorts 0)))) as Hp.
  fold (speed 0%Z) in Hp. lra.
Qed.
End DiagnosticsReal.

(** ** Initialisers *)

Section TracerGrid.
Variable K : Constants R.
Variable s : Z.
Hypothesis Hs : 0 <= s.

Lemma sqrt_square_count : dsqrt (D := R) (dZ (s * s)) = IZR s.
Proof.
  cbn [dsqrt dZ R_DoubleOps]. rewrite mult_IZR.
  apply sqrt_square. apply IZR_le. exact Hs.
Qed.

Lemma dleb_count (c : Z) :
  dleb (D := R) (dZ c) (dsqrt (dZ (s * s)))
  = if c <=? s then true else false.
Proof.
  rewrite sqrt_square_count. cbn [dleb dZ R_DoubleOps R_DoubleCmp].
  destruct (Z.leb_spec c s) as [Hle | Hgt].
  - destruct (Rle_dec (IZR c) (IZR s)) as [_ | Hn]; [reflexivity|].
    exfalso. apply Hn. apply IZR_le. exact Hle.
  - destruct (Rle_dec (IZR c) (IZR s)) as [Hl | _]; [|reflexivity].
    apply le_IZR in Hl. lia.
Qed.

(** The inner loop, with [m] columns left to fill from index [i] on. *)
Lemma initialize_tracers_cols_fills (sx sy : R) (row : Z) (m fuel : nat)
    (tr : list (Tracer R)) (i : Z) :
  (m < fuel)%nat -> Z.of_nat m <= s -> 0 <= i ->
  i + Z.of_nat m <= Z.of_nat (length tr) ->
  let col0 := s + 1 - Z.of_nat m in
  exists tr',
    initialize_tracers_cols fuel (s * s) sx sy row col0 (tr, i)
    = Some (tr', i + Z.of_nat m)
    /\ length tr' = length tr
    /\ (forall c, col0 <= c <= s ->
          rd tr' (i + (c - col0))
          = mkTracer (IZR c * sx)%R (IZR row * sy)%R 0%R 0%R
                     (i + (c - col0)))
    /\ (forall j, ~ i <= j < i + Z.of_nat m -> rd tr' j = rd tr j).
Proof.
  revert fuel tr i. induction m as [|m IH]; intros fuel tr i Hf Hm Hi Hlen col0.
  - destruct fuel as [|fuel]; [lia|]. cbn [initialize_tracers_cols].
    rewrite dleb_count. subst col0.
    destruct (Z.leb_spec (s + 1 - Z.of_nat 0) s) as [? | _]; [lia|].
    exists tr. rewrite Z.add_0_r. split; [reflexivity|].
    split; [reflexivity|]. split; [intros; lia | reflexivity].
  - destruct fuel as [|fuel]; [lia|]. cbn [initialize_tracers_cols].
    rewrite dleb_count.
    destruct (Z.leb_spec col0 s) as [Hle | ?]; [|subst col0; lia].
    set (t := mkTracer (dZ col0 * sx)%D (dZ row * sy)%D d0 d0 i).
    destruct (IH fuel (wr tr i t) (i + 1) ltac:(lia) ltac:(lia) ltac:(lia))
      as (tr' & Hrun & Hl & Hnew & Hold).
    { rewrite length_wr. lia. }
    replace (s + 1 - Z.of_nat m) with (col0 + 1) in Hrun, Hnew
      by (subst col0; lia).
    exists tr'. split.
    { rewrite Hrun. f_equal. f_equal. lia. }
    split; [rewrite Hl; apply length_wr|]. split.
    + intros c Hc. destruct (Z.eq_dec c col0) as [-> | Hne].
      * rewrite Z.sub_diag, Z.add_0_r. rewrite Hold by lia.
        rewrite rd_wr_eq by lia. reflexivity.
      * specialize (Hnew c ltac:(lia)).
        replace (i + 1 + (c - (col0 + 1))) with (i + (c - col0)) in Hnew
          by lia.
        exact Hnew.
    + intros j Hj. rewrite Hold by lia. apply rd_wr_ne. lia.
Qed.

(** The outer loop, with [m] rows left to fill. *)
Lemma initialize_tracers_rows_fills (sx sy : R) (m fuel steps : nat)
    (tr : list (Tracer R)) :
  (Z.to_nat s < fuel)%nat -> (m < steps)%nat -> Z.of_nat m <= s ->
  s * s <= Z.of_nat (length tr) ->
  let row0 := s + 1 - Z.of_nat m in
  exists tr',
    initialize_tracers_rows fuel steps (s * s) sx sy row0
                            (tr, (row0 - 1) * s)
    = Some (tr', s * s)
    /\ length tr' = length tr
    /\ (forall r c, row0 <= r <= s -> 1 <= c <= s ->
          rd tr' ((r - 1) * s + (c - 1))
          = mkTracer (IZR c * sx)%R (IZR r * sy)%R 0%R 0%R
                     ((r - 1) * s + (c - 1)))
    /\ (forall j, ~ (row0 - 1) * s <= j < s * s -> rd tr' j = rd tr j).
Proof.
  revert steps tr. induction m as [|m IH]; intros steps tr Hf Hst Hm Hlen row0.
  - destruct steps as [|steps]; [lia|]. cbn [initialize_tracers_rows].
    rewrite dleb_count. subst row0.
    destruct (Z.leb_spec (s + 1 - Z.of_nat 0) s) as [? | _]; [lia|].
    exists tr. split; [do 2 f_equal; lia|].
    split; [reflexivity|]. split; [intros; lia | reflexivity].
  - destruct steps as [|steps]; [lia|]. cbn [initialize_tracers_rows].
    rewrite dleb_count.
    destruct (Z.leb_spec row0 s) as [Hle | ?]; [|subst row0; lia].
    assert (Hrow : 1 <= row0) by (subst row0; lia).
    assert (Hrow0 : s + 1 - Z.of_nat m = row0 + 1) by (subst row0; lia).
    clearbody row0.
    assert (Hlo : 0 <= (row0 - 1) * s) by (apply Z.mul_nonneg_nonneg; lia).
    assert (Hhi : row0 * s <= s * s)
      by (apply Z.mul_le_mono_nonneg_r; lia).
    destruct (initialize_tracers_cols_fills sx sy row0 (Z.to_nat s) fuel tr
                ((row0 - 1) * s) Hf ltac:(lia) Hlo)
      as (tr1 & Hrun1 & Hl1 & Hnew1 & Hold1).
    { rewrite Z2Nat.id by lia. lia. }
    rewrite Z2Nat.id in * by lia.
    replace (s + 1 - s) with 1 in Hrun1, Hnew1 by lia.
    rewrite Hrun1. cbn [mbind option_bind].
    destruct (IH steps tr1 Hf ltac:(lia) ltac:(lia) ltac:(lia))
      as (tr' & Hrun & Hl & Hnew & Hold).
    rewrite Hrow0 in Hrun, Hnew, Hold.
    replace (row0 + 1 - 1) with row0 in Hrun, Hold by lia.
    replace ((row0 - 1) * s + s) with (row0 * s) by lia.
    exists tr'. split; [exact Hrun|]. split; [congruence|]. split.
    + intros r c Hr Hc. destruct (Z.eq_dec r row0) as [-> | Hne].
      * assert (0 <= c - 1 < s) by lia.
        rewrite Hold by lia. apply Hnew1. lia.
      * apply Hnew; lia.
    + intros j Hj. rewrite Hold by lia. apply Hold1. lia.
Qed.

(** The whole initialiser, for a square number of tracers. *)
Lemma initialize_tracers_fills (fuel : nat) (tracers : list (Tracer R)) :
  (Z.to_nat s < fuel)%nat ->
  s * s <= Z.of_nat (length tracers) ->
  exists tracers',
    initialize_tracers K fuel tracers (s * s) = Some tracers'
    /\ length tracers' = length tracers
    /\ (forall r c, 1 <= r <= s -> 1 <= c <= s ->
          let i := (r - 1) * s + (c - 1) in
          rd tracers' i
          = mkTracer (IZR c * (DOMAIN_SIZE_X K / (IZR s + 1)))%R
                     (IZR r * (DOMAIN_SIZE_Y K / (IZR s + 1)))%R
                     0%R 0%R i)
    /\ (forall j, ~ 0 <= j < s * s -> rd tracers' j = rd tracers j).
Proof.
  intros Hfuel Hlen. unfold initialize_tracers. cbv zeta.
  rewrite sqrt_square_count.
  assert (Hsq : deqb (IZR s) (dZ (dtrunc (IZR s))) = true).
  { cbn [deqb dZ dtrunc R_DoubleOps R_DoubleCmp]. rewrite Rtrunc_IZR.
    destruct (Req_dec_T (IZR s) (IZR s)); [reflexivity | contradiction]. }
  rewrite Hsq. cbn [negb].
  destruct (initialize_tracers_rows_fills
              (DOMAIN_SIZE_X K / (IZR s + dZ 1))%D
              (DOMAIN_SIZE_Y K / (IZR s + dZ 1))%D
              (Z.to_nat s) fuel fuel tracers Hfuel Hfuel ltac:(lia) Hlen)
    as (tr' & Hrun & Hl & Hnew & Hold).
  rewrite Z2Nat.id in * by lia.
  replace (s + 1 - s) with 1 in Hrun, Hnew, Hold by lia.
  change ((1 - 1) * s) with 0 in Hrun, Hold.
  rewrite Hrun. cbn [mbind option_bind fst].
  exists tr'. split; [reflexivity|]. split; [exact Hl|]. split.
  - intros r c Hr Hc. apply Hnew; assumption.
  - exact Hold.
Qed.

(** X15.  (real arithmetic)  For a square number [s * s] of tracers,
    [initialize_tracers] fills the first [s * s] elements row by row with
    an [s] by [s] grid of spacing [DOMAIN_SIZE / (s + 1)]: the tracer of row
    [r] and column [c] is at [(c * DOMAIN_SIZE_X / (s + 1),
    r * DOMAIN_SIZE_Y / (s + 1))], strictly inside the domain, at rest, and
    carries its array position as [tIndex].  The rest of the array is left
    alone. *)
Theorem initialize_tracers_grid (fuel : nat) (tracers : list (Tracer R)) :
  (0 < DOMAIN_SIZE_X K)%R -> (0 < DOMAIN_SIZE_Y K)%R ->
  (Z.to_nat s < fuel)%nat ->
  s * s <= Z.of_nat (length tracers) ->
  exists tracers',
    initialize_tracers K fuel tracers (s * s) = Some tracers'
    /\ length tracers' = length tracers
    /\ (forall r c, 1 <= r <= s -> 1 <= c <= s ->
          let i := (r - 1) * s + (c - 1) in
          let x := (IZR c * (DOMAIN_SIZE_X K / (IZR s + 1)))%R in
          let y := (IZR r * (DOMAIN_SIZE_Y K / (IZR s + 1)))%R in
          rd tracers' i = mkTracer x y 0%R 0%R i
          /\ (0 < x < DOMAIN_SIZE_X K)%R /\ (0 < y < DOMAIN_SIZE_Y K)%R)
    /\ (forall j, s * s <= j -> rd tracers' j = rd tracers j).
Proof.
  intros HX HY Hfuel Hlen.
  destruct (initialize_tracers_fills fuel tracers Hfuel Hlen)
    as (tr' & Hrun & Hl & Hnew & Hold).
  exists tr'. split; [exact Hrun|]. split; [exact Hl|]. split.
  - intros r c Hr Hc i x y. split; [apply Hnew; assumption|].
    assert (HS : (0 < IZR s + 1)%R) by (apply IZR_le in Hs; lra).
    assert (Hr1 : (1 <= IZR r <= IZR s)%R)
      by (split; apply IZR_le; lia).
    assert (Hc1 : (1 <= IZR c <= IZR s)%R)
      by (split; apply IZR_le; lia).
    assert (Hfrac : forall (d q : R), (0 < d)%R -> (1 <= q <= IZR s)%R ->
              (0 < q * (d / (IZR s + 1)) < d)%R).
    { intros d q Hd Hq.
      assert (Hu : (0 < d / (IZR s + 1))%R)
        by (apply Rdiv_lt_0_compat; lra).
      split; [apply Rmult_lt_0_compat; lra|].
      replace d with ((IZR s + 1) * (d / (IZR s + 1)))%R at 2
        by (field; lra).
      apply Rmult_lt_compat_r; lra. }
    split; apply Hfrac; assumption.
  - intros j Hj. apply Hold. lia.
Qed.
End TracerGrid.

Lemma initialize_tracers_grid_witness :
  let tracers := replicate 5 (mkTracer 9%R 9%R 9%R 9%R 9) in
  exists tracers',
    initialize_tracers KR 3 tracers (2 * 2) = Some tracers'
    /\ length tracers' = length tracers
    /\ (forall r c, 1 <= r <= 2 -> 1 <= c <= 2 ->
          let i := (r - 1) * 2 + (c - 1) in
          let x := (IZR c * (DOMAIN_SIZE_X KR / (IZR 2 + 1)))%R in
          let y := (IZR r * (DOMAIN_SIZE_Y KR / (IZR 2 + 1)))%R in
          rd tracers' i = mkTracer x y 0%R 0%R i
          /\ (0 < x < DOMAIN_SIZE_X KR)%R /\ (0 < y < DOMAIN_SIZE_Y KR)%R)
    /\ (forall j, 2 * 2 <= j -> rd tracers' j = rd tracers j).
Proof.
  apply (initialize_tracers_grid KR 2 ltac:(lia) 3%nat
           (replicate 5 (mkTracer 9%R 9%R 9%R 9%R 9)));
    simpl; first [lra | lia].
Defined.

Section TracerInitialisers.
Variable K : Constants R.

(** X16.  (real arithmetic)  [initialize_tracers] stops on its assertion
    when the number of tracers is not a perfect square. *)
Theorem initialize_tracers_not_square (fuel : nat)
    (tracers : list (Tracer R)) (n : Z) :
  0 <= n -> (forall s, s * s <> n) ->
  initialize_tracers K fuel tracers n = None.
Proof.
  intros Hn Hns. unfold initialize_tracers. cbv zeta.
  cbn [deqb dsqrt dZ dtrunc R_DoubleOps R_DoubleCmp].
  destruct (Req_dec_T (sqrt (IZR n)) (IZR (Rtrunc (sqrt (IZR n)))))
    as [Heq | _]; [|reflexivity].
  exfalso. apply (Hns (Rtrunc (sqrt (IZR n)))).
  apply eq_IZR. rewrite mult_IZR, <- Heq.
  apply sqrt_sqrt. apply IZR_le. exact Hn.
Qed.

(** X17.  (real arithmetic)  [initialize_single_test_tracer] stops on its
    assertion unless there is exactly one tracer; with one tracer it puts
    it, at rest and with [tIndex] 0, on the first vortex. *)
Theorem initialize_single_test_tracer_on_vortex (fuel : nat)
    (tracers : list (Tracer R)) (numTracers : Z) (vorts : list (Vortex R)) :
  (numTracers <> 1 ->
   initialize_single_test_tracer K fuel tracers numTracers vorts = None)
  /\ ((1 < fuel)%nat -> 1 <= Z.of_nat (length tracers) ->
      exists tracers',
        initialize_single_test_tracer K fuel tracers 1 vorts = Some tracers'
        /\ rd tracers' 0
           = mkTracer (position_0 (rd vorts 0)) (position_1 (rd vorts 0))
                      0%R 0%R 0
        /\ length tracers' = length tracers
        /\ forall j, j <> 0 -> rd tracers' j = rd tracers j).
Proof.
  split.
  - intros Hne. unfold initialize_single_test_tracer.
    destruct (Z.eqb_spec numTracers 1) as [? | _]; [contradiction|].
    reflexivity.
  - intros Hfuel Hlen. unfold initialize_single_test_tracer.
    cbn [Z.eqb Pos.eqb negb].
    destruct (initialize_tracers_fills K 1 ltac:(lia) fuel tracers)
      as (tr' & Hrun & Hl & Hnew & Hold).
    { simpl. lia. }
    { simpl. lia. }
    change (1 * 1) with 1 in Hrun, Hold. rewrite Hrun.
    cbn [mbind option_bind].
    specialize (Hnew 1 1 ltac:(lia) ltac:(lia)). cbv zeta in Hnew.
    change ((1 - 1) * 1 + (1 - 1)) with 0 in Hnew.
    eexists. split; [reflexivity|]. split; [|split].
    + rewrite rd_wr_eq by lia. rewrite Hnew. reflexivity.
    + rewrite length_wr. exact Hl.
    + intros j Hj. rewrite rd_wr_ne by congruence. apply Hold. lia.
Qed.
End TracerInitialisers.

Lemma initialize_tracers_not_square_witness :
  initialize_tracers KR 3 [] 2 = None.
Proof.
  apply (initialize_tracers_not_square KR 3 [] 2); [lia|].
  intros s Hs.
  assert (Hc : s <= -2 \/ s = -1 \/ s = 0 \/ s = 1 \/ 2 <= s) by lia.
  destruct Hc as [? | [-> | [-> | [-> | ?]]]]; try discriminate; nia.
Defined.

(** ** The merge loop as a whole *)

Section MergeLoop.
Context {D : Type} `{DoubleOps D}.
Context {G : Type} `{RNGOps D G}.
Variable K : Constants D.
Variable currentTimestep : Z.

Lemma randomizeVortex_resample_more (fuel extra : nat) (g : G) (r : D * G) :
  randomizeVortex_resample K fuel g = Some r ->
  randomizeVortex_resample K (fuel + extra) g = Some r.
Proof.
  revert g. induction fuel as [|fuel IH]; intros g; [discriminate|].
  cbn [randomizeVortex_resample Nat.add].
  destruct (generateNormalRand _ g) as [x g'].
  destruct (dfabs x <? lit_0_001)%D; [apply IH | trivial].
Qed.

Lemma randomizeVortex_resample_enough (fuel0 fuel : nat) :
  (forall g, is_Some (randomizeVortex_resample K fuel0 g)) ->
  (fuel0 <= fuel)%nat ->
  forall g, is_Some (randomizeVortex_resample K fuel g).
Proof.
  intros Hrng Hle g. destruct (Hrng g) as [r Hr].
  exists r. replace fuel with (fuel0 + (fuel - fuel0))%nat by lia.
  apply randomizeVortex_resample_more. exact Hr.
Qed.

Lemma merged_by_refl (s : MergeState D G) : merged_by 0 s s.
Proof.
  unfold merged_by. split.
  { destruct (ms_totalMerges s); cbn; [rewrite Z.add_0_r|]; reflexivity. }
  repeat split; lia.
Qed.

Lemma merged_by_trans (k1 k2 : Z) (s1 s2 s3 : MergeState D G) :
  merged_by k1 s1 s2 -> merged_by k2 s2 s3 -> merged_by (k1 + k2) s1 s3.
Proof.
  intros (Ht1 & Hs1 & Hp1 & Hn1 & Hc1 & Hi1) (Ht2 & Hs2 & Hp2 & Hn2 & Hc2 & Hi2).
  unfold merged_by. split.
  { rewrite Ht2, Ht1. destruct (ms_totalMerges s1); cbn;
      [rewrite Z.add_assoc|]; reflexivity. }
  repeat split; lia.
Qed.

Section WithFuel.
Variable fuel : nat.
Variable tracers : list (Tracer D).
Hypothesis Hrng : forall g, is_Some (randomizeVortex_resample K fuel g).

(** A property of the population that every merge block keeps. *)
Variable Inv : Pop D G -> Prop.
Hypothesis Hkeeps : forall v1 v2 s s',
  Inv (ms_pop s) -> 0 <= v1 < v2 -> v2 < numDriverVorts (ms_pop s) ->
  mergeVorts_merge K currentTimestep fuel tracers v1 v2 s = Some s' ->
  Inv (ms_pop s').

Lemma mergeVorts_merge_counts (v1 v2 : Z) (s : MergeState D G) :
  exists s',
    mergeVorts_merge K currentTimestep fuel tracers v1 v2 s = Some s'
    /\ ms_merges s' = ms_merges s + 1
    /\ merged_by 1 s s'
    /\ numDriverVorts (ms_pop s) - 1 <= numDriverVorts (ms_pop s').
Proof.
  unfold mergeVorts_merge.
  match goal with |- context [set_vorts (ms_pop s) ?l] =>
    set (p1 := set_vorts (ms_pop s) l) end.
  destruct (Z.eqb_spec (ms_spawnsLeft s) 0) as [Hzero | Hleft]; cbn [negb].
  - cbn [mbind option_bind].
    destruct (updateRadii_pythagorean _ _ _ _ _ _) as [vr tr].
    eexists. split; [reflexivity|].
    cbn [ms_pop ms_merges ms_spawnsLeft ms_totalMerges set_radii
         numDriverVorts nextVortID deleteVortex p1 set_vorts].
    split; [reflexivity|]. unfold merged_by.
    cbn [ms_pop ms_merges ms_spawnsLeft ms_totalMerges set_radii
         numDriverVorts nextVortID deleteVortex p1 set_vorts].
    repeat split; try lia.
  - destruct (randomizeVortex_Some K currentTimestep fuel v2 p1 Hrng)
      as (p2 & w & Hrand & HN2 & Hid2 & _).
    rewrite Hrand. cbn [mbind option_bind].
    destruct (updateRadii_pythagorean _ _ _ _ _ _) as [vr tr].
    eexists. split; [reflexivity|].
    cbn [ms_pop ms_merges ms_spawnsLeft ms_totalMerges set_radii
         numDriverVorts nextVortID].
    split; [reflexivity|]. unfold merged_by.
    cbn [ms_pop ms_merges ms_spawnsLeft ms_totalMerges set_radii
         numDriverVorts nextVortID].
    rewrite HN2, Hid2. cbn [p1 numDriverVorts nextVortID set_vorts].
    repeat split; lia.
Qed.

Lemma mergeVorts_row_result (n : nat) (v1 v2 : Z) (s : MergeState D G) :
  0 <= v1 -> v1 + Z.of_nat n <= v2 -> v2 < numDriverVorts (ms_pop s) ->
  Inv (ms_pop s) ->
  exists s',
    mergeVorts_row K currentTimestep fuel tracers n v1 v2 s = Some s'
    /\ Inv (ms_pop s')
    /\ ((s' = s
         /\ forall v, v1 <= v < v1 + Z.of_nat n ->
              (rd (vortexRadii (ms_pop s)) (calculateVortexRadiiIndex v v2)
               <? VORTEX_MERGE_RADIUS K)%D = false)
        \/ (ms_merges s' = ms_merges s + 1
            /\ merged_by 1 s s'
            /\ numDriverVorts (ms_pop s) - 1 <= numDriverVorts (ms_pop s'))).
Proof.
  revert v1. induction n as [|n IH]; intros v1 Hv1 Hn Hv2 HI.
  - exists s. split; [reflexivity|]. split; [exact HI|].
    left. split; [reflexivity | intros; lia].
  - cbn [mergeVorts_row].
    destruct (rd (vortexRadii (ms_pop s)) (calculateVortexRadiiIndex v1 v2)
              <? VORTEX_MERGE_RADIUS K)%D eqn:Hhit.
    + destruct (mergeVorts_merge_counts v1 v2 s) as (s' & Hs' & Hm & Hb & Hn').
      exists s'. split; [exact Hs'|].
      split; [apply (Hkeeps v1 v2 s s' HI); [lia | exact Hv2 | exact Hs']|].
      right. auto.
    + destruct (IH (v1 + 1) ltac:(lia) ltac:(lia) Hv2 HI)
        as (s' & Hs' & HI' & Hcase).
      exists s'. split; [exact Hs'|]. split; [exact HI'|].
      destruct Hcase as [[-> Hq] | Hmerged]; [left | right; exact Hmerged].
      split; [reflexivity|]. intros v Hv.
      destruct (Z.eq_dec v v1) as [-> | Hne]; [exact Hhit | apply Hq; lia].
Qed.

Lemma mergeVorts_sweep_result (steps : nat) (v2 : Z) (s : MergeState D G) :
  1 <= v2 ->
  Z.max 0 (numDriverVorts (ms_pop s) - v2) < Z.of_nat steps ->
  Inv (ms_pop s) ->
  exists s',
    mergeVorts_sweep K currentTimestep fuel tracers steps v2 s = Some s'
    /\ Inv (ms_pop s')
    /\ merged_by (ms_merges s' - ms_merges s) s s'
    /\ 0 <= ms_merges s' - ms_merges s
    /\ Z.min (numDriverVorts (ms_pop s)) v2 <= numDriverVorts (ms_pop s')
    /\ (ms_merges s' = ms_merges s ->
        s' = s /\ settled_from K v2 (ms_pop s)).
Proof.
  revert v2 s. induction steps as [|steps IH]; intros v2 s Hv2 Hsteps HI;
    [lia|].
  cbn [mergeVorts_sweep].
  destruct (Z.ltb_spec v2 (numDriverVorts (ms_pop s))) as [Hlt | Hge].
  - destruct (mergeVorts_row_result (Z.to_nat v2) 0 v2 s ltac:(lia)
                ltac:(lia) Hlt HI)
      as (s1 & Hrow & HI1 & Hcase).
    rewrite Hrow. cbn [mbind option_bind].
    assert (Hs1 : merged_by (ms_merges s1 - ms_merges s) s s1
                  /\ 0 <= ms_merges s1 - ms_merges s
                  /\ numDriverVorts (ms_pop s) - 1
                     <= numDriverVorts (ms_pop s1)
                  /\ numDriverVorts (ms_pop s1) <= numDriverVorts (ms_pop s)).
    { destruct Hcase as [[-> _] | (Hm & Hb & Hn)].
      - rewrite Z.sub_diag. split; [apply merged_by_refl | lia].
      - rewrite Hm. replace (ms_merges s + 1 - ms_merges s) with 1 by lia.
        split; [exact Hb|]. split; [lia|]. split; [exact Hn|].
        destruct Hb as (_ & _ & _ & Hle & _). exact Hle. }
    destruct Hs1 as (Hb1 & Hk1 & Hn1 & Hle1).
    destruct (IH (v2 + 1) s1 ltac:(lia) ltac:(lia) HI1)
      as (s' & Hsw & HI' & Hb2 & Hk2 & Hn2 & Hsame).
    exists s'. split; [exact Hsw|]. split; [exact HI'|]. split.
    { replace (ms_merges s' - ms_merges s)
        with ((ms_merges s1 - ms_merges s) + (ms_merges s' - ms_merges s1))
        by lia.
      eapply merged_by_trans; eassumption. }
    split; [lia|]. split; [lia|].
    intros Heq. assert (Heq1 : ms_merges s1 = ms_merges s) by lia.
    destruct Hcase as [[-> Hq] | (Hm & _)]; [|lia].
    destruct (Hsame ltac:(lia)) as [-> Hset]. split; [reflexivity|].
    intros a b Hab Hb. destruct (Z.eq_dec b v2) as [-> | Hne].
    + apply Hq. rewrite Z2Nat.id by lia. lia.
    + apply Hset; lia.
  - exists s. split; [reflexivity|]. split; [exact HI|]. rewrite Z.sub_diag.
    split; [apply merged_by_refl|]. split; [lia|]. split; [lia|].
    intros _. split; [reflexivity|]. intros a b Hab Hb. lia.
Qed.

Lemma mergeVorts_passes_result (passes : nat) (s : MergeState D G) :
  0 <= ms_spawnsLeft s -> 0 <= numDriverVorts (ms_pop s) ->
  numDriverVorts (ms_pop s) + ms_spawnsLeft s < Z.of_nat passes ->
  numDriverVorts (ms_pop s) < Z.of_nat fuel ->
  Inv (ms_pop s) ->
  exists s' k,
    mergeVorts_passes K currentTimestep fuel tracers passes s = Some s'
    /\ Inv (ms_pop s')
    /\ 0 <= k
    /\ merged_by k s s'
    /\ settled_from K 1 (ms_pop s').
Proof.
  revert s. induction passes as [|passes IH]; intros s Hsl HN Hp Hf HI;
    [lia|].
  cbn [mergeVorts_passes].
  set (s0 := mkMergeState (ms_pop s) (ms_spawnsLeft s) 0 (ms_totalMerges s)).
  destruct (mergeVorts_sweep_result fuel 1 s0 ltac:(lia))
    as (s1 & Hsw & HI1 & Hb1 & Hk1 & Hn1 & Hsame).
  { cbn [s0 ms_pop]. lia. }
  { exact HI. }
  rewrite Hsw. cbn [mbind option_bind].
  cbn [s0 ms_merges ms_pop] in Hk1, Hn1, Hsame.
  change (ms_merges s0) with 0 in Hb1. rewrite Z.sub_0_r in Hb1, Hk1.
  assert (Hb01 : merged_by (ms_merges s1) s s1) by exact Hb1.
  destruct (Z.ltb_spec 0 (ms_merges s1)) as [Hpos | Hzero].
  - destruct Hb01 as (Ht & Hs & Hpos' & Hle & Hc & Hi).
    destruct (IH s1 ltac:(auto) ltac:(lia) ltac:(lia) ltac:(lia) HI1)
      as (s' & k & Hrun & HI' & Hk & Hb2 & Hset).
    exists s', (ms_merges s1 + k). split; [exact Hrun|].
    split; [exact HI'|]. split; [lia|].
    split; [|exact Hset].
    eapply merged_by_trans; [|exact Hb2].
    unfold merged_by. auto 10.
  - destruct (Hsame ltac:(lia)) as [-> Hset].
    exists s0, 0. split; [reflexivity|]. split; [exact HI|]. split; [lia|].
    split; [|exact Hset]. apply (merged_by_refl s0).
Qed.
(** [mergeVorts] itself, with the property that the merges keep. *)
Lemma mergeVorts_result (spawnsLeft : Z) (totalMerges : option Z)
    (p : Pop D G) :
  0 <= spawnsLeft -> 0 <= numDriverVorts p ->
  numDriverVorts p + spawnsLeft < Z.of_nat fuel ->
  Inv p ->
  exists p' spawnsLeft' totalMerges' k,
    mergeVorts K currentTimestep fuel tracers spawnsLeft totalMerges p
    = Some (p', spawnsLeft', totalMerges')
    /\ Inv p'
    /\ 0 <= k
    /\ totalMerges' = (fun n => n + k) <$> totalMerges
    /\ 0 <= spawnsLeft' <= spawnsLeft
    /\ numDriverVorts p' <= numDriverVorts p
    /\ numDriverVorts p' + spawnsLeft' + k = numDriverVorts p + spawnsLeft
    /\ nextVortID p' = nextVortID p + (spawnsLeft - spawnsLeft')
    /\ settled_from K 1 p'.
Proof.
  intros Hsl HN Hfuel HI. unfold mergeVorts.
  destruct (mergeVorts_passes_result fuel
              (mkMergeState p spawnsLeft 0 totalMerges))
    as (s' & k & Hrun & HI' & Hk & Hb & Hset);
    cbn [ms_pop ms_spawnsLeft]; try lia; try exact HI.
  rewrite Hrun. cbn [mbind option_bind].
  destruct Hb as (Ht & Hs & Hpos & Hle & Hc & Hi).
  cbn [ms_pop ms_spawnsLeft ms_totalMerges] in Ht, Hs, Hpos, Hle, Hc, Hi.
  exists (ms_pop s'), (ms_spawnsLeft s'), (ms_totalMerges s'), k.
  split; [reflexivity|]. split; [exact HI'|]. split; [exact Hk|].
  split; [exact Ht|]. split; [split; [auto | exact Hs]|].
  split; [exact Hle|]. split; [exact Hc|]. split; [exact Hi|]. exact Hset.
Qed.
End WithFuel.

(** X18.  With a generator that yields an accepted intensity within
    [fuel0] draws and enough fuel, [mergeVorts] returns.  On return no
    cached distance between two active vortices is below the merge radius.
    Each of the [k] merges was counted in [*totalMerges] and consumed
    either one spawn, with one fresh identifier, or one vortex: the
    population plus the spawns left went down by [k], and the spawns left
    never go below 0. *)
Theorem mergeVorts_settles (fuel0 fuel : nat) (tracers : list (Tracer D))
    (spawnsLeft : Z) (totalMerges : option Z) (p : Pop D G) :
  (forall g, is_Some (randomizeVortex_resample K fuel0 g)) ->
  (fuel0 <= fuel)%nat ->
  0 <= spawnsLeft -> 0 <= numDriverVorts p ->
  numDriverVorts p + spawnsLeft < Z.of_nat fuel ->
  exists p' spawnsLeft' totalMerges' k,
    mergeVorts K currentTimestep fuel tracers spawnsLeft totalMerges p
    = Some (p', spawnsLeft', totalMerges')
    /\ 0 <= k
    /\ totalMerges' = (fun n => n + k) <$> totalMerges
    /\ 0 <= spawnsLeft' <= spawnsLeft
    /\ numDriverVorts p' + spawnsLeft' + k = numDriverVorts p + spawnsLeft
    /\ nextVortID p' = nextVortID p + (spawnsLeft - spawnsLeft')
    /\ forall a b, 0 <= a < b -> b < numDriverVorts p' ->
         (rd (vortexRadii p') (calculateVortexRadiiIndex a b)
          <? VORTEX_MERGE_RADIUS K)%D = false.
Proof.
  intros Hrng0 Hle Hsl HN Hfuel.
  pose proof (randomizeVortex_resample_enough fuel0 fuel Hrng0 Hle) as Hrng.
  destruct (mergeVorts_result fuel tracers Hrng (fun _ => True)
              ltac:(trivial) spawnsLeft totalMerges p Hsl HN Hfuel I)
    as (p' & sl' & tm' & k & Hrun & _ & Hk & Ht & Hs & _ & Hc & Hi & Hset).
  exists p', sl', tm', k.
  split; [exact Hrun|]. split; [exact Hk|]. split; [exact Ht|].
  split; [exact Hs|]. split; [exact Hc|]. split; [exact Hi|].
  intros a b Hab Hb. apply Hset; lia.
Qed.
End MergeLoop.

Lemma mergeVorts_settles_witness :
  exists p' spawnsLeft' totalMerges' k,
    mergeVorts K0 0 5 two_tracers 1 (Some 0) merging_population
    = Some (p', spawnsLeft', totalMerges')
    /\ 0 <= k
    /\ totalMerges' = (fun n => n + k) <$> Some 0
    /\ 0 <= spawnsLeft' <= 1
    /\ numDriverVorts p' + spawnsLeft' + k
       = numDriverVorts merging_population + 1
    /\ nextVortID p' = nextVortID merging_population + (1 - spawnsLeft')
    /\ forall a b, 0 <= a < b -> b < numDriverVorts p' ->
         (rd (vortexRadii p') (calculateVortexRadiiIndex a b)
          <? VORTEX_MERGE_RADIUS K0)%D = false.
Proof.
  assert (Hrng : forall g : nat, is_Some (randomizeVortex_resample K0 2 g))
    by (apply alternating_resample; reflexivity).
  apply (mergeVorts_settles K0 0 2 5 two_tracers 1 (Some 0)
           merging_population Hrng); simpl; lia.
Defined.

(** ** A merge leaves the tables current *)

Lemma tri_succ (m : Z) : (m + 1) * (m + 1 - 1) / 2 = m * (m - 1) / 2 + m.
Proof.
  pose proof (tri_double m) as Hm. pose proof (tri_double (m + 1)) as Hs. lia.
Qed.

Lemma tri_nonneg (m : Z) : 0 <= m -> 0 <= m * (m - 1) / 2.
Proof.
  intros Hm. apply Z.div_pos; [|lia].
  destruct (Z.eq_dec m 0) as [-> | Hne]; [lia|].
  apply Z.mul_nonneg_nonneg; lia.
Qed.

Lemma tri_le (m n : Z) :
  0 <= m <= n -> m * (m - 1) / 2 <= n * (n - 1) / 2.
Proof.
  intros [Hm Hmn].
  pose proof (tri_double m) as Hdm. pose proof (tri_double n) as Hdn.
  assert (Hprod : m * (m - 1) <= n * (n - 1)).
  { destruct (Z.eq_dec m 0) as [-> | Hne].
    - destruct (Z.eq_dec n 0) as [-> | Hn]; [lia|].
      apply Z.mul_nonneg_nonneg; lia.
    - apply Z.mul_le_mono_nonneg; lia. }
  lia.
Qed.

Lemma calculateVortexRadiiIndex_le (a b : Z) :
  0 <= a <= b ->
  calculateVortexRadiiIndex a b = 3 * (b * (b - 1) / 2 + a).
Proof.
  intros Hab. destruct (Z.eq_dec a b) as [-> | Hne].
  - unfold calculateVortexRadiiIndex. rewrite Z.ltb_irrefl.
    rewrite tri_quot by lia. lia.
  - apply calculateVortexRadiiIndex_lt; lia.
Qed.

Section MergeRefresh.
Context {D : Type} `{DoubleOps D}.
Context {G : Type} `{RNGOps D G}.
Variable K : Constants D.
Variable currentTimestep : Z.
Hypothesis HT : 0 <= NUM_TRACERS K.

(** [deleteVortex] keeps the sizes of the two tables: every [memmove]
    stays inside them. *)
Lemma deleteVortex_lengths (vort : Z) (p : Pop D G) :
  let d := vIndex (rd (vorts p) vort) in
  let N := numDriverVorts p in
  0 <= d < N ->
  3 * (N * (N - 1) / 2) <= Z.of_nat (length (vortexRadii p)) ->
  (NUM_TRACERS K = 0
   \/ 3 * (NUM_TRACERS K * N) + 1 <= Z.of_nat (length (tracerRads p))) ->
  length (vortexRadii (deleteVortex K vort p)) = length (vortexRadii p)
  /\ length (tracerRads (deleteVortex K vort p)) = length (tracerRads p).
Proof.
  intros d N Hd Hvr Htr. unfold deleteVortex. fold d N.
  cbn [vortexRadii tracerRads]. split.
  - apply (for_loop_frame
             (fun a : list D => length a = length (vortexRadii p)));
      [reflexivity|].
    intros r a Hr Ha. cbv zeta.
    pose proof (tri_succ r) as Hs1. pose proof (tri_succ (r + 1)) as Hs2.
    replace (r + 1 + 1 - 1) with (r + 1) in Hs2 by lia.
    pose proof (tri_le (r + 1 + 1) N ltac:(lia)) as Hmono.
    replace (r + 1 + 1 - 1) with (r + 1) in Hmono by lia.
    pose proof (tri_nonneg r ltac:(lia)) as Hnn.
    rewrite (calculateVortexRadiiIndex_le 0 r) by lia.
    rewrite (calculateVortexRadiiIndex_le 0 (r + 1)) by lia.
    rewrite (calculateVortexRadiiIndex_le (d + 1) (r + 1)) by lia.
    assert (Hdst : (if r =? N - 2 then calculateVortexRadiiIndex d r
                    else 3 * (r * (r - 1) / 2 + 0))
                   <= 3 * (r * (r - 1) / 2 + d)
                   /\ 0 <= (if r =? N - 2 then calculateVortexRadiiIndex d r
                            else 3 * (r * (r - 1) / 2 + 0))).
    { rewrite (calculateVortexRadiiIndex_le d r) by lia.
      destruct (r =? N - 2); lia. }
    destruct Hdst as [Hdst Hdst0].
    set (dst2 := if r =? N - 2 then calculateVortexRadiiIndex d r
                 else 3 * (r * (r - 1) / 2 + 0)) in *.
    clearbody dst2.
    set (m1 := memmove a (3 * (r * (r - 1) / 2 + 0))
                 (3 * ((r + 1) * (r + 1 - 1) / 2 + 0)) (d * 3)).
    assert (Hm1 : length m1 = length a)
      by (apply length_memmove; lia).
    rewrite length_memmove; [congruence | lia ..].
  - apply (for_loop_frame
             (fun a : list D => length a = length (tracerRads p)));
      [reflexivity|].
    intros t a Ht Ha. unfold calculateTracerRadiiIndex.
    destruct Htr as [Htr | Htr]; [lia|].
    assert (Hrow : (t + 1) * N <= NUM_TRACERS K * N)
      by (apply Z.mul_le_mono_nonneg_r; lia).
    assert (Hrow0 : 0 <= t * N) by (apply Z.mul_nonneg_nonneg; lia).
    rewrite length_memmove; [exact Ha | lia ..].
Qed.

Lemma updateRadii_pythagorean_lengths (N : Z)
    (vortexRadii : list D) (vortices : list (Vortex D))
    (tracerRadii : list D) (tracers : list (Tracer D)) (M : Z) :
  let radii := updateRadii_pythagorean N vortexRadii vortices
                                       tracerRadii tracers M in
  length (fst radii) = length vortexRadii
  /\ length (snd radii) = length tracerRadii.
Proof.
  unfold updateRadii_pythagorean. cbn [fst snd]. split.
  - apply (for_loop_frame (fun a : list D => length a = length vortexRadii));
      [reflexivity|].
    intros i a _ Ha.
    apply (for_loop_frame (fun a : list D => length a = length vortexRadii));
      [exact Ha|].
    intros j a' _ Ha'. cbv zeta. rewrite !length_wr. exact Ha'.
  - apply (for_loop_frame (fun a : list D => length a = length tracerRadii));
      [reflexivity|].
    intros i a _ Ha.
    apply (for_loop_frame (fun a : list D => length a = length tracerRadii));
      [exact Ha|].
    intros j a' _ Ha'. cbv zeta. rewrite !length_wr. exact Ha'.
Qed.

(** Recomputing the tables of an indexed population with room makes them
    current. *)
Lemma refresh_current (tracers : list (Tracer D)) (p : Pop D G) :
  indexed p -> roomy K p ->
  let radii :=
    updateRadii_pythagorean (numDriverVorts p) (vortexRadii p) (vorts p)
                            (tracerRads p) tracers (NUM_TRACERS K) in
  let p' := set_radii p (fst radii) (snd radii) in
  indexed p' /\ roomy K p' /\ current K tracers p'.
Proof.
  intros Hidx (HN & Hfree & Hv & Hvr & Htr) radii p'.
  destruct (updateRadii_pythagorean_lengths (numDriverVorts p)
              (vortexRadii p) (vorts p) (tracerRads p) tracers
              (NUM_TRACERS K)) as [Hl1 Hl2]. fold radii in Hl1, Hl2.
  pose proof (tri_le (numDriverVorts p) (vortsAllocated p) HN) as Htri.
  assert (Hrows : NUM_TRACERS K * numDriverVorts p
                  <= NUM_TRACERS K * vortsAllocated p)
    by (apply Z.mul_le_mono_nonneg_l; lia).
  split; [exact Hidx|]. split.
  - unfold roomy, p'. cbn [set_radii numDriverVorts vortsAllocated vorts
                           vortexRadii tracerRads].
    rewrite Hl1, Hl2. auto.
  - unfold current, p'. cbn [set_radii numDriverVorts vorts vortexRadii
                             tracerRads].
    split.
    + intros a b Hab Hb.
      apply updateRadii_vortex_table; [exact Hidx | lia | exact Hab | exact Hb].
    + intros t v Ht Hv'.
      apply updateRadii_tracer_table; [lia | exact Ht | exact Hv'].
Qed.

(** Whenever the merge block returns, the population is indexed, has room
    and has current tables. *)
Lemma mergeVorts_merge_keeps (fuel : nat) (tracers : list (Tracer D))
    (v1 v2 : Z) (s s' : MergeState D G) :
  indexed (ms_pop s) -> roomy K (ms_pop s) ->
  0 <= v1 < v2 -> v2 < numDriverVorts (ms_pop s) ->
  mergeVorts_merge K currentTimestep fuel tracers v1 v2 s = Some s' ->
  indexed (ms_pop s') /\ roomy K (ms_pop s') /\ current K tracers (ms_pop s').
Proof.
  intros Hidx Hroom Hv1 Hv2. unfold mergeVorts_merge.
  match goal with |- context [set_vorts (ms_pop s) (wr _ v1 ?m)] =>
    set (merged1 := m) end.
  set (p := ms_pop s) in *.
  set (p1 := set_vorts p (wr (vorts p) v1 merged1)).
  destruct Hroom as (HN & Hfree & Hv & Hvr & Htr).
  assert (Hidx1 : indexed p1).
  { intros i Hi. unfold p1. cbn [vorts set_vorts].
    destruct (Z.eq_dec i v1) as [-> | Hne].
    - rewrite rd_wr_eq by lia. unfold merged1.
      cbn [vIndex set_intensity set_position]. apply Hidx. lia.
    - rewrite rd_wr_ne by congruence. apply Hidx. exact Hi. }
  assert (Hroom1 : roomy K p1).
  { unfold roomy, p1. cbn [numDriverVorts vortsAllocated vorts vortexRadii
                           tracerRads set_vorts].
    rewrite length_wr. auto. }
  assert (Hfinish : forall p2, indexed p2 -> roomy K p2 ->
            forall sl m tm,
            (let '(vortexRadii, tracerRads) :=
               updateRadii_pythagorean (numDriverVorts p2) (vortexRadii p2)
                 (vorts p2) (tracerRads p2) tracers (NUM_TRACERS K) in
             Some (mkMergeState (set_radii p2 vortexRadii tracerRads)
                                sl m tm)) = Some s' ->
            indexed (ms_pop s') /\ roomy K (ms_pop s')
            /\ current K tracers (ms_pop s')).
  { intros p2 Hi2 Hr2 sl m tm Heq.
    pose proof (refresh_current tracers p2 Hi2 Hr2) as Hfin.
    cbv zeta in Hfin.
    destruct (updateRadii_pythagorean _ _ _ _ _ _) as [vr tr].
    inversion Heq; subst s'. exact Hfin. }
  destruct (Z.eqb_spec (ms_spawnsLeft s) 0) as [Hzero | Hleft]; cbn [negb].
  - cbn [mbind option_bind]. apply Hfinish.
    + (* the vortex array after the deletion *)
      pose proof (deleteVortex_vorts K v2 p1) as Hdel. cbv zeta in Hdel.
      rewrite (Hidx1 v2) in Hdel by (cbn [p1 numDriverVorts set_vorts]; lia).
      destruct Hdel as (HN' & _ & _ & _ & _ & Hlow & Hhigh);
        [cbn [p1 numDriverVorts set_vorts]; lia
        | cbn [p1 numDriverVorts vorts set_vorts]; rewrite length_wr; lia |].
      intros i Hi. rewrite HN' in Hi.
      change (numDriverVorts p1) with (numDriverVorts p) in Hi, Hhigh.
      destruct (Z.lt_ge_cases i v2) as [Hlt | Hge].
      * rewrite Hlow by lia. apply Hidx1. cbn [p1 numDriverVorts set_vorts]. lia.
      * rewrite Hhigh by lia. cbn [vIndex set_vIndex].
        rewrite (Hidx1 (i + 1)) by (cbn [p1 numDriverVorts set_vorts]; lia).
        lia.
    + pose proof (deleteVortex_vorts K v2 p1) as Hdel. cbv zeta in Hdel.
      rewrite (Hidx1 v2) in Hdel by (cbn [p1 numDriverVorts set_vorts]; lia).
      destruct Hdel as (HN' & _ & _ & HA' & Hlen' & _);
        [cbn [p1 numDriverVorts set_vorts]; lia
        | cbn [p1 numDriverVorts vorts set_vorts]; rewrite length_wr; lia |].
      pose proof (deleteVortex_lengths v2 p1) as Hlens. cbv zeta in Hlens.
      rewrite (Hidx1 v2) in Hlens by (cbn [p1 numDriverVorts set_vorts]; lia).
      change (numDriverVorts p1) with (numDriverVorts p) in Hlens, HN'.
      change (vortsAllocated p1) with (vortsAllocated p) in HA'.
      change (vortexRadii p1) with (vortexRadii p) in Hlens.
      change (tracerRads p1) with (tracerRads p) in Hlens.
      pose proof (tri_le (numDriverVorts p) (vortsAllocated p) HN) as Htri.
      destruct Hlens as [Hl1 Hl2]; [lia | lia | |].
      { destruct (Z.eq_dec (NUM_TRACERS K) 0) as [? | Hne]; [left; assumption|].
        right.
        assert (NUM_TRACERS K * (numDriverVorts p + 1)
                <= NUM_TRACERS K * vortsAllocated p)
          by (apply Z.mul_le_mono_nonneg_l; lia).
        lia. }
      unfold roomy. rewrite HN', HA', Hlen', Hl1, Hl2.
      change (length (vorts p1)) with (length (wr (vorts p) v1 merged1)).
      rewrite length_wr. repeat split; try lia.
  - destruct (randomizeVortex K currentTimestep fuel v2 p1) as [p2|] eqn:Hrand;
      cbn [mbind option_bind]; [|discriminate].
    destruct (randomizeVortex_keeps K currentTimestep fuel v2 p1 p2 Hrand)
      as (HN2 & _ & HA2 & Hvr2 & Htr2 & Hlen2 & Hother & Hsame).
    apply Hfinish.
    + intros i Hi. rewrite HN2 in Hi.
      destruct (Z.eq_dec i v2) as [-> | Hne].
      * rewrite Hsame. apply Hidx1. exact Hi.
      * rewrite Hother by exact Hne. apply Hidx1. exact Hi.
    + unfold roomy. rewrite HN2, HA2, Hvr2, Htr2, Hlen2. exact Hroom1.
Qed.

Variable fuel : nat.
Hypothesis Hrng : forall g, is_Some (randomizeVortex_resample K fuel g).

(** X19.  After the block of [mergeVorts] that merges a pair, both tables
    hold the distances of the positions of the vortices that are left (which
    [deleteVortex] on its own does not achieve), every vortex carries its
    array position as [vIndex], and the buffers keep their sizes. *)
Theorem mergeVorts_merge_refreshes (tracers : list (Tracer D)) (v1 v2 : Z)
    (s : MergeState D G) :
  indexed (ms_pop s) -> roomy K (ms_pop s) ->
  0 <= v1 < v2 -> v2 < numDriverVorts (ms_pop s) ->
  exists s',
    mergeVorts_merge K currentTimestep fuel tracers v1 v2 s = Some s'
    /\ indexed (ms_pop s')
    /\ roomy K (ms_pop s')
    /\ current K tracers (ms_pop s').
Proof.
  intros Hidx Hroom Hv1 Hv2.
  destruct (mergeVorts_merge_counts K currentTimestep fuel tracers Hrng
              v1 v2 s) as (s' & Hs' & _).
  exists s'. split; [exact Hs'|].
  exact (mergeVorts_merge_keeps fuel tracers v1 v2 s s' Hidx Hroom Hv1 Hv2 Hs').
Qed.
End MergeRefresh.

Lemma merging_population_indexed : indexed merging_population.
Proof.
  intros i Hi. assert (Hc : i = 0 \/ i = 1 \/ i = 2) by (simpl in Hi; lia).
  destruct Hc as [-> | [-> | ->]]; reflexivity.
Defined.

Lemma merging_population_roomy : roomy K0 merging_population.
Proof.
  destruct (updateRadii_pythagorean_lengths 3 (replicate 18 0%float)
              merging_vortices (replicate 24 0%float) two_tracers 2)
    as [Hl1 Hl2].
  unfold roomy, merging_population.
  cbn [numDriverVorts vortsAllocated vorts vortexRadii tracerRads].
  rewrite Hl1, Hl2. cbv. intuition discriminate.
Defined.

Lemma mergeVorts_merge_refreshes_witness :
  exists s',
    mergeVorts_merge K0 0 2 two_tracers 0 1
      (mkMergeState merging_population 0 0 None) = Some s'
    /\ indexed (ms_pop s')
    /\ roomy K0 (ms_pop s')
    /\ current K0 two_tracers (ms_pop s').
Proof.
  assert (Hrng : forall g : nat, is_Some (randomizeVortex_resample K0 2 g))
    by (apply alternating_resample; reflexivity).
  apply (mergeVorts_merge_refreshes K0 0 ltac:(simpl; lia) 2 Hrng two_tracers
           0 1 (mkMergeState merging_population 0 0 None)).
  - exact merging_population_indexed.
  - exact merging_population_roomy.
  - lia.
  - simpl. lia.
Defined.

(** ** The life-cycle block of the main loop *)

Section Lifecycle.
Context {G : Type} `{RNGOps R G}.
Variable K : Constants R.
Variable currentTimestep : Z.
Variable fuel : nat.
Hypothesis Hrng : forall g, is_Some (randomizeVortex_resample K fuel g).
Hypothesis HT : 0 <= NUM_TRACERS K.

(** On either path, [spawnVorts] appends [k] vortices and leaves an indexed
    population with room. *)
Lemma spawnVorts_roomy (k : Z) (p : Pop R G) :
  0 <= k -> indexed p -> roomy K p ->
  exists p',
    spawnVorts K currentTimestep fuel k p = Some p'
    /\ numDriverVorts p' = numDriverVorts p + k
    /\ nextVortID p' = nextVortID p + k
    /\ indexed p'
    /\ roomy K p'.
Proof.
  intros Hk Hidx (HN & Hfree & Hv & Hvr & Htr). unfold spawnVorts.
  set (N := numDriverVorts p) in *.
  destruct (Z.geb_spec (N + k) (vortsAllocated p)) as [Hge | Hlt].
  - (* the buffers grow *)
    change (dtrunc (dZ (N + k) * lit_1_5)%D)
      with (Rtrunc (IZR (N + k) * (IZR 3 / IZR 2))).
    rewrite Rtrunc_three_halves by lia.
    set (cap := 3 * (N + k) / 2).
    assert (Hcap : 2 * cap <= 3 * (N + k) < 2 * cap + 2).
    { pose proof (Z.div_mod (3 * (N + k)) 2 ltac:(lia)) as Hdm.
      pose proof (Z.mod_pos_bound (3 * (N + k)) 2 ltac:(lia)) as Hmb.
      fold cap in Hdm. lia. }
    pose proof (tri_nonneg cap ltac:(lia)) as Htri.
    assert (Hquot : cap * (cap - 1) ÷ 2 = cap * (cap - 1) / 2).
    { rewrite <- tri_quot by lia. f_equal. lia. }
    rewrite Hquot.
    set (p1 := mkPop N (nextVortID p) (rngState p) (realloc (vorts p) cap) cap
                 (realloc (vortexRadii p) (cap * (cap - 1) / 2 * 3))
                 (realloc (tracerRads p) (cap * NUM_TRACERS K * 3))).
    assert (Hlen1 : Z.of_nat (length (vorts p1)) = cap)
      by (apply length_realloc; lia).
    destruct (spawnVorts_loop_Some K currentTimestep fuel Hrng (Z.to_nat k) p1)
      as (p' & Hl & HN' & Hid' & Hal' & Hlen' & Hother & Hnew).
    { exact (proj1 HN). }
    { change (numDriverVorts p1) with N. rewrite Hlen1. lia. }
    change (numDriverVorts p1) with N in HN', Hother, Hnew.
    change (nextVortID p1) with (nextVortID p) in Hid', Hnew.
    change (vortsAllocated p1) with cap in Hal'.
    rewrite Z2Nat.id in * by lia.
    destruct (spawnVorts_loop_keeps K currentTimestep fuel (Z.to_nat k) p1 p'
                Hl) as (_ & _ & Hvr' & Htr' & _).
    exists p'. split; [exact Hl|]. split; [exact HN'|]. split; [exact Hid'|].
    split.
    + intros i Hi. rewrite HN' in Hi.
      destruct (Z.lt_ge_cases i N) as [Hold | Hfresh].
      * rewrite Hother by lia. cbn [vorts p1].
        rewrite rd_realloc by lia. apply Hidx. lia.
      * destruct (Hnew i ltac:(lia)) as (Hvi & _). exact Hvi.
    + unfold roomy. rewrite HN', Hal', Hlen', Hvr', Htr', Hlen1.
      cbn [vortexRadii tracerRads p1]. rewrite !length_realloc.
      * repeat split; lia.
      * apply Z.mul_nonneg_nonneg; [apply Z.mul_nonneg_nonneg|]; lia.
      * lia.
  - (* there is room *)
    destruct (spawnVorts_loop_Some K currentTimestep fuel Hrng (Z.to_nat k) p)
      as (p' & Hl & HN' & Hid' & Hal' & Hlen' & Hother & Hnew).
    { exact (proj1 HN). }
    { fold N. lia. }
    fold N in HN', Hother, Hnew. rewrite Z2Nat.id in * by lia.
    destruct (spawnVorts_loop_keeps K currentTimestep fuel (Z.to_nat k) p p'
                Hl) as (_ & _ & Hvr' & Htr' & _).
    exists p'. split; [exact Hl|]. split; [exact HN'|]. split; [exact Hid'|].
    split.
    + intros i Hi. rewrite HN' in Hi.
      destruct (Z.lt_ge_cases i N) as [Hold | Hfresh].
      * rewrite Hother by lia. apply Hidx. lia.
      * destruct (Hnew i ltac:(lia)) as (Hvi & _). exact Hvi.
    + unfold roomy. rewrite HN', Hal', Hlen', Hvr', Htr'.
      repeat split; lia.
Qed.

(** X20.  (real arithmetic)  The life-cycle block of the main loop returns
    for a generator that yields accepted intensities and enough fuel.  The
    population ends at [N + numSpawns - totalMergeCount]: every spawn of the
    budget is used, by a merge or by [spawnVorts], and exactly [numSpawns]
    fresh identifiers are taken.  Afterwards every vortex carries its array
    position as [vIndex], the tables hold the distances of the positions,
    and no two vortices are closer than the merge radius. *)
Theorem main_lifecycle_population (tracers : list (Tracer R))
    (numSpawns : Z) (p : Pop R G) :
  0 <= numSpawns ->
  indexed p -> roomy K p -> current K tracers p ->
  numDriverVorts p + numSpawns < Z.of_nat fuel ->
  exists p' merges,
    main_lifecycle K currentTimestep fuel tracers numSpawns p
    = Some (p', Some merges)
    /\ 0 <= merges
    /\ numDriverVorts p' = numDriverVorts p + numSpawns - merges
    /\ nextVortID p' = nextVortID p + numSpawns
    /\ indexed p' /\ roomy K p' /\ current K tracers p'
    /\ forall a b, 0 <= a < b -> b < numDriverVorts p' ->
         let dx := (position_0 (rd (vorts p') b)
                    - position_0 (rd (vorts p') a))%R in
         let dy := (position_1 (rd (vorts p') b)
                    - position_1 (rd (vorts p') a))%R in
         ~ (sqrt (Rsqr dx + Rsqr dy) < VORTEX_MERGE_RADIUS K)%R.
Proof.
  intros Hs Hidx Hroom Hcur Hfuel.
  set (Inv := fun q : Pop R G =>
                indexed q /\ roomy K q /\ current K tracers q).
  assert (Hkeeps : forall v1 v2 s s',
            Inv (ms_pop s) -> 0 <= v1 < v2 -> v2 < numDriverVorts (ms_pop s) ->
            mergeVorts_merge K currentTimestep fuel tracers v1 v2 s = Some s'
            -> Inv (ms_pop s')).
  { intros v1 v2 s s' (Hi & Hr & _) Hv1 Hv2 Hm.
    exact (mergeVorts_merge_keeps K currentTimestep HT fuel tracers v1 v2 s s'
             Hi Hr Hv1 Hv2 Hm). }
  assert (HN : 0 <= numDriverVorts p) by (destruct Hroom as [[? _] _]; lia).
  destruct (mergeVorts_result K currentTimestep fuel tracers Hrng Inv Hkeeps
              numSpawns (Some 0) p Hs HN Hfuel ltac:(unfold Inv; auto))
    as (p1 & sl1 & tm1 & k1 & Hrun1 & (Hi1 & Hr1 & _) & Hk1 & Htm1 & Hsl1 & _
        & Hc1 & Hid1 & _).
  destruct (spawnVorts_roomy sl1 p1 ltac:(lia) Hi1 Hr1)
    as (p2 & Hrun2 & HN2 & Hid2 & Hi2 & Hr2).
  pose proof (refresh_current K HT tracers p2 Hi2 Hr2) as Hfresh.
  cbv zeta in Hfresh.
  set (radii := updateRadii_pythagorean (numDriverVorts p2) (vortexRadii p2)
                  (vorts p2) (tracerRads p2) tracers (NUM_TRACERS K)) in *.
  set (p3 := set_radii p2 (fst radii) (snd radii)) in *.
  assert (HN1 : 0 <= numDriverVorts p1) by (destruct Hr1 as [[? _] _]; lia).
  assert (HN3 : numDriverVorts p3 = numDriverVorts p2) by reflexivity.
  assert (Hid3 : nextVortID p3 = nextVortID p2) by reflexivity.
  destruct (mergeVorts_result K currentTimestep fuel tracers Hrng Inv Hkeeps
              0 tm1 p3 ltac:(lia) ltac:(lia) ltac:(lia) Hfresh)
    as (p4 & sl4 & tm4 & k2 & Hrun4 & (Hi4 & Hr4 & Hc4) & Hk2 & Htm4 & Hsl4 & _
        & Hcount4 & Hid4 & Hset).
  exists p4, (k1 + k2). split.
  { unfold main_lifecycle. cbv zeta. rewrite Hrun1. cbn [mbind option_bind].
    rewrite Hrun2. cbn [mbind option_bind].
    fold radii. rewrite (surjective_pairing radii). fold p3.
    rewrite Hrun4. cbn [mbind option_bind].
    rewrite Htm4, Htm1. cbn. reflexivity. }
  split; [lia|]. split; [lia|]. split; [lia|].
  split; [exact Hi4|]. split; [exact Hr4|]. split; [exact Hc4|].
  intros a b Hab Hb dx dy Hclose.
  pose proof (Hset a b Hab ltac:(lia)) as Hfar.
  destruct Hc4 as [Hvv _]. destruct (Hvv a b Hab Hb) as (_ & _ & Hmag).
  rewrite Hmag in Hfar. cbn [dltb dsqrt dadd dsub R_DoubleOps] in Hfar.
  unfold dsqr in Hfar. cbn [dmul dsub R_DoubleOps] in Hfar.
  fold dx dy in Hfar. fold (Rsqr dx) (Rsqr dy) in Hfar.
  rewrite Rltb_true in Hfar by exact Hclose. discriminate.
Qed.
End Lifecycle.

Lemma lone_vortex_population_indexed : indexed lone_vortex_population.
Proof.
  intros i Hi. assert (i = 0) as -> by (simpl in Hi; lia). reflexivity.
Defined.

Lemma lone_vortex_population_roomy : roomy KR lone_vortex_population.
Proof. unfold roomy. cbv. intuition discriminate. Defined.

Lemma lone_vortex_population_current : current KR [] lone_vortex_population.
Proof.
  split.
  - intros a b Hab Hb. simpl in Hb. lia.
  - intros t v Ht. simpl in Ht. lia.
Defined.

Lemma main_lifecycle_population_witness :
  let p := lone_vortex_population in
  exists p' merges,
    main_lifecycle KR 0 5 [] 2 p = Some (p', Some merges)
    /\ 0 <= merges
    /\ numDriverVorts p' = numDriverVorts p + 2 - merges
    /\ nextVortID p' = nextVortID p + 2
    /\ indexed p' /\ roomy KR p' /\ current KR [] p'
    /\ forall a b, 0 <= a < b -> b < numDriverVorts p' ->
         let dx := (position_0 (rd (vorts p') b)
                    - position_0 (rd (vorts p') a))%R in
         let dy := (position_1 (rd (vorts p') b)
                    - position_1 (rd (vorts p') a))%R in
         ~ (sqrt (Rsqr dx + Rsqr dy) < VORTEX_MERGE_RADIUS KR)%R.
Proof.
  assert (Hrng2 : forall g : nat, is_Some (randomizeVortex_resample KR 2 g)).
  { apply alternating_resample_real. simpl. rewrite Rabs_R1. lra. }
  assert (Hrng : forall g : nat, is_Some (randomizeVortex_resample KR 5 g))
    by (apply (randomizeVortex_resample_enough KR 2 5 Hrng2); lia).
  apply (main_lifecycle_population KR 0 5 Hrng ltac:(simpl; lia) [] 2
           lone_vortex_population).
  - lia.
  - exact lone_vortex_population_indexed.
  - exact lone_vortex_population_roomy.
  - exact lone_vortex_population_current.
  - simpl. lia.
Defined.

(** ** The advance of the main loop *)

Lemma length_memcpy {A : Type} (dst src : list A) (n : Z) :
  n <= Z.of_nat (length dst) -> length (memcpy dst src n) = length dst.
Proof.
  intros Hn. unfold memcpy. cbv zeta.
  rewrite length_app, length_drop, length_take. lia.
Qed.

Section Advance.
Context {G : Type}.
Variable K : Constants R.
Variable dt : R.
Hypothesis HX : (0 < DOMAIN_SIZE_X K)%R.
Hypothesis HY : (0 < DOMAIN_SIZE_Y K)%R.
Hypothesis HT : 0 <= NUM_TRACERS K.

(** X21.  (real arithmetic)  The advance of the main loop (RK4 step, wrap,
    recomputation of the tables) keeps what the next iteration relies on:
    the count, the identifiers, the intensities and the indices are
    untouched, every vortex and tracer ends inside the closed domain, the
    buffers keep their sizes and both tables hold the distances of the new
    positions. *)
Theorem main_advance_invariant (tracers : list (Tracer R)) (p : Pop R G) :
  NUM_TRACERS K <= Z.of_nat (length tracers) ->
  indexed p -> roomy K p ->
  let r := main_advance K dt tracers p in
  let p' := fst r in
  let tracers' := snd r in
  let inside := fun (x y : R) =>
    (0 <= x <= DOMAIN_SIZE_X K)%R /\ (0 <= y <= DOMAIN_SIZE_Y K)%R in
  numDriverVorts p' = numDriverVorts p
  /\ nextVortID p' = nextVortID p
  /\ indexed p' /\ roomy K p' /\ current K tracers' p'
  /\ (forall i, 0 <= i < numDriverVorts p ->
        vortex_static (rd (vorts p') i) = vortex_static (rd (vorts p) i)
        /\ inside (position_0 (rd (vorts p') i))
                  (position_1 (rd (vorts p') i)))
  /\ length tracers' = length tracers
  /\ (forall t, 0 <= t < NUM_TRACERS K ->
        tIndex (rd tracers' t) = tIndex (rd tracers t)
        /\ inside (t_position_0 (rd tracers' t))
                  (t_position_1 (rd tracers' t))).
Proof.
  intros Hlen Hidx Hroom r p' tracers' inside.
  set (N := numDriverVorts p) in *.
  set (m := stepForward_RK4 K N dt (vorts p) (vortexRadii p) (tracerRads p)
              tracers (NUM_TRACERS K)).
  destruct Hroom as (HN & Hfree & Hv & Hvr & Htr).
  (* what the RK4 step keeps *)
  destruct (rkStages_frame K N dt (vorts p) (vortexRadii p) (tracerRads p)
              tracers (NUM_TRACERS K)) as (Hsr & Hst & Hsv & Hstr).
  destruct (rkCommit_frame N dt (NUM_TRACERS K)
              (rkStages K N dt (vorts p) (vortexRadii p) (tracerRads p)
                 tracers (NUM_TRACERS K))) as (Hcr & Hct & Hcv & Hctr).
  change (rkCommit N dt (NUM_TRACERS K) _) with m in Hcr, Hct, Hcv, Hctr.
  assert (Hstatic : vortex_static <$> rk_vortices m = vortex_static <$> vorts p).
  { rewrite Hcv. apply vortex_static_of_fixed. exact Hsv. }
  assert (HtI : tIndex <$> rk_tracers m = tIndex <$> tracers).
  { rewrite Hctr. apply tIndex_of_fixed. exact Hstr. }
  assert (Hlv : length (rk_vortices m) = length (vorts p)).
  { pose proof (f_equal length Hstatic) as Hl.
    rewrite !length_fmap in Hl. exact Hl. }
  assert (Hlt : length (rk_tracers m) = length tracers).
  { pose proof (f_equal length HtI) as Hl.
    rewrite !length_fmap in Hl. exact Hl. }
  assert (Hrv : rk_vortRadii m = vortexRadii p) by congruence.
  assert (Hrows : NUM_TRACERS K * N <= NUM_TRACERS K * vortsAllocated p)
    by (apply Z.mul_le_mono_nonneg_l; lia).
  assert (Hlr : length (rk_tracerRadii m) = length (tracerRads p)).
  { rewrite Hct, Hst. apply length_memcpy. lia. }
  (* the wrap *)
  pose proof (wrapPositions_bodies K N (rk_vortices m) (rk_tracers m)
                (NUM_TRACERS K) ltac:(lia) ltac:(lia)) as [Hwv Hwt].
  cbv zeta in Hwv, Hwt.
  set (w := wrapPositions K N (rk_vortices m) (rk_tracers m)
              (NUM_TRACERS K)) in *.
  assert (Hlw : length (fst w) = length (vorts p)
                /\ length (snd w) = length tracers).
  { unfold w, wrapPositions. cbn [fst snd]. split.
    - pose proof (for_loop_wr_map
        (fun v => set_position v
           (wrapCoordinate (DOMAIN_SIZE_X K) (position_0 v))
           (wrapCoordinate (DOMAIN_SIZE_Y K) (position_1 v)))
        0 N (rk_vortices m) ltac:(lia) ltac:(lia)) as [Hl _].
      cbv zeta in Hl. rewrite Hl. exact Hlv.
    - pose proof (for_loop_wr_map
        (fun t => set_t_position t
           (wrapCoordinate (DOMAIN_SIZE_X K) (t_position_0 t))
           (wrapCoordinate (DOMAIN_SIZE_Y K) (t_position_1 t)))
        0 (NUM_TRACERS K) (rk_tracers m) ltac:(lia) ltac:(lia)) as [Hl _].
      cbv zeta in Hl. rewrite Hl. exact Hlt. }
  destruct Hlw as [Hlwv Hlwt].
  (* the population before the tables are recomputed *)
  set (q := mkPop N (nextVortID p) (rngState p) (fst w) (vortsAllocated p)
              (rk_vortRadii m) (rk_tracerRadii m)).
  assert (Hstat : forall i, 0 <= i < N ->
            vortex_static (rd (fst w) i) = vortex_static (rd (vorts p) i)).
  { intros i Hi. rewrite (Hwv i Hi).
    rewrite <- (rd_fmap_eq vortex_static _ _ i Hstatic). reflexivity. }
  assert (Hqi : indexed q).
  { intros i Hi. cbn [q numDriverVorts vorts] in *.
    pose proof (Hstat i Hi) as Hs. unfold vortex_static in Hs.
    rewrite <- (Hidx i Hi) at 2. congruence. }
  assert (Hqr : roomy K q).
  { unfold roomy, q. cbn [numDriverVorts vortsAllocated vorts vortexRadii
                          tracerRads].
    rewrite Hlwv, Hrv, Hlr. auto. }
  pose proof (refresh_current K HT (snd w) q Hqi Hqr) as Hfin.
  cbv zeta in Hfin.
  assert (Hr : r = (set_radii q
                      (fst (updateRadii_pythagorean N (rk_vortRadii m) (fst w)
                              (rk_tracerRadii m) (snd w) (NUM_TRACERS K)))
                      (snd (updateRadii_pythagorean N (rk_vortRadii m) (fst w)
                              (rk_tracerRadii m) (snd w) (NUM_TRACERS K))),
                    snd w)).
  { unfold r, main_advance. cbv zeta. fold N m w.
    rewrite (surjective_pairing w).
    rewrite (surjective_pairing (updateRadii_pythagorean _ _ _ _ _ _)).
    reflexivity. }
  subst p' tracers'. rewrite Hr. cbn [fst snd].
  destruct Hfin as (Hfi & Hfr & Hfc).
  split; [reflexivity|]. split; [reflexivity|].
  split; [exact Hfi|]. split; [exact Hfr|]. split; [exact Hfc|].
  split; [|split].
  - intros i Hi. cbn [set_radii vorts q]. split; [apply Hstat; exact Hi|].
    rewrite (Hwv i Hi). cbn [position_0 position_1 set_position].
    unfold inside. split.
    + apply (wrapCoordinate_range (DOMAIN_SIZE_X K) _ HX).
    + apply (wrapCoordinate_range (DOMAIN_SIZE_Y K) _ HY).
  - exact Hlwt.
  - intros t Ht. rewrite (Hwt t Ht).
    cbn [tIndex t_position_0 t_position_1 set_t_position]. split.
    + exact (rd_fmap_eq tIndex _ _ t HtI).
    + unfold inside. split.
      * apply (wrapCoordinate_range (DOMAIN_SIZE_X K) _ HX).
      * apply (wrapCoordinate_range (DOMAIN_SIZE_Y K) _ HY).
Qed.
End Advance.

Lemma real_pair_population_indexed : indexed real_pair_population.
Proof.
  intros i Hi. assert (Hc : i = 0 \/ i = 1) by (simpl in Hi; lia).
  destruct Hc as [-> | ->]; reflexivity.
Defined.

Lemma real_pair_population_roomy : roomy KR1 real_pair_population.
Proof.
  unfold roomy, real_pair_population.
  cbn [numDriverVorts vortsAllocated vorts vortexRadii tracerRads NUM_TRACERS
       KR1].
  change (3 * (3 * (3 - 1) / 2)) with 9. simpl. lia.
Defined.

Lemma main_advance_invariant_witness :
  let r := main_advance KR1 (1 / 10)%R real_tracer real_pair_population in
  let p' := fst r in
  let tracers' := snd r in
  let inside := fun (x y : R) =>
    (0 <= x <= DOMAIN_SIZE_X KR1)%R /\ (0 <= y <= DOMAIN_SIZE_Y KR1)%R in
  numDriverVorts p' = numDriverVorts real_pair_population
  /\ nextVortID p' = nextVortID real_pair_population
  /\ indexed p' /\ roomy KR1 p' /\ current KR1 tracers' p'
  /\ (forall i, 0 <= i < numDriverVorts real_pair_population ->
        vortex_static (rd (vorts p') i)
        = vortex_static (rd (vorts real_pair_population) i)
        /\ inside (position_0 (rd (vorts p') i))
                  (position_1 (rd (vorts p') i)))
  /\ length tracers' = length real_tracer
  /\ (forall t, 0 <= t < NUM_TRACERS KR1 ->
        tIndex (rd tracers' t) = tIndex (rd real_tracer t)
        /\ inside (t_position_0 (rd tracers' t))
                  (t_position_1 (rd tracers' t))).
Proof.
  apply (main_advance_invariant KR1 (1 / 10)%R ltac:(simpl; lra)
           ltac:(simpl; lra) ltac:(simpl; lia) real_tracer
           real_pair_population).
  - simpl. lia.
  - exact real_pair_population_indexed.
  - exact real_pair_population_roomy.
Defined.

(** ** A population with nothing to merge *)

Section Settled.
Context {D : Type} `{DoubleOps D}.
Context {G : Type} `{RNGOps D G}.
Variable K : Constants D.
Variable currentTimestep : Z.
Variable fuel : nat.
Variable tracers : list (Tracer D).

Lemma mergeVorts_row_quiet (n : nat) (v1 v2 : Z) (s : MergeState D G) :
  (forall v, v1 <= v < v1 + Z.of_nat n ->
     (rd (vortexRadii (ms_pop s)) (calculateVortexRadiiIndex v v2)
      <? VORTEX_MERGE_RADIUS K)%D = false) ->
  mergeVorts_row K currentTimestep fuel tracers n v1 v2 s = Some s.
Proof.
  revert v1. induction n as [|n IH]; intros v1 Hq; [reflexivity|].
  cbn [mergeVorts_row]. rewrite Hq by lia. apply IH.
  intros v Hv. apply Hq. lia.
Qed.

Lemma mergeVorts_sweep_quiet (steps : nat) (v2 : Z) (s : MergeState D G) :
  0 <= v2 ->
  Z.max 0 (numDriverVorts (ms_pop s) - v2) < Z.of_nat steps ->
  settled_from K v2 (ms_pop s) ->
  mergeVorts_sweep K currentTimestep fuel tracers steps v2 s = Some s.
Proof.
  revert v2. induction steps as [|steps IH]; intros v2 Hv2 Hsteps Hset; [lia|].
  cbn [mergeVorts_sweep].
  destruct (Z.ltb_spec v2 (numDriverVorts (ms_pop s))) as [Hlt | Hge];
    [|reflexivity].
  rewrite mergeVorts_row_quiet.
  - cbn [mbind option_bind]. apply IH; [lia | lia |].
    intros a b Hab Hb. apply Hset; lia.
  - intros v Hv. rewrite Z2Nat.id in Hv by lia. apply Hset; lia.
Qed.

Lemma mergeVorts_passes_quiet (passes : nat) (s : MergeState D G) :
  (0 < passes)%nat ->
  Z.max 0 (numDriverVorts (ms_pop s) - 1) < Z.of_nat fuel ->
  settled_from K 1 (ms_pop s) ->
  mergeVorts_passes K currentTimestep fuel tracers passes s
  = Some (mkMergeState (ms_pop s) (ms_spawnsLeft s) 0 (ms_totalMerges s)).
Proof.
  intros Hp Hf Hset. destruct passes as [|passes]; [lia|].
  cbn [mergeVorts_passes]. rewrite mergeVorts_sweep_quiet.
  - reflexivity.
  - lia.
  - exact Hf.
  - exact Hset.
Qed.

(** X22.  When no cached distance between two active vortices is below the
    merge radius, [mergeVorts] changes nothing: it returns the population,
    the spawns and the merge counter as they were passed. *)
Theorem mergeVorts_settled_unchanged (spawnsLeft : Z)
    (totalMerges : option Z) (p : Pop D G) :
  0 <= numDriverVorts p < Z.of_nat fuel ->
  (forall a b, 0 <= a < b -> b < numDriverVorts p ->
     (rd (vortexRadii p) (calculateVortexRadiiIndex a b)
      <? VORTEX_MERGE_RADIUS K)%D = false) ->
  mergeVorts K currentTimestep fuel tracers spawnsLeft totalMerges p
  = Some (p, spawnsLeft, totalMerges).
Proof.
  intros HN Hset. unfold mergeVorts.
  rewrite mergeVorts_passes_quiet.
  - reflexivity.
  - lia.
  - cbn [ms_pop]. lia.
  - intros a b Hab Hb. apply Hset; cbn [ms_pop] in Hb; lia.
Qed.
End Settled.

Lemma mergeVorts_settled_unchanged_witness :
  mergeVorts K0 0 4 two_tracers 2 (Some 0) three_vortex_population
  = Some (three_vortex_population, 2, Some 0).
Proof.
  apply (mergeVorts_settled_unchanged K0 0 4 two_tracers 2 (Some 0)
           three_vortex_population).
  - simpl. lia.
  - intros a b Hab Hb.
    assert (Hc : (a = 0 /\ b = 1) \/ (a = 0 /\ b = 2) \/ (a = 1 /\ b = 2))
      by (simpl in Hb; lia).
    destruct Hc as [[-> ->] | [[-> ->] | [-> ->]]]; reflexivity.
Defined.

(** ** A single vortex *)

Section LoneVortex.
Variable K : Constants R.
Variable dt : R.

Lemma lone_sample (vs : list (Vortex R)) (rads : list R) :
  vIndex (rd vs 0) = 0 ->
  calculateVel_vortex K 1 (d0, d0) (rd vs 0) vs rads = (0%R, 0%R).
Proof.
  intros Hv. unfold calculateVel_vortex, for_loop. simpl.
  rewrite Hv. reflexivity.
Qed.

Lemma rkStage_lone (vortRadLen RKStep : Z) (m : RKMem R) :
  1 <= RKStep <= 4 ->
  vIndex (rd (rk_vortices m) 0) = 0 ->
  1 <= Z.of_nat (length (rk_vortices m)) ->
  let m' := rkStage K 1 dt vortRadLen RKStep m in
  velocity_0 (rd (rk_vortices m') 0) = velocity_0 (rd (rk_vortices m) 0)
  /\ velocity_1 (rd (rk_vortices m') 0) = velocity_1 (rd (rk_vortices m) 0).
Proof.
  intros Hstep Hv Hlen m'. subst m'. unfold rkStage. cbv zeta.
  cbn [rk_vortices set_rk_workingRadii set_rk_intermediateRadii].
  destruct (tracerPhase_frame K 1 dt RKStep m) as (_ & Hva & _ & Hia).
  set (ma := tracerPhase K 1 dt RKStep m) in *.
  pose proof (vortexPhase_velocities K 1 dt ltac:(lia) RKStep vortRadLen ma
                ltac:(rewrite Hva; exact Hlen) 0 ltac:(lia)) as Hvb.
  cbv zeta in Hvb. unfold vortexSample in Hvb.
  rewrite lone_sample in Hvb by (rewrite Hva; exact Hv).
  cbn [fst snd] in Hvb. rewrite Hva in Hvb.
  destruct (vortex_weights 0) as (W1 & W2 & W3 & W4).
  assert (Hw : rkWeightedSum (fst (vortexStageSwitch RKStep 0%R)) = 0%R).
  { assert (Hc : RKStep = 1 \/ RKStep = 2 \/ RKStep = 3 \/ RKStep = 4) by lia.
    destruct Hc as [-> | [-> | [-> | ->]]];
      [rewrite W1 | rewrite W2 | rewrite W3 | rewrite W4]; lra. }
  rewrite Hw in Hvb. cbn [dadd R_DoubleOps] in Hvb.
  destruct Hvb as [Hx Hy]. split; lra.
Qed.

(** X23.  (real arithmetic)  A single vortex does not move: it induces no
    velocity on itself, its periodic images included, so that
    [stepForward_RK4] returns it at the same position with velocity 0 and
    everything else as it was. *)
Theorem stepForward_RK4_lone_vortex (vortices : list (Vortex R))
    (vortRadii tracerRadii : list R) (tracers : list (Tracer R))
    (numTracers : Z) :
  vIndex (rd vortices 0) = 0 ->
  1 <= Z.of_nat (length vortices) ->
  numTracers <= Z.of_nat (length tracers) ->
  rd (rk_vortices (stepForward_RK4 K 1 dt vortices vortRadii tracerRadii
                                   tracers numTracers)) 0
  = set_velocity (rd vortices 0) 0%R 0%R.
Proof.
  intros Hv Hlen Hlt. unfold stepForward_RK4, rkStages. cbv zeta.
  rewrite for_loop_1_5.
  set (vl := vortRadLen_of (D := R) 1).
  set (m0 := rkInit 1 vl vortices vortRadii tracerRadii tracers numTracers).
  set (m1 := rkStage K 1 dt vl 1 m0).
  set (m2 := rkStage K 1 dt vl 2 m1).
  set (m3 := rkStage K 1 dt vl 3 m2).
  set (m4 := rkStage K 1 dt vl 4 m3).
  destruct (rkInit_velocities 1 vl vortices vortRadii tracerRadii tracers
              numTracers Hlen Hlt) as [Hz _]. fold m0 in Hz.
  destruct (Hz 0 ltac:(lia)) as [Hz0 Hz1].
  destruct (rkInit_frame 1 vl vortices vortRadii tracerRadii tracers
              numTracers) as (_ & _ & Hf0 & _). fold m0 in Hf0.
  pose proof (rkStage_frame K 1 dt vl 1 m0) as (_ & _ & Hf1 & _). fold m1 in Hf1.
  pose proof (rkStage_frame K 1 dt vl 2 m1) as (_ & _ & Hf2 & _). fold m2 in Hf2.
  pose proof (rkStage_frame K 1 dt vl 3 m2) as (_ & _ & Hf3 & _). fold m3 in Hf3.
  pose proof (rkStage_frame K 1 dt vl 4 m3) as (_ & _ & Hf4 & _). fold m4 in Hf4.
  assert (Hfix : forall (a b : RKMem R),
            vortex_fixed <$> rk_vortices b = vortex_fixed <$> rk_vortices a ->
            vIndex (rd (rk_vortices a) 0) = 0 ->
            1 <= Z.of_nat (length (rk_vortices a)) ->
            vIndex (rd (rk_vortices b) 0) = 0
            /\ 1 <= Z.of_nat (length (rk_vortices b))).
  { intros a b Hab Ha Hla. split.
    - pose proof (rd_fmap_eq vortex_fixed _ _ 0 Hab) as Hr.
      unfold vortex_fixed in Hr. congruence.
    - pose proof (f_equal length Hab) as Hl. rewrite !length_fmap in Hl. lia. }
  assert (H0 : vIndex (rd (rk_vortices m0) 0) = 0
               /\ 1 <= Z.of_nat (length (rk_vortices m0))).
  { split.
    - pose proof (rd_fmap_eq vortex_fixed _ _ 0 Hf0) as Hr.
      unfold vortex_fixed in Hr. congruence.
    - pose proof (f_equal length Hf0) as Hl. rewrite !length_fmap in Hl. lia. }
  destruct H0 as [Hi0 Hl0].
  destruct (Hfix m0 m1 Hf1 Hi0 Hl0) as [Hi1 Hl1].
  destruct (Hfix m1 m2 Hf2 Hi1 Hl1) as [Hi2 Hl2].
  destruct (Hfix m2 m3 Hf3 Hi2 Hl2) as [Hi3 Hl3].
  destruct (Hfix m3 m4 Hf4 Hi3 Hl3) as [Hi4 Hl4].
  destruct (rkStage_lone vl 1 m0 ltac:(lia) Hi0 Hl0) as [Ha0 Ha1].
  destruct (rkStage_lone vl 2 m1 ltac:(lia) Hi1 Hl1) as [Hb0 Hb1].
  destruct (rkStage_lone vl 3 m2 ltac:(lia) Hi2 Hl2) as [Hc0 Hc1].
  destruct (rkStage_lone vl 4 m3 ltac:(lia) Hi3 Hl3) as [Hd0 Hd1].
  fold m1 in Ha0, Ha1. fold m2 in Hb0, Hb1. fold m3 in Hc0, Hc1.
  fold m4 in Hd0, Hd1.
  change (@d0 R _) with 0%R in Hz0, Hz1.
  destruct (rkCommit_positions 1 dt numTracers m4 Hl4) as [Hcv _].
  { destruct (rkStages_frame K 1 dt vortices vortRadii tracerRadii tracers
                numTracers) as (_ & _ & _ & Htr).
    unfold rkStages in Htr. cbv zeta in Htr. rewrite for_loop_1_5 in Htr.
    fold vl m0 m1 m2 m3 m4 in Htr.
    pose proof (f_equal length Htr) as Hl. rewrite !length_fmap in Hl. lia. }
  rewrite (Hcv 0 ltac:(lia)).
  assert (Hall : vortex_fixed (rd (rk_vortices m4) 0)
                 = vortex_fixed (rd vortices 0)).
  { rewrite (rd_fmap_eq vortex_fixed _ _ 0 Hf4),
            (rd_fmap_eq vortex_fixed _ _ 0 Hf3),
            (rd_fmap_eq vortex_fixed _ _ 0 Hf2),
            (rd_fmap_eq vortex_fixed _ _ 0 Hf1).
    exact (rd_fmap_eq vortex_fixed _ _ 0 Hf0). }
  assert (Hvx : velocity_0 (rd (rk_vortices m4) 0) = 0%R) by lra.
  assert (Hvy : velocity_1 (rd (rk_vortices m4) 0) = 0%R) by lra.
  unfold vortex_fixed in Hall.
  set (v4 := rd (rk_vortices m4) 0) in *. set (v := rd vortices 0) in *.
  clearbody v4 v. clear - Hall Hvx Hvy.
  destruct v4 as [px py vx vy g vi id st].
  destruct v as [px' py' vx' vy' g' vi' id' st'].
  cbn [velocity_0 velocity_1 position_0 position_1 intensity vIndex vID
       initStep set_position set_velocity dadd dmul R_DoubleOps] in *.
  inversion Hall; subst. unfold set_position, set_velocity.
  cbn [velocity_0 velocity_1 position_0 position_1 intensity vIndex vID
       initStep].
  f_equal; lra.
Qed.
End LoneVortex.

Lemma stepForward_RK4_lone_vortex_witness :
  rd (rk_vortices (stepForward_RK4 KR1 1 (1 / 10)%R far_vortex [] []
                                   real_tracer 1)) 0
  = set_velocity (rd far_vortex 0) 0%R 0%R.
Proof.
  apply (stepForward_RK4_lone_vortex KR1 (1 / 10)%R far_vortex [] []
           real_tracer 1); simpl; first [reflexivity | lia].
Defined.

(** ** The adaptive time step of the fourth test case *)

Section AdaptiveStep.
Open Scope R_scope.

Lemma maxVelocity_nonneg (N : Z) (vorts : list (Vortex R)) :
  0 <= maxVelocity N vorts.
Proof.
  unfold maxVelocity.
  apply (for_loop_frame (fun m : R => 0 <= m)); [cbn; lra|].
  intros i m _ Hm. cbv zeta. cbn [dltb R_DoubleOps].
  destruct (Rltb m _); [apply sqrt_pos | exact Hm].
Qed.

(** X24.  (real arithmetic)  The time step of the fourth test case never
    exceeds [TIMESTEP_CONST], and in one step the fastest vortex covers at
    most half the least distance between two vortices. *)
Theorem main_test4_timestep_bounded (TIMESTEP_CONST : R) (N : Z)
    (vortexRadii : list R) (vortices : list (Vortex R)) :
  0 <= minRad vortexRadii N ->
  let timestep := main_test4_timestep TIMESTEP_CONST N vortexRadii vortices in
  timestep <= TIMESTEP_CONST
  /\ timestep * maxVelocity N vortices <= minRad vortexRadii N / 2
  /\ (0 <= TIMESTEP_CONST -> 0 <= timestep)
  /\ (maxVelocity N vortices = 0 -> timestep = TIMESTEP_CONST).
Proof.
  intros Hmin timestep. subst timestep. unfold main_test4_timestep.
  cbv zeta. pose proof (maxVelocity_nonneg N vortices) as Hmax.
  set (minR := minRad vortexRadii N) in *.
  set (maxV := maxVelocity N vortices) in *.
  cbn [dltb deqb dZ dmul ddiv R_DoubleOps R_DoubleCmp]. unfold lit_0_5.
  cbn [dZ ddiv R_DoubleOps].
  destruct (Req_dec_T maxV 0) as [Hz | Hnz].
  - rewrite orb_true_r. rewrite Hz.
    split; [lra|]. split; [lra|]. split; [auto | reflexivity].
  - rewrite orb_false_r. assert (Hpos : 0 < maxV) by lra.
    assert (Hprod : minR / maxV * (1 / 2) * maxV = minR / 2)
      by (field; lra).
    assert (Hq : 0 <= minR / maxV * (1 / 2)).
    { apply Rmult_le_pos; [|lra]. unfold Rdiv. apply Rmult_le_pos; [lra|].
      apply Rlt_le. apply Rinv_0_lt_compat. exact Hpos. }
    destruct (Rlt_dec TIMESTEP_CONST (minR / maxV * (1 / 2))) as [Hbig | Hok].
    + rewrite Rltb_true by exact Hbig.
      split; [lra|]. split; [|split; [auto | intros; lra]].
      rewrite <- Hprod. apply Rmult_le_compat_r; lra.
    + rewrite Rltb_false by lra.
      split; [lra|]. split; [lra|]. split; [intros; exact Hq | intros; lra].
Qed.
End AdaptiveStep.

Lemma main_test4_timestep_bounded_witness :
  let vortices := [mkVortex 0%R 0%R 3%R 4%R 1%R 0 0 0] in
  let timestep := main_test4_timestep 1%R 1 [4%R] vortices in
  (timestep <= 1)%R
  /\ (timestep * maxVelocity 1 vortices <= minRad [4%R] 1 / 2)%R
  /\ ((0 <= 1)%R -> (0 <= timestep)%R)
  /\ (maxVelocity 1 vortices = 0%R -> timestep = 1%R).
Proof.
  apply (main_test4_timestep_bounded 1%R 1 [4%R]
           [mkVortex 0%R 0%R 3%R 4%R 1%R 0 0 0]).
  unfold minRad. cbn [Z.eqb]. cbv zeta.
  change (dtrunc ((dsqr (dZ 1) - dZ 1) / dZ 2 * dZ 3)%D)
    with (Rtrunc ((dsqr (IZR 1) - IZR 1) / 2 * 3)).
  rewrite minRad_radLen. change (0 <= 4)%R. lra.
Defined.

(** ** The impulse of the vortices *)

Section Sums.
Open Scope R_scope.

Lemma Rsum_ext (f g : Z -> R) (n : nat) :
  (forall i, (0 <= i < Z.of_nat n)%Z -> f i = g i) -> Rsum f n = Rsum g n.
Proof.
  induction n as [|n IH]; intros Hfg; [reflexivity|].
  cbn [Rsum]. rewrite IH by (intros i Hi; apply Hfg; lia).
  rewrite (Hfg (Z.of_nat n)) by lia. reflexivity.
Qed.

Lemma Rsum_plus (f g : Z -> R) (n : nat) :
  Rsum (fun i => f i + g i) n = Rsum f n + Rsum g n.
Proof. induction n as [|n IH]; cbn [Rsum]; [lra | rewrite IH; lra]. Qed.

Lemma Rsum_scale (c : R) (f : Z -> R) (n : nat) :
  Rsum (fun i => c * f i) n = c * Rsum f n.
Proof. induction n as [|n IH]; cbn [Rsum]; [lra | rewrite IH; lra]. Qed.

Lemma Rsum_zero (f : Z -> R) (n : nat) :
  (forall i, (0 <= i < Z.of_nat n)%Z -> f i = 0) -> Rsum f n = 0.
Proof.
  induction n as [|n IH]; intros Hf; [reflexivity|].
  cbn [Rsum]. rewrite IH by (intros i Hi; apply Hf; lia).
  rewrite (Hf (Z.of_nat n)) by lia. lra.
Qed.

(** A double sum of terms that cancel in pairs. *)
Lemma Rsum_antisymmetric (a : Z -> Z -> R) (n : nat) :
  (forall i j, (0 <= i < Z.of_nat n)%Z -> (0 <= j < Z.of_nat n)%Z ->
     a i j + a j i = 0) ->
  Rsum (fun i => Rsum (fun j => a i j) n) n = 0.
Proof.
  induction n as [|n IH]; intros Ha; [reflexivity|].
  cbn [Rsum].
  rewrite (Rsum_plus (fun i => Rsum (fun j => a i j) n)
             (fun i => a i (Z.of_nat n))).
  rewrite IH by (intros i j Hi Hj; apply Ha; lia).
  assert (Hcross : Rsum (fun i => a i (Z.of_nat n)) n
                   + Rsum (fun j => a (Z.of_nat n) j) n = 0).
  { rewrite <- Rsum_plus. apply Rsum_zero. intros i Hi. apply Ha; lia. }
  pose proof (Ha (Z.of_nat n) (Z.of_nat n) ltac:(lia) ltac:(lia)) as Hdiag.
  lra.
Qed.
End Sums.

Section Impulse.
Variable K : Constants R.
Open Scope R_scope.

Lemma addImage_additive (strength dx dy r : R) (vel : R * R) (domain : Z) :
  addImage K (truncated_far K) strength dx dy r vel domain
  = (fst vel
     + fst (addImage K (truncated_far K) strength dx dy r (0, 0) domain),
     snd vel
     + snd (addImage K (truncated_far K) strength dx dy r (0, 0) domain)).
Proof.
  unfold addImage. destruct (truncated_far K _); destruct vel as [vx vy];
    cbn [fst snd dadd R_DoubleOps]; f_equal; lra.
Qed.

Lemma images_additive (strength dx dy r : R) (l : list Z) (vel : R * R) :
  foldl (addImage K (truncated_far K) strength dx dy r) vel l
  = (fst vel
     + foldr (fun d acc =>
                fst (addImage K (truncated_far K) strength dx dy r (0, 0) d)
                + acc) 0 l,
     snd vel
     + foldr (fun d acc =>
                snd (addImage K (truncated_far K) strength dx dy r (0, 0) d)
                + acc) 0 l).
Proof.
  revert vel. induction l as [|d l IH]; intros vel.
  - destruct vel. cbn. f_equal; lra.
  - cbn [foldl foldr]. rewrite IH, (addImage_additive _ _ _ _ vel d).
    cbn [fst snd]. f_equal; lra.
Qed.

Lemma hypotenuse_opp (x y : R) : hypotenuse (- x) (- y) = hypotenuse x y.
Proof.
  unfold hypotenuse, dsqr. cbn [dsqrt dadd dmul R_DoubleOps].
  f_equal. ring.
Qed.

(** The image opposite to [domain]. *)
Lemma imageSeparation_opposite (domain : Z) (dx dy r : R) :
  (0 <= domain <= 8)%Z ->
  let opposite := if (domain =? 0)%Z then 0%Z else (9 - domain)%Z in
  imageSeparation K opposite (- dx) (- dy) r
  = (- fst (fst (imageSeparation K domain dx dy r)),
     - snd (fst (imageSeparation K domain dx dy r)),
     snd (imageSeparation K domain dx dy r)).
Proof.
  intros Hd opposite. subst opposite.
  assert (Hc : (domain = 0 \/ domain = 1 \/ domain = 2 \/ domain = 3
                \/ domain = 4 \/ domain = 5 \/ domain = 6 \/ domain = 7
                \/ domain = 8)%Z) by lia.
  destruct Hc as [-> | [-> | [-> | [-> | [-> | [-> | [-> | [-> | ->]]]]]]]];
    unfold imageSeparation, domainOffset;
    cbn [Z.eqb Pos.eqb Z.sub Z.add Z.opp Z.pos_sub Pos.succ Pos.pred_double
         Z.succ_double Z.pred_double Z.double fst snd dadd dsub R_DoubleOps];
    try reflexivity;
    (f_equal; [f_equal; try lra |]);
    match goal with
    | |- hypotenuse ?a ?b = hypotenuse ?c ?d =>
        replace a with (- c) by lra; replace b with (- d) by lra;
        apply hypotenuse_opp
    end.
Qed.

Lemma image_antisymmetric (s1 s2 dx dy r : R) (domain opposite : Z) :
  (0 <= domain <= 8)%Z ->
  opposite = (if (domain =? 0)%Z then 0%Z else (9 - domain)%Z) ->
  let here := addImage K (truncated_far K) s2 dx dy r (0, 0) domain in
  let there :=
    addImage K (truncated_far K) s1 (- dx) (- dy) r (0, 0) opposite in
  s1 * fst here + s2 * fst there = 0
  /\ s1 * snd here + s2 * snd there = 0.
Proof.
  intros Hd -> here there. subst here there. unfold addImage.
  pose proof (imageSeparation_opposite domain dx dy r Hd) as Hopp.
  cbv zeta in Hopp. rewrite Hopp. cbn [snd].
  destruct (imageSeparation K domain dx dy r) as [[x y] rho].
  cbn [fst snd]. destruct (truncated_far K rho); cbn [fst snd]; [lra|].
  unfold imageContribution. cbn [fst snd dadd dmul ddiv dneg dZ R_DoubleOps].
  unfold Rdiv. split; ring.
Qed.

(** What one vortex induces on another and what it receives from it cancel
    when each is weighted by the strength of the vortex it acts on. *)
Lemma pairVelocity_antisymmetric (s1 s2 dx dy r : R) :
  s1 * fst (pairVelocity K s2 dx dy r)
  + s2 * fst (pairVelocity K s1 (- dx) (- dy) r) = 0
  /\ s1 * snd (pairVelocity K s2 dx dy r)
     + s2 * snd (pairVelocity K s1 (- dx) (- dy) r) = 0.
Proof.
  unfold pairVelocity. rewrite !images_additive.
  change (seqZ 0 9) with [0; 1; 2; 3; 4; 5; 6; 7; 8]%Z.
  cbn [foldr fst snd].
  destruct (image_antisymmetric s1 s2 dx dy r 0 0 ltac:(lia) eq_refl)
    as [X0 Y0].
  destruct (image_antisymmetric s1 s2 dx dy r 1 8 ltac:(lia) eq_refl)
    as [X1 Y1].
  destruct (image_antisymmetric s1 s2 dx dy r 2 7 ltac:(lia) eq_refl)
    as [X2 Y2].
  destruct (image_antisymmetric s1 s2 dx dy r 3 6 ltac:(lia) eq_refl)
    as [X3 Y3].
  destruct (image_antisymmetric s1 s2 dx dy r 4 5 ltac:(lia) eq_refl)
    as [X4 Y4].
  destruct (image_antisymmetric s1 s2 dx dy r 5 4 ltac:(lia) eq_refl)
    as [X5 Y5].
  destruct (image_antisymmetric s1 s2 dx dy r 6 3 ltac:(lia) eq_refl)
    as [X6 Y6].
  destruct (image_antisymmetric s1 s2 dx dy r 7 2 ltac:(lia) eq_refl)
    as [X7 Y7].
  destruct (image_antisymmetric s1 s2 dx dy r 8 1 ltac:(lia) eq_refl)
    as [X8 Y8].
  change (@d0 R _) with 0 in *.
  split; lra.
Qed.
End Impulse.

Section ImpulseOfTheCode.
Variable K : Constants R.
Variable vortices : list (Vortex R).
Variable rads : list R.
Open Scope R_scope.

Lemma images_loop (strength dx dy r : R) (vel : R * R) :
  for_loop 0 (domains + 1)
    (fun domain vel =>
       addImage K (truncated_far K) strength dx dy r vel domain) vel
  = (fst vel + fst (pairVelocity K strength dx dy r),
     snd vel + snd (pairVelocity K strength dx dy r)).
Proof.
  rewrite for_loop_foldl. unfold pairVelocity.
  change (foldl (addImage K (truncated_far K) strength dx dy r) vel
                (seqZ 0 9)
          = (fst vel
             + fst (foldl (addImage K (truncated_far K) strength dx dy r)
                          (d0, d0) (seqZ 0 9)),
             snd vel
             + snd (foldl (addImage K (truncated_far K) strength dx dy r)
                          (d0, d0) (seqZ 0 9)))).
  rewrite (images_additive K strength dx dy r (seqZ 0 9) vel).
  rewrite (images_additive K strength dx dy r (seqZ 0 9) (d0, d0)).
  cbn [fst snd]. change (@d0 R _) with 0. f_equal; lra.
Qed.

Lemma induced_antisymmetric (i j : Z) :
  i <> j ->
  intensity (rd vortices i) * fst (induced K vortices rads i j)
  + intensity (rd vortices j) * fst (induced K vortices rads j i) = 0
  /\ intensity (rd vortices i) * snd (induced K vortices rads i j)
     + intensity (rd vortices j) * snd (induced K vortices rads j i) = 0.
Proof.
  intros Hne. unfold induced. rewrite (calculateVortexRadiiIndex_sym j i).
  set (idx := calculateVortexRadiiIndex i j).
  destruct (Z.ltb_spec i j) as [Hij | Hij];
    destruct (Z.ltb_spec j i) as [Hji | Hji]; try lia.
  - apply pairVelocity_antisymmetric.
  - destruct (pairVelocity_antisymmetric K (intensity (rd vortices j))
                (intensity (rd vortices i)) (rd rads (idx + 1))
                (rd rads (idx + 2)) (rd rads idx)) as [Hx Hy].
    cbn [dneg R_DoubleOps]. split; lra.
Qed.

(** The velocity of one vortex as the sum of what the others induce. *)
Lemma calculateVel_vortex_sum (n : nat) (i : Z) :
  (forall k, (0 <= k < Z.of_nat n)%Z -> vIndex (rd vortices k) = k) ->
  (0 <= i < Z.of_nat n)%Z ->
  calculateVel_vortex K (Z.of_nat n) (0, 0) (rd vortices i) vortices rads
  = (Rsum (fun j => if (i =? j)%Z then 0
                    else fst (induced K vortices rads i j)) n,
     Rsum (fun j => if (i =? j)%Z then 0
                    else snd (induced K vortices rads i j)) n).
Proof.
  intros Hidx Hi. unfold calculateVel_vortex. rewrite (Hidx i Hi).
  set (fx := fun j => if (i =? j)%Z then 0
                      else fst (induced K vortices rads i j)).
  set (fy := fun j => if (i =? j)%Z then 0
                      else snd (induced K vortices rads i j)).
  replace n with (Z.to_nat (Z.of_nat n)) at 2 3 by lia.
  apply (for_loop_inv
           (fun k vel => vel = (Rsum fx (Z.to_nat k), Rsum fy (Z.to_nat k))));
    [lia | reflexivity |].
  intros k vel Hk ->.
  replace (Z.to_nat (k + 1)) with (Datatypes.S (Z.to_nat k)) by lia.
  cbn [Rsum]. rewrite Z2Nat.id by lia. 
  change (fx k) with (if (i =? k)%Z then 0
                      else fst (induced K vortices rads i k)).
  change (fy k) with (if (i =? k)%Z then 0
                      else snd (induced K vortices rads i k)).
  destruct (Z.eqb_spec i k) as [Hik | Hik]; [f_equal; lra|].
  rewrite (Hidx k) by lia.
  erewrite for_loop_ext;
    [| intros domain v' _; apply (image_step_vortex K)].
  rewrite images_loop. cbn [fst snd]. reflexivity.
Qed.

(** The strength-weighted sum of the velocities of all vortices. *)
Lemma impulse_vanishes (n : nat) :
  (forall k, (0 <= k < Z.of_nat n)%Z -> vIndex (rd vortices k) = k) ->
  Rsum (fun i => intensity (rd vortices i)
                 * fst (calculateVel_vortex K (Z.of_nat n) (0, 0)
                          (rd vortices i) vortices rads)) n = 0
  /\ Rsum (fun i => intensity (rd vortices i)
                    * snd (calculateVel_vortex K (Z.of_nat n) (0, 0)
                             (rd vortices i) vortices rads)) n = 0.
Proof.
  intros Hidx.
  split.
  - rewrite (Rsum_ext _
               (fun i => Rsum (fun j => intensity (rd vortices i)
                                        * (if (i =? j)%Z then 0
                                           else fst (induced K vortices rads
                                                       i j))) n)).
    + apply Rsum_antisymmetric. intros i j Hi Hj.
      destruct (Z.eqb_spec i j) as [-> | Hne].
      * rewrite Z.eqb_refl. lra.
      * destruct (Z.eqb_spec j i) as [-> | _]; [contradiction|].
        apply (induced_antisymmetric i j Hne).
    + intros i Hi. rewrite (calculateVel_vortex_sum n i Hidx Hi).
      cbn [fst]. symmetry. apply Rsum_scale.
  - rewrite (Rsum_ext _
               (fun i => Rsum (fun j => intensity (rd vortices i)
                                        * (if (i =? j)%Z then 0
                                           else snd (induced K vortices rads
                                                       i j))) n)).
    + apply Rsum_antisymmetric. intros i j Hi Hj.
      destruct (Z.eqb_spec i j) as [-> | Hne].
      * rewrite Z.eqb_refl. lra.
      * destruct (Z.eqb_spec j i) as [-> | _]; [contradiction|].
        apply (induced_antisymmetric i j Hne).
    + intros i Hi. rewrite (calculateVel_vortex_sum n i Hidx Hi).
      cbn [snd]. symmetry. apply Rsum_scale.
Qed.

(** X25.  The velocities that [calculateVel_vortex] gives the vortices of
    one population carry no net impulse: weighted by the strengths they
    sum to zero in both components, whatever the table of separations
    holds, because each pair reads one entry with opposite signs and is
    truncated together (real arithmetic, every vortex stored at its own
    index). *)
Theorem calculateVel_vortex_impulse (n : nat) :
  (forall k, (0 <= k < Z.of_nat n)%Z -> vIndex (rd vortices k) = k) ->
  let velocity i :=
    calculateVel_vortex K (Z.of_nat n) (0, 0) (rd vortices i) vortices rads in
  Rsum (fun i => intensity (rd vortices i) * fst (velocity i)) n = 0
  /\ Rsum (fun i => intensity (rd vortices i) * snd (velocity i)) n = 0.
Proof.
  intros Hidx velocity. subst velocity. cbv beta.
  exact (impulse_vanishes n Hidx).
Qed.
End ImpulseOfTheCode.

Lemma calculateVel_vortex_impulse_witness :
  let velocity i :=
    calculateVel_vortex KR1 2 (0, 0)%R (rd real_pair i) real_pair
                        [5; 1; 2]%R in
  (Rsum (fun i => intensity (rd real_pair i) * fst (velocity i)) 2 = 0
   /\ Rsum (fun i => intensity (rd real_pair i) * snd (velocity i)) 2 = 0)%R.
Proof.
  apply (calculateVel_vortex_impulse KR1 real_pair [5; 1; 2]%R 2).
  intros k Hk. assert (Hc : k = 0 \/ k = 1) by lia.
  destruct Hc as [-> | ->]; reflexivity.
Defined.

(** ** The centre of vorticity *)

Section CentreOfVorticity.
Variable K : Constants R.
Variable dt : R.
Variable n : nat.

Lemma vortex_weight (RKStep : Z) :
  1 <= RKStep <= 4 ->
  exists c : R, forall k : R,
    rkWeightedSum (fst (vortexStageSwitch RKStep k)) = (c * k)%R.
Proof.
  intros Hstep.
  assert (Hc : RKStep = 1 \/ RKStep = 2 \/ RKStep = 3 \/ RKStep = 4) by lia.
  destruct Hc as [-> | [-> | [-> | ->]]].
  - exists (1 / 6)%R. intros k.
    destruct (vortex_weights k) as (W & _). rewrite W. lra.
  - exists (2 / 6)%R. intros k.
    destruct (vortex_weights k) as (_ & W & _). rewrite W. lra.
  - exists (2 / 6)%R. intros k.
    destruct (vortex_weights k) as (_ & _ & W & _). rewrite W. lra.
  - exists (1 / 6)%R. intros k.
    destruct (vortex_weights k) as (_ & _ & _ & W). rewrite W. lra.
Qed.

(** A stage keeps the vortices at their indices. *)
Lemma rk_frame_indexed (a b : RKMem R) :
  vortex_fixed <$> rk_vortices b = vortex_fixed <$> rk_vortices a ->
  (forall k, 0 <= k < Z.of_nat n -> vIndex (rd (rk_vortices a) k) = k) ->
  Z.of_nat n <= Z.of_nat (length (rk_vortices a)) ->
  (forall k, 0 <= k < Z.of_nat n -> vIndex (rd (rk_vortices b) k) = k)
  /\ Z.of_nat n <= Z.of_nat (length (rk_vortices b)).
Proof.
  intros Hab Ha Hla. split.
  - intros k Hk. pose proof (rd_fmap_eq vortex_fixed _ _ k Hab) as Hr.
    unfold vortex_fixed in Hr. specialize (Ha k Hk). congruence.
  - pose proof (f_equal length Hab) as Hl. rewrite !length_fmap in Hl. lia.
Qed.

(** The vortex velocities that a stage accumulates carry no net impulse. *)
Lemma rkStage_impulse (vortRadLen RKStep : Z) (m : RKMem R) :
  1 <= RKStep <= 4 ->
  (forall k, 0 <= k < Z.of_nat n -> vIndex (rd (rk_vortices m) k) = k) ->
  Z.of_nat n <= Z.of_nat (length (rk_vortices m)) ->
  let m' := rkStage K (Z.of_nat n) dt vortRadLen RKStep m in
  Rsum (fun i => intensity (rd (rk_vortices m') i)
                 * velocity_0 (rd (rk_vortices m') i))%R n
  = Rsum (fun i => intensity (rd (rk_vortices m) i)
                   * velocity_0 (rd (rk_vortices m) i))%R n
  /\ Rsum (fun i => intensity (rd (rk_vortices m') i)
                    * velocity_1 (rd (rk_vortices m') i))%R n
     = Rsum (fun i => intensity (rd (rk_vortices m) i)
                      * velocity_1 (rd (rk_vortices m) i))%R n.
Proof.
  intros Hstep Hidx Hlen m'.
  destruct (rkStage_frame K (Z.of_nat n) dt vortRadLen RKStep m)
    as (_ & _ & Hfix & _). fold m' in Hfix.
  assert (Hg : forall i, intensity (rd (rk_vortices m') i)
                         = intensity (rd (rk_vortices m) i)).
  { intros i. pose proof (rd_fmap_eq vortex_fixed _ _ i Hfix) as Hr.
    unfold vortex_fixed in Hr. congruence. }
  subst m'. unfold rkStage in *. cbv zeta in *.
  cbn [rk_vortices set_rk_workingRadii set_rk_intermediateRadii] in *.
  destruct (tracerPhase_frame K (Z.of_nat n) dt RKStep m) as (_ & Hva & _).
  set (ma := tracerPhase K (Z.of_nat n) dt RKStep m) in *.
  pose proof (vortexPhase_velocities K (Z.of_nat n) dt ltac:(lia) RKStep
                vortRadLen ma ltac:(rewrite Hva; exact Hlen)) as Hvb.
  cbv zeta in Hvb.
  set (mb := vortexPhase K (Z.of_nat n) dt RKStep vortRadLen ma) in *.
  destruct (vortex_weight RKStep Hstep) as [c Hc].
  destruct (impulse_vanishes K (rk_vortices ma) (rk_intermediateRadii ma) n)
    as [Hx Hy].
  { rewrite Hva. exact Hidx. }
  split.
  - rewrite (Rsum_ext _
      (fun i => intensity (rd (rk_vortices m) i)
                * velocity_0 (rd (rk_vortices m) i)
                + c * (intensity (rd (rk_vortices ma) i)
                       * fst (calculateVel_vortex K (Z.of_nat n) (0, 0)%R
                                (rd (rk_vortices ma) i) (rk_vortices ma)
                                (rk_intermediateRadii ma))))%R).
    + rewrite Rsum_plus, Rsum_scale, Hx. lra.
    + intros i Hi. destruct (Hvb i Hi) as [H0 _]. rewrite Hg, H0, Hc.
      unfold vortexSample. rewrite Hva. cbn [dadd R_DoubleOps].
      change (@d0 R _) with 0%R. ring.
  - rewrite (Rsum_ext _
      (fun i => intensity (rd (rk_vortices m) i)
                * velocity_1 (rd (rk_vortices m) i)
                + c * (intensity (rd (rk_vortices ma) i)
                       * snd (calculateVel_vortex K (Z.of_nat n) (0, 0)%R
                                (rd (rk_vortices ma) i) (rk_vortices ma)
                                (rk_intermediateRadii ma))))%R).
    + rewrite Rsum_plus, Rsum_scale, Hy. lra.
    + intros i Hi. destruct (Hvb i Hi) as [_ H1]. rewrite Hg, H1, Hc.
      unfold vortexSample. rewrite Hva. cbn [dadd R_DoubleOps].
      change (@d0 R _) with 0%R. ring.
Qed.

(** X26.  (real arithmetic)  [stepForward_RK4] conserves the centre of
    vorticity: the sum of the positions weighted by the strengths is the
    same after the step as before it, in both coordinates, for every time
    step and whatever the tables of separations hold (every vortex stored
    at its own index). *)
Theorem stepForward_RK4_centre_of_vorticity (vortices : list (Vortex R))
    (vortRadii tracerRadii : list R) (tracers : list (Tracer R))
    (numTracers : Z) :
  (forall k, 0 <= k < Z.of_nat n -> vIndex (rd vortices k) = k) ->
  Z.of_nat n <= Z.of_nat (length vortices) ->
  numTracers <= Z.of_nat (length tracers) ->
  let after :=
    rk_vortices (stepForward_RK4 K (Z.of_nat n) dt vortices vortRadii
                                 tracerRadii tracers numTracers) in
  Rsum (fun i => intensity (rd after i) * position_0 (rd after i))%R n
  = Rsum (fun i => intensity (rd vortices i)
                   * position_0 (rd vortices i))%R n
  /\ Rsum (fun i => intensity (rd after i) * position_1 (rd after i))%R n
     = Rsum (fun i => intensity (rd vortices i)
                      * position_1 (rd vortices i))%R n.
Proof.
  intros Hidx Hlen Hlt after. subst after.
  unfold stepForward_RK4, rkStages. cbv zeta. rewrite for_loop_1_5.
  set (N := Z.of_nat n) in *.
  set (vl := vortRadLen_of (D := R) N).
  set (m0 := rkInit N vl vortices vortRadii tracerRadii tracers numTracers).
  set (m1 := rkStage K N dt vl 1 m0).
  set (m2 := rkStage K N dt vl 2 m1).
  set (m3 := rkStage K N dt vl 3 m2).
  set (m4 := rkStage K N dt vl 4 m3).
  destruct (rkInit_velocities N vl vortices vortRadii tracerRadii tracers
              numTracers Hlen Hlt) as [Hz _]. fold m0 in Hz.
  destruct (rkInit_frame N vl vortices vortRadii tracerRadii tracers
              numTracers) as (_ & _ & Hf0 & _). fold m0 in Hf0.
  pose proof (rkStage_frame K N dt vl 1 m0) as (_ & _ & Hf1 & _). fold m1 in Hf1.
  pose proof (rkStage_frame K N dt vl 2 m1) as (_ & _ & Hf2 & _). fold m2 in Hf2.
  pose proof (rkStage_frame K N dt vl 3 m2) as (_ & _ & Hf3 & _). fold m3 in Hf3.
  pose proof (rkStage_frame K N dt vl 4 m3) as (_ & _ & Hf4 & _). fold m4 in Hf4.
  assert (H0 : (forall k, 0 <= k < N -> vIndex (rd (rk_vortices m0) k) = k)
               /\ N <= Z.of_nat (length (rk_vortices m0))).
  { split.
    - intros k Hk. pose proof (rd_fmap_eq vortex_fixed _ _ k Hf0) as Hr.
      unfold vortex_fixed in Hr. specialize (Hidx k Hk). congruence.
    - pose proof (f_equal length Hf0) as Hl. rewrite !length_fmap in Hl. lia. }
  destruct H0 as [Hi0 Hl0].
  destruct (rk_frame_indexed m0 m1 Hf1 Hi0 Hl0) as [Hi1 Hl1].
  destruct (rk_frame_indexed m1 m2 Hf2 Hi1 Hl1) as [Hi2 Hl2].
  destruct (rk_frame_indexed m2 m3 Hf3 Hi2 Hl2) as [Hi3 Hl3].
  destruct (rk_frame_indexed m3 m4 Hf4 Hi3 Hl3) as [Hi4 Hl4].
  destruct (rkStage_impulse vl 1 m0 ltac:(lia) Hi0 Hl0) as [Ha0 Ha1].
  destruct (rkStage_impulse vl 2 m1 ltac:(lia) Hi1 Hl1) as [Hb0 Hb1].
  destruct (rkStage_impulse vl 3 m2 ltac:(lia) Hi2 Hl2) as [Hc0 Hc1].
  destruct (rkStage_impulse vl 4 m3 ltac:(lia) Hi3 Hl3) as [Hd0 Hd1].
  fold N m1 in Ha0, Ha1. fold N m2 in Hb0, Hb1. fold N m3 in Hc0, Hc1.
  fold N m4 in Hd0, Hd1.
  assert (Hstart :
    Rsum (fun i => intensity (rd (rk_vortices m0) i)
                   * velocity_0 (rd (rk_vortices m0) i))%R n = 0%R
    /\ Rsum (fun i => intensity (rd (rk_vortices m0) i)
                      * velocity_1 (rd (rk_vortices m0) i))%R n = 0%R).
  { split; apply Rsum_zero; intros i Hi; destruct (Hz i Hi) as [Z0 Z1];
      [rewrite Z0 | rewrite Z1]; change (@d0 R _) with 0%R; lra. }
  destruct Hstart as [Hs0 Hs1].
  destruct (rkCommit_positions N dt numTracers m4 Hl4) as [Hcv _].
  { destruct (rkStages_frame K N dt vortices vortRadii tracerRadii tracers
                numTracers) as (_ & _ & _ & Htr).
    unfold rkStages in Htr. cbv zeta in Htr. rewrite for_loop_1_5 in Htr.
    fold vl m0 m1 m2 m3 m4 in Htr.
    pose proof (f_equal length Htr) as Hl. rewrite !length_fmap in Hl. lia. }
  assert (Hall : forall i, vortex_fixed (rd (rk_vortices m4) i)
                           = vortex_fixed (rd vortices i)).
  { intros i.
    rewrite (rd_fmap_eq vortex_fixed _ _ i Hf4),
            (rd_fmap_eq vortex_fixed _ _ i Hf3),
            (rd_fmap_eq vortex_fixed _ _ i Hf2),
            (rd_fmap_eq vortex_fixed _ _ i Hf1).
    exact (rd_fmap_eq vortex_fixed _ _ i Hf0). }
  split.
  - rewrite (Rsum_ext _
      (fun i => intensity (rd vortices i) * position_0 (rd vortices i)
                + dt * (intensity (rd (rk_vortices m4) i)
                        * velocity_0 (rd (rk_vortices m4) i)))%R).
    + rewrite Rsum_plus, Rsum_scale, Hd0, Hc0, Hb0, Ha0, Hs0. lra.
    + intros i Hi. rewrite (Hcv i Hi). cbv zeta.
      pose proof (Hall i) as Hf. unfold vortex_fixed in Hf.
      set (v4 := rd (rk_vortices m4) i) in *. clearbody v4.
      injection Hf as Hp0 Hp1 Hg _ _ _.
      unfold set_position.
      cbn [intensity position_0 position_1 dadd dmul R_DoubleOps].
      rewrite Hp0, Hg. ring.
  - rewrite (Rsum_ext _
      (fun i => intensity (rd vortices i) * position_1 (rd vortices i)
                + dt * (intensity (rd (rk_vortices m4) i)
                        * velocity_1 (rd (rk_vortices m4) i)))%R).
    + rewrite Rsum_plus, Rsum_scale, Hd1, Hc1, Hb1, Ha1, Hs1. lra.
    + intros i Hi. rewrite (Hcv i Hi). cbv zeta.
      pose proof (Hall i) as Hf. unfold vortex_fixed in Hf.
      set (v4 := rd (rk_vortices m4) i) in *. clearbody v4.
      injection Hf as Hp0 Hp1 Hg _ _ _.
      unfold set_position.
      cbn [intensity position_0 position_1 dadd dmul R_DoubleOps].
      rewrite Hp1, Hg. ring.
Qed.
End CentreOfVorticity.

Lemma stepForward_RK4_centre_of_vorticity_witness :
  let after :=
    rk_vortices (stepForward_RK4 KR1 2 (1 / 10)%R real_pair [5; 1; 2]%R
                                 [1; 1; 0; 1; 0; 1]%R real_tracer 1) in
  (Rsum (fun i => intensity (rd after i) * position_0 (rd after i)) 2
   = Rsum (fun i => intensity (rd real_pair i)
                    * position_0 (rd real_pair i)) 2
   /\ Rsum (fun i => intensity (rd after i) * position_1 (rd after i)) 2
      = Rsum (fun i => intensity (rd real_pair i)
                       * position_1 (rd real_pair i)) 2)%R.
Proof.
  apply (stepForward_RK4_centre_of_vorticity KR1 (1 / 10)%R 2 real_pair
           [5; 1; 2]%R [1; 1; 0; 1; 0; 1]%R real_tracer 1).
  - intros k Hk. assert (Hc : k = 0 \/ k = 1) by lia.
    destruct Hc as [-> | ->]; reflexivity.
  - simpl. lia.
  - simpl. lia.
Defined.
